(** * AgentMesh ingestion core: a shallow embedding and its properties

    The development follows the TypeScript sources of the ingestion core:
    - [lib/ingestion/source-pipeline.ts]: the two adapters, the orchestrator,
      the upsert path, the sanitizer and the title and summary helpers;
    - [lib/ingestion/transcript-parser.ts]: the pasted-transcript parser;
    - [lib/ingestion/service.ts] and [lib/ingestion/schema.ts]: the
      canonical-bundle entry point and its schema;
    - the polling worker that repeats the ingestion cycle on a timer.

    Part I holds the definitions, Part II the lemmas and theorems. *)

From Stdlib Require Import Ascii String.
From Stdlib Require Import Numbers.DecimalString.
From Stdlib Require Import ZArith Lia Bool Arith PeanoNat List.
From Stdlib Require Import Sorting.Sorted Sorting.Permutation.
Import ListNotations.

Set Implicit Arguments.
Set Warnings "-register-all".

(* ====================================================================== *)
(** * Part I: definitions                                                  *)
(* ====================================================================== *)

(** ** JavaScript strings

    A string is the list of its code units.  Code units are restricted to
    the range 0..255 ([ascii]); the helpers below give the JavaScript
    meaning of each code unit in that range. *)

Module Js.

Definition str := list ascii.

Definition lit (s : string) : str := list_ascii_of_string s.

Fixpoint strEqb (a b : str) : bool :=
  match a, b with
  | [], [] => true
  | x :: a', y :: b' => Ascii.eqb x y && strEqb a' b'
  | _, _ => false
  end.

(** Truthiness of a string: the empty string is falsy. *)
Definition nonEmpty (s : str) : bool :=
  match s with [] => false | _ :: _ => true end.

Definition NL : ascii := ascii_of_nat 10.
Definition CR : ascii := ascii_of_nat 13.
Definition SP : ascii := ascii_of_nat 32.
Definition LT : ascii := ascii_of_nat 60.

(** [\s] of a regular expression and the characters removed by
    [String.prototype.trim]: TAB, LF, VT, FF, CR, SPACE and NBSP are the
    members below code unit 256. *)
Definition isSpace (c : ascii) : bool :=
  let n := nat_of_ascii c in
  ((9 <=? n) && (n <=? 13)) || (n =? 32) || (n =? 160).

(** Line terminators ([.] does not match them): LF and CR below 256. *)
Definition isLineTerminator (c : ascii) : bool :=
  let n := nat_of_ascii c in (n =? 10) || (n =? 13).

(** Canonicalisation used by the [i] flag (without [u]): a character is
    mapped to its upper case, except that a character at or above 128 never
    canonicalises to one below 128.  Patterns of this program are ASCII, so
    only the ASCII letters matter. *)
Definition canon (c : ascii) : ascii :=
  let n := nat_of_ascii c in
  if (97 <=? n) && (n <=? 122) then ascii_of_nat (n - 32) else c.

Definition eqCI (a b : ascii) : bool := Ascii.eqb (canon a) (canon b).

(** [startsCI pat s]: the pattern literal [pat] matches at the start of [s],
    ignoring case. *)
Fixpoint startsCI (pat s : str) : bool :=
  match pat, s with
  | [], _ => true
  | _ :: _, [] => false
  | p :: pat', c :: s' => eqCI p c && startsCI pat' s'
  end.

Fixpoint trimStart (s : str) : str :=
  match s with
  | [] => []
  | c :: s' => if isSpace c then trimStart s' else s
  end.

Definition trimEnd (s : str) : str := rev (trimStart (rev s)).

(** [String.prototype.trim]. *)
Definition trim (s : str) : str := trimEnd (trimStart s).

(** [s.slice(0, n)]. *)
Definition slice0 (n : nat) (s : str) : str := firstn n s.

(** [s.replaceAll(/\s+/g, rep)] for a one-character [rep]: every maximal
    run of white space becomes [rep].  [inRun] tells that the previous
    character was white space. *)
Fixpoint replaceRunsFrom (rep : ascii) (inRun : bool) (s : str) : str :=
  match s with
  | [] => []
  | c :: s' =>
      if isSpace c
      then (if inRun then replaceRunsFrom rep true s'
            else rep :: replaceRunsFrom rep true s')
      else c :: replaceRunsFrom rep false s'
  end.

Definition collapseSpaces (s : str) : str := replaceRunsFrom SP false s.

(** [String.prototype.toLowerCase] on code units below 256. *)
Definition toLower (c : ascii) : ascii :=
  let n := nat_of_ascii c in
  if ((65 <=? n) && (n <=? 90))
     || ((192 <=? n) && (n <=? 222) && negb (n =? 215))
  then ascii_of_nat (n + 32) else c.

Definition toLowerCase (s : str) : str := map toLower s.

(** [closeEnd close s]: the number of characters of [s] up to and including
    the first occurrence (ignoring case) of [close], when there is one.
    This is what the lazy [[\s\S]*?] followed by the closing tag consumes. *)
Fixpoint closeEnd (close s : str) : option nat :=
  if startsCI close s then Some (length close)
  else match s with
       | [] => None
       | _ :: s' => option_map S (closeEnd close s')
       end.

(** [s.replaceAll(/OPEN[\s\S]*?CLOSE/gi, "")] for literal [OPEN], [CLOSE].
    The scan goes left to right; at a position where [OPEN] matches and a
    [CLOSE] follows, the shortest such match is dropped and the scan resumes
    behind it; otherwise the character is kept.  [skip] counts the
    characters of the current match that are still to be dropped. *)
Fixpoint stripFrom (open close : str) (skip : nat) (s : str) : str :=
  match s with
  | [] => []
  | c :: s' =>
      match skip with
      | S k => stripFrom open close k s'
      | O =>
          if startsCI open s then
            match closeEnd close (skipn (length open) s) with
            | Some n => stripFrom open close (length open + n - 1) s'
            | None => c :: stripFrom open close 0 s'
            end
          else c :: stripFrom open close 0 s'
      end
  end.

Definition stripTag (open close : str) (s : str) : str :=
  stripFrom open close 0 s.

(** [s.split(sep)] for a one-character separator. *)
Fixpoint splitOnFrom (sep : ascii) (acc : str) (s : str) : list str :=
  match s with
  | [] => [rev acc]
  | c :: s' =>
      if Ascii.eqb c sep then rev acc :: splitOnFrom sep [] s'
      else splitOnFrom sep (c :: acc) s'
  end.

Definition splitOn (sep : ascii) (s : str) : list str := splitOnFrom sep [] s.

(** [parts.join(sep)]. *)
Fixpoint joinWith (sep : str) (parts : list str) : str :=
  match parts with
  | [] => []
  | [p] => p
  | p :: rest => p ++ sep ++ joinWith sep rest
  end.

(** [s.split(/\n{2,}/)]: the pieces between the maximal runs of two or more
    line feeds.  [pending] counts the line feeds read since the last other
    character; a single one belongs to the piece. *)
Fixpoint splitBlankFrom (acc : str) (pending : nat) (s : str) : list str :=
  match s with
  | [] =>
      if 2 <=? pending then [rev acc; []]
      else [rev (repeat NL pending ++ acc)]
  | c :: s' =>
      if Ascii.eqb c NL then splitBlankFrom acc (S pending) s'
      else if 2 <=? pending then rev acc :: splitBlankFrom [c] 0 s'
      else splitBlankFrom (c :: repeat NL pending ++ acc) 0 s'
  end.

Definition splitBlank (s : str) : list str := splitBlankFrom [] 0 s.

(** Decimal rendering of an index in a template literal. *)
Definition ofNat (n : nat) : str :=
  lit (NilZero.string_of_uint (Nat.to_uint n)).

End Js.

Import Js.

(** ** Text sanitizer ([sanitizeImportedText]) *)

Inductive tagKind := Caveat | Reminder | Stdout.

Definition openTag (k : tagKind) : str :=
  match k with
  | Caveat => lit "<local-command-caveat>"
  | Reminder => lit "<system-reminder>"
  | Stdout => lit "<local-command-stdout>"
  end.

Definition closeTag (k : tagKind) : str :=
  match k with
  | Caveat => lit "</local-command-caveat>"
  | Reminder => lit "</system-reminder>"
  | Stdout => lit "</local-command-stdout>"
  end.

Definition stripKind (k : tagKind) : str -> str :=
  stripTag (openTag k) (closeTag k).

Definition sanitizeImportedText (value : str) : str :=
  trim (stripKind Stdout (stripKind Reminder (stripKind Caveat value))).

(** ** Canonical enumerations and adapter records *)

Inductive MessageRole := USER | ASSISTANT | TOOL.

Inductive MessagePartType :=
  TEXT | REASONING | TOOLPART | STEP_START | STEP_FINISH | ERROR | OTHER.

Definition roleEqb (a b : MessageRole) : bool :=
  match a, b with
  | USER, USER | ASSISTANT, ASSISTANT | TOOL, TOOL => true
  | _, _ => false
  end.

Definition partTypeEqb (a b : MessagePartType) : bool :=
  match a, b with
  | TEXT, TEXT | REASONING, REASONING | TOOLPART, TOOLPART
  | STEP_START, STEP_START | STEP_FINISH, STEP_FINISH
  | ERROR, ERROR | OTHER, OTHER => true
  | _, _ => false
  end.

(** ** JSON values

    The adapters read transcripts with [JSON.parse]; a parsed value is one
    of the six JSON shapes.  Numbers are millisecond counts and indices in
    this program and are kept as integers.  An object is the list of its
    fields, looked up by key. *)

Inductive json :=
| JNull
| JBool (b : bool)
| JNum (n : Z)
| JStr (s : str)
| JArr (items : list json)
| JObj (fields : list (str * json)).

Fixpoint assoc (k : str) (fields : list (str * json)) : option json :=
  match fields with
  | [] => None
  | (k', v) :: rest => if strEqb k k' then Some v else assoc k rest
  end.

(** [v.k] on a value that is neither [null] nor [undefined]; [None] is
    [undefined]. *)
Definition prop (k : string) (v : json) : option json :=
  match v with
  | JObj fields => assoc (lit k) fields
  | _ => None
  end.

(** [v?.k]: [undefined] when [v] is [null] or [undefined]. *)
Definition optProp (k : string) (v : option json) : option json :=
  match v with
  | None | Some JNull => None
  | Some v' => prop k v'
  end.

(** [a ?? b] on values that may be [null] or [undefined]. *)
Definition nullish (a b : option json) : option json :=
  match a with
  | None | Some JNull => b
  | Some _ => a
  end.

(** [a ?? b] when [a] is a string or [undefined]. *)
Definition orElse {A : Type} (a b : option A) : option A :=
  match a with Some _ => a | None => b end.

(** [item && typeof item === "object"]: arrays and objects. *)
Definition isObjectLike (v : json) : bool :=
  match v with
  | JArr _ | JObj _ => true
  | _ => false
  end.

Definition toStringValue (value : option json) : option str :=
  match value with
  | Some (JStr s) => Some s
  | _ => None
  end.

Definition toNumberValue (value : option json) : option Z :=
  match value with
  | Some (JNum n) => Some n
  | _ => None
  end.

(** [JSON.parse(JSON.stringify(value))] on a value that came out of
    [JSON.parse] gives the value back. *)
Definition toJsonInput (value : option json) : option json := value.

(** The platform functions the pipeline calls: the SHA-1 hex digest, the
    [Date] parser ([None] for an invalid date), [Date.prototype.toISOString]
    and the ISO date-time test of the schema library.  Times are
    milliseconds since the epoch. *)
Class Platform := {
  hashValue : str -> str;
  dateParse : str -> option Z;
  toISOString : Z -> str;
  isIsoDatetime : str -> bool
}.

Definition toDate `{Platform} (value : option str) : option Z :=
  match value with
  | None => None
  | Some s => if nonEmpty s then dateParse s else None
  end.

(** [new Date(ms)] is invalid beyond 8.64e15 milliseconds from the epoch. *)
Definition maxDateMs : Z := 8640000000000000.

Definition toDateFromMs (value : option Z) : option Z :=
  match value with
  | None => None
  | Some ms => if (Z.abs ms <=? maxDateMs)%Z then Some ms else None
  end.

(** [date < since] for a valid [date]; [since] may be the Invalid Date
    ([None]), and a comparison with it is false. *)
Definition before (date : Z) (since : option Z) : bool :=
  match since with
  | Some bound => (date <? bound)%Z
  | None => false
  end.

(** ** Adapter output records *)

Module PartInput.
Record t := mk {
  externalPartId : str;
  partType : MessagePartType;
  text : option json;
  data : option json;
  sourceTimestamp : option Z;
  ordinal : nat
}.
End PartInput.

Module MessageInput.
Record t := mk {
  externalMessageId : str;
  role : MessageRole;
  modelProvider : option str;
  modelId : option str;
  content : str;
  metadata : option json;
  sourceTimestamp : option Z;
  ordinal : nat;
  parts : list PartInput.t
}.

(** [message.ordinal = index]. *)
Definition setOrdinal (index : nat) (m : t) : t :=
  mk (externalMessageId m) (role m) (modelProvider m) (modelId m) (content m)
     (metadata m) (sourceTimestamp m) index (parts m).
End MessageInput.

Module SessionInput.
Record t := mk {
  externalSessionId : str;
  sourceSessionPath : option str;
  title : str;
  summary : option str;
  startedAt : option Z;
  endedAt : option Z;
  lastActivityAt : option Z;
  messages : list MessageInput.t
}.
End SessionInput.

(** ** Role and part-type mappers *)

Definition isLit (k : string) (v : option str) : bool :=
  match v with
  | Some s => strEqb s (lit k)
  | None => false
  end.

Definition mapClaudeRole (type : option str) : MessageRole :=
  if isLit "assistant" type then ASSISTANT
  else if isLit "system" type || isLit "progress" type then TOOL
  else USER.

Definition mapClaudePartType (type : option str) : MessagePartType :=
  if isLit "text" type then TEXT
  else if isLit "thinking" type then REASONING
  else if isLit "tool_use" type || isLit "tool_result" type then TOOLPART
  else OTHER.

Definition mapOpenCodeRole (value : option str) : MessageRole :=
  if isLit "assistant" value then ASSISTANT
  else if isLit "tool" value then TOOL
  else USER.

Definition mapOpenCodePartType (type : option str) : MessagePartType :=
  if isLit "text" type then TEXT
  else if isLit "reasoning" type then REASONING
  else if isLit "tool" type then TOOLPART
  else if isLit "step-start" type then STEP_START
  else if isLit "step-finish" type then STEP_FINISH
  else if isLit "error" type then ERROR
  else OTHER.

(** ** Derived title and summary *)

Definition cleanText (content : str) : str :=
  trim (collapseSpaces (sanitizeImportedText content)).

Definition fallbackSessionTitle (content sessionId : str) : str :=
  let clean := cleanText content in
  if nonEmpty clean then slice0 80 clean
  else lit "Session " ++ slice0 8 sessionId.

Definition hasRole (r : MessageRole) (m : MessageInput.t) : bool :=
  roleEqb (MessageInput.role m) r.

(** The message [deriveSessionSummary] looks at: the first assistant
    message, else the first user message, else [messages[0]]. *)
Definition bestMessage (messages : list MessageInput.t)
  : option MessageInput.t :=
  orElse (find (hasRole ASSISTANT) messages)
         (orElse (find (hasRole USER) messages) (hd_error messages)).

Definition ellipsis : str := lit "...".

(** [None] is [null]. *)
Definition deriveSessionSummary (messages : list MessageInput.t)
  : option str :=
  match bestMessage messages with
  | None => None
  | Some best =>
      if nonEmpty (MessageInput.content best) then
        let clean := cleanText (MessageInput.content best) in
        if nonEmpty clean then
          Some (if 180 <? length clean
                then slice0 177 clean ++ ellipsis
                else clean)
        else None
      else None
  end.

(** ** Pasted-transcript parser ([parseTranscript]) *)

Inductive ParsedRole := RoleUser | RoleAssistant | RoleTool.

Record ParsedMessage := mkParsed {
  parsedRole : ParsedRole;
  parsedContent : str
}.

(** [firstLine.match(re)] for the pattern made of the start anchor, the
    label, any white space, a captured run of any characters but line
    terminators, and the end anchor, ignoring case.  The result is the
    captured group: the greedy white-space run takes all the white space
    that follows the label, and the capture must reach the end of the line
    without meeting a line terminator. *)
Definition matchLabel (label : string) (firstLine : str) : option str :=
  if startsCI (lit label) firstLine then
    let captured := trimStart (skipn (length (lit label)) firstLine) in
    if forallb (fun c => negb (isLineTerminator c)) captured
    then Some captured else None
  else None.

Definition labelled (role : ParsedRole) (captured rest : str)
  : ParsedMessage :=
  mkParsed role
    (trim (captured ++ (if nonEmpty rest then NL :: rest else []))).

(** The callback of [chunks.map((chunk, index) => ...)]; [None] is [null]. *)
Definition parseChunk (index : nat) (chunk : str) : option ParsedMessage :=
  let lines := splitOn NL chunk in
  let firstLine := trim (hd [] lines) in
  let rest := trim (joinWith [NL] (tl lines)) in
  if nonEmpty firstLine then
    match matchLabel "user:" firstLine with
    | Some captured => Some (labelled RoleUser captured rest)
    | None =>
        match matchLabel "assistant:" firstLine with
        | Some captured => Some (labelled RoleAssistant captured rest)
        | None =>
            match matchLabel "tool:" firstLine with
            | Some captured => Some (labelled RoleTool captured rest)
            | None =>
                Some (mkParsed
                        (if Nat.even index then RoleUser else RoleAssistant)
                        chunk)
            end
        end
    end
  else None.

(** [raw.split(/\n{2,}/).map(trim).filter(Boolean)]. *)
Definition transcriptChunks (raw : str) : list str :=
  filter nonEmpty (map trim (splitBlank raw)).

Fixpoint mapIndexed {A B : Type} (f : nat -> A -> B) (index : nat)
  (l : list A) : list B :=
  match l with
  | [] => []
  | x :: rest => f index x :: mapIndexed f (S index) rest
  end.

Fixpoint dropNulls {A : Type} (l : list (option A)) : list A :=
  match l with
  | [] => []
  | Some x :: rest => x :: dropNulls rest
  | None :: rest => dropNulls rest
  end.

Definition parseTranscript (raw : str) : list ParsedMessage :=
  dropNulls (mapIndexed parseChunk 0 (transcriptChunks raw)).

(** ** Sorting and thrown values *)

(** [array.sort((l, r) => key(l) - key(r))]: the sort is stable, so the
    result is the ordered arrangement that keeps equal keys in input
    order. *)
Fixpoint insertBy {A : Type} (key : A -> Z) (x : A) (l : list A) : list A :=
  match l with
  | [] => [x]
  | y :: rest =>
      if (key x <=? key y)%Z then x :: l else y :: insertBy key x rest
  end.

Definition sortBy {A : Type} (key : A -> Z) (l : list A) : list A :=
  fold_right (insertBy key) [] l.

(** What a [throw] carries: an [Error] object with its message, or some
    other value. *)
Inductive Thrown :=
| ErrorObject (message : str)
| OtherValue.

Fixpoint foldThrow {S A : Type} (f : S -> A -> Thrown + S) (s : S)
  (l : list A) : Thrown + S :=
  match l with
  | [] => inr s
  | x :: rest =>
      match f s x with
      | inl e => inl e
      | inr s' => foldThrow f s' rest
      end
  end.

(** [sourceTimestamp?.getTime() ?? 0]. *)
Definition timeKey (m : MessageInput.t) : Z :=
  match MessageInput.sourceTimestamp m with
  | Some t => t
  | None => 0%Z
  end.

(** [messages.sort(byTime); messages.forEach((m, i) => m.ordinal = i)]. *)
Definition orderMessages (messages : list MessageInput.t)
  : list MessageInput.t :=
  mapIndexed MessageInput.setOrdinal 0 (sortBy timeKey messages).

(** ** Adapter A: line-delimited JSON event logs *)

Definition truthy (v : option str) : option str :=
  match v with
  | Some s => if nonEmpty s then Some s else None
  | None => None
  end.

Definition extractClaudePartText (item : json) (partType : MessagePartType)
  : option str :=
  match partType with
  | TEXT =>
      option_map sanitizeImportedText
        (truthy (orElse (toStringValue (prop "text" item))
                        (toStringValue (prop "content" item))))
  | REASONING =>
      option_map sanitizeImportedText
        (truthy (orElse (toStringValue (prop "thinking" item))
                        (toStringValue (prop "text" item))))
  | TOOLPART =>
      match truthy (toStringValue (prop "name" item)) with
      | Some name => Some (lit "[tool] " ++ name)
      | None =>
          orElse (toStringValue (prop "type" item)) (Some (lit "tool"))
      end
  | _ => toStringValue (prop "text" item)
  end.

(** The loop over [rawContent.entries()] of [buildClaudeMessage]: the parts
    pushed and the visible texts collected, from entry [index] on. *)
Fixpoint claudeArrayParts `{Platform} (sessionId uuid : str)
  (sourceTimestamp : option Z) (index : nat) (items : list json)
  : list PartInput.t * list str :=
  match items with
  | [] => ([], [])
  | item :: rest =>
      let (parts, visibleText) :=
        claudeArrayParts sessionId uuid sourceTimestamp (S index) rest in
      if isObjectLike item then
        let partType := mapClaudePartType (toStringValue (prop "type" item)) in
        let partText := extractClaudePartText item partType in
        (PartInput.mk
           (hashValue (sessionId ++ lit ":" ++ uuid ++ lit ":part:"
                         ++ ofNat index))
           partType (option_map JStr partText) (toJsonInput (Some item))
           sourceTimestamp index
         :: parts,
         match truthy partText with
         | Some t => if partTypeEqb partType TEXT then t :: visibleText
                     else visibleText
         | None => visibleText
         end)
      else (parts, visibleText)
  end.

Definition extractProviderFromClaude (parsed : json) : option str :=
  match truthy (toStringValue (prop "provider" parsed)) with
  | Some direct => Some direct
  | None =>
      let messageRecord :=
        match prop "message" parsed with
        | Some m => if isObjectLike m then Some m else None
        | None => None
        end in
      orElse (toStringValue (optProp "provider" messageRecord))
             (Some (lit "anthropic"))
  end.

Definition extractModelFromClaude (parsed : json) : option str :=
  match truthy (toStringValue (prop "model" parsed)) with
  | Some direct => Some direct
  | None =>
      let messageRecord :=
        match prop "message" parsed with
        | Some m => if isObjectLike m then Some m else None
        | None => None
        end in
      toStringValue (optProp "model" messageRecord)
  end.

(** [rawContent]: the content of the nested message object, or else the
    content of the event. *)
Definition claudeRawContent (parsed : json) : option json :=
  let rawMessage := optProp "content" (prop "message" parsed) in
  nullish rawMessage (prop "content" parsed).

(** [None] is [null]. *)
Definition buildClaudeMessage `{Platform} (parsed : json)
  (sessionId filePath : str) : option MessageInput.t :=
  let sourceTimestamp := toDate (toStringValue (prop "timestamp" parsed)) in
  let role := mapClaudeRole (toStringValue (prop "type" parsed)) in
  let rawContent := claudeRawContent parsed in
  let uuid :=
    match toStringValue (prop "uuid" parsed) with
    | Some u => u
    | None => []
    end in
  let built : option (str * list PartInput.t) :=
    match rawContent with
    | Some (JStr raw) =>
        let trimmed := sanitizeImportedText raw in
        if nonEmpty trimmed then
          Some (trimmed,
                [PartInput.mk
                   (hashValue (sessionId ++ lit ":" ++ uuid ++ lit ":text"))
                   TEXT (Some (JStr trimmed)) (toJsonInput rawContent)
                   sourceTimestamp 0])
        else None
    | Some (JArr items) =>
        let (parts, visibleText) :=
          claudeArrayParts sessionId uuid sourceTimestamp 0 items in
        Some (trim (joinWith [NL; NL] visibleText), parts)
    | _ => Some ([], [])
    end in
  match built with
  | None => None
  | Some (content, parts) =>
      if nonEmpty content then
        let externalMessageId :=
          match orElse (toStringValue (prop "uuid" parsed))
                       (toStringValue
                          (optProp "id" (prop "message" parsed))) with
          | Some id => id
          | None =>
              hashValue (sessionId ++ lit ":" ++ filePath ++ lit ":"
                           ++ slice0 100 content)
          end in
        Some (MessageInput.mk externalMessageId role
                (extractProviderFromClaude parsed)
                (extractModelFromClaude parsed)
                content (toJsonInput (Some parsed)) sourceTimestamp 0 parts)
      else None
  end.

(** A log file as the scan sees it: its path, its modification time and,
    for every non-empty line, the value [JSON.parse] gives ([None] when it
    throws). *)
Record ClaudeFile := mkClaudeFile {
  filePath : str;
  mtime : Z;
  fileLines : list (option json)
}.

(** The scan state: the [sessions] map in insertion order and
    [maxTimestamp]. *)
Record ScanState := mkScan {
  scanSessions : list SessionInput.t;
  scanMax : option Z
}.

Definition bumpMax (timestamp : option Z) (maxTimestamp : option Z)
  : option Z :=
  match timestamp, maxTimestamp with
  | Some t, Some m => if (m <? t)%Z then Some t else Some m
  | Some t, None => Some t
  | None, _ => maxTimestamp
  end.

(** The branch taken when [sessions.get(sessionId)] finds a session. *)
Definition touchSession (timestamp : option Z) (cwd : option str)
  (message : MessageInput.t) (existing : SessionInput.t) : SessionInput.t :=
  SessionInput.mk
    (SessionInput.externalSessionId existing)
    (match truthy (SessionInput.sourceSessionPath existing) with
     | Some _ => SessionInput.sourceSessionPath existing
     | None => cwd
     end)
    (SessionInput.title existing)
    (SessionInput.summary existing)
    (match timestamp, SessionInput.startedAt existing with
     | Some t, Some s => if (t <? s)%Z then Some t else Some s
     | Some t, None => Some t
     | None, s => s
     end)
    (SessionInput.endedAt existing)
    (match timestamp, SessionInput.lastActivityAt existing with
     | Some t, Some a => if (a <? t)%Z then Some t else Some a
     | Some t, None => Some t
     | None, a => a
     end)
    (SessionInput.messages existing ++ [message]).

Definition isSession (sessionId : str) (s : SessionInput.t) : bool :=
  strEqb (SessionInput.externalSessionId s) sessionId.

(** [sessions.get] followed by the update of the session found, or by
    [sessions.set] of a new one at the end of the map. *)
Fixpoint recordMessage (sessionId : str) (fresh : SessionInput.t)
  (touch : SessionInput.t -> SessionInput.t) (sessions : list SessionInput.t)
  : list SessionInput.t :=
  match sessions with
  | [] => [fresh]
  | s :: rest =>
      if isSession sessionId s then touch s :: rest
      else s :: recordMessage sessionId fresh touch rest
  end.

Definition nullDereference : Thrown :=
  ErrorObject (lit "Cannot read properties of null (reading 'sessionId')").

(** The body of the loop over the lines of one file. *)
Definition claudeLine `{Platform} (since : option Z) (path : str)
  (st : ScanState)
  (line : option json) : Thrown + ScanState :=
  match line with
  | None => inr st
  | Some JNull => inl nullDereference
  | Some parsed =>
      match truthy (toStringValue (prop "sessionId" parsed)) with
      | None => inr st
      | Some sessionId =>
          let timestamp :=
            toDate (orElse (toStringValue (prop "timestamp" parsed))
                           (toStringValue
                              (optProp "timestamp"
                                 (prop "snapshot" parsed)))) in
          if match timestamp with
             | Some t => before t since
             | None => false
             end
          then inr st
          else
            let maxTimestamp := bumpMax timestamp (scanMax st) in
            match buildClaudeMessage parsed sessionId path with
            | None => inr (mkScan (scanSessions st) maxTimestamp)
            | Some messageRecord =>
                let cwd := toStringValue (prop "cwd" parsed) in
                let fresh :=
                  SessionInput.mk sessionId cwd
                    (fallbackSessionTitle
                       (MessageInput.content messageRecord) sessionId)
                    None timestamp None timestamp [messageRecord] in
                inr (mkScan
                       (recordMessage sessionId fresh
                          (touchSession timestamp cwd messageRecord)
                          (scanSessions st))
                       maxTimestamp)
            end
      end
  end.

Definition claudeFile `{Platform} (since : option Z) (st : ScanState)
  (file : ClaudeFile) : Thrown + ScanState :=
  if before (mtime file) since then inr st
  else foldThrow (claudeLine since (filePath file)) st (fileLines file).

Definition orderSession (s : SessionInput.t) : SessionInput.t :=
  SessionInput.mk
    (SessionInput.externalSessionId s) (SessionInput.sourceSessionPath s)
    (SessionInput.title s) (SessionInput.summary s)
    (SessionInput.startedAt s) (SessionInput.endedAt s)
    (SessionInput.lastActivityAt s)
    (orderMessages (SessionInput.messages s)).

(** The part of [runClaudeSource] between the checkpoint read and the call
    of [persistSessions]: the sessions handed over and [maxTimestamp]. *)
Definition claudeScan `{Platform} (since : option Z)
  (files : list ClaudeFile)
  : Thrown + (list SessionInput.t * option Z) :=
  match foldThrow (claudeFile since) (mkScan [] None) files with
  | inl e => inl e
  | inr st => inr (map orderSession (scanSessions st), scanMax st)
  end.

(** ** Adapter B: a directory of JSON files per session

    What the scan reads: the session files (each the value [safeReadJson]
    gives, [None] for [null]), and for a session id or a message id the
    files of its directory (empty when the directory is missing). *)

Record OpenCodeStorage := mkStorage {
  sessionFiles : list (option json);
  messageFiles : str -> list (option json);
  partFiles : str -> list (option json)
}.

(** [toNumberValue(part.time?.start) ?? 0]. *)
Definition partStart (part : json) : option Z :=
  toNumberValue (optProp "start" (prop "time" part)).

Definition partStartKey (part : json) : Z :=
  match partStart part with
  | Some n => n
  | None => 0%Z
  end.

(** The text of a part; the tool case hands on whatever value the state
    holds. *)
Definition extractOpenCodePartText (part : json) (partType : MessagePartType)
  : option json :=
  match partType with
  | TEXT | REASONING =>
      option_map (fun t => JStr (sanitizeImportedText t))
        (truthy (toStringValue (prop "text" part)))
  | TOOLPART =>
      let state := prop "state" part in
      nullish (optProp "title" state)
        (nullish (optProp "output" state)
           (Some (JStr (match toStringValue (prop "tool" part) with
                        | Some tool => tool
                        | None => lit "tool call"
                        end))))
  | _ => option_map JStr (toStringValue (prop "type" part))
  end.

(** The callback of [sortedParts.map((part, index) => ...)]. *)
Definition openCodePart `{Platform} (messageId : str) (index : nat)
  (part : json) : PartInput.t :=
  let partType := mapOpenCodePartType (toStringValue (prop "type" part)) in
  PartInput.mk
    (match toStringValue (prop "id" part) with
     | Some id => id
     | None => hashValue (messageId ++ lit ":part:" ++ ofNat index)
     end)
    partType
    (extractOpenCodePartText part partType)
    (toJsonInput (Some part))
    (toDateFromMs (partStart part))
    index.

(** The entries of [parsedParts] that pass
    [Boolean(entry && typeof entry === "object")]. *)
Definition objectEntries (entries : list (option json)) : list json :=
  dropNulls (map (fun e => match e with
                           | Some v => if isObjectLike v then Some v else None
                           | None => None
                           end) entries).

Definition openCodeParts `{Platform} (messageId : str)
  (entries : list (option json)) : list PartInput.t :=
  mapIndexed (openCodePart messageId) 0
    (sortBy partStartKey (objectEntries entries)).

(** A text part's string that is kept for the message content. *)
Definition visibleText (p : PartInput.t) : option str :=
  if partTypeEqb (PartInput.partType p) TEXT then
    match PartInput.text p with
    | Some (JStr t) => if nonEmpty t && nonEmpty (trim t) then Some t else None
    | _ => None
    end
  else None.

Definition contentFromText (parts : list PartInput.t) : str :=
  joinWith [NL; NL] (dropNulls (map visibleText parts)).

(** The loop over the message files of one session: [messageItems] and
    [maxTimestamp]. *)
Definition openCodeMessage `{Platform} (storage : OpenCodeStorage)
  (since : option Z) (acc : list MessageInput.t * option Z)
  (file : option json)
  : list MessageInput.t * option Z :=
  let (messageItems, maxTimestamp) := acc in
  match file with
  | None => acc
  | Some messageRecord =>
      if isObjectLike messageRecord then
        match truthy (toStringValue (prop "id" messageRecord)) with
        | None => acc
        | Some messageId =>
            let messageCreated :=
              toDateFromMs
                (toNumberValue
                   (optProp "created" (prop "time" messageRecord))) in
            if match messageCreated with
               | Some t => before t since
               | None => false
               end
            then acc
            else
              let maxTimestamp' := bumpMax messageCreated maxTimestamp in
              let parts :=
                openCodeParts messageId (partFiles storage messageId) in
              let fromText := contentFromText parts in
              let fallbackContent :=
                toStringValue
                  (optProp "title" (prop "summary" messageRecord)) in
              let finalContent :=
                if nonEmpty fromText then Some fromText
                else fallbackContent in
              match truthy finalContent with
              | None => (messageItems, maxTimestamp')
              | Some final =>
                  (messageItems ++
                   [MessageInput.mk messageId
                      (mapOpenCodeRole
                         (toStringValue (prop "role" messageRecord)))
                      (orElse
                         (toStringValue (prop "providerID" messageRecord))
                         (toStringValue
                            (optProp "providerID"
                               (prop "model" messageRecord))))
                      (orElse
                         (toStringValue (prop "modelID" messageRecord))
                         (toStringValue
                            (optProp "modelID"
                               (prop "model" messageRecord))))
                      final (toJsonInput (Some messageRecord))
                      messageCreated (length messageItems) parts],
                   maxTimestamp')
              end
        end
      else acc
  end.

(** The body of the loop over the session files. *)
Definition openCodeSession `{Platform} (storage : OpenCodeStorage)
  (since : option Z) (st : ScanState) (file : option json) : ScanState :=
  match file with
  | None => st
  | Some sessionRecord =>
      if isObjectLike sessionRecord then
        match truthy (toStringValue (prop "id" sessionRecord)) with
        | None => st
        | Some sessionId =>
            let sessionTime := prop "time" sessionRecord in
            let updatedMs := toNumberValue (optProp "updated" sessionTime) in
            let createdMs := toNumberValue (optProp "created" sessionTime) in
            let lastUpdated := toDateFromMs (orElse updatedMs createdMs) in
            if match lastUpdated with
               | Some t => before t since
               | None => false
               end
            then st
            else
              let (messageItems, maxTimestamp) :=
                fold_left (openCodeMessage storage since)
                  (messageFiles storage sessionId)
                  ([], bumpMax lastUpdated (scanMax st)) in
              let ordered := orderMessages messageItems in
              let sessionTitle :=
                match toStringValue (prop "title" sessionRecord) with
                | Some t => t
                | None =>
                    fallbackSessionTitle
                      (match ordered with
                       | first :: _ => MessageInput.content first
                       | [] => []
                       end)
                      sessionId
                end in
              mkScan
                (scanSessions st ++
                 [SessionInput.mk sessionId
                    (toStringValue (prop "directory" sessionRecord))
                    sessionTitle None (toDateFromMs createdMs) None
                    lastUpdated ordered])
                maxTimestamp
        end
      else st
  end.

(** The part of [runOpenCodeSource] between the checkpoint read and the
    call of [persistSessions]. *)
Definition openCodeScan `{Platform} (since : option Z)
  (storage : OpenCodeStorage) : list SessionInput.t * option Z :=
  let st :=
    fold_left (openCodeSession storage since) (sessionFiles storage)
      (mkScan [] None) in
  (scanSessions st, scanMax st).

(** ** The persistent store

    Every table is the list of its rows in creation order.  Row identifiers
    are drawn from one counter.  Only the columns the ingestion core reads
    or writes are kept. *)

Inductive IngestionSourceType :=
  CLAUDE | OPENCODE | OtherSourceType (name : str).
Inductive IngestionRunStatus := RUNNING | SUCCESS | FAILED.
Inductive IngestionMode := Backfill | Poll.
Inductive TaskStatus := OPEN | IN_PROGRESS | DONE | CANCELLED.
Inductive TaskPriority := LOW | MEDIUM | HIGH.

Module SourceToolRow.
Record t := mk { id : nat; slug : str; name : str }.
End SourceToolRow.

Module WorkspaceRow.
Record t := mk { id : nat; name : str; slug : str }.
End WorkspaceRow.

Module SessionRow.
Record t := mk {
  id : nat;
  workspaceId : nat;
  sourceToolId : nat;
  externalSessionId : option str;
  sourceSessionPath : option str;
  title : str;
  summary : option str;
  startedAt : option Z;
  endedAt : option Z;
  lastActivityAt : option Z;
  importSource : option str;
  importedAt : option Z
}.
End SessionRow.

Module MessageRow.
Record t := mk {
  id : nat;
  sessionId : nat;
  externalMessageId : option str;
  role : MessageRole;
  modelProvider : option str;
  modelId : option str;
  content : str;
  metadata : option json;
  sourceTimestamp : option Z;
  ordinal : nat;
  promptTokens : option Z;
  completionTokens : option Z;
  totalTokens : option Z
}.
End MessageRow.

Module PartRow.
Record t := mk {
  id : nat;
  sessionId : nat;
  messageId : nat;
  externalPartId : str;
  partType : MessagePartType;
  text : option str;
  data : option json;
  sourceTimestamp : option Z;
  ordinal : nat
}.
End PartRow.

Module SourceRow.
Record t := mk {
  id : nat;
  key : str;
  type : IngestionSourceType;
  name : str;
  rootPath : option str;
  dbPath : option str;
  lookbackDays : Z;
  pollIntervalSec : Z;
  isEnabled : bool;
  lastRunAt : option Z;
  lastSuccessAt : option Z;
  lastErrorAt : option Z;
  statusMessage : option str
}.
End SourceRow.

Module RunRow.
Record t := mk {
  id : nat;
  sourceId : nat;
  mode : IngestionMode;
  status : IngestionRunStatus;
  finishedAt : option Z;
  scannedSessions : nat;
  upsertedSessions : nat;
  upsertedMessages : nat;
  upsertedParts : nat;
  errorCount : nat;
  note : option str
}.
End RunRow.

Module ErrorRow.
Record t := mk {
  id : nat;
  sourceId : nat;
  runId : nat;
  code : str;
  message : str
}.
End ErrorRow.

Module CheckpointRow.
Record t := mk { sourceId : nat; cursorKey : str; cursorValue : str }.
End CheckpointRow.

Module TaskRow.
Record t := mk {
  id : nat;
  sessionId : nat;
  title : str;
  description : option str;
  status : TaskStatus;
  priority : TaskPriority
}.
End TaskRow.

Module TagRow.
Record t := mk { id : nat; name : str; slug : str }.
End TagRow.

Module SessionTagRow.
Record t := mk { sessionId : nat; tagId : nat }.
End SessionTagRow.

Module ArtifactRow.
Record t := mk {
  id : nat;
  sessionId : nat;
  messageId : option nat;
  type : str;
  name : str;
  content : str;
  metadata : option json
}.
End ArtifactRow.

(** [estimatedCost] is [totalTokens / 1_000_000] rounded to six decimals,
    which is [totalTokens] millionths. *)
Module MetricRow.
Record t := mk {
  id : nat;
  sessionId : nat;
  sourceToolId : nat;
  promptTokens : Z;
  completionTokens : Z;
  totalTokens : Z;
  estimatedCostMillionths : Z
}.
End MetricRow.

Record Store := mkStore {
  nextId : nat;
  sourceTools : list SourceToolRow.t;
  workspaces : list WorkspaceRow.t;
  sessions : list SessionRow.t;
  messages : list MessageRow.t;
  parts : list PartRow.t;
  sources : list SourceRow.t;
  runs : list RunRow.t;
  errors : list ErrorRow.t;
  checkpoints : list CheckpointRow.t;
  tasks : list TaskRow.t;
  tags : list TagRow.t;
  sessionTags : list SessionTagRow.t;
  artifacts : list ArtifactRow.t;
  metricSnapshots : list MetricRow.t
}.

Definition emptyStore : Store :=
  mkStore 0 [] [] [] [] [] [] [] [] [] [] [] [] [] [].

Definition setNextId (n : nat) (st : Store) : Store :=
  mkStore n (sourceTools st) (workspaces st) (sessions st) (messages st)
    (parts st) (sources st) (runs st) (errors st) (checkpoints st) (tasks st)
    (tags st) (sessionTags st) (artifacts st) (metricSnapshots st).

Definition setSourceTools (l : list SourceToolRow.t) (st : Store) : Store :=
  mkStore (nextId st) l (workspaces st) (sessions st) (messages st)
    (parts st) (sources st) (runs st) (errors st) (checkpoints st) (tasks st)
    (tags st) (sessionTags st) (artifacts st) (metricSnapshots st).

Definition setWorkspaces (l : list WorkspaceRow.t) (st : Store) : Store :=
  mkStore (nextId st) (sourceTools st) l (sessions st) (messages st)
    (parts st) (sources st) (runs st) (errors st) (checkpoints st) (tasks st)
    (tags st) (sessionTags st) (artifacts st) (metricSnapshots st).

Definition setSessions (l : list SessionRow.t) (st : Store) : Store :=
  mkStore (nextId st) (sourceTools st) (workspaces st) l (messages st)
    (parts st) (sources st) (runs st) (errors st) (checkpoints st) (tasks st)
    (tags st) (sessionTags st) (artifacts st) (metricSnapshots st).

Definition setMessages (l : list MessageRow.t) (st : Store) : Store :=
  mkStore (nextId st) (sourceTools st) (workspaces st) (sessions st) l
    (parts st) (sources st) (runs st) (errors st) (checkpoints st) (tasks st)
    (tags st) (sessionTags st) (artifacts st) (metricSnapshots st).

Definition setParts (l : list PartRow.t) (st : Store) : Store :=
  mkStore (nextId st) (sourceTools st) (workspaces st) (sessions st)
    (messages st) l (sources st) (runs st) (errors st) (checkpoints st)
    (tasks st) (tags st) (sessionTags st) (artifacts st) (metricSnapshots st).

Definition setSources (l : list SourceRow.t) (st : Store) : Store :=
  mkStore (nextId st) (sourceTools st) (workspaces st) (sessions st)
    (messages st) (parts st) l (runs st) (errors st) (checkpoints st)
    (tasks st) (tags st) (sessionTags st) (artifacts st) (metricSnapshots st).

Definition setRuns (l : list RunRow.t) (st : Store) : Store :=
  mkStore (nextId st) (sourceTools st) (workspaces st) (sessions st)
    (messages st) (parts st) (sources st) l (errors st) (checkpoints st)
    (tasks st) (tags st) (sessionTags st) (artifacts st) (metricSnapshots st).

Definition setErrors (l : list ErrorRow.t) (st : Store) : Store :=
  mkStore (nextId st) (sourceTools st) (workspaces st) (sessions st)
    (messages st) (parts st) (sources st) (runs st) l (checkpoints st)
    (tasks st) (tags st) (sessionTags st) (artifacts st) (metricSnapshots st).

Definition setCheckpoints (l : list CheckpointRow.t) (st : Store) : Store :=
  mkStore (nextId st) (sourceTools st) (workspaces st) (sessions st)
    (messages st) (parts st) (sources st) (runs st) (errors st) l
    (tasks st) (tags st) (sessionTags st) (artifacts st) (metricSnapshots st).

Definition setTasks (l : list TaskRow.t) (st : Store) : Store :=
  mkStore (nextId st) (sourceTools st) (workspaces st) (sessions st)
    (messages st) (parts st) (sources st) (runs st) (errors st)
    (checkpoints st) l (tags st) (sessionTags st) (artifacts st)
    (metricSnapshots st).

Definition setTags (l : list TagRow.t) (st : Store) : Store :=
  mkStore (nextId st) (sourceTools st) (workspaces st) (sessions st)
    (messages st) (parts st) (sources st) (runs st) (errors st)
    (checkpoints st) (tasks st) l (sessionTags st) (artifacts st)
    (metricSnapshots st).

Definition setSessionTags (l : list SessionTagRow.t) (st : Store) : Store :=
  mkStore (nextId st) (sourceTools st) (workspaces st) (sessions st)
    (messages st) (parts st) (sources st) (runs st) (errors st)
    (checkpoints st) (tasks st) (tags st) l (artifacts st)
    (metricSnapshots st).

Definition setArtifacts (l : list ArtifactRow.t) (st : Store) : Store :=
  mkStore (nextId st) (sourceTools st) (workspaces st) (sessions st)
    (messages st) (parts st) (sources st) (runs st) (errors st)
    (checkpoints st) (tasks st) (tags st) (sessionTags st) l
    (metricSnapshots st).

Definition setMetricSnapshots (l : list MetricRow.t) (st : Store) : Store :=
  mkStore (nextId st) (sourceTools st) (workspaces st) (sessions st)
    (messages st) (parts st) (sources st) (runs st) (errors st)
    (checkpoints st) (tasks st) (tags st) (sessionTags st) (artifacts st) l.

(** ** Store computations

    A call on the store client returns a value or throws, and leaves a
    store behind either way: outside a transaction the writes made before
    a throw stay. *)

Inductive Outcome (A : Type) :=
| Returned (a : A) (st : Store)
| Threw (e : Thrown) (st : Store).

Arguments Returned {A} a st.
Arguments Threw {A} e st.

Definition M (A : Type) : Type := Store -> Outcome A.

Definition ret {A : Type} (a : A) : M A := fun st => Returned a st.

Definition bind {A B : Type} (m : M A) (k : A -> M B) : M B :=
  fun st =>
    match m st with
    | Returned a st' => k a st'
    | Threw e st' => Threw e st'
    end.

Definition throw {A : Type} (e : Thrown) : M A := fun st => Threw e st.

(** [try { body } catch (error) { handler }]. *)
Definition tryCatch {A : Type} (body : M A) (handler : Thrown -> M A) : M A :=
  fun st =>
    match body st with
    | Returned a st' => Returned a st'
    | Threw e st' => handler e st'
    end.

(** [prisma.$transaction(body)]: a throw inside rolls the store back. *)
Definition transaction {A : Type} (body : M A) : M A :=
  fun st =>
    match body st with
    | Returned a st' => Returned a st'
    | Threw e _ => Threw e st
    end.

Definition gets {A : Type} (f : Store -> A) : M A :=
  fun st => Returned (f st) st.

Definition modify (f : Store -> Store) : M unit :=
  fun st => Returned tt (f st).

(** A fresh row identifier. *)
Definition freshId : M nat :=
  fun st => Returned (nextId st) (setNextId (S (nextId st)) st).

Definition storeOf {A : Type} (o : Outcome A) : Store :=
  match o with
  | Returned _ st => st
  | Threw _ st => st
  end.

Declare Scope store_scope.
Delimit Scope store_scope with store.
Notation "x <- c ;; k" := (bind c (fun x => k))
  (at level 61, c at next level, right associativity) : store_scope.
Notation "c ;;; k" := (bind c (fun _ => k))
  (at level 61, right associativity) : store_scope.
Open Scope store_scope.

Fixpoint foldStore {S A : Type} (f : S -> A -> M S) (s : S) (l : list A)
  : M S :=
  match l with
  | [] => ret s
  | x :: rest => s' <- f s x ;; foldStore f s' rest
  end.

(** The first row that satisfies [p] is replaced by its image under [f]. *)
Fixpoint updateFirst {A : Type} (p : A -> bool) (f : A -> A) (l : list A)
  : list A :=
  match l with
  | [] => []
  | x :: rest => if p x then f x :: rest else x :: updateFirst p f rest
  end.

(** An undefined value in the [update] data of a write leaves the column as
    it is. *)
Definition keepIfUndefined {A : Type} (new old : option A) : option A :=
  match new with
  | Some _ => new
  | None => old
  end.

Definition optStrEqb (a b : option str) : bool :=
  match a, b with
  | Some x, Some y => strEqb x y
  | None, None => true
  | _, _ => false
  end.

(** [table.upsert({ where, update, create })]: the row found by the unique
    key is updated in place, otherwise a row is created; the row's
    identifier is returned. *)
Definition upsertM {A : Type} (table : Store -> list A)
  (setTable : list A -> Store -> Store) (rowId : A -> nat)
  (where_ : A -> bool) (update : A -> A) (create : nat -> A) : M nat :=
  fun st =>
    match find where_ (table st) with
    | Some row =>
        Returned (rowId row)
          (setTable (updateFirst where_ update (table st)) st)
    | None =>
        Returned (nextId st)
          (setNextId (S (nextId st))
             (setTable (table st ++ [create (nextId st)]) st))
    end.

(** ** Upsert path ([persistSessions]) *)

Record SourceRunResult := mkResult {
  scannedSessions : nat;
  upsertedSessions : nat;
  upsertedMessages : nat;
  upsertedParts : nat;
  maxTimestamp : option Z;
  note : option str
}.

Definition sessionHasKey (sourceToolId : nat) (externalSessionId : str)
  (r : SessionRow.t) : bool :=
  (SessionRow.sourceToolId r =? sourceToolId)
  && optStrEqb (SessionRow.externalSessionId r) (Some externalSessionId).

Definition messageHasKey (sessionId : nat) (externalMessageId : str)
  (r : MessageRow.t) : bool :=
  (MessageRow.sessionId r =? sessionId)
  && optStrEqb (MessageRow.externalMessageId r) (Some externalMessageId).

Definition partHasKey (messageId : nat) (externalPartId : str)
  (r : PartRow.t) : bool :=
  (PartRow.messageId r =? messageId)
  && strEqb (PartRow.externalPartId r) externalPartId.

Definition upsertSession (now : Z) (sourceToolId workspaceId : nat)
  (importSource : str) (input : SessionInput.t) : M nat :=
  let summary :=
    orElse (SessionInput.summary input)
           (deriveSessionSummary (SessionInput.messages input)) in
  upsertM sessions setSessions SessionRow.id
    (sessionHasKey sourceToolId (SessionInput.externalSessionId input))
    (fun r =>
       SessionRow.mk (SessionRow.id r) (SessionRow.workspaceId r)
         (SessionRow.sourceToolId r) (SessionRow.externalSessionId r)
         (keepIfUndefined (SessionInput.sourceSessionPath input)
            (SessionRow.sourceSessionPath r))
         (SessionInput.title input)
         summary
         (keepIfUndefined (SessionInput.startedAt input)
            (SessionRow.startedAt r))
         (keepIfUndefined (SessionInput.endedAt input) (SessionRow.endedAt r))
         (keepIfUndefined (SessionInput.lastActivityAt input)
            (SessionRow.lastActivityAt r))
         (Some importSource) (Some now))
    (fun id =>
       SessionRow.mk id workspaceId sourceToolId
         (Some (SessionInput.externalSessionId input))
         (SessionInput.sourceSessionPath input)
         (SessionInput.title input) summary
         (SessionInput.startedAt input) (SessionInput.endedAt input)
         (SessionInput.lastActivityAt input)
         (Some importSource) (Some now)).

Definition upsertMessage (sessionId : nat) (input : MessageInput.t) : M nat :=
  upsertM messages setMessages MessageRow.id
    (messageHasKey sessionId (MessageInput.externalMessageId input))
    (fun r =>
       MessageRow.mk (MessageRow.id r) (MessageRow.sessionId r)
         (MessageRow.externalMessageId r)
         (MessageInput.role input)
         (keepIfUndefined (MessageInput.modelProvider input)
            (MessageRow.modelProvider r))
         (keepIfUndefined (MessageInput.modelId input) (MessageRow.modelId r))
         (MessageInput.content input)
         (keepIfUndefined (MessageInput.metadata input)
            (MessageRow.metadata r))
         (keepIfUndefined (MessageInput.sourceTimestamp input)
            (MessageRow.sourceTimestamp r))
         (MessageInput.ordinal input)
         (MessageRow.promptTokens r) (MessageRow.completionTokens r)
         (MessageRow.totalTokens r))
    (fun id =>
       MessageRow.mk id sessionId (Some (MessageInput.externalMessageId input))
         (MessageInput.role input) (MessageInput.modelProvider input)
         (MessageInput.modelId input) (MessageInput.content input)
         (MessageInput.metadata input) (MessageInput.sourceTimestamp input)
         (MessageInput.ordinal input) None None None).

(** The store client checks the type of every argument before it sends a
    write: a [text] that is not a string is refused with an error. *)
Definition invalidArgument : Thrown :=
  ErrorObject (lit "Argument `text`: Invalid value provided. Expected String or Null.").

Definition textArgument (text : option json) : Thrown + option str :=
  match text with
  | None => inr None
  | Some (JStr s) => inr (Some s)
  | Some _ => inl invalidArgument
  end.

Definition upsertPart (sessionId messageId : nat) (part : PartInput.t)
  : M nat :=
  match textArgument (PartInput.text part) with
  | inl e => throw e
  | inr text =>
      upsertM parts setParts PartRow.id
        (partHasKey messageId (PartInput.externalPartId part))
        (fun r =>
           PartRow.mk (PartRow.id r) sessionId (PartRow.messageId r)
             (PartRow.externalPartId r) (PartInput.partType part)
             (keepIfUndefined text (PartRow.text r))
             (keepIfUndefined (PartInput.data part) (PartRow.data r))
             (keepIfUndefined (PartInput.sourceTimestamp part)
                (PartRow.sourceTimestamp r))
             (PartInput.ordinal part))
        (fun id =>
           PartRow.mk id sessionId messageId (PartInput.externalPartId part)
             (PartInput.partType part) text (PartInput.data part)
             (PartInput.sourceTimestamp part) (PartInput.ordinal part))
  end.

(** The loop over [messageInput.parts]; the accumulator is
    [upsertedParts]. *)
Definition persistPart (sessionId messageId : nat) (upsertedParts : nat)
  (part : PartInput.t) : M nat :=
  _ <- upsertPart sessionId messageId part ;;
  ret (S upsertedParts).

(** The loop over [sessionInput.messages]; the accumulator is
    [(upsertedMessages, upsertedParts)]. *)
Definition persistMessage (sessionId : nat) (counts : nat * nat)
  (messageInput : MessageInput.t) : M (nat * nat) :=
  messageId <- upsertMessage sessionId messageInput ;;
  upsertedParts <-
    foldStore (persistPart sessionId messageId) (snd counts)
      (MessageInput.parts messageInput) ;;
  ret (S (fst counts), upsertedParts).

(** The loop over [sessions]; the accumulator is
    [(upsertedSessions, (upsertedMessages, upsertedParts))]. *)
Definition persistSession (now : Z) (sourceToolId workspaceId : nat)
  (importSource : str) (counts : nat * (nat * nat))
  (sessionInput : SessionInput.t) : M (nat * (nat * nat)) :=
  if negb (nonEmpty (SessionInput.externalSessionId sessionInput))
     || (length (SessionInput.messages sessionInput) =? 0)
  then ret counts
  else
    sessionId <-
      upsertSession now sourceToolId workspaceId importSource sessionInput ;;
    inner <-
      foldStore (persistMessage sessionId) (snd counts)
        (SessionInput.messages sessionInput) ;;
    ret (S (fst counts), inner).

Definition persistSessions (now : Z) (sourceToolId workspaceId : nat)
  (importSource : str) (sessionInputs : list SessionInput.t)
  (maxTimestamp : option Z) : M SourceRunResult :=
  counts <-
    foldStore (persistSession now sourceToolId workspaceId importSource)
      (0, (0, 0)) sessionInputs ;;
  ret (mkResult (length sessionInputs) (fst counts) (fst (snd counts))
         (snd (snd counts)) maxTimestamp None).

Definition ensureSourceTool (slug name : str) : M nat :=
  upsertM sourceTools setSourceTools SourceToolRow.id
    (fun r => strEqb (SourceToolRow.slug r) slug)
    (fun r => SourceToolRow.mk (SourceToolRow.id r) (SourceToolRow.slug r) name)
    (fun id => SourceToolRow.mk id slug name).

Definition ensureWorkspace : M nat :=
  fun st =>
    match workspaces st with
    | existing :: _ => Returned (WorkspaceRow.id existing) st
    | [] =>
        Returned (nextId st)
          (setNextId (S (nextId st))
             (setWorkspaces
                [WorkspaceRow.mk (nextId st) (lit "Default") (lit "default")]
                st))
    end.

(** ** Checkpoints *)

Definition checkpointHasKey (sourceId : nat) (cursorKey : str)
  (r : CheckpointRow.t) : bool :=
  (CheckpointRow.sourceId r =? sourceId)
  && strEqb (CheckpointRow.cursorKey r) cursorKey.

(** [checkpoint?.cursorValue]. *)
Definition lookupCheckpoint (sourceId : nat) (cursorKey : str)
  (rows : list CheckpointRow.t) : option str :=
  option_map CheckpointRow.cursorValue
    (find (checkpointHasKey sourceId cursorKey) rows).

Definition getCheckpoint (sourceId : nat) (cursorKey : str) : M (option str) :=
  gets (fun st => lookupCheckpoint sourceId cursorKey (checkpoints st)).

Definition writeCheckpoint (sourceId : nat) (cursorKey cursorValue : str)
  (rows : list CheckpointRow.t) : list CheckpointRow.t :=
  match find (checkpointHasKey sourceId cursorKey) rows with
  | Some _ =>
      updateFirst (checkpointHasKey sourceId cursorKey)
        (fun r =>
           CheckpointRow.mk (CheckpointRow.sourceId r)
             (CheckpointRow.cursorKey r) cursorValue)
        rows
  | None => rows ++ [CheckpointRow.mk sourceId cursorKey cursorValue]
  end.

Definition setCheckpoint (sourceId : nat) (cursorKey cursorValue : str)
  : M unit :=
  modify (fun st =>
            setCheckpoints
              (writeCheckpoint sourceId cursorKey cursorValue (checkpoints st))
              st).

Definition lastTimestamp : str := lit "lastTimestamp".

Definition dayMs : Z := (24 * 60 * 60 * 1000)%Z.

(** The lower bound [since] of a scan.  [lookbackStart] is
    [new Date(now.getTime() - lookbackDays * 24 * 60 * 60 * 1000)], the
    Invalid Date when the difference is beyond the range of dates; the
    test [new Date(lastCheckpoint) > lookbackStart] is false when either
    side is invalid. *)
Definition scanSince `{Platform} (lastCheckpoint : option str)
  (now lookbackDays : Z) : option Z :=
  let lookbackStart := toDateFromMs (Some (now - lookbackDays * dayMs)%Z) in
  match truthy lastCheckpoint with
  | Some checkpoint =>
      match dateParse checkpoint, lookbackStart with
      | Some t, Some start =>
          if (start <? t)%Z then Some t else lookbackStart
      | _, _ => lookbackStart
      end
  | None => lookbackStart
  end.

(** ** The two source runs

    The environment gives the configuration read at start-up and the
    files found under a root directory. *)

Class Environment := {
  DEFAULT_LOOKBACK_DAYS : Z;
  DEFAULT_CLAUDE_ROOT : str;
  DEFAULT_OPENCODE_HOME : str;
  claudeLogs : str -> list ClaudeFile;
  openCodeStorage : str -> OpenCodeStorage
}.

Definition pathJoin (a b : str) : str := a ++ lit "/" ++ b.

Definition runClaudeSource `{Platform} `{Environment} (now : Z)
  (sourceId : nat) (sourceRootPath : option str) (lookbackDays : Z)
  : M SourceRunResult :=
  let claudeRoot :=
    match sourceRootPath with
    | Some root => root
    | None => DEFAULT_CLAUDE_ROOT
    end in
  let projectsRoot := pathJoin claudeRoot (lit "projects") in
  lastCheckpoint <- getCheckpoint sourceId lastTimestamp ;;
  let since := scanSince lastCheckpoint now lookbackDays in
  match claudeScan since (claudeLogs projectsRoot) with
  | inl e => throw e
  | inr (sessionInputs, maxTimestamp) =>
      sourceToolId <-
        ensureSourceTool (lit "claude-code") (lit "Claude Code") ;;
      workspaceId <- ensureWorkspace ;;
      persistSessions now sourceToolId workspaceId (lit "claude-watcher")
        sessionInputs maxTimestamp
  end.

Definition runOpenCodeSource `{Platform} `{Environment} (now : Z)
  (sourceId : nat) (sourceRootPath : option str) (lookbackDays : Z)
  : M SourceRunResult :=
  let root :=
    match sourceRootPath with
    | Some root => root
    | None => DEFAULT_OPENCODE_HOME
    end in
  lastCheckpoint <- getCheckpoint sourceId lastTimestamp ;;
  let since := scanSince lastCheckpoint now lookbackDays in
  let (sessionInputs, maxTimestamp) :=
    openCodeScan since (openCodeStorage root) in
  sourceToolId <- ensureSourceTool (lit "opencode") (lit "OpenCode") ;;
  workspaceId <- ensureWorkspace ;;
  persistSessions now sourceToolId workspaceId (lit "opencode-watcher")
    sessionInputs maxTimestamp.

(** ** Ingestion orchestrator ([runIngestionCycle]) *)

Definition modeName (mode : IngestionMode) : str :=
  match mode with
  | Backfill => lit "backfill"
  | Poll => lit "poll"
  end.

Definition sourceTypeName (type : IngestionSourceType) : str :=
  match type with
  | CLAUDE => lit "CLAUDE"
  | OPENCODE => lit "OPENCODE"
  | OtherSourceType name => name
  end.

Definition sourceHasKey (key : str) (r : SourceRow.t) : bool :=
  strEqb (SourceRow.key r) key.

Definition sourceHasId (id : nat) (r : SourceRow.t) : bool :=
  SourceRow.id r =? id.

Definition runHasId (id : nat) (r : RunRow.t) : bool :=
  RunRow.id r =? id.

Definition ensureDefaultIngestionSources `{Environment} : M unit :=
  _ <- upsertM sources setSources SourceRow.id
         (sourceHasKey (lit "claude-default"))
         (fun r =>
            SourceRow.mk (SourceRow.id r) (SourceRow.key r) (SourceRow.type r)
              (SourceRow.name r) (Some DEFAULT_CLAUDE_ROOT) (SourceRow.dbPath r)
              DEFAULT_LOOKBACK_DAYS (SourceRow.pollIntervalSec r)
              (SourceRow.isEnabled r) (SourceRow.lastRunAt r)
              (SourceRow.lastSuccessAt r) (SourceRow.lastErrorAt r)
              (SourceRow.statusMessage r))
         (fun id =>
            SourceRow.mk id (lit "claude-default") CLAUDE (lit "Claude default")
              (Some DEFAULT_CLAUDE_ROOT) None DEFAULT_LOOKBACK_DAYS 30%Z true
              None None None None) ;;
  _ <- upsertM sources setSources SourceRow.id
         (sourceHasKey (lit "opencode-default"))
         (fun r =>
            SourceRow.mk (SourceRow.id r) (SourceRow.key r) (SourceRow.type r)
              (SourceRow.name r) (Some DEFAULT_OPENCODE_HOME)
              (Some (pathJoin DEFAULT_OPENCODE_HOME (lit "opencode.db")))
              DEFAULT_LOOKBACK_DAYS (SourceRow.pollIntervalSec r)
              (SourceRow.isEnabled r) (SourceRow.lastRunAt r)
              (SourceRow.lastSuccessAt r) (SourceRow.lastErrorAt r)
              (SourceRow.statusMessage r))
         (fun id =>
            SourceRow.mk id (lit "opencode-default") OPENCODE
              (lit "OpenCode default") (Some DEFAULT_OPENCODE_HOME)
              (Some (pathJoin DEFAULT_OPENCODE_HOME (lit "opencode.db")))
              DEFAULT_LOOKBACK_DAYS 15%Z true None None None None) ;;
  ret tt.

(** [prisma.ingestionRun.create] with status RUNNING. *)
Definition createRun (sourceId : nat) (mode : IngestionMode) : M nat :=
  id <- freshId ;;
  modify (fun st =>
            setRuns (runs st ++ [RunRow.mk id sourceId mode RUNNING None
                                   0 0 0 0 0 None]) st) ;;;
  ret id.

Definition updateRun (runId : nat) (f : RunRow.t -> RunRow.t) : M unit :=
  modify (fun st => setRuns (updateFirst (runHasId runId) f (runs st)) st).

Definition updateSource (sourceId : nat) (f : SourceRow.t -> SourceRow.t)
  : M unit :=
  modify (fun st =>
            setSources (updateFirst (sourceHasId sourceId) f (sources st)) st).

Definition createError (sourceId runId : nat) (code message : str) : M unit :=
  id <- freshId ;;
  modify (fun st =>
            setErrors
              (errors st ++ [ErrorRow.mk id sourceId runId code message])
              st).

Definition markRunning (now : Z) (mode : IngestionMode) (r : SourceRow.t)
  : SourceRow.t :=
  SourceRow.mk (SourceRow.id r) (SourceRow.key r) (SourceRow.type r)
    (SourceRow.name r) (SourceRow.rootPath r) (SourceRow.dbPath r)
    (SourceRow.lookbackDays r) (SourceRow.pollIntervalSec r)
    (SourceRow.isEnabled r) (Some now) (SourceRow.lastSuccessAt r)
    (SourceRow.lastErrorAt r)
    (Some (lit "Running " ++ modeName mode ++ lit "...")).

Definition markSucceeded (now : Z) (statusMessage : str) (r : SourceRow.t)
  : SourceRow.t :=
  SourceRow.mk (SourceRow.id r) (SourceRow.key r) (SourceRow.type r)
    (SourceRow.name r) (SourceRow.rootPath r) (SourceRow.dbPath r)
    (SourceRow.lookbackDays r) (SourceRow.pollIntervalSec r)
    (SourceRow.isEnabled r) (SourceRow.lastRunAt r) (Some now)
    (SourceRow.lastErrorAt r) (Some statusMessage).

Definition markErrored (now : Z) (message : str) (r : SourceRow.t)
  : SourceRow.t :=
  SourceRow.mk (SourceRow.id r) (SourceRow.key r) (SourceRow.type r)
    (SourceRow.name r) (SourceRow.rootPath r) (SourceRow.dbPath r)
    (SourceRow.lookbackDays r) (SourceRow.pollIntervalSec r)
    (SourceRow.isEnabled r) (SourceRow.lastRunAt r)
    (SourceRow.lastSuccessAt r) (Some now) (Some message).

Definition runSucceeded (now : Z) (result : SourceRunResult) (r : RunRow.t)
  : RunRow.t :=
  RunRow.mk (RunRow.id r) (RunRow.sourceId r) (RunRow.mode r) SUCCESS
    (Some now) (scannedSessions result) (upsertedSessions result)
    (upsertedMessages result) (upsertedParts result) (RunRow.errorCount r)
    (keepIfUndefined (note result) (RunRow.note r)).

Definition runFailed (now : Z) (message : str) (r : RunRow.t) : RunRow.t :=
  RunRow.mk (RunRow.id r) (RunRow.sourceId r) (RunRow.mode r) FAILED
    (Some now) (RunRow.scannedSessions r) (RunRow.upsertedSessions r)
    (RunRow.upsertedMessages r) (RunRow.upsertedParts r) 1 (Some message).

(** [error instanceof Error ? error.message : "Unknown ingestion failure"]. *)
Definition failureMessage (error : Thrown) : str :=
  match error with
  | ErrorObject message => message
  | OtherValue => lit "Unknown ingestion failure"
  end.

Definition successMessage (result : SourceRunResult) : str :=
  match note result with
  | Some n => n
  | None =>
      lit "Success: " ++ ofNat (upsertedSessions result) ++ lit " sessions, "
        ++ ofNat (upsertedMessages result) ++ lit " messages"
  end.

(** The adapter chosen by the source's type; any other type is refused. *)
Definition runAdapter `{Platform} `{Environment} (now : Z)
  (source : SourceRow.t) : M SourceRunResult :=
  match SourceRow.type source with
  | CLAUDE =>
      runClaudeSource now (SourceRow.id source) (SourceRow.rootPath source)
        (SourceRow.lookbackDays source)
  | OPENCODE =>
      runOpenCodeSource now (SourceRow.id source) (SourceRow.rootPath source)
        (SourceRow.lookbackDays source)
  | OtherSourceType _ =>
      throw (ErrorObject (lit "Unsupported ingestion source type: "
                            ++ sourceTypeName (SourceRow.type source)))
  end.

(** The [try] block of the loop body. *)
Definition attemptSource `{Platform} `{Environment} (now : Z)
  (runId : nat) (source : SourceRow.t) : M unit :=
  result <- runAdapter now source ;;
  updateRun runId (runSucceeded now result) ;;;
  updateSource (SourceRow.id source)
    (markSucceeded now (successMessage result)) ;;;
  match maxTimestamp result with
  | Some t => setCheckpoint (SourceRow.id source) lastTimestamp (toISOString t)
  | None => ret tt
  end.

(** The [catch] block of the loop body. *)
Definition recordFailure (now : Z) (runId : nat) (source : SourceRow.t)
  (error : Thrown) : M unit :=
  let message := failureMessage error in
  updateRun runId (runFailed now message) ;;;
  createError (SourceRow.id source) runId (lit "INGESTION_FAILURE") message ;;;
  updateSource (SourceRow.id source) (markErrored now message).

(** The two statements of the loop body before the [try]: the run record
    in state RUNNING and the status of the source. *)
Definition announceRun (now : Z) (mode : IngestionMode) (source : SourceRow.t)
  : M nat :=
  runId <- createRun (SourceRow.id source) mode ;;
  updateSource (SourceRow.id source) (markRunning now mode) ;;;
  ret runId.

(** The body of [for (const source of sources)]. *)
Definition processSource `{Platform} `{Environment} (now : Z)
  (mode : IngestionMode) (source : SourceRow.t) : M unit :=
  runId <- announceRun now mode source ;;
  tryCatch (attemptSource now runId source) (recordFailure now runId source).

Fixpoint forEach {A : Type} (f : A -> M unit) (l : list A) : M unit :=
  match l with
  | [] => ret tt
  | x :: rest => f x ;;; forEach f rest
  end.

Definition enabledSources (st : Store) : list SourceRow.t :=
  filter SourceRow.isEnabled (sources st).

Definition runIngestionCycle `{Platform} `{Environment} (now : Z)
  (mode : IngestionMode) : M unit :=
  ensureDefaultIngestionSources ;;;
  enabled <- gets enabledSources ;;
  forEach (processSource now mode) enabled.

(** ** Canonical bundles and their entry point ([ingestCanonicalBundle]) *)

Module CanonicalMessage.
Record t := mk {
  role : ParsedRole;
  content : str;
  metadata : option json;
  promptTokens : option Z;
  completionTokens : option Z;
  totalTokens : option Z
}.
End CanonicalMessage.

Module CanonicalTask.
Record t := mk {
  title : str;
  description : option str;
  status : option TaskStatus;
  priority : option TaskPriority
}.
End CanonicalTask.

Module CanonicalArtifact.
Record t := mk {
  type : str;
  name : str;
  content : str;
  messageIndex : option Z;
  metadata : option json
}.
End CanonicalArtifact.

Module Bundle.
Record t := mk {
  title : str;
  summary : option str;
  externalSessionId : option str;
  startedAt : option str;
  endedAt : option str;
  messages : list CanonicalMessage.t;
  tasks : option (list CanonicalTask.t);
  artifacts : option (list CanonicalArtifact.t);
  tags : option (list str)
}.
End Bundle.

Definition optAll {A : Type} (p : A -> bool) (v : option A) : bool :=
  match v with
  | Some x => p x
  | None => true
  end.

Definition nonNegative (n : Z) : bool := (0 <=? n)%Z.

(** [z.record(z.string(), z.unknown()).optional()]: an object or absent. *)
Definition isRecord (v : option json) : bool :=
  match v with
  | None | Some (JObj _) => true
  | Some _ => false
  end.

Definition validMessage (m : CanonicalMessage.t) : bool :=
  nonEmpty (CanonicalMessage.content m)
  && isRecord (CanonicalMessage.metadata m)
  && optAll nonNegative (CanonicalMessage.promptTokens m)
  && optAll nonNegative (CanonicalMessage.completionTokens m)
  && optAll nonNegative (CanonicalMessage.totalTokens m).

Definition validTask (t : CanonicalTask.t) : bool :=
  nonEmpty (CanonicalTask.title t).

Definition validArtifact (a : CanonicalArtifact.t) : bool :=
  nonEmpty (CanonicalArtifact.type a)
  && nonEmpty (CanonicalArtifact.name a)
  && optAll nonNegative (CanonicalArtifact.messageIndex a)
  && isRecord (CanonicalArtifact.metadata a).

(** [canonicalBundleSchema] accepts the bundle.  Roles, task states and
    priorities are in their enumerations by typing. *)
Definition validBundle `{Platform} (b : Bundle.t) : bool :=
  nonEmpty (Bundle.title b)
  && optAll isIsoDatetime (Bundle.startedAt b)
  && optAll isIsoDatetime (Bundle.endedAt b)
  && (0 <? length (Bundle.messages b))
  && forallb validMessage (Bundle.messages b)
  && optAll (forallb validTask) (Bundle.tasks b)
  && optAll (forallb validArtifact) (Bundle.artifacts b)
  && optAll (forallb nonEmpty) (Bundle.tags b).

Definition schemaError : Thrown := ErrorObject (lit "ZodError").

Definition bundleRole (r : ParsedRole) : MessageRole :=
  match r with
  | RoleUser => USER
  | RoleAssistant => ASSISTANT
  | RoleTool => TOOL
  end.

Definition parsedRoleEqb (a b : ParsedRole) : bool :=
  roleEqb (bundleRole a) (bundleRole b).

Definition deriveBundleSummary (messages : list CanonicalMessage.t)
  : option str :=
  let withRole r := fun m => parsedRoleEqb (CanonicalMessage.role m) r in
  match orElse (find (withRole RoleAssistant) messages)
               (orElse (find (withRole RoleUser) messages)
                       (hd_error messages)) with
  | None => None
  | Some best =>
      if nonEmpty (CanonicalMessage.content best) then
        let clean := trim (collapseSpaces (CanonicalMessage.content best)) in
        if nonEmpty clean then
          Some (if 180 <? length clean
                then slice0 177 clean ++ ellipsis
                else clean)
        else None
      else None
  end.

Record IngestInput := mkInput {
  bundle : Bundle.t;
  inputWorkspaceId : nat;
  inputSourceToolId : nat;
  inputImportSource : str
}.

Record IngestResult := mkIngestResult {
  resultSessionId : nat;
  deduplicated : bool
}.

Definition uniqueViolation : Thrown :=
  ErrorObject (lit "Unique constraint failed").

Definition zeroIfUndefined (v : option Z) : Z :=
  match v with
  | Some n => n
  | None => 0%Z
  end.

(** [tx.session.findFirst({ where: { sourceToolId, externalSessionId } })]. *)
Definition findDuplicate (sourceToolId : nat) (externalSessionId : str)
  : M (option nat) :=
  gets (fun st =>
          option_map SessionRow.id
            (find (sessionHasKey sourceToolId externalSessionId)
               (sessions st))).

(** [tx.session.create]; the pair of source tool and external session id is
    a unique key of the table, as the upsert of [persistSessions] relies
    on. *)
Definition createSession `{Platform} (now : Z) (input : IngestInput) : M nat :=
  let b := bundle input in
  fun st =>
    if match Bundle.externalSessionId b with
       | Some ext =>
           existsb (sessionHasKey (inputSourceToolId input) ext) (sessions st)
       | None => false
       end
    then Threw uniqueViolation st
    else
      Returned (nextId st)
        (setNextId (S (nextId st))
           (setSessions
              (sessions st ++
               [SessionRow.mk (nextId st) (inputWorkspaceId input)
                  (inputSourceToolId input) (Bundle.externalSessionId b)
                  None (Bundle.title b)
                  (orElse (Bundle.summary b)
                          (deriveBundleSummary (Bundle.messages b)))
                  (toDate (Bundle.startedAt b)) (toDate (Bundle.endedAt b))
                  None (Some (inputImportSource input)) (Some now)])
              st)).

(** The loop over [parsed.messages.entries()]: the rows created, as
    [(id, ordinal)], and the three token sums. *)
Fixpoint createMessages (sessionId : nat) (ordinal : nat)
  (items : list CanonicalMessage.t)
  (acc : list (nat * nat) * (Z * Z * Z))
  : M (list (nat * nat) * (Z * Z * Z)) :=
  match items with
  | [] => ret acc
  | message :: rest =>
      let '(records, (promptTokens, completionTokens, totalTokens)) := acc in
      id <- freshId ;;
      modify (fun st =>
                setMessages
                  (messages st ++
                   [MessageRow.mk id sessionId None
                      (bundleRole (CanonicalMessage.role message)) None None
                      (CanonicalMessage.content message)
                      (CanonicalMessage.metadata message) None ordinal
                      (CanonicalMessage.promptTokens message)
                      (CanonicalMessage.completionTokens message)
                      (CanonicalMessage.totalTokens message)])
                  st) ;;;
      createMessages sessionId (S ordinal) rest
        (records ++ [(id, ordinal)],
         ((promptTokens
           + zeroIfUndefined (CanonicalMessage.promptTokens message),
           completionTokens
           + zeroIfUndefined (CanonicalMessage.completionTokens message),
           totalTokens
           + match CanonicalMessage.totalTokens message with
             | Some t => t
             | None =>
                 zeroIfUndefined (CanonicalMessage.promptTokens message)
                 + zeroIfUndefined (CanonicalMessage.completionTokens message)
             end)%Z))
  end.

Definition createTask (sessionId : nat) (task : CanonicalTask.t) : M unit :=
  id <- freshId ;;
  modify (fun st =>
            setTasks
              (tasks st ++
               [TaskRow.mk id sessionId (CanonicalTask.title task)
                  (CanonicalTask.description task)
                  (match CanonicalTask.status task with
                   | Some s => s
                   | None => OPEN
                   end)
                  (match CanonicalTask.priority task with
                   | Some p => p
                   | None => MEDIUM
                   end)])
              st).

Definition sessionTagIs (sessionId tagId : nat) (r : SessionTagRow.t) : bool :=
  (SessionTagRow.sessionId r =? sessionId) && (SessionTagRow.tagId r =? tagId).

(** [tx.sessionTag.create]; the pair is the primary key of the table. *)
Definition createSessionTag (sessionId tagId : nat) : M unit :=
  fun st =>
    if existsb (sessionTagIs sessionId tagId) (sessionTags st)
    then Threw uniqueViolation st
    else
      Returned tt
        (setSessionTags (sessionTags st ++ [SessionTagRow.mk sessionId tagId])
           st).

(** The body of the loop over [parsed.tags]. *)
Definition attachTag (sessionId : nat) (rawTagName : str) : M unit :=
  let tagName := trim rawTagName in
  if nonEmpty tagName then
    let slug := replaceRunsFrom "-"%char false (toLowerCase tagName) in
    tagId <- upsertM tags setTags TagRow.id
               (fun r => strEqb (TagRow.slug r) slug)
               (fun r => r)
               (fun id => TagRow.mk id tagName slug) ;;
    createSessionTag sessionId tagId
  else ret tt.

(** The body of the loop over [parsed.artifacts]. *)
Definition createArtifact (sessionId : nat) (messageRecords : list (nat * nat))
  (artifact : CanonicalArtifact.t) : M unit :=
  let messageId :=
    match CanonicalArtifact.messageIndex artifact with
    | Some index =>
        option_map fst
          (find (fun record => (Z.of_nat (snd record) =? index)%Z)
             messageRecords)
    | None => None
    end in
  id <- freshId ;;
  modify (fun st =>
            setArtifacts
              (artifacts st ++
               [ArtifactRow.mk id sessionId messageId
                  (CanonicalArtifact.type artifact)
                  (CanonicalArtifact.name artifact)
                  (CanonicalArtifact.content artifact)
                  (CanonicalArtifact.metadata artifact)])
              st).

Definition createMetricSnapshot (sessionId sourceToolId : nat)
  (promptTokens completionTokens totalTokens : Z) : M unit :=
  id <- freshId ;;
  modify (fun st =>
            setMetricSnapshots
              (metricSnapshots st ++
               [MetricRow.mk id sessionId sourceToolId promptTokens
                  completionTokens totalTokens totalTokens])
              st).

Definition listOrEmpty {A : Type} (v : option (list A)) : list A :=
  match v with
  | Some l => l
  | None => []
  end.

(** The path of [ingestCanonicalBundle] taken when no duplicate is found. *)
Definition createBundle `{Platform} (now : Z) (input : IngestInput)
  : M IngestResult :=
  let b := bundle input in
  sessionId <- createSession now input ;;
  created <- createMessages sessionId 0 (Bundle.messages b)
               ([], (0, 0, 0)%Z) ;;
  let '(messageRecords, (promptTokens, completionTokens, totalTokens)) :=
    created in
  forEach (createTask sessionId) (listOrEmpty (Bundle.tasks b)) ;;;
  forEach (attachTag sessionId) (listOrEmpty (Bundle.tags b)) ;;;
  forEach (createArtifact sessionId messageRecords)
    (listOrEmpty (Bundle.artifacts b)) ;;;
  createMetricSnapshot sessionId (inputSourceToolId input) promptTokens
    completionTokens totalTokens ;;;
  ret (mkIngestResult sessionId false).

Definition ingestCanonicalBundle `{Platform} (now : Z) (input : IngestInput)
  : M IngestResult :=
  if validBundle (bundle input) then
    transaction
      (maybeDuplicate <-
         match truthy (Bundle.externalSessionId (bundle input)) with
         | Some ext => findDuplicate (inputSourceToolId input) ext
         | None => ret None
         end ;;
       match maybeDuplicate with
       | Some id => ret (mkIngestResult id true)
       | None => createBundle now input
       end)
  else throw schemaError.

(** ** The polling watcher

    [main] awaits the first tick, then arms the interval timer and the
    signal handlers.  The timer callback is [() => { void tick(); }]: it
    starts a cycle and does not wait for it.  The process is one event
    loop, so its behaviour is the sequence of the events it handles. *)

Inductive Phase := FirstTick | Polling | Exited.

Record Watcher := mkWatcher {
  phase : Phase;
  inProgress : nat;
  started : nat;
  connected : bool
}.

Inductive WatcherEvent :=
| CycleCompletes
| TimerFires
| Signal.

(** The state when [main] has called [tick()] the first time. *)
Definition watcherStart : Watcher := mkWatcher FirstTick 1 1 true.

(** What the process does on an event; [None] when the event cannot occur
    in the state. *)
Definition watcherStep (w : Watcher) (e : WatcherEvent) : option Watcher :=
  match phase w, e with
  | FirstTick, CycleCompletes =>
      Some (mkWatcher Polling 0 (started w) (connected w))
  | FirstTick, TimerFires => None
  | FirstTick, Signal =>
      Some (mkWatcher Exited (inProgress w) (started w) (connected w))
  | Polling, TimerFires =>
      Some (mkWatcher Polling (S (inProgress w)) (S (started w)) (connected w))
  | Polling, CycleCompletes =>
      match inProgress w with
      | O => None
      | S n => Some (mkWatcher Polling n (started w) (connected w))
      end
  | Polling, Signal => Some (mkWatcher Exited (inProgress w) (started w) false)
  | Exited, _ => None
  end.

Fixpoint watcherRun (w : Watcher) (events : list WatcherEvent)
  : option Watcher :=
  match events with
  | [] => Some w
  | e :: rest =>
      match watcherStep w e with
      | Some w' => watcherRun w' rest
      | None => None
      end
  end.

(** ** Vocabulary of the statements *)

(** [m] is the first message of [messages] with role [r]. *)
Definition FirstWith (r : MessageRole) (messages : list MessageInput.t)
  (m : MessageInput.t) : Prop :=
  exists before after,
    messages = before ++ m :: after
    /\ MessageInput.role m = r
    /\ forall x, In x before -> MessageInput.role x <> r.

Definition NoneWith (r : MessageRole) (messages : list MessageInput.t) : Prop :=
  forall x, In x messages -> MessageInput.role x <> r.

(** The message the summary is derived from, in the words of the
    specification. *)
Definition Chosen (messages : list MessageInput.t) (m : MessageInput.t)
  : Prop :=
  FirstWith ASSISTANT messages m
  \/ (NoneWith ASSISTANT messages /\ FirstWith USER messages m)
  \/ (NoneWith ASSISTANT messages /\ NoneWith USER messages
      /\ hd_error messages = Some m).

Definition EndsWith (suffix s : str) : Prop :=
  exists prefix, s = prefix ++ suffix.

(** The words of a text: its maximal runs of characters that are not white
    space, in order.  [acc] holds the word being read, last character
    first. *)
Fixpoint wordsFrom (acc : str) (s : str) : list str :=
  match s with
  | [] =>
      match acc with
      | [] => []
      | _ :: _ => [rev acc]
      end
  | c :: s' =>
      if isSpace c then
        match acc with
        | [] => wordsFrom [] s'
        | _ :: _ => rev acc :: wordsFrom [] s'
        end
      else wordsFrom (c :: acc) s'
  end.

Definition words (s : str) : list str := wordsFrom [] s.

(** A text with its white space collapsed, in the words of the
    specification: the words of the text with one space between them and
    nothing before the first or behind the last. *)
Definition collapsed (s : str) : str := joinWith [SP] (words s).

(** ** Vocabulary of the orchestrator statements *)

(** Every run record has an identifier below the counter of fresh
    identifiers. *)
Definition RunsFresh (st : Store) : Prop :=
  Forall (fun r => RunRow.id r < nextId st) (runs st).

(** From [a] to [b] the bookkeeping tables of the orchestrator are
    untouched and the counter of fresh identifiers has not gone back. *)
Definition SameBookkeeping (a b : Store) : Prop :=
  sources b = sources a /\ runs b = runs a /\ errors b = errors a
  /\ checkpoints b = checkpoints a /\ nextId a <= nextId b.

(** A store computation that keeps the bookkeeping, whether it returns or
    throws. *)
Definition Keeps {A : Type} (m : M A) : Prop :=
  forall st, SameBookkeeping st (storeOf (m st)).

(** Processing the sources one after the other. *)
Definition processAll `{Platform} `{Environment} (now : Z)
  (mode : IngestionMode) (sourceRows : list SourceRow.t) (st : Store)
  : Store :=
  fold_left (fun s source => storeOf (processSource now mode source s))
    sourceRows st.

(** The record [createRun] adds. *)
Definition startedRun (runId sourceId : nat) (mode : IngestionMode)
  : RunRow.t :=
  RunRow.mk runId sourceId mode RUNNING None 0 0 0 0 0 None.

(** The store in which the adapter of [source] is called. *)
Definition adapterStore (now : Z) (mode : IngestionMode)
  (source : SourceRow.t) (st : Store) : Store :=
  storeOf (announceRun now mode source st).

(** The lower bound of the look-back window. *)
Definition lookbackStart (now lookbackDays : Z) : Z :=
  (now - lookbackDays * dayMs)%Z.

(** The stored checkpoint as a time, when there is one that parses. *)
Definition checkpointTime `{Platform} (lastCheckpoint : option str)
  : option Z :=
  match truthy lastCheckpoint with
  | Some checkpoint => dateParse checkpoint
  | None => None
  end.

(** ** Vocabulary of the ordering statements *)

(** The ordinals are 0, 1, ..., n-1 in this order. *)
Definition Dense (ordinals : list nat) : Prop :=
  ordinals = seq 0 (length ordinals).

(** The start time a part was sorted by. *)
Definition partStartOf (p : PartInput.t) : Z :=
  match PartInput.data p with
  | Some part => partStartKey part
  | None => 0%Z
  end.

(** The messages of a session as a scan with lower bound [since] hands
    them over: ordinals equal to the positions, times in ascending order
    with a missing time counted as 0, no time before [since], and, when
    [since] is after the epoch, every undated message before every dated
    one. *)
Definition OrderedMessages (since : option Z) (msgs : list MessageInput.t)
  : Prop :=
  Dense (map MessageInput.ordinal msgs)
  /\ StronglySorted Z.le (map timeKey msgs)
  /\ (forall m t, In m msgs -> MessageInput.sourceTimestamp m = Some t ->
                  before t since = false)
  /\ (before 0 since = true ->
      forall m m', In m msgs -> In m' msgs ->
        MessageInput.sourceTimestamp m = None ->
        MessageInput.sourceTimestamp m' <> None ->
        MessageInput.ordinal m < MessageInput.ordinal m').

(** The parts of a message of adapter A, told from the event kept as its
    metadata: one part 0 for a string content, ordinals 0..m-1 for a
    content array whose entries are all objects. *)
Definition ClaudeParts (m : MessageInput.t) : Prop :=
  exists parsed,
    MessageInput.metadata m = Some parsed
    /\ match claudeRawContent parsed with
       | Some (JStr _) => map PartInput.ordinal (MessageInput.parts m) = [0]
       | Some (JArr items) =>
           forallb isObjectLike items = true ->
           Dense (map PartInput.ordinal (MessageInput.parts m))
       | _ => False
       end.

(** The parts of a message of adapter B: ordinals 0..m-1 in ascending order
    of start time. *)
Definition OpenCodeParts (m : MessageInput.t) : Prop :=
  Dense (map PartInput.ordinal (MessageInput.parts m))
  /\ StronglySorted Z.le (map partStartOf (MessageInput.parts m)).

(** ** Vocabulary of the idempotence statement *)

(** The identity of a row: its identifier with its natural key. *)
Definition sessionIdentity (r : SessionRow.t) : nat * nat * option str :=
  (SessionRow.id r, SessionRow.sourceToolId r, SessionRow.externalSessionId r).

Definition messageIdentity (r : MessageRow.t) : nat * nat * option str :=
  (MessageRow.id r, MessageRow.sessionId r, MessageRow.externalMessageId r).

Definition partIdentity (r : PartRow.t) : nat * nat * str :=
  (PartRow.id r, PartRow.messageId r, PartRow.externalPartId r).

Definition toolIdentity (r : SourceToolRow.t) : nat * str :=
  (SourceToolRow.id r, SourceToolRow.slug r).

(** From [a] to [b] no session, message or part was created or removed:
    the tables hold the same identifiers under the same natural keys, in
    the same order. *)
Definition SameRecords (a b : Store) : Prop :=
  map sessionIdentity (sessions b) = map sessionIdentity (sessions a)
  /\ map messageIdentity (messages b) = map messageIdentity (messages a)
  /\ map partIdentity (parts b) = map partIdentity (parts a).

(** The same for the tables a source run reads or writes, with the
    checkpoints. *)
Definition SameIdentities (a b : Store) : Prop :=
  SameRecords a b
  /\ map toolIdentity (sourceTools b) = map toolIdentity (sourceTools a)
  /\ map WorkspaceRow.id (workspaces b) = map WorkspaceRow.id (workspaces a)
  /\ checkpoints b = checkpoints a.

(** The identifier a natural key resolves to. *)
Definition lookSession (st : Store) (sourceToolId : nat) (ext : str)
  : option nat :=
  option_map SessionRow.id
    (find (sessionHasKey sourceToolId ext) (sessions st)).

Definition lookMessage (st : Store) (sessionId : nat) (ext : str)
  : option nat :=
  option_map MessageRow.id (find (messageHasKey sessionId ext) (messages st)).

Definition lookPart (st : Store) (messageId : nat) (ext : str) : option nat :=
  option_map PartRow.id (find (partHasKey messageId ext) (parts st)).

Definition lookTool (st : Store) (slug : str) : option nat :=
  option_map SourceToolRow.id
    (find (fun r => strEqb (SourceToolRow.slug r) slug) (sourceTools st)).

Definition lookWorkspace (st : Store) : option nat :=
  option_map WorkspaceRow.id (hd_error (workspaces st)).

(** Every key that resolves in [a] resolves to the same identifier in [b],
    and the checkpoints are the same. *)
Definition Extends (a b : Store) : Prop :=
  (forall tool ext i, lookSession a tool ext = Some i ->
                      lookSession b tool ext = Some i)
  /\ (forall sessionId ext i, lookMessage a sessionId ext = Some i ->
                              lookMessage b sessionId ext = Some i)
  /\ (forall messageId ext i, lookPart a messageId ext = Some i ->
                              lookPart b messageId ext = Some i)
  /\ (forall slug i, lookTool a slug = Some i -> lookTool b slug = Some i)
  /\ (forall i, lookWorkspace a = Some i -> lookWorkspace b = Some i)
  /\ checkpoints b = checkpoints a.

(** A store computation only adds keys. *)
Definition Grows {A : Type} (m : M A) : Prop :=
  forall st, Extends st (storeOf (m st)).

(** Run in a store that already has every key the computation resolves or
    creates, the computation has the same outcome and creates nothing. *)
Definition Absorbed {A : Type} (m : M A) : Prop :=
  forall st st',
    Extends (storeOf (m st)) st' ->
    exists st'',
      SameIdentities st' st''
      /\ match m st with
         | Returned a _ => m st' = Returned a st''
         | Threw e _ => m st' = Threw e st''
         end.

(** What the scans maintain for every message and session. *)
Definition GoodClaude (since : option Z) (m : MessageInput.t) : Prop :=
  ClaudeParts m
  /\ forall t, MessageInput.sourceTimestamp m = Some t ->
               before t since = false.

Definition ScanGood (good : MessageInput.t -> Prop) (st : ScanState) : Prop :=
  forall s m, In s (scanSessions st) -> In m (SessionInput.messages s) ->
              good m.

Definition GoodOpenCode (since : option Z) (m : MessageInput.t) : Prop :=
  OpenCodeParts m
  /\ forall t, MessageInput.sourceTimestamp m = Some t ->
               before t since = false.

Definition SessionGood (since : option Z) (s : SessionInput.t) : Prop :=
  OrderedMessages since (SessionInput.messages s)
  /\ forall m, In m (SessionInput.messages s) -> OpenCodeParts m.


(** A text cut into plain pieces and tagged spans.  A span is an opening
    tag, a body and the closing tag of the same kind, each tag in any
    letter case. *)
Inductive segment :=
| Plain (t : str)
| Span (k : tagKind) (opening body closing : str).

Definition render (s : segment) : str :=
  match s with
  | Plain t => t
  | Span _ opening body closing => opening ++ body ++ closing
  end.

Definition renderAll (segs : list segment) : str := flat_map render segs.

(** The same text up to letter case. *)
Definition SameCI (a b : str) : Prop := map canon a = map canon b.

(** [occurs pat s]: the pattern literal [pat] matches, ignoring case, at
    some position of [s]. *)
Fixpoint occurs (pat s : str) : bool :=
  startsCI pat s
  || match s with
     | [] => false
     | _ :: s' => occurs pat s'
     end.

Definition tagKinds : list tagKind := [Caveat; Reminder; Stdout].

(** One of the three opening tags occurs in the text. *)
Definition holdsOpening (s : str) : bool :=
  existsb (fun k => occurs (openTag k) s) tagKinds.

(** One of the six tags occurs in the text. *)
Definition holdsTag (s : str) : bool :=
  existsb (fun k => occurs (openTag k) s || occurs (closeTag k) s) tagKinds.

(** A span is an opening tag, a body that holds no tag, and the closing
    tag of the same kind. *)
Definition Paired (s : segment) : Prop :=
  match s with
  | Plain _ => True
  | Span k opening body closing =>
      SameCI opening (openTag k) /\ SameCI closing (closeTag k)
      /\ holdsTag body = false
  end.

(** What lies outside the spans. *)
Definition outside (s : segment) : str :=
  match s with
  | Plain t => t
  | Span _ _ _ _ => []
  end.

Definition kindEqb (a b : tagKind) : bool :=
  match a, b with
  | Caveat, Caveat | Reminder, Reminder | Stdout, Stdout => true
  | _, _ => false
  end.

Definition isSpanOf (k : tagKind) (s : segment) : bool :=
  match s with
  | Plain _ => false
  | Span k' _ _ _ => kindEqb k k'
  end.

(** The tags of a well-formed text pair up as the spans say: no tag lies
    inside a body, and the text that is left when the spans are taken out
    holds no opening tag.  Any other use of the less-than sign is free. *)
Definition WellFormed (segs : list segment) : Prop :=
  Forall Paired segs /\ holdsOpening (flat_map outside segs) = false.

(** Two patterns differ, up to case, at a position both have. *)
Fixpoint clashCI (p q : str) : bool :=
  match p, q with
  | x :: p', y :: q' => negb (eqCI x y) || clashCI p' q'
  | _, _ => false
  end.

(** No character of the text is a less-than sign up to case. *)
Definition inert (t : str) : bool := forallb (fun c => negb (eqCI LT c)) t.

(** The text is empty or starts with a less-than sign. *)
Definition stops (w : str) : bool :=
  match w with
  | [] => true
  | c :: _ => eqCI LT c
  end.

(** The first line of a chunk, as [parseTranscript] tests it. *)
Definition firstLineOf (chunk : str) : str := trim (hd [] (splitOn NL chunk)).

(** The first line of the chunk carries one of the three role labels. *)
Definition isLabelled (chunk : str) : bool :=
  match matchLabel "user:" (firstLineOf chunk),
        matchLabel "assistant:" (firstLineOf chunk),
        matchLabel "tool:" (firstLineOf chunk) with
  | None, None, None => false
  | _, _, _ => true
  end.

(** The role given to an unlabelled chunk at a position of the chunk list. *)
Definition positionRole (index : nat) : ParsedRole :=
  if Nat.even index then RoleUser else RoleAssistant.

Definition mixedTranscript : str :=
  lit "user: Hi" ++ [NL; NL] ++ lit "plain".

Definition nestedReminder : str :=
  lit "<system-reminder>a<system-reminder>b</system-reminder>c</system-reminder>".

Definition joinedFragments : str :=
  lit "<system-<local-command-caveat>x</local-command-caveat>reminder>keep<<local-command-caveat>y</local-command-caveat>/system-reminder>".

Definition exampleSegments : list segment :=
  [Plain (lit "if a < b then <div>" ++ [NL]);
   Span Reminder (lit "<SYSTEM-Reminder>") (NL :: lit "line <1>" ++ [NL])
     (lit "</system-reminder>");
   Plain (NL :: lit "after </p>  ")].

Definition longMessage : MessageInput.t :=
  MessageInput.mk (lit "m1") USER None None (repeat "x"%char 200)
    None None 0 [].

(** A message that starts with a reminder and holds line breaks and runs of
    spaces; 210 characters are left of it. *)
Definition taggedMessage : MessageInput.t :=
  MessageInput.mk (lit "m2") ASSISTANT None None
    (lit "<system-reminder>note</system-reminder>" ++ [NL]
     ++ lit "Summary:" ++ [SP; SP; NL] ++ repeat "x"%char 100
     ++ [NL; NL] ++ repeat "y"%char 100 ++ [SP])
    None None 0 [].

(** ** Notation of the examples *)

(** A literal in which backslash-n stands for a line feed, as in the
    sources of the unit tests. *)
Fixpoint unescape (s : str) : str :=
  match s with
  | [] => []
  | c :: rest =>
      match rest with
      | d :: rest' =>
          if Ascii.eqb c "\"%char && Ascii.eqb d "n"%char
          then NL :: unescape rest'
          else c :: unescape rest
      | [] => [c]
      end
  end.

Definition js (s : string) : str := unescape (lit s).

(** The helper [makeMessage] of the unit tests. *)
Definition makeMessage (role : MessageRole) (content : str)
  : MessageInput.t :=
  MessageInput.mk (lit "msg") role None None content None None 0 [].

(** ** Example data *)

Definition epoch2026 : Z := 1767225600000%Z.

(** The platform functions on the few strings the examples use. *)
Definition examplePlatform : Platform := {|
  hashValue := fun s => lit "sha1:" ++ s;
  dateParse := fun s =>
    if strEqb s (lit "2026-01-01T00:00:00.000Z") then Some epoch2026
    else if strEqb s (lit "2026-01-01T00:00:01.000Z")
         then Some (epoch2026 + 1000)%Z
    else if strEqb s (lit "1969-12-31T23:59:59.000Z") then Some (-1000)%Z
    else None;
  toISOString := fun t =>
    if (t =? epoch2026)%Z then lit "2026-01-01T00:00:00.000Z"
    else if (t =? epoch2026 + 1000)%Z then lit "2026-01-01T00:00:01.000Z"
    else if (t =? -1000)%Z then lit "1969-12-31T23:59:59.000Z"
    else lit "Invalid Date";
  isIsoDatetime := fun s =>
    strEqb s (lit "2026-01-01T00:00:00.000Z")
    || strEqb s (lit "2026-01-01T00:00:01.000Z")
    || strEqb s (lit "1969-12-31T23:59:59.000Z")
|}.

(** A store where tool 1 already has a session whose external id is the
    empty string, and a bundle that carries the same external id. *)
Definition emptyIdRow : SessionRow.t :=
  SessionRow.mk 7 1 1 (Some []) None (lit "Pasted") None None None None
    (Some (lit "manual-entry")) (Some epoch2026).

Definition emptyIdStore : Store :=
  setSessions [emptyIdRow] (setNextId 8 emptyStore).

Definition emptyIdInput : IngestInput :=
  mkInput
    (Bundle.mk (lit "Pasted again") None (Some []) None None
       [CanonicalMessage.mk RoleUser (lit "Hello") None None None None]
       None None None)
    1 1 (lit "manual-entry").

(** The same store with a session that has a proper external id. *)
Definition knownRow : SessionRow.t :=
  SessionRow.mk 7 1 1 (Some (lit "ext-1")) None (lit "Pasted") None None None
    None (Some (lit "manual-entry")) (Some epoch2026).

Definition knownStore : Store :=
  setSessions [knownRow] (setNextId 8 emptyStore).

Definition knownInput : IngestInput :=
  mkInput
    (Bundle.mk (lit "Pasted again") None (Some (lit "ext-1")) None None
       [CanonicalMessage.mk RoleUser (lit "Hello") None None None None]
       (Some [CanonicalTask.mk (lit "todo") None None None]) None
       (Some [lit "tag"]))
    1 1 (lit "manual-entry").

Definition field (k : string) (v : json) : str * json := (lit k, v).

Definition obj (fields : list (str * json)) : json := JObj fields.

Definition jstr (s : string) : json := JStr (lit s).

(** An OpenCode storage with one session of two messages; the tool part of
    the second message has a number where a title is expected. *)
Definition brokenToolStorage : OpenCodeStorage :=
  mkStorage
    [Some (obj [field "id" (jstr "s1"); field "title" (jstr "Demo");
                field "time" (obj [field "created" (JNum epoch2026);
                              field "updated" (JNum (epoch2026 + 1000))])])]
    (fun sessionId =>
       if strEqb sessionId (lit "s1") then
         [Some (obj [field "id" (jstr "m1"); field "role" (jstr "user");
                     field "time" (obj [field "created" (JNum epoch2026)])]);
          Some (obj [field "id" (jstr "m2"); field "role" (jstr "assistant");
                     field "time"
                       (obj [field "created" (JNum (epoch2026 + 1000))]);
                     field "summary"
                       (obj [field "title" (jstr "ran a tool")])])]
       else [])
    (fun messageId =>
       if strEqb messageId (lit "m1") then
         [Some (obj [field "id" (jstr "p1"); field "type" (jstr "text");
                     field "text" (jstr "hello")])]
       else if strEqb messageId (lit "m2") then
         [Some (obj [field "id" (jstr "p2"); field "type" (jstr "tool");
                     field "tool" (jstr "bash");
                     field "state" (obj [field "title" (JNum 5)])])]
       else []).

Definition emptyStorage : OpenCodeStorage :=
  mkStorage [] (fun _ => []) (fun _ => []).

(** The same storage with a proper title in the tool part. *)
Definition soundStorage : OpenCodeStorage :=
  mkStorage (sessionFiles brokenToolStorage) (messageFiles brokenToolStorage)
    (fun messageId =>
       if strEqb messageId (lit "m2") then
         [Some (obj [field "id" (jstr "p2"); field "type" (jstr "tool");
                     field "tool" (jstr "bash");
                     field "state" (obj [field "title" (jstr "ls")])])]
       else partFiles brokenToolStorage messageId).

(** In the example environment the default Claude root holds a log with
    the line [null], on which the scan throws, and the default OpenCode
    home holds the sound storage. *)

(** A Claude log whose event has a content array that starts with an entry
    that is not an object. *)
Definition gapEvent : json :=
  obj [field "sessionId" (jstr "c1"); field "uuid" (jstr "u1");
       field "type" (jstr "assistant");
       field "timestamp" (jstr "2026-01-01T00:00:00.000Z");
       field "message" (obj [field "content" (JArr [jstr "note";
                               obj [field "type" (jstr "text");
                                    field "text" (jstr "hi")]])])].

(** Two events of one session: one dated before the epoch, one undated. *)
Definition oldEvent : json :=
  obj [field "sessionId" (jstr "c2"); field "uuid" (jstr "u2");
       field "type" (jstr "user");
       field "timestamp" (jstr "1969-12-31T23:59:59.000Z");
       field "content" (jstr "old")].

Definition undatedEvent : json :=
  obj [field "sessionId" (jstr "c2"); field "uuid" (jstr "u3");
       field "type" (jstr "user");
       field "content" (jstr "undated")].

Definition exampleEnvironment : Environment := {|
  DEFAULT_LOOKBACK_DAYS := 30%Z;
  DEFAULT_CLAUDE_ROOT := lit "/null";
  DEFAULT_OPENCODE_HOME := lit "/sound";
  claudeLogs := fun root =>
    if strEqb root (lit "/logs/projects") then
      [mkClaudeFile (lit "/logs/projects/a.jsonl") epoch2026
         [Some gapEvent; None]]
    else if strEqb root (lit "/null/projects") then
      [mkClaudeFile (lit "/null/projects/a.jsonl") epoch2026 [Some JNull]]
    else [];
  openCodeStorage := fun root =>
    if strEqb root (lit "/broken") then brokenToolStorage
    else if strEqb root (lit "/sound") then soundStorage
    else emptyStorage
|}.

Definition exampleNow : Z := (epoch2026 + 5000)%Z.

Definition gapFile : ClaudeFile :=
  mkClaudeFile (lit "/logs/projects/a.jsonl") epoch2026 [Some gapEvent].

Definition oldFile : ClaudeFile :=
  mkClaudeFile (lit "/logs/projects/b.jsonl") epoch2026
    [Some undatedEvent; Some oldEvent].

(** The lower bound of a scan with a look-back of thirty days, and of one
    with a look-back of a hundred years. *)
Definition sinceThirtyDays : option Z :=
  @scanSince examplePlatform None exampleNow 30.

Definition sinceCentury : option Z :=
  @scanSince examplePlatform None exampleNow 36500.

(** The messages of the first session of the sound storage. *)
Definition soundMessages : list MessageInput.t :=
  match fst (@openCodeScan examplePlatform sinceThirtyDays soundStorage) with
  | s :: _ => SessionInput.messages s
  | [] => []
  end.

(** A store in which source 1 has a checkpoint, and two rows for source 1:
    adapter B over the sound storage with a look-back of thirty days, and
    adapter A over the logs with a look-back of two hundred million days,
    whose start is beyond the range of dates. *)
Definition laterCheckpoint : str := lit "2026-01-01T00:00:01.000Z".

Definition laterCheckpointStore : Store :=
  setCheckpoints [CheckpointRow.mk 1 lastTimestamp laterCheckpoint]
    (setNextId 5 emptyStore).


Definition farLookbackSource : SourceRow.t :=
  SourceRow.mk 1 (lit "claude-default") CLAUDE (lit "Claude default")
    (Some (lit "/logs")) None 200000000%Z 15%Z true None None None None.

(** ** Vocabulary of the text statements *)

(** [a] is [b] with some elements left out. *)
Inductive Subseq {A : Type} : list A -> list A -> Prop :=
| Subseq_nil : Subseq [] []
| Subseq_keep : forall x a b, Subseq a b -> Subseq (x :: a) (x :: b)
| Subseq_drop : forall x a b, Subseq a b -> Subseq a (x :: b).

(** No white space at either end. *)
Definition Trimmed (s : str) : Prop :=
  (forall c rest, s = c :: rest -> isSpace c = false)
  /\ (forall front c, s = front ++ [c] -> isSpace c = false).

(** Every white-space character of the text is a plain space. *)
Definition SpacesOnly (s : str) : Prop :=
  forall c, In c s -> isSpace c = true -> c = SP.

(** ** Vocabulary of the transcript statements *)

(** The role named by the label of a chunk's first line, when it has one. *)
Definition labelRole (chunk : str) : option ParsedRole :=
  match matchLabel "user:" (firstLineOf chunk) with
  | Some _ => Some RoleUser
  | None =>
      match matchLabel "assistant:" (firstLineOf chunk) with
      | Some _ => Some RoleAssistant
      | None =>
          match matchLabel "tool:" (firstLineOf chunk) with
          | Some _ => Some RoleTool
          | None => None
          end
      end
  end.

(** ** Vocabulary of the statements on the upsert path *)

(** The sessions [persistSessions] writes: those with an external id and at
    least one message. *)
Definition persistable (s : SessionInput.t) : bool :=
  nonEmpty (SessionInput.externalSessionId s)
  && negb (length (SessionInput.messages s) =? 0).

Definition messagesOf (inputs : list SessionInput.t) : list MessageInput.t :=
  flat_map SessionInput.messages (filter persistable inputs).

Definition partsOf (inputs : list SessionInput.t) : list PartInput.t :=
  flat_map MessageInput.parts (messagesOf inputs).

(** The text of the part is a string or is absent. *)
Definition textIsString (p : PartInput.t) : bool :=
  match PartInput.text p with
  | Some (JStr _) | None => true
  | Some _ => false
  end.

(** A session row that is not under the natural key of a source tool: it
    belongs to another tool or has no external session id. *)
Definition foreignSession (sourceToolId : nat) (r : SessionRow.t) : bool :=
  negb (SessionRow.sourceToolId r =? sourceToolId)
  || match SessionRow.externalSessionId r with
     | Some _ => false
     | None => true
     end.

(** From [a] to [b] every such row is still in the table, as it was. *)
Definition SparesForeign (sourceToolId : nat) (a b : Store) : Prop :=
  forall r, In r (sessions a) -> foreignSession sourceToolId r = true ->
            In r (sessions b).

(** The workspace and the source tool a session row refers to are in
    their tables. *)
Definition Referenced (workspaceId sourceToolId : nat) (st : Store) : Prop :=
  In workspaceId (map WorkspaceRow.id (workspaces st))
  /\ In sourceToolId (map SourceToolRow.id (sourceTools st)).

(** A store computation whose final store is related to the initial one,
    whether it returns or throws. *)
Definition Respects (R : Store -> Store -> Prop) {A : Type} (m : M A)
  : Prop :=
  forall st, R st (storeOf (m st)).

(** Two sessions, the second without messages, and a session of one
    message with a text part. *)
Definition examplePart : PartInput.t :=
  PartInput.mk (lit "p1") TEXT (Some (JStr (lit "hello"))) None None 0.

Definition exampleMessage : MessageInput.t :=
  MessageInput.mk (lit "m1") USER None None (lit "hello") None None 0
    [examplePart].

Definition exampleSessions : list SessionInput.t :=
  [SessionInput.mk (lit "s1") None (lit "One") None None None None
     [exampleMessage];
   SessionInput.mk (lit "s2") None (lit "Two") None None None None []].

(** A store with workspace 0, the tools 1 and 2, a session entered by hand
    and a session of tool 2. *)
Definition manualRow : SessionRow.t :=
  SessionRow.mk 3 0 1 None None (lit "By hand") None None None None
    (Some (lit "manual-entry")) (Some epoch2026).

Definition otherToolRow : SessionRow.t :=
  SessionRow.mk 4 0 2 (Some (lit "s1")) None (lit "Other tool") None None None
    None (Some (lit "opencode-watcher")) (Some epoch2026).

Definition mixedStore : Store :=
  setSessions [manualRow; otherToolRow]
    (setSourceTools
       [SourceToolRow.mk 1 (lit "claude-code") (lit "Claude Code");
        SourceToolRow.mk 2 (lit "opencode") (lit "OpenCode")]
       (setWorkspaces
          [WorkspaceRow.mk 0 (lit "Default Workspace") (lit "default")]
          (setNextId 5 emptyStore))).

(** ** Vocabulary of the statements on the scans *)

(** The maximum timestamp of a scan is at or after a time, when the time
    is there. *)
Definition CoversTime (maxT time : option Z) : Prop :=
  forall t, time = Some t -> exists mx, maxT = Some mx /\ (t <= mx)%Z.

(** The same for the time of a message. *)
Definition Covers (maxT : option Z) (m : MessageInput.t) : Prop :=
  CoversTime maxT (MessageInput.sourceTimestamp m).

(** The maximum timestamp of a scan, when there is one, is at or after the
    lower bound of the scan. *)
Definition AtLeast (since : option Z) (maxT : option Z) : Prop :=
  forall mx, maxT = Some mx -> before mx since = false.

(** A log file the scan reads (it is not older than the lower bound) with a
    line that parses to [null]. *)
Definition hasNullLine (since : option Z) (file : ClaudeFile) : Prop :=
  before (mtime file) since = false /\ In (Some JNull) (fileLines file).

(** A message as adapter A builds it: the content is not empty and has no
    white space at either end, and the text of every part is a string or
    absent. *)
Definition WellBuilt (m : MessageInput.t) : Prop :=
  MessageInput.content m <> []
  /\ Trimmed (MessageInput.content m)
  /\ forallb textIsString (MessageInput.parts m) = true.

(** What the scan of adapter A maintains. *)
Definition ClaudeInv (since : option Z) (st : ScanState) : Prop :=
  NoDup (map SessionInput.externalSessionId (scanSessions st))
  /\ (forall s, In s (scanSessions st) ->
        SessionInput.externalSessionId s <> []
        /\ SessionInput.messages s <> [])
  /\ (forall s m, In s (scanSessions st) ->
        In m (SessionInput.messages s) ->
        WellBuilt m /\ Covers (scanMax st) m)
  /\ AtLeast since (scanMax st).

(** What the scan of adapter B maintains. *)
Definition OpenCodeInv (since : option Z) (st : ScanState) : Prop :=
  (forall s, In s (scanSessions st) ->
     SessionInput.externalSessionId s <> []
     /\ CoversTime (scanMax st) (SessionInput.lastActivityAt s))
  /\ (forall s m, In s (scanSessions st) ->
        In m (SessionInput.messages s) ->
        MessageInput.content m <> [] /\ Covers (scanMax st) m)
  /\ AtLeast since (scanMax st).

(** A store in which source 1 has a checkpoint, and the row of a source of
    adapter B over the sound storage. *)
Definition checkpointedStore : Store :=
  setCheckpoints
    [CheckpointRow.mk 1 lastTimestamp (lit "2026-01-01T00:00:00.000Z")]
    (setNextId 5 emptyStore).

Definition soundSource : SourceRow.t :=
  SourceRow.mk 1 (lit "opencode-default") OPENCODE (lit "OpenCode default")
    (Some (lit "/sound")) None 30%Z 15%Z true None None None None.

(** ** Vocabulary of the further orchestrator statements *)

(** What a source row holds besides the three columns that
    [ensureDefaultIngestionSources] resets. *)
Definition sourceSettings (r : SourceRow.t)
  : nat * str * IngestionSourceType * str * Z * bool
    * (option Z * option Z * option Z * option str) :=
  (SourceRow.id r, SourceRow.key r, SourceRow.type r, SourceRow.name r,
   SourceRow.pollIntervalSec r, SourceRow.isEnabled r,
   (SourceRow.lastRunAt r, SourceRow.lastSuccessAt r, SourceRow.lastErrorAt r,
    SourceRow.statusMessage r)).

(** A run record that has come to its end at time [now]. *)
Definition Finished (now : Z) (mode : IngestionMode) (run : RunRow.t)
  : Prop :=
  RunRow.mode run = mode
  /\ (RunRow.status run = SUCCESS \/ RunRow.status run = FAILED)
  /\ RunRow.finishedAt run = Some now.

(** A source of a type that has no adapter. *)
Definition cursorSource : SourceRow.t :=
  SourceRow.mk 9 (lit "cursor") (OtherSourceType (lit "CURSOR"))
    (lit "Cursor") None None 30%Z 15%Z true None None None None.

(** A store whose default source of adapter A has been disabled. *)
Definition disabledClaudeStore : Store :=
  setSources
    [SourceRow.mk 0 (lit "claude-default") CLAUDE (lit "Claude default")
       (Some (lit "/old")) None 7%Z 30%Z false None None None None]
    (setNextId 1 emptyStore).

(** ** Vocabulary of the statements on the bundle entry point *)

Definition sumZ (l : list Z) : Z := fold_right Z.add 0%Z l.

(** [message.totalTokens ?? (promptTokens ?? 0) + (completionTokens ?? 0)]. *)
Definition totalOf (m : CanonicalMessage.t) : Z :=
  match CanonicalMessage.totalTokens m with
  | Some t => t
  | None =>
      (zeroIfUndefined (CanonicalMessage.promptTokens m)
       + zeroIfUndefined (CanonicalMessage.completionTokens m))%Z
  end.

(** The message rows of a bundle: identifiers and ordinals count up from
    [firstId] and [ordinal]. *)
Fixpoint bundleMessageRows (sessionId firstId ordinal : nat)
  (items : list CanonicalMessage.t) : list MessageRow.t :=
  match items with
  | [] => []
  | m :: rest =>
      MessageRow.mk firstId sessionId None
        (bundleRole (CanonicalMessage.role m)) None None
        (CanonicalMessage.content m) (CanonicalMessage.metadata m) None
        ordinal (CanonicalMessage.promptTokens m)
        (CanonicalMessage.completionTokens m)
        (CanonicalMessage.totalTokens m)
      :: bundleMessageRows sessionId (S firstId) (S ordinal) rest
  end.

(** The slug a tag name is stored under. *)
Definition slugOf (rawTagName : str) : str :=
  replaceRunsFrom "-"%char false (toLowerCase (trim rawTagName)).

(** The slugs of the tag names that are not blank. *)
Definition slugsOf (rawTagNames : list str) : list str :=
  map slugOf (filter (fun raw => nonEmpty (trim raw)) rawTagNames).

(** The largest value of an INTEGER column. *)
Definition maxInteger : Z := 2147483647.

Definition fitsInteger (n : Z) : bool := (n <=? maxInteger)%Z.

(** Every token count of the bundle fits the INTEGER column it is written
    to, and so does each of the three totals of the metric snapshot. *)
Definition TokensFit (b : Bundle.t) : Prop :=
  Forall (fun m =>
            optAll fitsInteger (CanonicalMessage.promptTokens m) = true
            /\ optAll fitsInteger (CanonicalMessage.completionTokens m) = true
            /\ optAll fitsInteger (CanonicalMessage.totalTokens m) = true)
    (Bundle.messages b)
  /\ (sumZ (map (fun m => zeroIfUndefined (CanonicalMessage.promptTokens m))
              (Bundle.messages b)) <= maxInteger)%Z
  /\ (sumZ (map (fun m =>
                   zeroIfUndefined (CanonicalMessage.completionTokens m))
              (Bundle.messages b)) <= maxInteger)%Z
  /\ (sumZ (map totalOf (Bundle.messages b)) <= maxInteger)%Z.

(** No session of the source tool has the external id of the bundle. *)
Definition NewKey (input : IngestInput) (st : Store) : Prop :=
  match Bundle.externalSessionId (bundle input) with
  | Some ext =>
      existsb (sessionHasKey (inputSourceToolId input) ext) (sessions st)
      = false
  | None => True
  end.

(** The identifiers of the tags are distinct and below the counter of
    fresh identifiers, and so is the session of every tag link. *)
Definition TagsFresh (st : Store) : Prop :=
  NoDup (map TagRow.id (tags st))
  /\ Forall (fun t => TagRow.id t < nextId st) (tags st)
  /\ Forall (fun r => SessionTagRow.sessionId r < nextId st)
       (sessionTags st).

(** The tag a slug resolves to. *)
Definition lookTag (st : Store) (slug : str) : option TagRow.t :=
  find (fun r => strEqb (TagRow.slug r) slug) (tags st).

(** What a task row holds besides its identifier. *)
Definition taskCore (r : TaskRow.t)
  : nat * str * option str * TaskStatus * TaskPriority :=
  (TaskRow.sessionId r, TaskRow.title r, TaskRow.description r,
   TaskRow.status r, TaskRow.priority r).

(** The same for an artifact row. *)
Definition artifactCore (r : ArtifactRow.t)
  : nat * option nat * str * str * str :=
  (ArtifactRow.sessionId r, ArtifactRow.messageId r, ArtifactRow.type r,
   ArtifactRow.name r, ArtifactRow.content r).

(** A bundle of two messages with token counts, a task, two tags and two
    artifacts, the second of which points behind the last message. *)
Definition fullInput : IngestInput :=
  mkInput
    (Bundle.mk (lit "Full") None (Some (lit "ext-9")) None None
       [CanonicalMessage.mk RoleUser (lit "Hello") None (Some 3%Z) None None;
        CanonicalMessage.mk RoleAssistant (lit "Hi there") None (Some 4%Z)
          (Some 5%Z) (Some 10%Z)]
       (Some [CanonicalTask.mk (lit "todo") None None (Some HIGH)])
       (Some [CanonicalArtifact.mk (lit "file") (lit "a.txt") (lit "x")
                (Some 1%Z) None;
              CanonicalArtifact.mk (lit "file") (lit "b.txt") (lit "y")
                (Some 7%Z) None])
       (Some [lit " Bug Fix "; lit "ui"]))
    0 1 (lit "manual-entry").

(** The same bundle with two tag names of one slug. *)
Definition clashInput : IngestInput :=
  mkInput
    (Bundle.mk (lit "Clash") None None None None
       [CanonicalMessage.mk RoleUser (lit "Hello") None None None None]
       None None (Some [lit "Bug"; lit "bug"]))
    0 1 (lit "manual-entry").

(** A bundle whose message carries a number where the schema asks for an
    object. *)
Definition numberedInput : IngestInput :=
  mkInput
    (Bundle.mk (lit "Numbered") None None None None
       [CanonicalMessage.mk RoleUser (lit "Hello") (Some (JNum 5)) None None
          None]
       None None None)
    0 1 (lit "manual-entry").

(** A store that holds workspace 0 and source tool 1 and nothing else. *)
Definition seededStore : Store :=
  setSourceTools [SourceToolRow.mk 1 (lit "manual") (lit "Manual")]
    (setWorkspaces
       [WorkspaceRow.mk 0 (lit "Default Workspace") (lit "default")]
       (setNextId 2 emptyStore)).

(** What the loop over the tag names maintains for the new session:
    [done] are the slugs attached so far. *)
Definition Linked (sessionId : nat) (done : list str) (st : Store) : Prop :=
  NoDup (map TagRow.id (tags st))
  /\ Forall (fun t => TagRow.id t < nextId st) (tags st)
  /\ (forall r, In r (sessionTags st) ->
        SessionTagRow.sessionId r = sessionId ->
        exists s t, In s done /\ lookTag st s = Some t
                    /\ SessionTagRow.tagId r = TagRow.id t)
  /\ (forall s, In s done ->
        exists t, lookTag st s = Some t
                  /\ In (SessionTagRow.mk sessionId (TagRow.id t))
                       (sessionTags st)).

(** From [a] to [b] only the tags and the tag links have changed, and both
    tables have only grown. *)
Definition OnlyTagsGrow (a b : Store) : Prop :=
  sessions b = sessions a /\ messages b = messages a /\ tasks b = tasks a
  /\ artifacts b = artifacts a /\ metricSnapshots b = metricSnapshots a
  /\ parts b = parts a
  /\ nextId a <= nextId b
  /\ (exists more, tags b = tags a ++ more)
  /\ (exists more, sessionTags b = sessionTags a ++ more).

(** The slugs of the tag names are distinct, and none is in [done]. *)
Definition DistinctSlugs (done : list str) (rawTagNames : list str) : Prop :=
  NoDup (slugsOf rawTagNames)
  /\ forall s, In s (slugsOf rawTagNames) -> ~ In s done.

(** A store computation that throws nothing but [e]. *)
Definition ThrowsOnly (e : Thrown) {A : Type} (m : M A) : Prop :=
  forall st e' st', m st = Threw e' st' -> e' = e.

(** The session row a bundle creates under identifier [id]. *)
Definition bundleSessionRow `{Platform} (now : Z) (input : IngestInput)
  (id : nat) : SessionRow.t :=
  SessionRow.mk id (inputWorkspaceId input) (inputSourceToolId input)
    (Bundle.externalSessionId (bundle input)) None
    (Bundle.title (bundle input))
    (orElse (Bundle.summary (bundle input))
       (deriveBundleSummary (Bundle.messages (bundle input))))
    (toDate (Bundle.startedAt (bundle input)))
    (toDate (Bundle.endedAt (bundle input)))
    None (Some (inputImportSource input)) (Some now).

(** The message an artifact is linked to: the one at the position its
    [messageIndex] names, when there is one. *)
Definition artifactLink (news : list MessageRow.t) (a : CanonicalArtifact.t)
  : option nat :=
  match CanonicalArtifact.messageIndex a with
  | Some index =>
      if (0 <=? index)%Z
      then option_map MessageRow.id (nth_error news (Z.to_nat index))
      else None
  | None => None
  end.

(** What a new bundle leaves in the store [st'], started in [st]. *)
Definition BundleCreated `{Platform} (now : Z) (input : IngestInput)
  (st st' : Store) : Prop :=
  let b := bundle input in
  let id := nextId st in
  let news := bundleMessageRows id (S id) 0 (Bundle.messages b) in
  sessions st' = sessions st ++ [bundleSessionRow now input id]
  /\ messages st' = messages st ++ news
  /\ parts st' = parts st
  /\ (exists newTasks,
        tasks st' = tasks st ++ newTasks
        /\ map taskCore newTasks
           = map (fun task =>
                    (id, CanonicalTask.title task,
                     CanonicalTask.description task,
                     match CanonicalTask.status task with
                     | Some s => s
                     | None => OPEN
                     end,
                     match CanonicalTask.priority task with
                     | Some p => p
                     | None => MEDIUM
                     end)) (listOrEmpty (Bundle.tasks b)))
  /\ (exists newArtifacts,
        artifacts st' = artifacts st ++ newArtifacts
        /\ map artifactCore newArtifacts
           = map (fun a =>
                    (id, artifactLink news a, CanonicalArtifact.type a,
                     CanonicalArtifact.name a, CanonicalArtifact.content a))
               (listOrEmpty (Bundle.artifacts b)))
  /\ (exists metricId,
        metricSnapshots st'
        = metricSnapshots st
          ++ [MetricRow.mk metricId id (inputSourceToolId input)
                (sumZ (map (fun m =>
                              zeroIfUndefined (CanonicalMessage.promptTokens m))
                         (Bundle.messages b)))
                (sumZ (map (fun m =>
                              zeroIfUndefined
                                (CanonicalMessage.completionTokens m))
                         (Bundle.messages b)))
                (sumZ (map totalOf (Bundle.messages b)))
                (sumZ (map totalOf (Bundle.messages b)))])
  /\ Linked id (slugsOf (listOrEmpty (Bundle.tags b))) st'
  /\ (exists more, tags st' = tags st ++ more)
  /\ (exists more, sessionTags st' = sessionTags st ++ more).

(** From [a] to [b] the sessions are as they were. *)
Definition SameSessions (a b : Store) : Prop := sessions b = sessions a.

(** ** The manual entry route ([POST] of the manual-session route)

    The route reads the JSON body of the request, checks it against
    [manualSessionSchema], joins the messages of the body with those
    parsed from the pasted transcript, and hands them to
    [ingestCanonicalBundle] as a bundle without an external session id. *)

Module ManualSession.
Record t := mk {
  workspaceId : str;
  sourceToolId : str;
  title : str;
  summary : option str;
  transcript : option str;
  messages : option (list ParsedMessage)
}.
End ManualSession.

(** [z.string().min(1)] on a property; [None] is a validation issue. *)
Definition requiredString (v : option json) : option str :=
  match v with
  | Some (JStr s) => if nonEmpty s then Some s else None
  | _ => None
  end.

(** [z.string().optional()]: [Some None] is the absent property. *)
Definition optionalString (v : option json) : option (option str) :=
  match v with
  | None => Some None
  | Some (JStr s) => Some (Some s)
  | Some _ => None
  end.

(** [z.enum(["user", "assistant", "tool"])]. *)
Definition roleEnum (v : option json) : option ParsedRole :=
  match v with
  | Some (JStr s) =>
      if strEqb s (lit "user") then Some RoleUser
      else if strEqb s (lit "assistant") then Some RoleAssistant
      else if strEqb s (lit "tool") then Some RoleTool
      else None
  | _ => None
  end.

(** The object schema of one message of the body. *)
Definition messageSchema (v : json) : option ParsedMessage :=
  match v with
  | JObj _ =>
      match roleEnum (prop "role" v), requiredString (prop "content" v) with
      | Some role, Some content => Some (mkParsed role content)
      | _, _ => None
      end
  | _ => None
  end.

(** An array schema: every element has to pass. *)
Fixpoint arrayOf {A : Type} (schema : json -> option A) (items : list json)
  : option (list A) :=
  match items with
  | [] => Some []
  | item :: rest =>
      match schema item, arrayOf schema rest with
      | Some x, Some xs => Some (x :: xs)
      | _, _ => None
      end
  end.

Definition optionalMessages (v : option json)
  : option (option (list ParsedMessage)) :=
  match v with
  | None => Some None
  | Some (JArr items) => option_map Some (arrayOf messageSchema items)
  | Some _ => None
  end.

(** [manualSessionSchema.parse(body)]; [None] is the thrown [ZodError]. *)
Definition manualSessionSchema (body : json) : option ManualSession.t :=
  match body with
  | JObj _ =>
      match requiredString (prop "workspaceId" body),
            requiredString (prop "sourceToolId" body),
            requiredString (prop "title" body),
            optionalString (prop "summary" body),
            optionalString (prop "transcript" body),
            optionalMessages (prop "messages" body) with
      | Some workspaceId, Some sourceToolId, Some title, Some summary,
        Some transcript, Some messages =>
          Some (ManualSession.mk workspaceId sourceToolId title summary
                  transcript messages)
      | _, _, _, _, _, _ => None
      end
  | _ => None
  end.

(** [message.content.trim().length > 0]. *)
Definition notBlank (m : ParsedMessage) : bool :=
  0 <? length (trim (parsedContent m)).

(** The messages of the bundle: those of the body, then those of the
    transcript, without the blank ones. *)
Definition manualMessages (parsed : ManualSession.t) : list ParsedMessage :=
  let transcriptMessages :=
    match truthy (ManualSession.transcript parsed) with
    | Some transcript => parseTranscript transcript
    | None => []
    end in
  let providedMessages := listOrEmpty (ManualSession.messages parsed) in
  filter notBlank (providedMessages ++ transcriptMessages).

Definition manualMessage (m : ParsedMessage) : CanonicalMessage.t :=
  CanonicalMessage.mk (parsedRole m) (parsedContent m) None None None None.

Definition manualBundle (parsed : ManualSession.t)
  (messages : list ParsedMessage) : Bundle.t :=
  Bundle.mk (ManualSession.title parsed) (ManualSession.summary parsed)
    None None None (map manualMessage messages) None None None.

Definition manualEntry : str := lit "manual-entry".

(** What the route answers: the status and, for 200 and 500, the body. *)
Inductive Response :=
| Ok200 (result : IngestResult)
| NoMessage400
| Validation422
| Failure500 (message : str).

(** [error instanceof z.ZodError]. *)
Definition isZodError (error : Thrown) : bool :=
  match error with
  | ErrorObject message => strEqb message (lit "ZodError")
  | OtherValue => false
  end.

(** The route, from the parsed body of the request on.  Identifiers are
    strings in a request and numbers in the store; [rowId] reads the one
    as the other. *)
Definition POST `{Platform} (rowId : str -> nat) (now : Z) (body : json)
  : M Response :=
  tryCatch
    (match manualSessionSchema body with
     | None => throw schemaError
     | Some parsed =>
         let messages := manualMessages parsed in
         if length messages =? 0 then ret NoMessage400
         else
           result <-
             ingestCanonicalBundle now
               (mkInput (manualBundle parsed messages)
                  (rowId (ManualSession.workspaceId parsed))
                  (rowId (ManualSession.sourceToolId parsed))
                  manualEntry) ;;
           ret (Ok200 result)
     end)
    (fun error =>
       if isZodError error then ret Validation422
       else
         ret (Failure500
                match error with
                | ErrorObject message => message
                | OtherValue => lit "Manual session creation failed."
                end)).

(** What a manual entry leaves in the store [st'], started in [st]. *)
Definition ManualCreated `{Platform} (rowId : str -> nat) (now : Z)
  (parsed : ManualSession.t) (st st' : Store) : Prop :=
  let kept := manualMessages parsed in
  exists news,
    sessions st'
    = sessions st
      ++ [SessionRow.mk (nextId st)
            (rowId (ManualSession.workspaceId parsed))
            (rowId (ManualSession.sourceToolId parsed)) None None
            (ManualSession.title parsed)
            (orElse (ManualSession.summary parsed)
               (deriveBundleSummary (map manualMessage kept)))
            None None None (Some manualEntry) (Some now)]
    /\ messages st' = messages st ++ news
    /\ map MessageRow.content news = map parsedContent kept
    /\ map MessageRow.role news
       = map (fun m => bundleRole (parsedRole m)) kept
    /\ map MessageRow.ordinal news = seq 0 (length kept)
    /\ Forall (fun r => MessageRow.sessionId r = nextId st) news
    /\ tasks st' = tasks st /\ tags st' = tags st
    /\ sessionTags st' = sessionTags st /\ artifacts st' = artifacts st
    /\ parts st' = parts st
    /\ workspaces st' = workspaces st /\ sourceTools st' = sourceTools st
    /\ nextId st < nextId st'.

(** A body with a blank message, and a transcript of two chunks of which
    the second has a label and nothing after it. *)
Definition exampleBody : json :=
  obj [field "workspaceId" (jstr "w0"); field "sourceToolId" (jstr "t1");
       field "title" (jstr "Pairing notes");
       field "transcript" (JStr (js "How do I start?\n\nassistant:"));
       field "messages"
         (JArr [obj [field "role" (jstr "tool");
                     field "content" (jstr "ran ls")];
                obj [field "role" (jstr "user");
                     field "content" (jstr "   ")]])].

(** A body that passes the schema and has no message to keep. *)
Definition blankBody : json :=
  obj [field "workspaceId" (jstr "w0"); field "sourceToolId" (jstr "t1");
       field "title" (jstr "Nothing"); field "transcript" (jstr "  ");
       field "messages"
         (JArr [obj [field "role" (jstr "user");
                     field "content" (jstr " ")]])].

(** Identifier ["w0"] is row 0, every other identifier row 1. *)
Definition exampleRowId (id : str) : nat :=
  if strEqb id (lit "w0") then 0 else 1.

(** ** Model filter of the session list ([getSessionFilters],
    [splitModelKey]) *)

(** [value?.trim() ?? ""]. *)
Definition trimOrEmpty (value : option str) : str :=
  match value with
  | Some s => trim s
  | None => []
  end.

(** The callback of [modelRows.map] in [getSessionFilters]: the key and
    the label of a model of the filter; [None] is [null], which the
    following [filter(Boolean)] drops. *)
Definition modelOption (modelProvider modelId : option str)
  : option (str * str) :=
  let provider := trimOrEmpty modelProvider in
  let modelId := trimOrEmpty modelId in
  if negb (nonEmpty provider) && negb (nonEmpty modelId) then None
  else
    Some (provider ++ lit "/" ++ modelId,
          if nonEmpty provider && nonEmpty modelId
          then provider ++ lit " / " ++ modelId
          else if nonEmpty provider then provider else modelId).

(** The models of the filter, from the distinct pairs the query gives. *)
Definition modelOptions (modelRows : list (option str * option str))
  : list (str * str) :=
  dropNulls (map (fun row => modelOption (fst row) (snd row)) modelRows).

(** [splitModelKey]: the provider and the model id, [None] for
    [undefined]. *)
Definition splitModelKey (modelKey : str) : option str * option str :=
  let pieces := splitOn "/"%char modelKey in
  let provider := hd [] pieces in
  let modelId := joinWith (lit "/") (tl pieces) in
  (truthy (Some provider), truthy (Some modelId)).

(** ** Vocabulary of the statement on [orderMessages] *)

(** A message without regard to its ordinal. *)
Definition unnumbered (m : MessageInput.t) : MessageInput.t :=
  MessageInput.setOrdinal 0 m.

(** The messages of a list that have time key [t], in their order. *)
Definition atTime (t : Z) (messages : list MessageInput.t)
  : list MessageInput.t :=
  filter (fun m => (timeKey m =? t)%Z) (map unnumbered messages).

(** ** Vocabulary of the statement on [deriveBundleSummary] *)

(** The message [deriveBundleSummary] looks at: the first assistant
    message, else the first user message, else [messages[0]]. *)
Definition bundleBest (messages : list CanonicalMessage.t)
  : option CanonicalMessage.t :=
  orElse
    (find (fun m => parsedRoleEqb (CanonicalMessage.role m) RoleAssistant)
       messages)
    (orElse
       (find (fun m => parsedRoleEqb (CanonicalMessage.role m) RoleUser)
          messages)
       (hd_error messages)).

(** The content with every run of white space turned into one space and
    none left at the ends. *)
Definition oneLine (content : str) : str := trim (collapseSpaces content).

Unset Implicit Arguments.
(* ====================================================================== *)
(** * Part II: lemmas and theorems                                         *)
(* ====================================================================== *)

(** ** Summary derivation *)

Lemma roleEqb_eq : forall a b, roleEqb a b = true <-> a = b.
Proof. intros [] []; simpl; split; intro; congruence. Qed.

Lemma find_FirstWith : forall r messages m,
  find (hasRole r) messages = Some m -> FirstWith r messages m.
Proof.
  intros r messages; induction messages as [|x rest IH]; intros m Hf.
  - discriminate.
  - simpl in Hf. destruct (hasRole r x) eqn:Hx.
    + inversion Hf; subst. exists [], rest. split; [reflexivity|].
      split; [apply roleEqb_eq; exact Hx | intros y []].
    + destruct (IH m Hf) as (before & after & Heq & Hr & Hb).
      exists (x :: before), after. split; [simpl; now rewrite Heq|].
      split; [exact Hr|]. intros y [Hy|Hy].
      * subst y. intro E. apply roleEqb_eq in E. unfold hasRole in Hx.
        congruence.
      * now apply Hb.
Qed.

Lemma find_NoneWith : forall r messages,
  find (hasRole r) messages = None <-> NoneWith r messages.
Proof.
  intros r messages; split.
  - intros Hf x Hin E. apply (find_none _ _ Hf) in Hin.
    unfold hasRole in Hin. apply roleEqb_eq in E. congruence.
  - intros Hn. destruct (find (hasRole r) messages) eqn:Hf; [|reflexivity].
    apply find_some in Hf. destruct Hf as [Hin Hr].
    apply roleEqb_eq in Hr. now apply Hn in Hin.
Qed.

Lemma FirstWith_unique : forall r messages m m',
  FirstWith r messages m -> FirstWith r messages m' -> m = m'.
Proof.
  intros r messages m m' (b & a & E & R & N) (b' & a' & E' & R' & N').
  rewrite E in E'. clear E. revert b' E' N'.
  induction b as [|x b IH]; intros [|y b'] E' N'; simpl in E'.
  - now inversion E'.
  - injection E' as E1 E2. exfalso. apply (N' y); [now left | congruence].
  - injection E' as E1 E2. exfalso. apply (N x); [now left | congruence].
  - injection E' as E1 E2. apply (IH (fun z Hz => N z (or_intror Hz)) b').
    + assumption.
    + intros z Hz. apply N'. now right.
Qed.

Lemma FirstWith_not_NoneWith : forall r messages m,
  FirstWith r messages m -> NoneWith r messages -> False.
Proof.
  intros r messages m (b & a & E & R & _) N. subst messages.
  apply (N m); [apply in_or_app; right; now left | exact R].
Qed.

(** [bestMessage] is the message described by [Chosen]. *)
Lemma bestMessage_Chosen : forall messages m,
  Chosen messages m <-> bestMessage messages = Some m.
Proof.
  intros messages m. unfold bestMessage, orElse. split.
  - intros [Ha | [[Na Hu] | [Na [Nu Hh]]]].
    + destruct (find (hasRole ASSISTANT) messages) eqn:Fa.
      * f_equal. eapply FirstWith_unique; [apply find_FirstWith|]; eassumption.
      * apply find_NoneWith in Fa. exfalso.
        eapply FirstWith_not_NoneWith; eassumption.
    + apply find_NoneWith in Na. rewrite Na.
      destruct (find (hasRole USER) messages) eqn:Fu.
      * f_equal. eapply FirstWith_unique; [apply find_FirstWith|]; eassumption.
      * apply find_NoneWith in Fu. exfalso.
        eapply FirstWith_not_NoneWith; eassumption.
    + apply find_NoneWith in Na. apply find_NoneWith in Nu.
      now rewrite Na, Nu.
  - destruct (find (hasRole ASSISTANT) messages) eqn:Fa.
    + intros E; inversion E; subst. left. now apply find_FirstWith.
    + apply find_NoneWith in Fa.
      destruct (find (hasRole USER) messages) eqn:Fu.
      * intros E; inversion E; subst. right; left. split; [assumption|].
        now apply find_FirstWith.
      * apply find_NoneWith in Fu. intros E. right; right. now repeat split.
Qed.

Lemma bestMessage_nonempty : forall messages,
  messages <> [] -> exists m, bestMessage messages = Some m.
Proof.
  intros [|x rest] Hne; [congruence|]. unfold bestMessage, orElse.
  destruct (find (hasRole ASSISTANT) (x :: rest)); [eauto|].
  destruct (find (hasRole USER) (x :: rest)); [eauto|]. simpl. eauto.
Qed.

Lemma nonEmpty_false : forall s : str, nonEmpty s = false <-> s = [].
Proof. intros []; simpl; split; congruence. Qed.

Lemma nonEmpty_true : forall s : str, nonEmpty s = true <-> s <> [].
Proof. intros []; simpl; split; congruence. Qed.

(** ** Text sanitizer *)

Lemma eqCI_same : forall p c d, canon c = canon d -> eqCI p c = eqCI p d.
Proof. intros p c d E. unfold eqCI. now rewrite E. Qed.

Lemma SameCI_cons : forall o q0 qt,
  SameCI o (q0 :: qt) ->
  exists o0 ot, o = o0 :: ot /\ canon o0 = canon q0 /\ SameCI ot qt.
Proof.
  intros [|o0 ot] q0 qt H; unfold SameCI in H; simpl in H; [discriminate|].
  injection H as H0 Ht. now exists o0, ot.
Qed.

Lemma SameCI_length : forall a b, SameCI a b -> length a = length b.
Proof.
  intros a b H. unfold SameCI in H.
  rewrite <- (length_map canon a), H. apply length_map.
Qed.

Lemma SameCI_inert : forall a b, SameCI a b -> inert b = true -> inert a = true.
Proof.
  intros a b. revert a. induction b as [|y b IH]; intros [|x a] H Hb;
    unfold SameCI in H; simpl in H; try discriminate; [reflexivity|].
  injection H as Hx Ha. simpl in *. apply andb_true_iff in Hb as [Hy Hb].
  apply andb_true_iff. split; [|now apply IH].
  now rewrite (eqCI_same LT _ _ Hx).
Qed.

Lemma startsCI_same : forall tag o rest,
  SameCI o tag -> startsCI tag (o ++ rest) = true.
Proof.
  induction tag as [|t tag IH]; intros o rest H.
  - reflexivity.
  - apply SameCI_cons in H as (o0 & ot & -> & H0 & Ht). simpl.
    apply andb_true_iff. split; [|now apply IH].
    unfold eqCI. rewrite H0. apply Ascii.eqb_refl.
Qed.

Lemma startsCI_clash : forall p q o rest,
  SameCI o q -> clashCI p q = true -> startsCI p (o ++ rest) = false.
Proof.
  induction p as [|x p IH]; intros q o rest H Hc; [discriminate|].
  destruct q as [|y q]; [discriminate|].
  apply SameCI_cons in H as (o0 & ot & -> & H0 & Ht). simpl in *.
  rewrite (eqCI_same x _ _ H0).
  destruct (eqCI x y); simpl in *; [|reflexivity]. now apply (IH q).
Qed.

Lemma eqCI_trans : forall a b c,
  eqCI a b = true -> eqCI c b = true -> eqCI a c = true.
Proof.
  unfold eqCI. intros a b c H1 H2.
  apply Ascii.eqb_eq in H1, H2. apply Ascii.eqb_eq. congruence.
Qed.

Lemma startsCI_app : forall p u w,
  startsCI p u = true -> startsCI p (u ++ w) = true.
Proof.
  induction p as [|x p IH]; intros [|c u] w H; simpl in *;
    try reflexivity; try discriminate.
  apply andb_true_iff in H as [Hc Hu]. now rewrite Hc, (IH u w Hu).
Qed.

(** A pattern without a less-than sign that matches at the start of a text
    matches before the next less-than sign. *)
Lemma startsCI_stops : forall p u w,
  inert p = true -> stops w = true ->
  startsCI p (u ++ w) = true -> startsCI p u = true.
Proof.
  induction p as [|x p IH]; intros u w Hp Hw H; [reflexivity|].
  simpl in Hp. apply andb_true_iff in Hp as [Hx Hp].
  destruct u as [|c u].
  - destruct w as [|c w]; [discriminate|]. simpl in *.
    apply andb_true_iff in H as [Hc _].
    rewrite (eqCI_trans LT c x Hw Hc) in Hx. discriminate.
  - simpl in *. apply andb_true_iff in H as [Hc Hu].
    now rewrite Hc, (IH u w Hp Hw Hu).
Qed.

Lemma occurs_cons : forall p c s,
  occurs p (c :: s) = false ->
  startsCI p (c :: s) = false /\ occurs p s = false.
Proof. intros p c s H. simpl in H. now apply orb_false_iff in H. Qed.

Lemma occurs_app_l : forall p a b,
  occurs p (a ++ b) = false -> occurs p a = false.
Proof.
  intros p a b. induction a as [|c a IH]; intros H.
  - destruct p as [|x p]; [|reflexivity]. destruct b; discriminate.
  - rewrite <- app_comm_cons in H. apply occurs_cons in H as [Hs Ha].
    simpl. rewrite (IH Ha), orb_false_r.
    destruct (startsCI p (c :: a)) eqn:E; [|reflexivity].
    apply (startsCI_app _ _ b) in E. rewrite <- app_comm_cons in E.
    congruence.
Qed.

Lemma occurs_app_r : forall p a b,
  occurs p (a ++ b) = false -> occurs p b = false.
Proof.
  intros p a b. induction a as [|c a IH]; intros H; [exact H|].
  rewrite <- app_comm_cons in H. apply occurs_cons in H as [_ Ha]. auto.
Qed.

(** A tag that matches within a text followed by a less-than sign matches
    within the text alone. *)
Lemma startsCI_tag_stops : forall tag tail c u w,
  tag = LT :: tail -> inert tail = true -> stops w = true ->
  startsCI tag (c :: u) = false -> startsCI tag (c :: u ++ w) = false.
Proof.
  intros tag tail c u w -> Hi Hw H.
  destruct (startsCI (LT :: tail) (c :: u ++ w)) eqn:E; [|reflexivity].
  simpl in E, H. apply andb_true_iff in E as [Hc Hu].
  apply (startsCI_stops _ _ _ Hi Hw) in Hu. rewrite Hc, Hu in H.
  discriminate.
Qed.

Lemma SameCI_stops : forall c tag tail rest,
  tag = LT :: tail -> SameCI c tag -> stops (c ++ rest) = true.
Proof.
  intros c tag tail rest -> H.
  apply SameCI_cons in H as (c0 & ct & -> & H0 & _). simpl.
  unfold eqCI. rewrite H0. apply Ascii.eqb_refl.
Qed.

Section Strip.

Variables opening closing : str.

Local Abbreviation strip := (stripFrom opening closing).

Lemma strip_keep : forall c s,
  startsCI opening (c :: s) = false -> strip 0 (c :: s) = c :: strip 0 s.
Proof. intros c s H. simpl stripFrom. cbv zeta. now rewrite H. Qed.

Lemma strip_skip : forall x rest, strip (length x) (x ++ rest) = strip 0 rest.
Proof. induction x as [|c x IH]; intros rest; [reflexivity| apply IH]. Qed.

Hypothesis opening_LT : exists tail, opening = LT :: tail.

Lemma startsCI_inert : forall c s,
  eqCI LT c = false -> startsCI opening (c :: s) = false.
Proof.
  intros c s H. destruct opening_LT as [tail ->]. simpl. now rewrite H.
Qed.

Lemma strip_inert : forall x rest,
  inert x = true -> strip 0 (x ++ rest) = x ++ strip 0 rest.
Proof.
  induction x as [|c x IH]; intros rest H; [reflexivity|].
  simpl in H. apply andb_true_iff in H as [Hc Hx].
  rewrite <- app_comm_cons, strip_keep.
  - now rewrite IH.
  - apply startsCI_inert. now apply negb_true_iff.
Qed.

Lemma strip_span : forall x rest n,
  startsCI opening (x ++ rest) = true ->
  closeEnd closing (skipn (length opening) (x ++ rest)) = Some n ->
  length x = length opening + n ->
  strip 0 (x ++ rest) = strip 0 rest.
Proof.
  intros x rest n Hs Hc Hl. destruct opening_LT as [tail Ho].
  destruct x as [|c x].
  - rewrite Ho in Hl. simpl in Hl. discriminate.
  - rewrite <- app_comm_cons in *. simpl stripFrom. cbv zeta.
    rewrite Hs, Hc. simpl in Hl.
    replace (length opening + n - 1) with (length x) by lia.
    apply strip_skip.
Qed.

Hypothesis opening_tail : inert (tl opening) = true.

(** A text in which the opening tag does not occur is kept up to the next
    less-than sign. *)
Lemma strip_quiet : forall u w,
  stops w = true -> occurs opening u = false ->
  strip 0 (u ++ w) = u ++ strip 0 w.
Proof.
  intros u w Hw. induction u as [|c u IH]; intros H; [reflexivity|].
  apply occurs_cons in H as [Hs Hu].
  rewrite <- app_comm_cons, strip_keep; [now rewrite IH|].
  destruct opening_LT as [tail E]. rewrite E in opening_tail.
  now apply (startsCI_tag_stops _ tail).
Qed.

End Strip.

(** The lazy match of a span ends at its closing tag when that tag does
    not occur in the body. *)
Lemma closeEnd_quiet : forall closing tail b c rest,
  closing = LT :: tail -> inert tail = true ->
  occurs closing b = false -> SameCI c closing ->
  closeEnd closing (b ++ c ++ rest) = Some (length b + length closing).
Proof.
  intros closing tail b c rest Hcl Hi. induction b as [|x b IH]; intros Hb Hc.
  - simpl app. destruct (c ++ rest) eqn:E.
    + simpl. rewrite <- E, (startsCI_same closing c rest Hc). reflexivity.
    + simpl. rewrite <- E, (startsCI_same closing c rest Hc). reflexivity.
  - apply occurs_cons in Hb as [Hx Hb].
    rewrite <- app_comm_cons. simpl closeEnd.
    rewrite (startsCI_tag_stops closing tail x b (c ++ rest) Hcl Hi);
      [now rewrite (IH Hb Hc) | | exact Hx].
    now apply (SameCI_stops c closing tail).
Qed.

Lemma openTag_LT : forall k, exists tail, openTag k = LT :: tail.
Proof. intros []; eexists; reflexivity. Qed.

Lemma closeTag_LT : forall k, exists tail, closeTag k = LT :: tail.
Proof. intros []; eexists; reflexivity. Qed.

Lemma openTag_tail_inert : forall k, inert (tl (openTag k)) = true.
Proof. intros []; reflexivity. Qed.

Lemma closeTag_tail_inert : forall k, inert (tl (closeTag k)) = true.
Proof. intros []; reflexivity. Qed.

Lemma open_open_clash : forall k k',
  kindEqb k k' = false -> clashCI (openTag k) (openTag k') = true.
Proof. intros [] []; simpl; intros H; try discriminate; reflexivity. Qed.

Lemma open_close_clash : forall k k', clashCI (openTag k) (closeTag k') = true.
Proof. intros [] []; reflexivity. Qed.

(** A tag in any letter case, met by the scan for another tag, is kept. *)
Lemma strip_other_tag : forall k tag o rest,
  SameCI o tag -> clashCI (openTag k) tag = true -> inert (tl tag) = true ->
  stripFrom (openTag k) (closeTag k) 0 (o ++ rest)
  = o ++ stripFrom (openTag k) (closeTag k) 0 rest.
Proof.
  intros k tag o rest Ho Hc Hi.
  destruct tag as [|t tag]; [destruct (openTag k); discriminate|].
  pose proof (startsCI_clash (openTag k) _ _ rest Ho Hc) as Hs.
  apply SameCI_cons in Ho as (o0 & ot & -> & H0 & Ht).
  rewrite <- app_comm_cons in *. rewrite strip_keep by exact Hs.
  rewrite strip_inert; [reflexivity | apply openTag_LT |].
  eapply SameCI_inert; eassumption.
Qed.

Lemma holdsTag_occurs : forall k b,
  holdsTag b = false ->
  occurs (openTag k) b = false /\ occurs (closeTag k) b = false.
Proof.
  intros k b H. unfold holdsTag, tagKinds in H. cbn [existsb] in H.
  rewrite !orb_false_iff in H.
  destruct H as ((? & ?) & (? & ?) & (? & ?) & _).
  destruct k; split; assumption.
Qed.

Lemma holdsOpening_occurs : forall k s,
  holdsOpening s = false -> occurs (openTag k) s = false.
Proof.
  intros k s H. unfold holdsOpening, tagKinds in H. cbn [existsb] in H.
  rewrite !orb_false_iff in H. destruct H as (? & ? & ? & _).
  destruct k; assumption.
Qed.

(** One pass of the sanitizer drops the spans of its kind and keeps the
    rest of a text whose spans are paired, when the opening tag of the
    pass does not occur outside the spans. *)
Lemma stripKind_segments : forall k segs t,
  Forall Paired segs ->
  occurs (openTag k) (t ++ flat_map outside segs) = false ->
  stripKind k (t ++ renderAll segs)
  = t ++ renderAll (filter (fun s => negb (isSpanOf k s)) segs).
Proof.
  intros k segs t H. revert t. unfold stripKind, stripTag, renderAll.
  induction H as [|seg segs Hseg _ IH]; intros t Ht.
  - simpl in *. rewrite strip_quiet;
      [reflexivity | apply openTag_LT | apply openTag_tail_inert
       | reflexivity | now rewrite app_nil_r in Ht].
  - simpl flat_map in *. destruct seg as [t2|k' o b c].
    + simpl filter. simpl flat_map. simpl render. simpl outside in Ht.
      rewrite !app_assoc in *. now apply IH.
    + destruct Hseg as (Ho & Hc & Hb). simpl outside in Ht. simpl app in Ht.
      pose proof (occurs_app_l _ _ _ Ht) as Hl.
      pose proof (occurs_app_r _ _ _ Ht) as Hr.
      destruct (openTag_LT k') as [otail Hotail].
      destruct (closeTag_LT k') as [ctail Hctail].
      simpl render.
      rewrite strip_quiet;
        [| apply openTag_LT | apply openTag_tail_inert
         | rewrite <- app_assoc;
           now apply (SameCI_stops o (openTag k') otail)
         | exact Hl].
      f_equal. specialize (IH [] Hr). simpl app in IH.
      cbn [filter isSpanOf].
      destruct (kindEqb k k') eqn:Ek; cbn [negb].
      * assert (k' = k) by (destruct k, k'; simpl in Ek; congruence).
        subst k'. rewrite <- IH.
        apply strip_span with (n := length b + length (closeTag k)).
        -- apply openTag_LT.
        -- rewrite <- !app_assoc. now apply startsCI_same.
        -- rewrite <- !app_assoc.
           rewrite <- (SameCI_length _ _ Ho), skipn_app, skipn_all.
           rewrite Nat.sub_diag. simpl.
           apply (closeEnd_quiet _ ctail);
             [exact Hctail | | apply (holdsTag_occurs k b Hb) | exact Hc].
           pose proof (closeTag_tail_inert k) as Hi.
           now rewrite Hctail in Hi.
        -- rewrite !length_app, (SameCI_length _ _ Ho).
           rewrite (SameCI_length _ _ Hc). lia.
      * simpl flat_map. simpl render. rewrite <- !app_assoc.
        rewrite (strip_other_tag k (openTag k'));
          [| exact Ho | now apply open_open_clash | apply openTag_tail_inert].
        rewrite strip_quiet;
          [| apply openTag_LT | apply openTag_tail_inert
           | now apply (SameCI_stops c (closeTag k') ctail)
           | apply (holdsTag_occurs k b Hb)].
        rewrite (strip_other_tag k (closeTag k'));
          [| exact Hc | apply open_close_clash | apply closeTag_tail_inert].
        now rewrite IH.
Qed.

Lemma stripKind_spans : forall k segs,
  Forall Paired segs ->
  occurs (openTag k) (flat_map outside segs) = false ->
  stripKind k (renderAll segs)
  = renderAll (filter (fun s => negb (isSpanOf k s)) segs).
Proof. intros k segs H Hk. exact (stripKind_segments k segs [] H Hk). Qed.

Lemma Paired_filter : forall (p : segment -> bool) segs,
  Forall Paired segs -> Forall Paired (filter p segs).
Proof.
  intros p segs H. apply Forall_forall. intros s Hs.
  apply filter_In in Hs as [Hs _]. revert s Hs. now apply Forall_forall.
Qed.

(** Taking spans out leaves the text outside the spans as it is. *)
Lemma outside_filter : forall k segs,
  flat_map outside (filter (fun s => negb (isSpanOf k s)) segs)
  = flat_map outside segs.
Proof.
  intros k segs. induction segs as [|[t|k' o b c] segs IH]; simpl.
  - reflexivity.
  - now rewrite IH.
  - destruct (kindEqb k k'); simpl; exact IH.
Qed.

Lemma render_no_spans : forall segs,
  renderAll
    (filter (fun s => negb (isSpanOf Stdout s))
       (filter (fun s => negb (isSpanOf Reminder s))
          (filter (fun s => negb (isSpanOf Caveat s)) segs)))
  = flat_map outside segs.
Proof.
  induction segs as [|[t|[] o b c] segs IH]; simpl; try assumption.
  - reflexivity.
  - unfold renderAll in *. simpl. now rewrite IH.
Qed.

(** C8, amended.  Take a text made of plain pieces and tagged spans, each
    span an opening tag, a body and the closing tag of the same kind, the
    tags in any letter case, the body on one or several lines.  Let no tag
    occur inside a body, and let no opening tag occur in the text that is
    left when the spans are taken out.  Then the sanitizer returns the
    plain pieces, joined and trimmed: each span is removed from its
    opening tag through its closing tag and nothing else changes but the
    white space at both ends.  Less-than signs that belong to no tag are
    kept like any other character.  A text that is one such span gives the
    empty string. *)
Theorem sanitize_wellformed : forall segs,
  WellFormed segs ->
  sanitizeImportedText (renderAll segs) = trim (flat_map outside segs)
  /\ (forall s, segs = [s] -> isSpanOf Caveat s || isSpanOf Reminder s
                               || isSpanOf Stdout s = true ->
      sanitizeImportedText (renderAll segs) = []).
Proof.
  intros segs [H Hout].
  assert (E : sanitizeImportedText (renderAll segs)
              = trim (flat_map outside segs)).
  { unfold sanitizeImportedText.
    rewrite (stripKind_spans Caveat segs H);
      [| now apply holdsOpening_occurs].
    rewrite (stripKind_spans Reminder _ (Paired_filter _ _ H));
      [| rewrite outside_filter; now apply holdsOpening_occurs].
    rewrite (stripKind_spans Stdout _
               (Paired_filter _ _ (Paired_filter _ _ H)));
      [| rewrite !outside_filter; now apply holdsOpening_occurs].
    now rewrite render_no_spans. }
  split; [exact E|].
  intros s -> Hs. rewrite E. destruct s as [t|k o b c]; [discriminate|].
  reflexivity.
Qed.

(** A reminder in mixed case over several lines, between two pieces that
    use the less-than sign on their own. *)
Lemma sanitize_wellformed_witness :
  sanitizeImportedText (renderAll exampleSegments)
  = lit "if a < b then <div>" ++ [NL; NL] ++ lit "after </p>".
Proof.
  refine (eq_trans (proj1 (sanitize_wellformed exampleSegments _)) _).
  - split; [repeat constructor; reflexivity | reflexivity].
  - reflexivity.
Defined.

(** C8 as stated fails: this text is one reminder span that holds another,
    and the sanitizer leaves the end of the outer span behind. *)
Lemma sanitize_nested_counterexample :
  nestedReminder
  = openTag Reminder ++ lit "a<system-reminder>b</system-reminder>c"
      ++ closeTag Reminder
  /\ sanitizeImportedText nestedReminder = lit "c</system-reminder>"
  /\ sanitizeImportedText nestedReminder <> [].
Proof. repeat split. intro H. discriminate H. Qed.

(** Removing spans may bring the two halves of a tag together: the word
    between the joined tags is then removed although it lies outside every
    span of the input. *)
Example sanitize_joined_fragments : sanitizeImportedText joinedFragments = [].
Proof. reflexivity. Qed.

(** ** Pasted-transcript parser *)

Lemma trimStart_snoc : forall a c,
  isSpace c = false -> trimStart (a ++ [c]) = trimStart a ++ [c].
Proof.
  induction a as [|x a IH]; intros c Hc; simpl.
  - now rewrite Hc.
  - destruct (isSpace x); [now apply IH | reflexivity].
Qed.

Lemma trimEnd_cons : forall c s,
  isSpace c = false -> trimEnd (c :: s) = c :: trimEnd s.
Proof.
  intros c s Hc. unfold trimEnd. simpl rev.
  rewrite trimStart_snoc by exact Hc. rewrite rev_app_distr. reflexivity.
Qed.

Lemma trimStart_head : forall s c rest,
  trimStart s = c :: rest -> isSpace c = false.
Proof.
  induction s as [|x s IH]; intros c rest H; simpl in H; [discriminate|].
  destruct (isSpace x) eqn:Ex; [now apply (IH c rest)|].
  now injection H as -> _.
Qed.

(** A trimmed text that is not empty starts with a character that is not
    white space. *)
Lemma trim_head : forall s,
  nonEmpty (trim s) = true ->
  exists c rest, trim s = c :: rest /\ isSpace c = false.
Proof.
  intros s H. unfold trim in *. destruct (trimStart s) as [|c t] eqn:E.
  - discriminate.
  - pose proof (trimStart_head s c t E) as Hc.
    rewrite trimEnd_cons by exact Hc. now exists c, (trimEnd t).
Qed.

Lemma splitOnFrom_hd : forall sep s acc,
  exists more, hd [] (splitOnFrom sep acc s) = rev acc ++ more.
Proof.
  induction s as [|c s IH]; intros acc; simpl.
  - exists []. now rewrite app_nil_r.
  - destruct (Ascii.eqb c sep).
    + exists []. simpl. now rewrite app_nil_r.
    + destruct (IH (c :: acc)) as [more Hm]. exists (c :: more).
      rewrite Hm. simpl. now rewrite <- app_assoc.
Qed.

Lemma isSpace_NL : forall c, isSpace c = false -> Ascii.eqb c NL = false.
Proof.
  intros c H. apply Ascii.eqb_neq. intros ->. discriminate.
Qed.

Lemma firstLine_nonEmpty : forall c rest,
  isSpace c = false -> nonEmpty (firstLineOf (c :: rest)) = true.
Proof.
  intros c rest Hc. unfold firstLineOf, splitOn. simpl splitOnFrom.
  rewrite (isSpace_NL c Hc).
  destruct (splitOnFrom_hd NL rest [c]) as [more ->]. simpl rev. simpl app.
  unfold trim. simpl trimStart. rewrite Hc.
  now rewrite trimEnd_cons by exact Hc.
Qed.

Lemma transcriptChunks_head : forall raw chunk,
  In chunk (transcriptChunks raw) ->
  exists c rest, chunk = c :: rest /\ isSpace c = false.
Proof.
  intros raw chunk H. unfold transcriptChunks in H.
  apply filter_In in H as [Hin Hne]. apply in_map_iff in Hin as (x & <- & _).
  now apply trim_head.
Qed.

(** On a chunk of [transcriptChunks] the callback never returns null, and
    an unlabelled chunk is kept whole with the role of its position. *)
Lemma parseChunk_total : forall raw index chunk,
  In chunk (transcriptChunks raw) ->
  exists m, parseChunk index chunk = Some m
            /\ (isLabelled chunk = false ->
                m = mkParsed (positionRole index) chunk).
Proof.
  intros raw index chunk H.
  destruct (transcriptChunks_head raw chunk H) as (c & rest & -> & Hc).
  pose proof (firstLine_nonEmpty c rest Hc) as Hne.
  unfold parseChunk, isLabelled, positionRole. fold (firstLineOf (c :: rest)).
  rewrite Hne.
  destruct (matchLabel "user:" (firstLineOf (c :: rest)));
    [eexists; split; [reflexivity | discriminate]|].
  destruct (matchLabel "assistant:" (firstLineOf (c :: rest)));
    [eexists; split; [reflexivity | discriminate]|].
  destruct (matchLabel "tool:" (firstLineOf (c :: rest)));
    [eexists; split; [reflexivity | discriminate]|].
  eexists; split; reflexivity.
Qed.

Lemma dropNulls_mapIndexed : forall (A B : Type) (f : nat -> A -> option B)
  (l : list A) (start index : nat) (x : A) (y : B),
  (forall i z, In z l -> exists w, f i z = Some w) ->
  nth_error l index = Some x -> f (start + index) x = Some y ->
  nth_error (dropNulls (mapIndexed f start l)) index = Some y.
Proof.
  intros A B f l. induction l as [|z l IH]; intros start index x y Hall Hn Hf.
  - destruct index; discriminate.
  - simpl. destruct (Hall start z (or_introl eq_refl)) as [w Hw]. rewrite Hw.
    destruct index as [|index]; simpl in *.
    + injection Hn as ->. rewrite Nat.add_0_r in Hf. congruence.
    + apply (IH (S start) index x y); [| exact Hn |].
      * intros i z' Hz'. apply Hall. now right.
      * replace (S start + index) with (start + S index) by lia. exact Hf.
Qed.

(** C7, amended.  A chunk whose first line carries no role label gets its
    role from its position among all the chunks of the transcript, labelled
    or not: user at an even position, assistant at an odd one; its content
    is the chunk. *)
Theorem parseTranscript_unlabelled : forall raw index chunk,
  nth_error (transcriptChunks raw) index = Some chunk ->
  isLabelled chunk = false ->
  nth_error (parseTranscript raw) index
  = Some (mkParsed (positionRole index) chunk).
Proof.
  intros raw index chunk Hn Hl. unfold parseTranscript.
  apply (dropNulls_mapIndexed _ _ parseChunk _ 0 index chunk).
  - intros i z Hz. destruct (parseChunk_total raw i z Hz) as (m & Hm & _).
    now exists m.
  - exact Hn.
  - simpl. destruct (parseChunk_total raw index chunk) as (m & Hm & Hu).
    + eapply nth_error_In; eassumption.
    + rewrite Hm. f_equal. now apply Hu.
Qed.

(** The second chunk of a transcript that opens with a labelled one. *)
Lemma parseTranscript_unlabelled_witness :
  nth_error (parseTranscript mixedTranscript) 1
  = Some (mkParsed RoleAssistant (lit "plain")).
Proof.
  apply (parseTranscript_unlabelled mixedTranscript 1 (lit "plain"));
    reflexivity.
Defined.

(** C7 as stated fails: the first unlabelled chunk of this transcript
    comes after one labelled chunk and gets the role assistant. *)
Lemma parseTranscript_counterexample :
  transcriptChunks mixedTranscript = [lit "user: Hi"; lit "plain"]
  /\ isLabelled (lit "user: Hi") = true
  /\ isLabelled (lit "plain") = false
  /\ parseTranscript mixedTranscript
     = [mkParsed RoleUser (lit "Hi"); mkParsed RoleAssistant (lit "plain")].
Proof. repeat split. Qed.

(** ** The unit tests of the repository

    The cases of [pipeline-utils.test.ts] and [transcript-parser.test.ts],
    evaluated on the embedding. *)

Example test_sanitize_caveat :
  sanitizeImportedText
    (js "before<local-command-caveat>secret</local-command-caveat>after")
  = js "beforeafter".
Proof. reflexivity. Qed.

Example test_sanitize_reminder :
  sanitizeImportedText
    (js "start<system-reminder>internal note</system-reminder>end")
  = js "startend".
Proof. reflexivity. Qed.

Example test_sanitize_stdout :
  sanitizeImportedText
    (js "out:<local-command-stdout>$ ls -la</local-command-stdout>done")
  = js "out:done".
Proof. reflexivity. Qed.

Example test_sanitize_multiline :
  sanitizeImportedText
    (js "before\n<system-reminder>\nline1\nline2\n</system-reminder>\nafter")
  = js "before\n\nafter".
Proof. reflexivity. Qed.

Example test_sanitize_trims :
  sanitizeImportedText (js "  hello world  ") = js "hello world".
Proof. reflexivity. Qed.

Example test_sanitize_all_stripped :
  sanitizeImportedText (js "<system-reminder>all gone</system-reminder>")
  = [].
Proof. reflexivity. Qed.

Example test_sanitize_case :
  sanitizeImportedText (js "x<SYSTEM-REMINDER>hidden</SYSTEM-REMINDER>y")
  = js "xy".
Proof. reflexivity. Qed.

Example test_title_empty :
  fallbackSessionTitle [] (js "abcdefgh-1234-5678") = js "Session abcdefgh".
Proof. reflexivity. Qed.

Example test_title_blank :
  fallbackSessionTitle (js "   ") (js "abcdefgh-0000") = js "Session abcdefgh".
Proof. reflexivity. Qed.

Example test_title_clean :
  fallbackSessionTitle (js "  Help me with TypeScript  ") (js "abc")
  = js "Help me with TypeScript".
Proof. reflexivity. Qed.

Example test_title_truncates :
  length (fallbackSessionTitle (repeat "a"%char 100) (js "session-id")) = 80.
Proof. reflexivity. Qed.

Example test_title_collapses :
  fallbackSessionTitle (js "fix   the  bug\nnow") (js "id")
  = js "fix the bug now".
Proof. reflexivity. Qed.

Example test_mapClaudeRole :
  map mapClaudeRole
    [Some (js "assistant"); Some (js "system"); Some (js "progress");
     Some (js "human"); None]
  = [ASSISTANT; TOOL; TOOL; USER; USER].
Proof. reflexivity. Qed.

Example test_mapClaudePartType :
  map mapClaudePartType
    [Some (js "text"); Some (js "thinking"); Some (js "tool_use");
     Some (js "tool_result"); Some (js "image"); None]
  = [TEXT; REASONING; TOOLPART; TOOLPART; OTHER; OTHER].
Proof. reflexivity. Qed.

Example test_mapOpenCodeRole :
  map mapOpenCodeRole
    [Some (js "assistant"); Some (js "tool"); Some (js "user"); None]
  = [ASSISTANT; TOOL; USER; USER].
Proof. reflexivity. Qed.

Example test_mapOpenCodePartType :
  map mapOpenCodePartType
    [Some (js "text"); Some (js "reasoning"); Some (js "tool");
     Some (js "step-start"); Some (js "step-finish"); Some (js "error");
     Some (js "blob"); None]
  = [TEXT; REASONING; TOOLPART; STEP_START; STEP_FINISH; ERROR; OTHER; OTHER].
Proof. reflexivity. Qed.

Example test_summary_prefers_assistant :
  deriveSessionSummary
    [makeMessage USER (js "What is TypeScript?");
     makeMessage ASSISTANT
       (js "TypeScript is a typed superset of JavaScript.")]
  = Some (js "TypeScript is a typed superset of JavaScript.").
Proof. reflexivity. Qed.

Example test_summary_falls_back_to_user :
  deriveSessionSummary [makeMessage USER (js "Hello from user")]
  = Some (js "Hello from user").
Proof. reflexivity. Qed.

Example test_summary_truncates :
  deriveSessionSummary [makeMessage USER (repeat "x"%char 200)]
  = Some (repeat "x"%char 177 ++ js "...").
Proof. reflexivity. Qed.

Example test_summary_exactly_180 :
  deriveSessionSummary [makeMessage USER (repeat "y"%char 180)]
  = Some (repeat "y"%char 180).
Proof. reflexivity. Qed.

Example test_summary_strips_tags :
  deriveSessionSummary
    [makeMessage USER
       (js "<system-reminder>hidden</system-reminder>" ++ repeat "z"%char 50)]
  = Some (repeat "z"%char 50).
Proof. reflexivity. Qed.

Example test_summary_empty_list : deriveSessionSummary [] = None.
Proof. reflexivity. Qed.

Example test_summary_empty_content :
  deriveSessionSummary [makeMessage USER []] = None.
Proof. reflexivity. Qed.

Example test_parse_exchange :
  parseTranscript (js "user: Hello\n\nassistant: Hi there")
  = [mkParsed RoleUser (js "Hello"); mkParsed RoleAssistant (js "Hi there")].
Proof. reflexivity. Qed.

Example test_parse_case :
  map parsedRole
    (parseTranscript (js "User: Hello\n\nAssistant: Hi\n\nTool: output"))
  = [RoleUser; RoleAssistant; RoleTool].
Proof. reflexivity. Qed.

Example test_parse_multiline :
  parseTranscript (js "user: First line\nSecond line\nThird line")
  = [mkParsed RoleUser (js "First line\nSecond line\nThird line")].
Proof. reflexivity. Qed.

Example test_parse_blank_lines :
  length (parseTranscript (js "user: A\n\n\nassistant: B")) = 2.
Proof. reflexivity. Qed.

Example test_parse_alternating :
  map parsedRole
    (parseTranscript (js "First chunk\n\nSecond chunk\n\nThird chunk"))
  = [RoleUser; RoleAssistant; RoleUser].
Proof. reflexivity. Qed.

Example test_parse_tool :
  parseTranscript (js "tool: bash output here")
  = [mkParsed RoleTool (js "bash output here")].
Proof. reflexivity. Qed.

Example test_parse_blank_input :
  parseTranscript [] = [] /\ parseTranscript (js "   \n\n   ") = [].
Proof. split; reflexivity. Qed.

Example test_parse_inline :
  map parsedContent (parseTranscript (js "assistant: The answer is 42"))
  = [js "The answer is 42"].
Proof. reflexivity. Qed.

Example test_parse_inline_and_rest :
  map parsedContent
    (parseTranscript (js "user: Question header\nDetails on the next line"))
  = [js "Question header\nDetails on the next line"].
Proof. reflexivity. Qed.

Example test_parse_single_chunk :
  parseTranscript (js "Just some text with no role marker")
  = [mkParsed RoleUser (js "Just some text with no role marker")].
Proof. reflexivity. Qed.

Example test_parse_no_empty_content :
  forallb (fun m => nonEmpty (parsedContent m))
    (parseTranscript (js "user: Hello\n\n\n\n\nassistant: World")) = true.
Proof. reflexivity. Qed.

(** ** Lists, keys and strings *)

Lemma strEqb_eq : forall a b, strEqb a b = true <-> a = b.
Proof.
  induction a as [|x a IH]; intros [|y b]; simpl; split; intro H;
    try congruence; try discriminate.
  - apply andb_true_iff in H as [Hx Ha]. apply Ascii.eqb_eq in Hx.
    apply IH in Ha. congruence.
  - injection H as -> ->. apply andb_true_iff. split.
    + apply Ascii.eqb_refl.
    + now apply IH.
Qed.

Lemma strEqb_refl : forall a, strEqb a a = true.
Proof. intros a. now apply strEqb_eq. Qed.

Lemma sessionHasKey_spec : forall tool ext r,
  sessionHasKey tool ext r = true
  <-> SessionRow.sourceToolId r = tool
      /\ SessionRow.externalSessionId r = Some ext.
Proof.
  intros tool ext r. unfold sessionHasKey, optStrEqb.
  rewrite andb_true_iff, Nat.eqb_eq.
  destruct (SessionRow.externalSessionId r) as [e|].
  - rewrite strEqb_eq. split; intros [H1 H2]; split; congruence.
  - split; intros [H1 H2]; [discriminate | discriminate].
Qed.

Lemma updateFirst_length : forall (A : Type) (p : A -> bool) (f : A -> A)
  (l : list A), length (updateFirst p f l) = length l.
Proof.
  intros A p f l. induction l as [|x l IH]; simpl; [reflexivity|].
  destruct (p x); simpl; congruence.
Qed.

Lemma updateFirst_none : forall (A : Type) (p : A -> bool) (f : A -> A)
  (l : list A),
  (forall x, In x l -> p x = false) -> updateFirst p f l = l.
Proof.
  intros A p f l. induction l as [|x l IH]; intros H; simpl; [reflexivity|].
  rewrite (H x (or_introl eq_refl)). f_equal. apply IH.
  intros y Hy. apply H. now right.
Qed.

Lemma updateFirst_last : forall (A : Type) (p : A -> bool) (f : A -> A)
  (l : list A) (x : A),
  (forall y, In y l -> p y = false) -> p x = true ->
  updateFirst p f (l ++ [x]) = l ++ [f x].
Proof.
  intros A p f l x. induction l as [|y l IH]; intros H Hx; simpl.
  - now rewrite Hx.
  - rewrite (H y (or_introl eq_refl)). f_equal. apply IH; [|exact Hx].
    intros z Hz. apply H. now right.
Qed.

Lemma find_updateFirst : forall (A : Type) (p : A -> bool) (f : A -> A)
  (l : list A) (r : A),
  (forall x, p (f x) = p x) -> find p l = Some r ->
  find p (updateFirst p f l) = Some (f r).
Proof.
  intros A p f l r Hp. induction l as [|x l IH]; intros H; simpl in *.
  - discriminate.
  - destruct (p x) eqn:Ex.
    + injection H as ->. simpl. now rewrite Hp, Ex.
    + simpl. rewrite Ex. now apply IH.
Qed.

Lemma find_app_none : forall (A : Type) (p : A -> bool) (l : list A) (x : A),
  find p l = None -> find p (l ++ [x]) = if p x then Some x else None.
Proof.
  intros A p l x. induction l as [|y l IH]; simpl; intros H; [reflexivity|].
  destruct (p y); [discriminate | now apply IH].
Qed.

Lemma find_app_some : forall (A : Type) (p : A -> bool) (l l' : list A) (y : A),
  find p l = Some y -> find p (l ++ l') = Some y.
Proof.
  intros A p l l' y. induction l as [|z l IH]; simpl; intros H;
    [discriminate|]. destruct (p z); [exact H | now apply IH].
Qed.

Lemma find_updateFirst_other : forall (A : Type) (p q : A -> bool)
  (f : A -> A) (l : list A),
  (forall x, q (f x) = q x) -> (forall x, p x = true -> q x = false) ->
  find q (updateFirst p f l) = find q l.
Proof.
  intros A p q f l Hq Hpq. induction l as [|x l IH]; simpl; [reflexivity|].
  destruct (p x) eqn:Ep; simpl.
  - rewrite Hq. now rewrite (Hpq x Ep).
  - destruct (q x); [reflexivity | exact IH].
Qed.

(** *** Comparisons with a lower bound that may be the Invalid Date *)

Lemma before_after_epoch : forall since t,
  before 0 since = true -> before t since = false -> (0 < t)%Z.
Proof.
  intros [bound|] t H0 Ht; [|discriminate H0]. cbn in *.
  apply Z.ltb_lt in H0. apply Z.ltb_ge in Ht. lia.
Qed.

Lemma before_mono : forall since t t',
  (t <= t')%Z -> before t since = false -> before t' since = false.
Proof.
  intros [bound|] t t' Hle Ht; [|reflexivity]. cbn in *.
  apply Z.ltb_ge in Ht. apply Z.ltb_ge. lia.
Qed.

(** ** Collapsed white space and the summary *)

Lemma trimStart_app_nonempty : forall a b,
  trimStart a <> [] -> trimStart (a ++ b) = trimStart a ++ b.
Proof.
  induction a as [|c a IH]; intros b H; simpl in *; [congruence|].
  destruct (isSpace c); [now apply IH | reflexivity].
Qed.

Lemma trimEnd_cons_nonempty : forall c s,
  trimEnd s <> [] -> trimEnd (c :: s) = c :: trimEnd s.
Proof.
  intros c s H. unfold trimEnd in *. simpl rev.
  rewrite trimStart_app_nonempty.
  - now rewrite rev_app_distr.
  - intros E. rewrite E in H. now apply H.
Qed.

Lemma trimEnd_visible_app : forall x y,
  forallb (fun c => negb (isSpace c)) x = true ->
  trimEnd (x ++ y) = x ++ trimEnd y.
Proof.
  induction x as [|c x IH]; intros y H; [reflexivity|].
  simpl in H. apply andb_true_iff in H as [Hc Hx].
  apply negb_true_iff in Hc. rewrite <- app_comm_cons.
  rewrite trimEnd_cons by exact Hc. now rewrite IH.
Qed.

Lemma wordsFrom_nonempty : forall s acc, acc <> [] -> wordsFrom acc s <> [].
Proof.
  induction s as [|c s IH]; intros [|a acc] H; try congruence; simpl.
  - discriminate.
  - destruct (isSpace c); [discriminate | now apply IH].
Qed.

Lemma forallb_rev : forall (A : Type) (p : A -> bool) (l : list A),
  forallb p (rev l) = forallb p l.
Proof.
  intros A p l. induction l as [|x l IH]; [reflexivity|]. simpl.
  rewrite forallb_app, IH. simpl. rewrite andb_true_r. apply andb_comm.
Qed.

(** The two states of the replacement: inside a word, and behind the
    space that stands for the current run of white space. *)
Lemma replaceRuns_words : forall s,
  (forall acc, acc <> [] ->
     forallb (fun c => negb (isSpace c)) acc = true ->
     trimEnd (rev acc ++ replaceRunsFrom SP false s)
     = joinWith [SP] (wordsFrom acc s))
  /\ trimEnd (SP :: replaceRunsFrom SP true s)
     = match words s with
       | [] => []
       | w :: ws => SP :: joinWith [SP] (w :: ws)
       end.
Proof.
  induction s as [|c s [IHin IHsp]].
  - split.
    + intros [|a acc] Hne Hacc; [congruence|]. cbn [replaceRunsFrom wordsFrom].
      rewrite trimEnd_visible_app by now rewrite forallb_rev.
      change (trimEnd []) with (@nil ascii). now rewrite app_nil_r.
    + reflexivity.
  - split.
    + intros acc Hne Hacc. cbn [replaceRunsFrom wordsFrom].
      destruct (isSpace c) eqn:Ec.
      * rewrite trimEnd_visible_app by now rewrite forallb_rev.
        rewrite IHsp. destruct acc as [|a acc]; [congruence|].
        fold (words s). destruct (words s) as [|w ws].
        -- now rewrite app_nil_r.
        -- reflexivity.
      * rewrite <- (IHin (c :: acc)).
        -- simpl rev. now rewrite <- app_assoc.
        -- discriminate.
        -- simpl. now rewrite Ec.
    + cbn [replaceRunsFrom]. unfold words. cbn [wordsFrom].
      destruct (isSpace c) eqn:Ec; [exact IHsp|].
      specialize (IHin [c]). simpl rev in IHin. simpl app in IHin.
      assert (E : trimEnd (c :: replaceRunsFrom SP false s)
                  = joinWith [SP] (wordsFrom [c] s)).
      { apply IHin; [discriminate | simpl; now rewrite Ec]. }
      pose proof (wordsFrom_nonempty s [c]) as Hw.
      destruct (wordsFrom [c] s) as [|w ws] eqn:Ew;
        [exfalso; apply Hw; [discriminate | reflexivity]|].
      rewrite trimEnd_cons_nonempty; [now rewrite E|].
      rewrite trimEnd_cons by exact Ec. discriminate.
Qed.

Lemma trimStart_replaceRuns : forall s inRun,
  trimStart (replaceRunsFrom SP inRun s)
  = replaceRunsFrom SP false (trimStart s).
Proof.
  induction s as [|c s IH]; intros inRun; [reflexivity|].
  cbn [replaceRunsFrom trimStart]. destruct (isSpace c) eqn:Ec.
  - destruct inRun; [apply IH|]. simpl. apply IH.
  - cbn [trimStart replaceRunsFrom]. now rewrite Ec.
Qed.

Lemma words_trimStart : forall s, words (trimStart s) = words s.
Proof.
  unfold words. induction s as [|c s IH]; [reflexivity|].
  cbn [trimStart wordsFrom]. destruct (isSpace c) eqn:Ec; [exact IH|].
  cbn [wordsFrom]. now rewrite Ec.
Qed.

(** The replacement of the runs of white space by one space, followed by
    the trim, collapses the white space as the specification says. *)
Lemma collapse_collapsed : forall s, trim (collapseSpaces s) = collapsed s.
Proof.
  intros s. unfold trim, collapseSpaces, collapsed.
  rewrite trimStart_replaceRuns, <- words_trimStart.
  destruct (trimStart s) as [|c t] eqn:E; [reflexivity|].
  pose proof (trimStart_head s c t E) as Hc.
  cbn [replaceRunsFrom]. unfold words. cbn [wordsFrom]. rewrite Hc.
  apply (proj1 (replaceRuns_words t) [c]); [discriminate|].
  simpl. now rewrite Hc.
Qed.

Lemma cleanText_collapsed : forall content,
  cleanText content = collapsed (sanitizeImportedText content).
Proof. intros content. apply collapse_collapsed. Qed.

(** C9. [deriveSessionSummary] looks at the first assistant message, else
    the first user message, else the first message.  The content of that
    message is sanitized and its white space collapsed: what is left are
    the words of the sanitized content with one space between them.  The
    function returns null for an empty list and when nothing is left.
    Otherwise it returns what is left, cut to 177 characters followed by
    three dots (180 characters in all) when it is longer than 180
    characters, and unchanged when it has at most 180 characters. *)
Theorem deriveSessionSummary_spec : forall messages,
  (messages = [] -> deriveSessionSummary messages = None)
  /\ (messages <> [] -> exists m, Chosen messages m)
  /\ (forall m, Chosen messages m ->
      let clean :=
        collapsed (sanitizeImportedText (MessageInput.content m)) in
      (clean = [] -> deriveSessionSummary messages = None)
      /\ (clean <> [] -> length clean <= 180 ->
          deriveSessionSummary messages = Some clean)
      /\ (180 < length clean ->
          exists r, deriveSessionSummary messages = Some r
                    /\ length r = 180
                    /\ EndsWith (lit "...") r
                    /\ firstn 177 r = firstn 177 clean)).
Proof.
  intros messages. split; [|split].
  - intros ->. reflexivity.
  - intros Hne. destruct (bestMessage_nonempty messages Hne) as [m Hm].
    exists m. now apply bestMessage_Chosen.
  - intros m Hc clean. apply bestMessage_Chosen in Hc.
    unfold deriveSessionSummary. rewrite Hc, cleanText_collapsed.
    fold clean.
    assert (Hcontent : nonEmpty (MessageInput.content m) = false -> clean = []).
    { intros E. apply nonEmpty_false in E. unfold clean. rewrite E.
      reflexivity. }
    split; [|split].
    + intros E. destruct (nonEmpty (MessageInput.content m)); [|reflexivity].
      rewrite E. reflexivity.
    + intros Hne Hlen.
      destruct (nonEmpty (MessageInput.content m)) eqn:Ec;
        [|now specialize (Hcontent eq_refl)].
      apply nonEmpty_true in Hne. rewrite Hne.
      assert (E : (180 <? length clean) = false) by (apply Nat.ltb_ge; lia).
      now rewrite E.
    + intros Hlen.
      assert (Hne : clean <> [])
        by (intros E; rewrite E in Hlen; simpl in Hlen; lia).
      destruct (nonEmpty (MessageInput.content m)) eqn:Ec;
        [|now specialize (Hcontent eq_refl)].
      apply nonEmpty_true in Hne. rewrite Hne.
      assert (E : (180 <? length clean) = true) by (apply Nat.ltb_lt; lia).
      rewrite E. exists (slice0 177 clean ++ ellipsis). unfold slice0.
      split; [reflexivity|]. split; [|split].
      * rewrite length_app, firstn_length_le by lia. reflexivity.
      * exists (firstn 177 clean). reflexivity.
      * rewrite firstn_app, firstn_length_le by lia.
        rewrite Nat.sub_diag, firstn_O, app_nil_r, firstn_firstn.
        now rewrite Nat.min_id.
Qed.

(** The summary of a message of 210 characters behind a reminder: the
    reminder is gone, the line breaks and the runs of spaces are single
    spaces, and the cut falls in the second run of letters. *)
Lemma deriveSessionSummary_spec_witness :
  collapsed (sanitizeImportedText (MessageInput.content taggedMessage))
  = lit "Summary: " ++ repeat "x"%char 100 ++ [SP] ++ repeat "y"%char 100
  /\ exists r, deriveSessionSummary [longMessage; taggedMessage] = Some r
               /\ length r = 180 /\ EndsWith (lit "...") r
               /\ firstn 177 r
                  = lit "Summary: " ++ repeat "x"%char 100 ++ [SP]
                    ++ repeat "y"%char 67.
Proof.
  split; [reflexivity|].
  destruct (deriveSessionSummary_spec [longMessage; taggedMessage])
    as (_ & _ & H).
  destruct (H taggedMessage) as (_ & _ & Hcut).
  - left. exists [longMessage], []. repeat split.
    intros x [<-|[]]. discriminate.
  - destruct Hcut as (r & Hr & Hlen & Hend & Hfirst);
      [vm_compute; lia|].
    exists r. repeat split; assumption.
Defined.

(** ** The polling watcher *)

Lemma watcherRun_app : forall events1 events2 w,
  watcherRun w (events1 ++ events2)
  = match watcherRun w events1 with
    | Some w' => watcherRun w' events2
    | None => None
    end.
Proof.
  induction events1 as [|e events1 IH]; intros events2 w; simpl.
  - reflexivity.
  - destruct (watcherStep w e); [apply IH | reflexivity].
Qed.

Lemma watcher_fires : forall n,
  watcherRun (mkWatcher Polling 0 1 true) (repeat TimerFires n)
  = Some (mkWatcher Polling n (S n) true).
Proof.
  intros n.
  assert (H : forall k s,
             watcherRun (mkWatcher Polling k s true) (repeat TimerFires n)
             = Some (mkWatcher Polling (n + k) (n + s) true)).
  { induction n as [|n IH]; intros k s; simpl; [reflexivity|].
    unfold watcherStep. simpl. rewrite IH. do 3 f_equal; lia. }
  rewrite H. do 3 f_equal; lia.
Qed.

(** C5, amended.  Only the first cycle runs alone: the timer is armed when
    it has completed.  From then on every firing of the timer starts a
    cycle on top of those still in progress, so the number of cycles in
    progress is not bounded: for every number there is an execution of the
    watcher with that many cycles in progress. *)
Theorem watcher_overlap :
  (forall w, watcherStep watcherStart TimerFires = None
             /\ inProgress watcherStart = 1
             /\ (watcherStep watcherStart CycleCompletes = Some w ->
                 phase w = Polling /\ inProgress w = 0))
  /\ (forall w, phase w = Polling ->
      exists w', watcherStep w TimerFires = Some w'
                 /\ phase w' = Polling
                 /\ inProgress w' = S (inProgress w))
  /\ (forall n, exists events w,
      watcherRun watcherStart events = Some w
      /\ phase w = Polling /\ inProgress w = n).
Proof.
  split; [|split].
  - intros w. repeat split; simpl in H; injection H as <-; reflexivity.
  - intros w Hp. unfold watcherStep. rewrite Hp. eexists. repeat split.
  - intros n. exists (CycleCompletes :: repeat TimerFires n).
    eexists. simpl watcherRun. rewrite watcher_fires. repeat split.
Qed.

(** Three firings while nothing completes. *)
Lemma watcher_overlap_witness :
  exists w', watcherStep (mkWatcher Polling 2 3 true) TimerFires = Some w'
             /\ phase w' = Polling /\ inProgress w' = 3.
Proof.
  exact (proj1 (proj2 watcher_overlap) (mkWatcher Polling 2 3 true) eq_refl).
Defined.

(** C5 as stated fails: when the timer fires twice before a cycle
    completes, two cycles are in progress. *)
Lemma watcher_counterexample :
  exists w, watcherRun watcherStart [CycleCompletes; TimerFires; TimerFires]
            = Some w
            /\ inProgress w = 2.
Proof. eexists. split; reflexivity. Qed.

(** ** The canonical-bundle entry point *)

(** C10, amended.  When the bundle passes the schema and carries a
    non-empty external session id that a session of the same source tool
    already has, the entry point returns the identifier of such a session
    with [deduplicated = true] and leaves the whole store as it was. *)
Theorem ingest_duplicate_no_write :
  forall (P : Platform) (now : Z) (input : IngestInput) (st : Store)
         (ext : str) (existing : SessionRow.t),
  validBundle (bundle input) = true ->
  Bundle.externalSessionId (bundle input) = Some ext ->
  ext <> [] ->
  In existing (sessions st) ->
  SessionRow.sourceToolId existing = inputSourceToolId input ->
  SessionRow.externalSessionId existing = Some ext ->
  exists found,
    In found (sessions st)
    /\ SessionRow.sourceToolId found = inputSourceToolId input
    /\ SessionRow.externalSessionId found = Some ext
    /\ ingestCanonicalBundle now input st
       = Returned (mkIngestResult (SessionRow.id found) true) st.
Proof.
  intros P now input st ext existing Hv He Hne Hin Ht Hx.
  destruct (find (sessionHasKey (inputSourceToolId input) ext) (sessions st))
    as [found|] eqn:Hf.
  - pose proof (find_some _ _ Hf) as [Hfin Hkey].
    apply sessionHasKey_spec in Hkey as [Hk1 Hk2].
    exists found. repeat split; try assumption.
    unfold ingestCanonicalBundle. rewrite Hv, He.
    apply nonEmpty_true in Hne. unfold truthy. rewrite Hne.
    unfold transaction, bind, findDuplicate, gets. rewrite Hf. reflexivity.
  - exfalso. pose proof (find_none _ _ Hf existing Hin) as Hno.
    assert (Hyes : sessionHasKey (inputSourceToolId input) ext existing = true)
      by now apply sessionHasKey_spec.
    congruence.
Qed.

(** A bundle with a task and a tag whose external id is known. *)
Lemma ingest_duplicate_no_write_witness :
  exists found,
    In found (sessions knownStore)
    /\ SessionRow.sourceToolId found = inputSourceToolId knownInput
    /\ SessionRow.externalSessionId found = Some (lit "ext-1")
    /\ @ingestCanonicalBundle examplePlatform 0%Z knownInput knownStore
       = Returned (mkIngestResult (SessionRow.id found) true) knownStore.
Proof.
  apply (ingest_duplicate_no_write examplePlatform 0%Z knownInput knownStore
           (lit "ext-1") knownRow).
  - reflexivity.
  - reflexivity.
  - discriminate.
  - now left.
  - reflexivity.
  - reflexivity.
Defined.

(** C10 as stated fails: the bundle carries the external id of an existing
    session of the same tool, the empty string, and the entry point does
    not return that session: the lookup is skipped and the creation of a
    second session with the same key is refused. *)
Lemma ingest_empty_id_counterexample :
  In emptyIdRow (sessions emptyIdStore)
  /\ SessionRow.sourceToolId emptyIdRow = inputSourceToolId emptyIdInput
  /\ SessionRow.externalSessionId emptyIdRow
     = Bundle.externalSessionId (bundle emptyIdInput)
  /\ @validBundle examplePlatform (bundle emptyIdInput) = true
  /\ @ingestCanonicalBundle examplePlatform 0%Z emptyIdInput emptyIdStore
     = Threw uniqueViolation emptyIdStore
  /\ @ingestCanonicalBundle examplePlatform 0%Z emptyIdInput emptyIdStore
     <> Returned (mkIngestResult (SessionRow.id emptyIdRow) true) emptyIdStore.
Proof.
  repeat split; try (now left). intro H. discriminate H.
Qed.

(** ** The upsert path is not atomic *)

(** C3 fails on the code.  [persistSessions] sends every upsert on its own,
    outside any transaction.  Here the part of the second message is
    refused by the store client; the run throws, and the session row, both
    message rows and the part of the first message stay behind. *)
Theorem persistSessions_partial_write :
  exists st',
    @runOpenCodeSource examplePlatform exampleEnvironment exampleNow 1
      (Some (lit "/broken")) 30%Z emptyStore
    = Threw invalidArgument st'
    /\ map SessionRow.externalSessionId (sessions st') = [Some (lit "s1")]
    /\ map MessageRow.externalMessageId (messages st')
       = [Some (lit "m1"); Some (lit "m2")]
    /\ map PartRow.externalPartId (parts st') = [lit "p1"].
Proof. eexists. split; [vm_compute; reflexivity|]. repeat split. Qed.

(** Inside a transaction the same failure would leave no row. *)
Example transaction_rolls_back :
  storeOf
    (transaction
       (@runOpenCodeSource examplePlatform exampleEnvironment exampleNow 1
          (Some (lit "/broken")) 30%Z) emptyStore)
  = emptyStore.
Proof. vm_compute. reflexivity. Qed.

(** ** Store computations that keep the bookkeeping *)

Lemma SameBookkeeping_refl : forall st, SameBookkeeping st st.
Proof. intros st. repeat split. apply Nat.le_refl. Qed.

Lemma SameBookkeeping_trans : forall a b c,
  SameBookkeeping a b -> SameBookkeeping b c -> SameBookkeeping a c.
Proof.
  intros a b c (S1 & R1 & E1 & C1 & N1) (S2 & R2 & E2 & C2 & N2).
  repeat split; try congruence. eapply Nat.le_trans; eassumption.
Qed.

Lemma Keeps_ret : forall (A : Type) (a : A), Keeps (ret a).
Proof. intros A a st. apply SameBookkeeping_refl. Qed.

Lemma Keeps_throw : forall (A : Type) (e : Thrown), Keeps (@throw A e).
Proof. intros A e st. apply SameBookkeeping_refl. Qed.

Lemma Keeps_gets : forall (A : Type) (f : Store -> A), Keeps (gets f).
Proof. intros A f st. apply SameBookkeeping_refl. Qed.

Lemma Keeps_bind : forall (A B : Type) (m : M A) (k : A -> M B),
  Keeps m -> (forall a, Keeps (k a)) -> Keeps (bind m k).
Proof.
  intros A B m k Hm Hk st. unfold bind. specialize (Hm st).
  destruct (m st) as [a st'|e st']; simpl in Hm.
  - eapply SameBookkeeping_trans; [exact Hm | apply Hk].
  - exact Hm.
Qed.

Lemma Keeps_foldStore : forall (S A : Type) (f : S -> A -> M S) (l : list A)
  (s : S),
  (forall s' x, Keeps (f s' x)) -> Keeps (foldStore f s l).
Proof.
  intros S A f l. induction l as [|x l IH]; intros s Hf; simpl.
  - apply Keeps_ret.
  - apply Keeps_bind; [apply Hf|]. intros s'. now apply IH.
Qed.

(** An upsert on a table that is not a bookkeeping table. *)
Lemma Keeps_upsertM : forall (A : Type) (table : Store -> list A)
  (setTable : list A -> Store -> Store) (rowId : A -> nat)
  (where_ : A -> bool) (update : A -> A) (create : nat -> A),
  (forall l st, SameBookkeeping st (setTable l st)
                /\ nextId (setTable l st) = nextId st) ->
  Keeps (upsertM table setTable rowId where_ update create).
Proof.
  intros A table setTable rowId where_ update create Hset st.
  unfold upsertM. destruct (find where_ (table st)); simpl.
  - apply Hset.
  - destruct (Hset (table st ++ [create (nextId st)]) st) as [Hs Hn].
    eapply SameBookkeeping_trans; [exact Hs|].
    repeat split. simpl. rewrite Hn. apply Nat.le_succ_diag_r.
Qed.

Ltac keeps_table :=
  apply Keeps_upsertM; intros l st; repeat split; apply Nat.le_refl.

Lemma Keeps_ensureSourceTool : forall slug name,
  Keeps (ensureSourceTool slug name).
Proof.
  intros. keeps_table.
Qed.

Lemma Keeps_ensureWorkspace : Keeps ensureWorkspace.
Proof.
  intros st. unfold ensureWorkspace. destruct (workspaces st); simpl.
  - repeat split. simpl. apply Nat.le_succ_diag_r.
  - apply SameBookkeeping_refl.
Qed.

Lemma Keeps_upsertSession : forall now tool ws importSource input,
  Keeps (upsertSession now tool ws importSource input).
Proof.
  intros. keeps_table.
Qed.

Lemma Keeps_upsertMessage : forall sessionId input,
  Keeps (upsertMessage sessionId input).
Proof.
  intros. keeps_table.
Qed.

Lemma Keeps_upsertPart : forall sessionId messageId part,
  Keeps (upsertPart sessionId messageId part).
Proof.
  intros. unfold upsertPart.
  destruct (textArgument (PartInput.text part)); [apply Keeps_throw|].
  keeps_table.
Qed.

Lemma Keeps_persistSessions : forall now tool ws importSource inputs maxT,
  Keeps (persistSessions now tool ws importSource inputs maxT).
Proof.
  intros. unfold persistSessions.
  apply Keeps_bind; [|intros; apply Keeps_ret].
  apply Keeps_foldStore. intros counts input. unfold persistSession.
  destruct (_ || _); [apply Keeps_ret|].
  apply Keeps_bind; [apply Keeps_upsertSession|]. intros sessionId.
  apply Keeps_bind; [|intros; apply Keeps_ret].
  apply Keeps_foldStore. intros counts' message. unfold persistMessage.
  apply Keeps_bind; [apply Keeps_upsertMessage|]. intros messageId.
  apply Keeps_bind; [|intros; apply Keeps_ret].
  apply Keeps_foldStore. intros n part. unfold persistPart.
  apply Keeps_bind; [apply Keeps_upsertPart | intros; apply Keeps_ret].
Qed.

Section Orchestrator.

Context {P : Platform} {E : Environment}.

Lemma Keeps_runClaudeSource : forall now sourceId root lookbackDays,
  Keeps (runClaudeSource now sourceId root lookbackDays).
Proof.
  intros. unfold runClaudeSource, getCheckpoint.
  apply Keeps_bind; [apply Keeps_gets|]. intros cp.
  destruct (claudeScan _ _) as [e|[inputs maxT]]; [apply Keeps_throw|].
  apply Keeps_bind; [apply Keeps_ensureSourceTool|]. intros tool.
  apply Keeps_bind; [apply Keeps_ensureWorkspace|]. intros ws.
  apply Keeps_persistSessions.
Qed.

Lemma Keeps_runOpenCodeSource : forall now sourceId root lookbackDays,
  Keeps (runOpenCodeSource now sourceId root lookbackDays).
Proof.
  intros. unfold runOpenCodeSource, getCheckpoint.
  apply Keeps_bind; [apply Keeps_gets|]. intros cp.
  destruct (openCodeScan _ _) as [inputs maxT].
  apply Keeps_bind; [apply Keeps_ensureSourceTool|]. intros tool.
  apply Keeps_bind; [apply Keeps_ensureWorkspace|]. intros ws.
  apply Keeps_persistSessions.
Qed.

(** The adapters write neither sources, runs, errors nor checkpoints. *)
Lemma Keeps_runAdapter : forall now source, Keeps (runAdapter now source).
Proof.
  intros. unfold runAdapter. destruct (SourceRow.type source).
  - apply Keeps_runClaudeSource.
  - apply Keeps_runOpenCodeSource.
  - apply Keeps_throw.
Qed.

(** *** What one step of the cycle does *)

Lemma RunsFresh_unmatched : forall st r,
  RunsFresh st -> In r (runs st) -> runHasId (nextId st) r = false.
Proof.
  intros st r H Hin. unfold RunsFresh in H.
  rewrite Forall_forall in H. specialize (H r Hin).
  unfold runHasId. apply Nat.eqb_neq. lia.
Qed.

Lemma announceRun_returns : forall now mode source st,
  exists st1,
    announceRun now mode source st = Returned (nextId st) st1
    /\ sources st1
       = updateFirst (sourceHasId (SourceRow.id source))
           (markRunning now mode) (sources st)
    /\ runs st1
       = runs st ++ [startedRun (nextId st) (SourceRow.id source) mode]
    /\ errors st1 = errors st
    /\ checkpoints st1 = checkpoints st
    /\ nextId st1 = S (nextId st).
Proof. intros. eexists. split; [reflexivity|]. repeat split. Qed.

Lemma recordFailure_returns : forall now runId source e st2,
  exists st',
    recordFailure now runId source e st2 = Returned tt st'
    /\ sources st'
       = updateFirst (sourceHasId (SourceRow.id source))
           (markErrored now (failureMessage e)) (sources st2)
    /\ runs st'
       = updateFirst (runHasId runId) (runFailed now (failureMessage e))
           (runs st2)
    /\ errors st'
       = errors st2
         ++ [ErrorRow.mk (nextId st2) (SourceRow.id source) runId
               (lit "INGESTION_FAILURE") (failureMessage e)]
    /\ checkpoints st' = checkpoints st2
    /\ nextId st' = S (nextId st2).
Proof. intros. eexists. split; [reflexivity|]. repeat split. Qed.

(** What the [try] block does once the adapter has returned. *)
Lemma recordSuccess_returns : forall now runId source result st2,
  exists st',
    (updateRun runId (runSucceeded now result) ;;;
     updateSource (SourceRow.id source)
       (markSucceeded now (successMessage result)) ;;;
     match maxTimestamp result with
     | Some t =>
         setCheckpoint (SourceRow.id source) lastTimestamp (toISOString t)
     | None => ret tt
     end) st2 = Returned tt st'
    /\ sources st'
       = updateFirst (sourceHasId (SourceRow.id source))
           (markSucceeded now (successMessage result)) (sources st2)
    /\ runs st'
       = updateFirst (runHasId runId) (runSucceeded now result) (runs st2)
    /\ errors st' = errors st2
    /\ checkpoints st'
       = match maxTimestamp result with
         | Some t =>
             writeCheckpoint (SourceRow.id source) lastTimestamp
               (toISOString t) (checkpoints st2)
         | None => checkpoints st2
         end
    /\ nextId st' = nextId st2.
Proof.
  intros now runId source result st2.
  destruct (maxTimestamp result) eqn:Em;
    (eexists; split; [unfold bind, updateRun, updateSource, modify; simpl;
                      rewrite ?Em; reflexivity|]; repeat split).
Qed.

Lemma attemptSource_eq : forall now runId source st1,
  attemptSource now runId source st1
  = match runAdapter now source st1 with
    | Returned result st2 =>
        (updateRun runId (runSucceeded now result) ;;;
         updateSource (SourceRow.id source)
           (markSucceeded now (successMessage result)) ;;;
         match maxTimestamp result with
         | Some t =>
             setCheckpoint (SourceRow.id source) lastTimestamp (toISOString t)
         | None => ret tt
         end) st2
    | Threw e st2 => Threw e st2
    end.
Proof. intros. reflexivity. Qed.

Lemma processSource_eq : forall now mode source st,
  processSource now mode source st
  = tryCatch (attemptSource now (nextId st) source)
      (recordFailure now (nextId st) source)
      (adapterStore now mode source st).
Proof.
  intros. unfold processSource, bind, adapterStore.
  destruct (announceRun_returns now mode source st) as (st1 & -> & _).
  reflexivity.
Qed.

(** One step of the cycle, by the outcome of the adapter. *)
Lemma processSource_step : forall now mode source st,
  RunsFresh st ->
  exists st',
    processSource now mode source st = Returned tt st'
    /\ nextId st < nextId st'
    /\ match runAdapter now source (adapterStore now mode source st) with
       | Threw e st2 =>
           runs st'
           = runs st
             ++ [runFailed now (failureMessage e)
                   (startedRun (nextId st) (SourceRow.id source) mode)]
           /\ errors st'
              = errors st
                ++ [ErrorRow.mk (nextId st2) (SourceRow.id source) (nextId st)
                      (lit "INGESTION_FAILURE") (failureMessage e)]
           /\ sources st'
              = updateFirst (sourceHasId (SourceRow.id source))
                  (markErrored now (failureMessage e))
                  (updateFirst (sourceHasId (SourceRow.id source))
                     (markRunning now mode) (sources st))
           /\ checkpoints st' = checkpoints st
       | Returned result st2 =>
           runs st'
           = runs st
             ++ [runSucceeded now result
                   (startedRun (nextId st) (SourceRow.id source) mode)]
           /\ errors st' = errors st
           /\ sources st'
              = updateFirst (sourceHasId (SourceRow.id source))
                  (markSucceeded now (successMessage result))
                  (updateFirst (sourceHasId (SourceRow.id source))
                     (markRunning now mode) (sources st))
           /\ checkpoints st'
              = match maxTimestamp result with
                | Some t =>
                    writeCheckpoint (SourceRow.id source) lastTimestamp
                      (toISOString t) (checkpoints st)
                | None => checkpoints st
                end
       end.
Proof.
  intros now mode source st Hfresh. rewrite processSource_eq.
  unfold tryCatch. rewrite attemptSource_eq. unfold adapterStore.
  destruct (announceRun_returns now mode source st)
    as (st1 & -> & Hs1 & Hr1 & He1 & Hc1 & Hn1). simpl storeOf.
  pose proof (Keeps_runAdapter now source st1) as (Ks & Kr & Ke & Kc & Kn).
  assert (Hhit : forall f,
            updateFirst (runHasId (nextId st)) f (runs st1)
            = runs st
              ++ [f (startedRun (nextId st) (SourceRow.id source) mode)]).
  { intros f. rewrite Hr1. apply updateFirst_last.
    - intros y Hy. now apply RunsFresh_unmatched.
    - unfold runHasId, startedRun. simpl. apply Nat.eqb_refl. }
  destruct (runAdapter now source st1) as [result st2|e st2]; simpl in *.
  - destruct (recordSuccess_returns now (nextId st) source result st2)
      as (st' & -> & Hs & Hr & He & Hc & Hn).
    exists st'. split; [reflexivity|]. split; [lia|].
    rewrite Hr, Kr, Hhit, He, Ke, He1, Hs, Ks, Hs1, Hc, Kc, Hc1.
    repeat split.
  - destruct (recordFailure_returns now (nextId st) source e st2)
      as (st' & -> & Hs & Hr & He & Hc & Hn).
    exists st'. split; [reflexivity|]. split; [lia|].
    rewrite Hr, Kr, Hhit, He, Ke, He1, Hs, Ks, Hs1, Hc, Kc, Hc1.
    repeat split.
Qed.

Lemma processSource_fresh : forall now mode source st,
  RunsFresh st ->
  RunsFresh (storeOf (processSource now mode source st))
  /\ (exists run, runs (storeOf (processSource now mode source st))
                  = runs st ++ [run])
  /\ (exists more, errors (storeOf (processSource now mode source st))
                   = errors st ++ more).
Proof.
  intros now mode source st Hfresh.
  destruct (processSource_step now mode source st Hfresh)
    as (st' & -> & Hn & Hcase). simpl storeOf.
  assert (Hgrow : forall run, RunRow.id run = nextId st ->
            runs st' = runs st ++ [run] -> RunsFresh st').
  { intros run Hid Hr. unfold RunsFresh in *. rewrite Hr.
    apply Forall_app. split.
    - eapply Forall_impl; [|exact Hfresh]. simpl. intros a Ha. lia.
    - constructor; [lia | constructor]. }
  destruct (runAdapter now source (adapterStore now mode source st))
    as [result st2|e st2]; destruct Hcase as (Hr & He & _).
  - split; [eapply Hgrow; [|exact Hr]; reflexivity|].
    split; [eauto|]. exists []. now rewrite app_nil_r.
  - split; [eapply Hgrow; [|exact Hr]; reflexivity|]. split; eauto.
Qed.

Lemma processAll_fresh : forall now mode l st,
  RunsFresh st ->
  RunsFresh (processAll now mode l st)
  /\ (exists more, runs (processAll now mode l st) = runs st ++ more
                   /\ length more = length l)
  /\ (exists more, errors (processAll now mode l st) = errors st ++ more).
Proof.
  intros now mode l. induction l as [|source l IH]; intros st Hfresh.
  - split; [exact Hfresh|]. split; exists []; now rewrite app_nil_r.
  - destruct (processSource_fresh now mode source st Hfresh)
      as (Hf & (run & Hr) & (ers & He)).
    destruct (IH _ Hf) as (Hf' & (more & Hr' & Hl) & (ers' & He')).
    unfold processAll in *. simpl fold_left. split; [exact Hf'|]. split.
    + exists (run :: more). rewrite Hr', Hr, <- app_assoc. simpl.
      split; [reflexivity | congruence].
    + exists (ers ++ ers'). now rewrite He', He, <- app_assoc.
Qed.

Lemma forEach_processAll : forall now mode l st,
  RunsFresh st ->
  forEach (processSource now mode) l st
  = Returned tt (processAll now mode l st).
Proof.
  intros now mode l. induction l as [|source l IH]; intros st Hfresh.
  - reflexivity.
  - simpl forEach. unfold bind.
    destruct (processSource_fresh now mode source st Hfresh) as (Hf & _).
    destruct (processSource_step now mode source st Hfresh)
      as (st' & Hst & _).
    rewrite Hst in *. simpl storeOf in Hf. rewrite (IH st' Hf).
    unfold processAll. simpl fold_left. now rewrite Hst.
Qed.

Lemma ensureDefault_returns : forall st,
  exists st1,
    ensureDefaultIngestionSources st = Returned tt st1
    /\ runs st1 = runs st /\ errors st1 = errors st
    /\ checkpoints st1 = checkpoints st /\ nextId st <= nextId st1.
Proof.
  intros st. unfold ensureDefaultIngestionSources, bind, upsertM, ret.
  destruct (find (sourceHasKey (lit "claude-default")) (sources st));
    simpl;
    match goal with
    | |- context [find ?p ?l] => destruct (find p l)
    end;
    (eexists; split; [reflexivity|]; simpl; repeat split; lia).
Qed.

End Orchestrator.

Section OrchestratorClaims.

Context {P : Platform} {E : Environment}.

(** C2.  A cycle returns normally from every store, with one new run record
    per enabled source.  When the adapter of a source throws at its turn,
    the step of that source returns all the same: its run record is FAILED
    with the error text as note, an error entry with code INGESTION_FAILURE
    and that text is recorded for the run and the source, the source row
    gets the time of the failure and the text as status message, the
    checkpoints are left as they were, and the sources after it are
    processed; the run record and the error entry are still there when
    the cycle ends. *)
Theorem source_failure_contained :
  forall (now : Z) (mode : IngestionMode) (st : Store),
  RunsFresh st ->
  let st1 := storeOf (ensureDefaultIngestionSources st) in
  exists final,
    runIngestionCycle now mode st = Returned tt final
    /\ length (runs final) = length (runs st) + length (enabledSources st1)
    /\ forall before source after e st2,
         enabledSources st1 = before ++ source :: after ->
         let mid := processAll now mode before st1 in
         runAdapter now source (adapterStore now mode source mid)
         = Threw e st2 ->
         exists st' run err,
           processSource now mode source mid = Returned tt st'
           /\ final = processAll now mode after st'
           /\ In run (runs st') /\ In run (runs final)
           /\ RunRow.id run = nextId mid
           /\ RunRow.sourceId run = SourceRow.id source
           /\ RunRow.status run = FAILED
           /\ RunRow.errorCount run = 1
           /\ RunRow.note run = Some (failureMessage e)
           /\ In err (errors st') /\ In err (errors final)
           /\ ErrorRow.sourceId err = SourceRow.id source
           /\ ErrorRow.runId err = RunRow.id run
           /\ ErrorRow.code err = lit "INGESTION_FAILURE"
           /\ ErrorRow.message err = failureMessage e
           /\ (forall row,
                 find (sourceHasId (SourceRow.id source)) (sources mid)
                 = Some row ->
                 exists row',
                   find (sourceHasId (SourceRow.id source)) (sources st')
                   = Some row'
                   /\ SourceRow.lastErrorAt row' = Some now
                   /\ SourceRow.statusMessage row' = Some (failureMessage e))
           /\ checkpoints st' = checkpoints mid.
Proof.
  intros now mode st Hfresh st1.
  destruct (ensureDefault_returns st) as (st1' & Hens & Hr1 & He1 & Hc1 & Hn1).
  assert (Hst1 : st1 = st1') by (unfold st1; now rewrite Hens).
  assert (Hfresh1 : RunsFresh st1).
  { rewrite Hst1. unfold RunsFresh in *. rewrite Hr1.
    eapply Forall_impl; [|exact Hfresh]. simpl. intros a Ha. lia. }
  exists (processAll now mode (enabledSources st1) st1).
  split; [|split].
  - unfold runIngestionCycle, bind, gets. rewrite Hens, <- Hst1.
    now apply forEach_processAll.
  - destruct (processAll_fresh now mode (enabledSources st1) st1 Hfresh1)
      as (_ & (more & -> & Hl) & _).
    rewrite length_app, Hl, Hst1, Hr1. reflexivity.
  - intros before source after e st2 Hsplit mid Hthrow.
    destruct (processAll_fresh now mode before st1 Hfresh1) as (Hmid & _).
    fold mid in Hmid.
    destruct (processSource_step now mode source mid Hmid)
      as (st' & Hstep & Hn & Hcase).
    rewrite Hthrow in Hcase. destruct Hcase as (Hr & He & Hs & Hc).
    assert (Hfresh' : RunsFresh st').
    { destruct (processSource_fresh now mode source mid Hmid) as (H & _).
      now rewrite Hstep in H. }
    destruct (processAll_fresh now mode after st' Hfresh')
      as (_ & (moreRuns & Hruns & _) & (moreErrors & Herrors)).
    assert (Hfinal : processAll now mode (enabledSources st1) st1
                     = processAll now mode after st').
    { rewrite Hsplit. unfold processAll. rewrite fold_left_app. simpl.
      fold (processAll now mode before st1). fold mid. now rewrite Hstep. }
    exists st',
      (runFailed now (failureMessage e)
         (startedRun (nextId mid) (SourceRow.id source) mode)),
      (ErrorRow.mk (nextId st2) (SourceRow.id source) (nextId mid)
         (lit "INGESTION_FAILURE") (failureMessage e)).
    split; [exact Hstep|]. split; [exact Hfinal|].
    split; [rewrite Hr; apply in_or_app; right; now left|].
    split; [rewrite Hfinal, Hruns, Hr; apply in_or_app; left;
            apply in_or_app; right; now left|].
    do 5 (split; [reflexivity|]).
    split; [rewrite He; apply in_or_app; right; now left|].
    split; [rewrite Hfinal, Herrors, He; apply in_or_app; left;
            apply in_or_app; right; now left|].
    do 4 (split; [reflexivity|]).
    split; [|exact Hc].
    intros row Hrow. eexists. split.
    + rewrite Hs. apply find_updateFirst; [intros x; reflexivity|].
      apply find_updateFirst; [intros x; reflexivity | exact Hrow].
    + split; reflexivity.
Qed.



Lemma lookup_written : forall sourceId key value rows,
  lookupCheckpoint sourceId key (writeCheckpoint sourceId key value rows)
  = Some value.
Proof.
  intros. unfold lookupCheckpoint, writeCheckpoint.
  destruct (find (checkpointHasKey sourceId key) rows) as [r|] eqn:Ef.
  - erewrite find_updateFirst; [reflexivity | | exact Ef].
    intros x. reflexivity.
  - rewrite find_app_none by exact Ef.
    unfold checkpointHasKey at 1. simpl.
    now rewrite Nat.eqb_refl, strEqb_refl.
Qed.


Lemma scanSince_max : forall lastCheckpoint now lookbackDays,
  (Z.abs (lookbackStart now lookbackDays) <= maxDateMs)%Z ->
  scanSince lastCheckpoint now lookbackDays
  = Some match checkpointTime lastCheckpoint with
         | Some t => Z.max t (lookbackStart now lookbackDays)
         | None => lookbackStart now lookbackDays
         end.
Proof.
  intros lastCheckpoint now lookbackDays Hvalid.
  unfold scanSince, checkpointTime, toDateFromMs.
  unfold lookbackStart in *. apply Z.leb_le in Hvalid. rewrite Hvalid.
  destruct (truthy lastCheckpoint) as [cp|]; [|reflexivity].
  destruct (dateParse cp) as [t|]; [|reflexivity].
  destruct (Z.ltb_spec (now - lookbackDays * dayMs) t); f_equal; lia.
Qed.


End OrchestratorClaims.

(** A first cycle on an empty store: the Claude source throws on a log line
    that is [null], the OpenCode source is processed after it. *)
Lemma source_failure_contained_witness :
  exists final run,
    @runIngestionCycle examplePlatform exampleEnvironment exampleNow Poll
      emptyStore = Returned tt final
    /\ length (runs final) = 2
    /\ In run (runs final)
    /\ RunRow.status run = FAILED
    /\ RunRow.note run = Some (failureMessage nullDereference).
Proof.
  destruct (@source_failure_contained examplePlatform exampleEnvironment
              exampleNow Poll emptyStore (Forall_nil _))
    as (final & Hcycle & Hlen & Hstep).
  edestruct (Hstep [] _ _ nullDereference _ eq_refl eq_refl)
    as (st' & run & err & _ & _ & _ & Hin & _ & _ & Hstatus & _ & Hnote & _).
  exists final, run. repeat split; assumption.
Defined.

(** The same cycle: the source that succeeded has its checkpoint, the one
    that failed has none. *)
Example cycle_checkpoints :
  let final :=
    storeOf (@runIngestionCycle examplePlatform exampleEnvironment exampleNow
               Poll emptyStore) in
  map RunRow.status (runs final) = [FAILED; SUCCESS]
  /\ map CheckpointRow.sourceId (checkpoints final) = [1]
  /\ map CheckpointRow.cursorValue (checkpoints final)
     = [lit "2026-01-01T00:00:01.000Z"]
  /\ map SourceRow.id (sources final) = [0; 1].
Proof. vm_compute. repeat split. Qed.

(** ** The order of messages and parts *)

(** *** The stable sort *)

Lemma insertBy_perm : forall (A : Type) (key : A -> Z) (x : A) (l : list A),
  Permutation (x :: l) (insertBy key x l).
Proof.
  intros A key x l. induction l as [|y l IH]; simpl; [reflexivity|].
  destruct (key x <=? key y)%Z; [reflexivity|].
  rewrite perm_swap. now constructor.
Qed.

Lemma sortBy_perm : forall (A : Type) (key : A -> Z) (l : list A),
  Permutation l (sortBy key l).
Proof.
  intros A key l. induction l as [|x l IH]; simpl; [constructor|].
  rewrite <- insertBy_perm. now constructor.
Qed.

Lemma sortBy_In : forall (A : Type) (key : A -> Z) (l : list A) (x : A),
  In x (sortBy key l) <-> In x l.
Proof.
  intros A key l x. split; apply Permutation_in;
    [symmetry | ]; apply sortBy_perm.
Qed.

Lemma insertBy_sorted : forall (A : Type) (key : A -> Z) (x : A) (l : list A),
  StronglySorted Z.le (map key l) ->
  StronglySorted Z.le (map key (insertBy key x l)).
Proof.
  intros A key x l. induction l as [|y l IH]; intros H; simpl.
  - constructor; constructor.
  - inversion H as [|a b Hs Hall]; subst.
    destruct (Z.leb_spec (key x) (key y)) as [Hle|Hgt]; simpl.
    + constructor; [exact H|]. constructor; [exact Hle|].
      eapply Forall_impl; [|exact Hall]. simpl. intros a Ha. lia.
    + constructor; [now apply IH|].
      apply Forall_forall. intros k Hk. apply in_map_iff in Hk as (z & <- & Hz).
      apply (Permutation_in _
               (Permutation_sym (insertBy_perm A key x l))) in Hz.
      destruct Hz as [<-|Hz]; [lia|].
      rewrite Forall_forall in Hall. apply Hall. now apply in_map.
Qed.

Lemma sortBy_sorted : forall (A : Type) (key : A -> Z) (l : list A),
  StronglySorted Z.le (map key (sortBy key l)).
Proof.
  intros A key l. induction l as [|x l IH]; simpl; [constructor|].
  now apply insertBy_sorted.
Qed.

(** Ties keep their input order: the elements with a given key come out in
    the order they went in. *)
Lemma insertBy_stable : forall (A : Type) (key : A -> Z) (k : Z) (x : A)
  (l : list A),
  StronglySorted Z.le (map key l) ->
  filter (fun y => (key y =? k)%Z) (insertBy key x l)
  = filter (fun y => (key y =? k)%Z) (x :: l).
Proof.
  intros A key k x l. induction l as [|y l IH]; intros H; [reflexivity|].
  inversion H as [|a b Hs Hall]; subst. simpl insertBy.
  destruct (Z.leb_spec (key x) (key y)) as [Hle|Hgt]; [reflexivity|].
  simpl filter. simpl filter in IH. rewrite (IH Hs).
  destruct (Z.eqb_spec (key x) k) as [Ex|Ex]; [|reflexivity].
  destruct (Z.eqb_spec (key y) k) as [Ey|Ey]; [lia | reflexivity].
Qed.

Lemma sortBy_stable : forall (A : Type) (key : A -> Z) (k : Z) (l : list A),
  filter (fun y => (key y =? k)%Z) (sortBy key l)
  = filter (fun y => (key y =? k)%Z) l.
Proof.
  intros A key k l. induction l as [|x l IH]; [reflexivity|].
  simpl sortBy. rewrite insertBy_stable by apply sortBy_sorted.
  simpl. now rewrite IH.
Qed.

(** *** Indexed maps *)

Lemma mapIndexed_length : forall (A B : Type) (f : nat -> A -> B) (l : list A)
  (n : nat), length (mapIndexed f n l) = length l.
Proof.
  intros A B f l. induction l as [|x l IH]; intros n; simpl; congruence.
Qed.

Lemma mapIndexed_index : forall (A B : Type) (f : nat -> A -> B)
  (index : B -> nat) (l : list A) (n : nat),
  (forall i x, index (f i x) = i) ->
  map index (mapIndexed f n l) = seq n (length l).
Proof.
  intros A B f index l. induction l as [|x l IH]; intros n H; simpl.
  - reflexivity.
  - rewrite H. f_equal. now apply IH.
Qed.

Lemma mapIndexed_map : forall (A B C : Type) (f : nat -> A -> B) (g : B -> C)
  (g' : A -> C) (l : list A) (n : nat),
  (forall i x, g (f i x) = g' x) -> map g (mapIndexed f n l) = map g' l.
Proof.
  intros A B C f g g' l. induction l as [|x l IH]; intros n H; simpl.
  - reflexivity.
  - rewrite H. f_equal. now apply IH.
Qed.

Lemma mapIndexed_In : forall (A B : Type) (f : nat -> A -> B) (l : list A)
  (n : nat) (y : B),
  In y (mapIndexed f n l) -> exists i x, In x l /\ y = f i x.
Proof.
  intros A B f l. induction l as [|x l IH]; intros n y H; simpl in H.
  - contradiction.
  - destruct H as [<-|H].
    + exists n, x. split; [now left | reflexivity].
    + destruct (IH _ _ H) as (i & z & Hz & ->). exists i, z.
      split; [now right | reflexivity].
Qed.

Lemma Dense_mapIndexed : forall (A B : Type) (f : nat -> A -> B)
  (index : B -> nat) (l : list A),
  (forall i x, index (f i x) = i) -> Dense (map index (mapIndexed f 0 l)).
Proof.
  intros A B f index l H. unfold Dense.
  rewrite (mapIndexed_index _ _ f index l 0 H).
  now rewrite length_seq.
Qed.

(** *** Ordered messages *)

Lemma Dense_nth : forall (A : Type) (index : A -> nat) (l : list A) (i : nat)
  (x : A),
  Dense (map index l) -> nth_error l i = Some x -> index x = i.
Proof.
  intros A index l i x H Hn. unfold Dense in H. rewrite length_map in H.
  assert (Hi : i < length l) by (apply nth_error_Some; congruence).
  assert (E : nth_error (map index l) i = Some (index x))
    by now apply map_nth_error.
  rewrite H in E. rewrite nth_error_seq in E.
  destruct (Nat.ltb_spec i (length l)); [|lia].
  simpl in E. congruence.
Qed.

Lemma StronglySorted_nth : forall (l : list Z) (i j : nat) (a b : Z),
  StronglySorted Z.le l -> i < j ->
  nth_error l i = Some a -> nth_error l j = Some b -> (a <= b)%Z.
Proof.
  intros l i j a b H. revert i j. induction H as [|x l Hs IH Hall];
    intros i j Hij Hi Hj.
  - destruct i; discriminate.
  - destruct j as [|j]; [lia|]. simpl in Hj. destruct i as [|i]; simpl in Hi.
    + injection Hi as <-. rewrite Forall_forall in Hall. apply Hall.
      eapply nth_error_In; eassumption.
    + apply (IH i j); [lia | assumption | assumption].
Qed.

Lemma undated_first : forall (since : option Z)
  (msgs : list MessageInput.t),
  Dense (map MessageInput.ordinal msgs) ->
  StronglySorted Z.le (map timeKey msgs) ->
  (forall m t, In m msgs -> MessageInput.sourceTimestamp m = Some t ->
               before t since = false) ->
  before 0 since = true ->
  forall m m', In m msgs -> In m' msgs ->
    MessageInput.sourceTimestamp m = None ->
    MessageInput.sourceTimestamp m' <> None ->
    MessageInput.ordinal m < MessageInput.ordinal m'.
Proof.
  intros since msgs Hd Hs Hsince Hpos m m' Hm Hm' Hnone Hsome.
  apply In_nth_error in Hm as [i Hi]. apply In_nth_error in Hm' as [j Hj].
  rewrite (Dense_nth _ _ msgs i m Hd Hi), (Dense_nth _ _ msgs j m' Hd Hj).
  destruct (MessageInput.sourceTimestamp m') as [t|] eqn:Et; [|congruence].
  assert (Ht : (0 < t)%Z).
  { apply (before_after_epoch since t Hpos).
    apply (Hsince m' t); [eapply nth_error_In; eassumption | exact Et]. }
  assert (Km : timeKey m = 0%Z) by (unfold timeKey; now rewrite Hnone).
  assert (Km' : timeKey m' = t) by (unfold timeKey; now rewrite Et).
  destruct (Nat.lt_trichotomy i j) as [Hlt|[Heq|Hgt]]; [exact Hlt| |].
  - subst j. rewrite Hi in Hj. injection Hj as ->. congruence.
  - exfalso.
    pose proof (StronglySorted_nth (map timeKey msgs) j i t 0%Z Hs Hgt) as Hle.
    rewrite <- Km', <- Km in Hle.
    assert ((timeKey m' <= timeKey m)%Z)
      by (apply Hle; now apply map_nth_error).
    lia.
Qed.

Lemma setOrdinal_timeKey : forall i m,
  timeKey (MessageInput.setOrdinal i m) = timeKey m.
Proof. reflexivity. Qed.

(** [orderMessages] yields ordered messages from messages that are not
    older than [since]. *)
Lemma orderMessages_ordered : forall since msgs,
  (forall m t, In m msgs -> MessageInput.sourceTimestamp m = Some t ->
               before t since = false) ->
  OrderedMessages since (orderMessages msgs).
Proof.
  intros since msgs Hsince. unfold orderMessages.
  assert (Hd : Dense (map MessageInput.ordinal
                        (mapIndexed MessageInput.setOrdinal 0
                           (sortBy timeKey msgs))))
    by (apply Dense_mapIndexed; reflexivity).
  assert (Hs : StronglySorted Z.le
                 (map timeKey (mapIndexed MessageInput.setOrdinal 0
                                 (sortBy timeKey msgs)))).
  { rewrite (mapIndexed_map _ _ _ MessageInput.setOrdinal timeKey timeKey)
      by reflexivity. apply sortBy_sorted. }
  assert (Hb : forall m t,
             In m (mapIndexed MessageInput.setOrdinal 0
                     (sortBy timeKey msgs)) ->
             MessageInput.sourceTimestamp m = Some t ->
             before t since = false).
  { intros m t Hm Ht. apply mapIndexed_In in Hm as (i & x & Hx & ->).
    apply sortBy_In in Hx. now apply (Hsince x t). }
  split; [exact Hd|]. split; [exact Hs|]. split; [exact Hb|].
  intros Hpos. now apply (undated_first since).
Qed.

Lemma orderMessages_In : forall msgs m,
  In m (orderMessages msgs) ->
  exists i x, In x msgs /\ m = MessageInput.setOrdinal i x.
Proof.
  intros msgs m H. unfold orderMessages in H.
  apply mapIndexed_In in H as (i & x & Hx & ->). apply sortBy_In in Hx.
  now exists i, x.
Qed.

(** *** Adapter A *)

Section AdapterOrder.

Context {P : Platform}.

Lemma claudeArrayParts_dense : forall sessionId uuid ts items index,
  forallb isObjectLike items = true ->
  map PartInput.ordinal
    (fst (claudeArrayParts sessionId uuid ts index items))
  = seq index (length items).
Proof.
  intros sessionId uuid ts items. induction items as [|item items IH];
    intros index H; simpl.
  - reflexivity.
  - simpl in H. apply andb_true_iff in H as [Hitem Hrest].
    specialize (IH (S index) Hrest).
    destruct (claudeArrayParts sessionId uuid ts (S index) items)
      as [parts visible].
    rewrite Hitem. simpl in *. now rewrite IH.
Qed.

(** A message built from an event keeps the event as metadata and the
    time stamp of the event, and has the parts described by
    [ClaudeParts]. *)
Lemma buildClaudeMessage_parts : forall parsed sessionId path m,
  buildClaudeMessage parsed sessionId path = Some m ->
  ClaudeParts m
  /\ MessageInput.sourceTimestamp m
     = toDate (toStringValue (prop "timestamp" parsed)).
Proof.
  intros parsed sessionId path m H. unfold buildClaudeMessage in H.
  unfold ClaudeParts.
  destruct (claudeRawContent parsed) as [[| | |raw|items|]|] eqn:Eraw;
    cbv beta iota zeta in H;
    try (destruct (nonEmpty []) eqn:En; [discriminate En | discriminate H]).
  - destruct (nonEmpty (sanitizeImportedText raw)) eqn:En;
      cbv beta iota zeta in H; [rewrite En in H | discriminate].
    injection H as <-. split; [|reflexivity].
    exists parsed. rewrite Eraw. split; reflexivity.
  - pose proof (claudeArrayParts_dense sessionId
                  match toStringValue (prop "uuid" parsed) with
                  | Some u => u
                  | None => []
                  end
                  (toDate (toStringValue (prop "timestamp" parsed)))
                  items 0) as Hdense.
    destruct (claudeArrayParts _ _ _ 0 items) as [parts visible].
    cbv beta iota zeta in H.
    destruct (nonEmpty (trim (joinWith [NL; NL] visible))); [|discriminate].
    injection H as <-. split; [|reflexivity].
    exists parsed. rewrite Eraw. split; [reflexivity|].
    intros Hall. cbn [fst] in Hdense. unfold Dense.
    cbn [MessageInput.parts].
    rewrite (Hdense Hall), length_seq. reflexivity.
Qed.

Lemma recordMessage_In : forall sessionId fresh touch sessions s,
  In s (recordMessage sessionId fresh touch sessions) ->
  s = fresh \/ In s sessions \/ exists s0, In s0 sessions /\ s = touch s0.
Proof.
  intros sessionId fresh touch sessions. induction sessions as [|x l IH];
    intros s H; simpl in H.
  - destruct H as [<-|[]]. now left.
  - destruct (isSession sessionId x).
    + destruct H as [<-|H].
      * right; right. exists x. split; [now left | reflexivity].
      * right; left. now right.
    + destruct H as [<-|H]; [right; left; now left|].
      destruct (IH s H) as [Hf|[Hin|(s0 & Hs0 & ->)]].
      * now left.
      * right; left. now right.
      * right; right. exists s0. split; [now right | reflexivity].
Qed.

Lemma foldThrow_inv : forall (S A : Type) (f : S -> A -> Thrown + S)
  (I : S -> Prop) (l : list A) (s s' : S),
  (forall s0 x s1, I s0 -> f s0 x = inr s1 -> I s1) ->
  I s -> foldThrow f s l = inr s' -> I s'.
Proof.
  intros S A f I l. induction l as [|x l IH]; intros s s' Hf Hs H; simpl in H.
  - now injection H as <-.
  - destruct (f s x) as [e|s1] eqn:E; [discriminate|].
    apply (IH s1 s' Hf); [eapply Hf; eassumption | exact H].
Qed.

Lemma fold_left_inv : forall (S A : Type) (f : S -> A -> S) (I : S -> Prop)
  (l : list A) (s : S),
  (forall s0 x, I s0 -> I (f s0 x)) -> I s -> I (fold_left f l s).
Proof.
  intros S A f I l. induction l as [|x l IH]; intros s Hf Hs; simpl.
  - exact Hs.
  - apply IH; [exact Hf | now apply Hf].
Qed.

(** The loop body on a parsed line that is not [null]. *)
Lemma claudeLine_event : forall since path st parsed,
  parsed <> JNull ->
  claudeLine since path st (Some parsed)
  = match truthy (toStringValue (prop "sessionId" parsed)) with
    | None => inr st
    | Some sessionId =>
        let timestamp :=
          toDate (orElse (toStringValue (prop "timestamp" parsed))
                         (toStringValue
                            (optProp "timestamp" (prop "snapshot" parsed)))) in
        if match timestamp with
           | Some t => before t since
           | None => false
           end
        then inr st
        else
          match buildClaudeMessage parsed sessionId path with
          | None =>
              inr (mkScan (scanSessions st) (bumpMax timestamp (scanMax st)))
          | Some messageRecord =>
              inr (mkScan
                     (recordMessage sessionId
                        (SessionInput.mk sessionId
                           (toStringValue (prop "cwd" parsed))
                           (fallbackSessionTitle
                              (MessageInput.content messageRecord) sessionId)
                           None timestamp None timestamp [messageRecord])
                        (touchSession timestamp
                           (toStringValue (prop "cwd" parsed)) messageRecord)
                        (scanSessions st))
                     (bumpMax timestamp (scanMax st)))
          end
    end.
Proof.
  intros since path st parsed Hnn. destruct parsed; try reflexivity.
  congruence.
Qed.

Lemma claudeLine_good : forall since path st line st',
  ScanGood (GoodClaude since) st ->
  claudeLine since path st line = inr st' ->
  ScanGood (GoodClaude since) st'.
Proof.
  intros since path st line st' Hgood H.
  destruct line as [parsed|]; [|injection H as <-; exact Hgood].
  assert (Hnn : parsed <> JNull) by (intros ->; discriminate H).
  rewrite (claudeLine_event since path st parsed Hnn) in H.
  destruct (truthy (toStringValue (prop "sessionId" parsed)))
    as [sessionId|]; [|injection H as <-; exact Hgood].
  cbv zeta in H.
  set (timestamp :=
         toDate (orElse (toStringValue (prop "timestamp" parsed))
                        (toStringValue
                           (optProp "timestamp" (prop "snapshot" parsed)))))
    in *.
  destruct (match timestamp with
            | Some t => before t since
            | None => false
            end) eqn:Eold; [injection H as <-; exact Hgood|].
  destruct (buildClaudeMessage parsed sessionId path) as [message|] eqn:Eb.
  - injection H as <-.
    destruct (buildClaudeMessage_parts _ _ _ _ Eb) as (Hparts & Hts).
    assert (Hm : GoodClaude since message).
    { split; [exact Hparts|]. intros t Ht. rewrite Hts in Ht.
      unfold timestamp in Eold. unfold orElse in Eold.
      destruct (toStringValue (prop "timestamp" parsed)) as [s|] eqn:Es;
        [|discriminate].
      rewrite Ht in Eold. exact Eold. }
    intros s m Hs Hin. cbn [scanSessions] in Hs.
    apply recordMessage_In in Hs as [->|[Hs|(s0 & Hs0 & ->)]].
    + cbn [SessionInput.messages] in Hin. destruct Hin as [<-|[]]. exact Hm.
    + now apply (Hgood s m).
    + unfold touchSession in Hin. cbn [SessionInput.messages] in Hin.
      apply in_app_or in Hin as [Hin|[<-|[]]].
      * now apply (Hgood s0 m).
      * exact Hm.
  - injection H as <-. exact Hgood.
Qed.

Lemma claudeFile_good : forall since st file st',
  ScanGood (GoodClaude since) st ->
  claudeFile since st file = inr st' ->
  ScanGood (GoodClaude since) st'.
Proof.
  intros since st file st' Hgood H. unfold claudeFile in H.
  destruct (before (mtime file) since); [now injection H as <-|].
  eapply (foldThrow_inv _ _ _ (ScanGood (GoodClaude since)));
    [|exact Hgood | exact H].
  intros s0 x s1. apply claudeLine_good.
Qed.

Lemma claudeScan_ordered : forall since files inputs maxT,
  claudeScan since files = inr (inputs, maxT) ->
  forall s, In s inputs ->
    OrderedMessages since (SessionInput.messages s)
    /\ forall m, In m (SessionInput.messages s) -> ClaudeParts m.
Proof.
  intros since files inputs maxT H s Hs. unfold claudeScan in H.
  destruct (foldThrow (claudeFile since) (mkScan [] None) files)
    as [e|st] eqn:Efold; [discriminate|].
  injection H as <- <-.
  assert (Hgood : ScanGood (GoodClaude since) st).
  { eapply (foldThrow_inv _ _ _ (ScanGood (GoodClaude since)));
      [| |exact Efold].
    - intros s0 x s1. apply claudeFile_good.
    - intros s0 m []. }
  apply in_map_iff in Hs as (s0 & <- & Hs0). simpl. split.
  - apply orderMessages_ordered. intros m t Hm Ht.
    now apply (Hgood s0 m Hs0 Hm).
  - intros m Hm. apply orderMessages_In in Hm as (i & x & Hx & ->).
    apply (Hgood s0 x Hs0 Hx).
Qed.

(** *** Adapter B *)

Lemma openCodeParts_ordered : forall messageId entries,
  Dense (map PartInput.ordinal (openCodeParts messageId entries))
  /\ StronglySorted Z.le (map partStartOf (openCodeParts messageId entries)).
Proof.
  intros messageId entries. unfold openCodeParts. split.
  - apply Dense_mapIndexed. reflexivity.
  - rewrite (mapIndexed_map _ _ _ (openCodePart messageId) partStartOf
               partStartKey) by reflexivity.
    apply sortBy_sorted.
Qed.

Lemma openCodeMessage_good : forall storage since acc file,
  (forall m, In m (fst acc) -> GoodOpenCode since m) ->
  forall m, In m (fst (openCodeMessage storage since acc file)) ->
            GoodOpenCode since m.
Proof.
  intros storage since [items maxT] file Hgood m. unfold openCodeMessage.
  destruct file as [record|]; [|apply Hgood].
  destruct (isObjectLike record); [|apply Hgood].
  destruct (truthy (toStringValue (prop "id" record))) as [messageId|];
    [|apply Hgood].
  set (created :=
         toDateFromMs
           (toNumberValue (optProp "created" (prop "time" record)))).
  destruct (match created with
            | Some t => before t since
            | None => false
            end) eqn:Eold; [apply Hgood|].
  destruct (truthy _) as [final|]; [|apply Hgood].
  simpl. intros Hin. apply in_app_or in Hin as [Hin|[<-|[]]];
    [now apply Hgood|].
  split.
  - apply openCodeParts_ordered.
  - simpl. intros t Ht. rewrite Ht in Eold. exact Eold.
Qed.

Lemma openCodeSession_good : forall storage since st file,
  (forall s, In s (scanSessions st) -> SessionGood since s) ->
  forall s, In s (scanSessions (openCodeSession storage since st file)) ->
            SessionGood since s.
Proof.
  intros storage since st file Hgood s. unfold openCodeSession.
  destruct file as [record|]; [|apply Hgood].
  destruct (isObjectLike record); [|apply Hgood].
  destruct (truthy (toStringValue (prop "id" record))) as [sessionId|];
    [|apply Hgood].
  destruct (match toDateFromMs _ with
            | Some t => before t since
            | None => false
            end); [apply Hgood|].
  match goal with
  | |- context [fold_left ?f ?l ?a] =>
      pose proof (fold_left_inv _ _ f
                    (fun acc => forall m, In m (fst acc) ->
                                          GoodOpenCode since m) l a) as Hfold;
      destruct (fold_left f l a) as [items maxT]
  end.
  assert (Hitems : forall m, In m items -> GoodOpenCode since m).
  { apply Hfold.
    - intros acc x Hacc. now apply openCodeMessage_good.
    - intros m []. }
  simpl. intros Hin. apply in_app_or in Hin as [Hin|[<-|[]]];
    [now apply Hgood|].
  split; simpl.
  - apply orderMessages_ordered. intros m t Hm. now apply (Hitems m).
  - intros m Hm. apply orderMessages_In in Hm as (i & x & Hx & ->).
    apply (Hitems x Hx).
Qed.

Lemma openCodeScan_ordered : forall since storage s,
  In s (fst (openCodeScan since storage)) -> SessionGood since s.
Proof.
  intros since storage s. unfold openCodeScan. simpl.
  apply (fold_left_inv _ _ (openCodeSession storage since)
           (fun st => forall s, In s (scanSessions st) -> SessionGood since s)).
  - intros st file Hst. now apply openCodeSession_good.
  - intros s0 [].
Qed.

(** C6, amended.  In every session either adapter hands over, the messages
    carry the ordinals 0..n-1 in ascending order of source time stamp,
    where a missing time stamp counts as time 0; no time stamp is before
    the lower bound of the scan, so when that bound is after the epoch the
    undated messages come first.  The parts of a message of adapter B carry
    0..m-1 in ascending order of start time.  The parts of a message of
    adapter A are the single part 0 for a string content and carry 0..m-1
    for a content array whose entries are all objects. *)
Theorem adapters_order :
  (forall since files inputs maxT,
     claudeScan since files = inr (inputs, maxT) ->
     forall s, In s inputs ->
       OrderedMessages since (SessionInput.messages s)
       /\ forall m, In m (SessionInput.messages s) -> ClaudeParts m)
  /\ (forall since storage s,
        In s (fst (openCodeScan since storage)) ->
        OrderedMessages since (SessionInput.messages s)
        /\ forall m, In m (SessionInput.messages s) -> OpenCodeParts m).
Proof.
  split.
  - apply claudeScan_ordered.
  - apply openCodeScan_ordered.
Qed.

End AdapterOrder.

(** The two messages of the sound storage. *)
Lemma adapters_order_witness :
  OrderedMessages sinceThirtyDays soundMessages
  /\ forall m, In m soundMessages -> OpenCodeParts m.
Proof.
  apply (proj2 (@adapters_order examplePlatform) sinceThirtyDays soundStorage).
  left. reflexivity.
Defined.

Example soundMessages_ordinals :
  map MessageInput.externalMessageId soundMessages = [lit "m1"; lit "m2"]
  /\ map MessageInput.ordinal soundMessages = [0; 1].
Proof. split; reflexivity. Qed.

(** C6 as stated fails.  First, an event of adapter A whose content array
    starts with an entry that is not an object: its only part carries the
    ordinal 1.  Second, a scan with a look-back of a hundred years over an
    undated event followed by one dated before the epoch: the undated
    message is sorted last. *)
Lemma adapters_order_counterexample :
  (exists s m maxT,
     @claudeScan examplePlatform sinceThirtyDays [gapFile] = inr ([s], maxT)
     /\ SessionInput.messages s = [m]
     /\ map PartInput.ordinal (MessageInput.parts m) = [1]
     /\ ~ Dense (map PartInput.ordinal (MessageInput.parts m)))
  /\ (exists s m1 m2 maxT,
        @claudeScan examplePlatform sinceCentury [oldFile] = inr ([s], maxT)
        /\ SessionInput.messages s = [m1; m2]
        /\ MessageInput.content m1 = lit "old"
        /\ MessageInput.sourceTimestamp m1 = Some (-1000)%Z
        /\ MessageInput.ordinal m1 = 0
        /\ MessageInput.content m2 = lit "undated"
        /\ MessageInput.sourceTimestamp m2 = None
        /\ MessageInput.ordinal m2 = 1).
Proof.
  split.
  - do 3 eexists. split; [vm_compute; reflexivity|].
    split; [reflexivity|]. split; [reflexivity|].
    intro H. discriminate H.
  - do 4 eexists. split; [vm_compute; reflexivity|]. repeat split.
Qed.

(** ** Checkpoints and the scan window *)

Section CheckpointClaim.

Context {P : Platform} {E : Environment}.


End CheckpointClaim.



(** ** Idempotence of a source run *)

(** *** Keys and identities in one table *)

Section Table.

Variables (A I : Type) (ident : A -> I) (rowId : A -> nat) (q : A -> bool).

Hypothesis by_identity : forall r r',
  ident r = ident r' -> q r = q r' /\ rowId r = rowId r'.

Lemma look_by_identity : forall l l',
  map ident l = map ident l' ->
  option_map rowId (find q l) = option_map rowId (find q l').
Proof.
  induction l as [|r l IH]; intros [|r' l'] H; simpl in H; try discriminate.
  - reflexivity.
  - injection H as Hr Hl. simpl. destruct (by_identity r r' Hr) as [Hq Hid].
    rewrite Hq. destruct (q r'); simpl; [now rewrite Hid | now apply IH].
Qed.

Lemma identities_updateFirst : forall (p : A -> bool) (f : A -> A) l,
  (forall r, ident (f r) = ident r) ->
  map ident (updateFirst p f l) = map ident l.
Proof.
  intros p f l Hf. induction l as [|r l IH]; simpl; [reflexivity|].
  destruct (p r); simpl; [now rewrite Hf | now rewrite IH].
Qed.

Lemma look_updateFirst : forall (p : A -> bool) (f : A -> A) l,
  (forall r, ident (f r) = ident r) ->
  option_map rowId (find q (updateFirst p f l))
  = option_map rowId (find q l).
Proof.
  intros p f l Hf. apply look_by_identity.
  now apply identities_updateFirst.
Qed.

Lemma look_app : forall l x i,
  option_map rowId (find q l) = Some i ->
  option_map rowId (find q (l ++ [x])) = Some i.
Proof.
  intros l x i H. destruct (find q l) as [r|] eqn:E; [|discriminate].
  now rewrite (find_app_some _ _ _ [x] _ E).
Qed.

(** After an upsert under the key [q] the key resolves to the identifier
    returned. *)
Lemma look_upserted : forall (f : A -> A) (new : A) l,
  (forall r, ident (f r) = ident r) -> q new = true ->
  option_map rowId
    (find q (match find q l with
             | Some _ => updateFirst q f l
             | None => l ++ [new]
             end))
  = Some (match find q l with
          | Some r => rowId r
          | None => rowId new
          end).
Proof.
  intros f new l Hf Hnew. destruct (find q l) as [r|] eqn:E.
  - rewrite look_updateFirst by exact Hf. now rewrite E.
  - rewrite (find_app_none _ _ _ _ E), Hnew. reflexivity.
Qed.

End Table.

(** *** The five tables of a source run *)

Lemma sessionKey_by_identity : forall tool ext r r',
  sessionIdentity r = sessionIdentity r' ->
  sessionHasKey tool ext r = sessionHasKey tool ext r'
  /\ SessionRow.id r = SessionRow.id r'.
Proof.
  intros tool ext r r' H. unfold sessionIdentity in H. injection H as H1 H2 H3.
  unfold sessionHasKey. now rewrite H2, H3.
Qed.

Lemma messageKey_by_identity : forall sessionId ext r r',
  messageIdentity r = messageIdentity r' ->
  messageHasKey sessionId ext r = messageHasKey sessionId ext r'
  /\ MessageRow.id r = MessageRow.id r'.
Proof.
  intros sessionId ext r r' H. unfold messageIdentity in H.
  injection H as H1 H2 H3. unfold messageHasKey. now rewrite H2, H3.
Qed.

Lemma partKey_by_identity : forall messageId ext r r',
  partIdentity r = partIdentity r' ->
  partHasKey messageId ext r = partHasKey messageId ext r'
  /\ PartRow.id r = PartRow.id r'.
Proof.
  intros messageId ext r r' H. unfold partIdentity in H.
  injection H as H1 H2 H3. unfold partHasKey. now rewrite H2, H3.
Qed.

Lemma toolKey_by_identity : forall slug r r',
  toolIdentity r = toolIdentity r' ->
  strEqb (SourceToolRow.slug r) slug = strEqb (SourceToolRow.slug r') slug
  /\ SourceToolRow.id r = SourceToolRow.id r'.
Proof.
  intros slug r r' H. unfold toolIdentity in H. injection H as H1 H2.
  now rewrite H2.
Qed.

Lemma SameIdentities_refl : forall st, SameIdentities st st.
Proof. intros st. repeat split. Qed.

Lemma SameIdentities_trans : forall a b c,
  SameIdentities a b -> SameIdentities b c -> SameIdentities a c.
Proof.
  intros a b c ((S1 & M1 & P1) & T1 & W1 & C1) ((S2 & M2 & P2) & T2 & W2 & C2).
  repeat split; congruence.
Qed.

Lemma Extends_refl : forall st, Extends st st.
Proof. intros st. repeat split; auto. Qed.

Lemma Extends_trans : forall a b c, Extends a b -> Extends b c -> Extends a c.
Proof.
  intros a b c (S1 & M1 & P1 & T1 & W1 & C1) (S2 & M2 & P2 & T2 & W2 & C2).
  repeat split; auto. congruence.
Qed.

(** Stores with the same identities resolve every key alike. *)
Lemma SameIdentities_look : forall a b,
  SameIdentities a b ->
  (forall tool ext, lookSession b tool ext = lookSession a tool ext)
  /\ (forall sessionId ext, lookMessage b sessionId ext
                            = lookMessage a sessionId ext)
  /\ (forall messageId ext, lookPart b messageId ext
                            = lookPart a messageId ext)
  /\ (forall slug, lookTool b slug = lookTool a slug)
  /\ lookWorkspace b = lookWorkspace a.
Proof.
  intros a b ((HS & HM & HP) & HT & HW & HC).
  split; [|split; [|split; [|split]]].
  - intros tool ext. unfold lookSession.
    apply (look_by_identity _ _ sessionIdentity); [|exact HS].
    apply sessionKey_by_identity.
  - intros sessionId ext. unfold lookMessage.
    apply (look_by_identity _ _ messageIdentity); [|exact HM].
    apply messageKey_by_identity.
  - intros messageId ext. unfold lookPart.
    apply (look_by_identity _ _ partIdentity); [|exact HP].
    apply partKey_by_identity.
  - intros slug. unfold lookTool.
    apply (look_by_identity _ _ toolIdentity); [|exact HT].
    apply toolKey_by_identity.
  - unfold lookWorkspace. destruct (workspaces a), (workspaces b);
      simpl in *; try discriminate; [reflexivity|]. now injection HW as ->.
Qed.

Lemma SameIdentities_Extends : forall a b, SameIdentities a b -> Extends a b.
Proof.
  intros a b H. pose proof H as (_ & _ & _ & HC).
  destruct (SameIdentities_look a b H) as (S & M & P & T & W).
  repeat split; intros; rewrite ?S, ?M, ?P, ?T, ?W; auto.
Qed.

Lemma Extends_SameIdentities : forall a b c,
  Extends a b -> SameIdentities b c -> Extends a c.
Proof.
  intros a b c H1 H2. eapply Extends_trans; [exact H1|].
  now apply SameIdentities_Extends.
Qed.

(** *** Combining store computations *)

Lemma Grows_ret : forall (A : Type) (a : A), Grows (ret a).
Proof. intros A a st. apply Extends_refl. Qed.

Lemma Grows_throw : forall (A : Type) (e : Thrown), Grows (@throw A e).
Proof. intros A e st. apply Extends_refl. Qed.

Lemma Grows_bind : forall (A B : Type) (m : M A) (k : A -> M B),
  Grows m -> (forall a, Grows (k a)) -> Grows (bind m k).
Proof.
  intros A B m k Hm Hk st. unfold bind. specialize (Hm st).
  destruct (m st) as [a st1|e st1]; simpl in Hm.
  - eapply Extends_trans; [exact Hm | apply Hk].
  - exact Hm.
Qed.

Lemma Grows_foldStore : forall (S A : Type) (f : S -> A -> M S) (l : list A)
  (s : S),
  (forall s' x, Grows (f s' x)) -> Grows (foldStore f s l).
Proof.
  intros S A f l. induction l as [|x l IH]; intros s Hf; simpl.
  - apply Grows_ret.
  - apply Grows_bind; [apply Hf|]. intros s'. now apply IH.
Qed.

Lemma Absorbed_ret : forall (A : Type) (a : A), Absorbed (ret a).
Proof.
  intros A a st st' _. exists st'. split; [apply SameIdentities_refl|].
  reflexivity.
Qed.

Lemma Absorbed_throw : forall (A : Type) (e : Thrown), Absorbed (@throw A e).
Proof.
  intros A e st st' _. exists st'. split; [apply SameIdentities_refl|].
  reflexivity.
Qed.

Lemma Absorbed_bind : forall (A B : Type) (m : M A) (k : A -> M B),
  Absorbed m -> (forall a, Grows (k a)) -> (forall a, Absorbed (k a)) ->
  Absorbed (bind m k).
Proof.
  intros A B m k Hm Hg Hk st st' Hext. unfold bind in *.
  specialize (Hm st st'). destruct (m st) as [a st1|e st1]; simpl in *.
  - destruct Hm as (st1' & Hsame & Hrun).
    { eapply Extends_trans; [apply (Hg a st1) | exact Hext]. }
    rewrite Hrun.
    destruct (Hk a st1 st1') as (st2' & Hsame2 & Hrun2).
    { eapply Extends_SameIdentities; eassumption. }
    exists st2'. split; [eapply SameIdentities_trans; eassumption|].
    exact Hrun2.
  - destruct (Hm Hext) as (st1' & Hsame & Hrun). rewrite Hrun.
    exists st1'. split; [exact Hsame | reflexivity].
Qed.

Lemma Absorbed_foldStore : forall (S A : Type) (f : S -> A -> M S)
  (l : list A) (s : S),
  (forall s' x, Grows (f s' x)) -> (forall s' x, Absorbed (f s' x)) ->
  Absorbed (foldStore f s l).
Proof.
  intros S A f l. induction l as [|x l IH]; intros s Hg Hf; simpl.
  - apply Absorbed_ret.
  - apply Absorbed_bind; [apply Hf | |].
    + intros s'. now apply Grows_foldStore.
    + intros s'. now apply IH.
Qed.

(** *** The writes of a source run *)

Ltac same_after_update :=
  repeat split; simpl; try reflexivity;
  apply identities_updateFirst; intros; reflexivity.

Ltac grows_after_create E :=
  repeat split; simpl; auto;
  intros; apply look_app; assumption.

Section Upsert.

Variables (A : Type) (table : Store -> list A)
  (setTable : list A -> Store -> Store) (rowId : A -> nat)
  (q : A -> bool) (f : A -> A) (create : nat -> A).

Hypothesis table_set : forall l st, table (setTable l st) = l.
Hypothesis table_next : forall n st, table (setNextId n st) = table st.
Hypothesis update_key : forall r, q (f r) = q r.
Hypothesis update_id : forall r, rowId (f r) = rowId r.
Hypothesis create_key : forall n, q (create n) = true.
Hypothesis create_id : forall n, rowId (create n) = n.

(** An upsert returns, and its key then resolves to the identifier it
    returned. *)
Lemma upsertM_resolves : forall st,
  exists i st1,
    upsertM table setTable rowId q f create st = Returned i st1
    /\ option_map rowId (find q (table st1)) = Some i.
Proof.
  intros st. unfold upsertM. destruct (find q (table st)) as [row|] eqn:E;
    do 2 eexists; (split; [reflexivity|]).
  - rewrite table_set. rewrite (find_updateFirst _ q f _ row update_key E).
    simpl. now rewrite update_id.
  - rewrite table_next, table_set, (find_app_none _ _ _ _ E), create_key.
    simpl. now rewrite create_id.
Qed.

(** An upsert under a key that resolves updates the row in place. *)
Lemma upsertM_found : forall st i,
  option_map rowId (find q (table st)) = Some i ->
  upsertM table setTable rowId q f create st
  = Returned i (setTable (updateFirst q f (table st)) st).
Proof.
  intros st i H. unfold upsertM. destruct (find q (table st)) as [row|];
    [|discriminate]. simpl in H. now injection H as ->.
Qed.

End Upsert.

Lemma sessionHasKey_refl : forall tool ext id ws a b c d e f g h,
  sessionHasKey tool ext
    (SessionRow.mk id ws tool (Some ext) a b c d e f g h) = true.
Proof.
  intros. unfold sessionHasKey. simpl. now rewrite Nat.eqb_refl, strEqb_refl.
Qed.

Lemma messageHasKey_refl : forall sessionId ext id a b c d e f g h i j,
  messageHasKey sessionId ext
    (MessageRow.mk id sessionId (Some ext) a b c d e f g h i j) = true.
Proof.
  intros. unfold messageHasKey. simpl. now rewrite Nat.eqb_refl, strEqb_refl.
Qed.

Lemma partHasKey_refl : forall messageId ext id sessionId a b c d e,
  partHasKey messageId ext (PartRow.mk id sessionId messageId ext a b c d e)
  = true.
Proof.
  intros. unfold partHasKey. simpl. now rewrite Nat.eqb_refl, strEqb_refl.
Qed.

(** **** Sessions *)

Lemma upsertSession_resolves : forall now tool ws importSource input st,
  exists i st1,
    upsertSession now tool ws importSource input st = Returned i st1
    /\ lookSession st1 tool (SessionInput.externalSessionId input) = Some i.
Proof.
  intros. unfold upsertSession, lookSession. apply upsertM_resolves;
    try reflexivity. intros n. apply sessionHasKey_refl.
Qed.

Lemma Grows_upsertSession : forall now tool ws importSource input,
  Grows (upsertSession now tool ws importSource input).
Proof.
  intros now tool ws importSource input st. unfold upsertSession, upsertM.
  destruct (find _ (sessions st)) as [row|] eqn:E; simpl storeOf.
  - apply SameIdentities_Extends. same_after_update.
  - unfold Extends, lookSession, lookMessage, lookPart, lookTool,
      lookWorkspace. simpl. repeat split; auto.
    intros tool' ext' i. apply look_app.
Qed.

Lemma Absorbed_upsertSession : forall now tool ws importSource input,
  Absorbed (upsertSession now tool ws importSource input).
Proof.
  intros now tool ws importSource input st st' Hext.
  destruct (upsertSession_resolves now tool ws importSource input st)
    as (i & st1 & Hrun & Hlook).
  rewrite Hrun in *. simpl in Hext. destruct Hext as (HS & _).
  specialize (HS _ _ _ Hlook). unfold upsertSession.
  eexists. split; [|apply upsertM_found; exact HS]. same_after_update.
Qed.

(** **** Messages *)

Lemma upsertMessage_resolves : forall sessionId input st,
  exists i st1,
    upsertMessage sessionId input st = Returned i st1
    /\ lookMessage st1 sessionId (MessageInput.externalMessageId input)
       = Some i.
Proof.
  intros. unfold upsertMessage, lookMessage. apply upsertM_resolves;
    try reflexivity. intros n. apply messageHasKey_refl.
Qed.

Lemma Grows_upsertMessage : forall sessionId input,
  Grows (upsertMessage sessionId input).
Proof.
  intros sessionId input st. unfold upsertMessage, upsertM.
  destruct (find _ (messages st)) as [row|] eqn:E; simpl storeOf.
  - apply SameIdentities_Extends. same_after_update.
  - unfold Extends, lookSession, lookMessage, lookPart, lookTool,
      lookWorkspace. simpl. repeat split; auto.
    intros sessionId' ext' i. apply look_app.
Qed.

Lemma Absorbed_upsertMessage : forall sessionId input,
  Absorbed (upsertMessage sessionId input).
Proof.
  intros sessionId input st st' Hext.
  destruct (upsertMessage_resolves sessionId input st)
    as (i & st1 & Hrun & Hlook).
  rewrite Hrun in *. simpl in Hext. destruct Hext as (_ & HM & _).
  specialize (HM _ _ _ Hlook). unfold upsertMessage.
  eexists. split; [|apply upsertM_found; exact HM]. same_after_update.
Qed.

(** **** Parts *)

Lemma Grows_upsertPart : forall sessionId messageId part,
  Grows (upsertPart sessionId messageId part).
Proof.
  intros sessionId messageId part st. unfold upsertPart.
  destruct (textArgument (PartInput.text part)) as [e|text];
    [apply Extends_refl|].
  unfold upsertM. destruct (find _ (parts st)) as [row|] eqn:E;
    simpl storeOf.
  - apply SameIdentities_Extends. same_after_update.
  - unfold Extends, lookSession, lookMessage, lookPart, lookTool,
      lookWorkspace. simpl. repeat split; auto.
    intros messageId' ext' i. apply look_app.
Qed.

Lemma Absorbed_upsertPart : forall sessionId messageId part,
  Absorbed (upsertPart sessionId messageId part).
Proof.
  intros sessionId messageId part st st' Hext. unfold upsertPart in *.
  destruct (textArgument (PartInput.text part)) as [e|text].
  - exists st'. split; [apply SameIdentities_refl | reflexivity].
  - match type of Hext with
    | Extends (storeOf (upsertM ?t ?s ?r ?q ?f ?c st)) _ =>
        destruct (upsertM_resolves _ t s r q f c) with (st := st)
          as (i & st1 & Hrun & Hlook);
        try reflexivity; try (intros n; apply partHasKey_refl)
    end.
    rewrite Hrun in *. simpl in Hext. destruct Hext as (_ & _ & HP & _).
    specialize (HP _ _ _ Hlook).
    eexists. split; [|apply upsertM_found; exact HP]. same_after_update.
Qed.

(** **** Source tools and the workspace *)

Lemma Grows_ensureSourceTool : forall slug name,
  Grows (ensureSourceTool slug name).
Proof.
  intros slug name st. unfold ensureSourceTool, upsertM.
  destruct (find _ (sourceTools st)) as [row|] eqn:E; simpl storeOf.
  - apply SameIdentities_Extends. same_after_update.
  - unfold Extends, lookSession, lookMessage, lookPart, lookTool,
      lookWorkspace. simpl. repeat split; auto.
    intros slug' i. apply look_app.
Qed.

Lemma Absorbed_ensureSourceTool : forall slug name,
  Absorbed (ensureSourceTool slug name).
Proof.
  intros slug name st st' Hext. unfold ensureSourceTool in *.
  match type of Hext with
  | Extends (storeOf (upsertM ?t ?s ?r ?q ?f ?c st)) _ =>
      destruct (upsertM_resolves _ t s r q f c) with (st := st)
        as (i & st1 & Hrun & Hlook);
      try reflexivity; try (intros n; simpl; apply strEqb_refl)
  end.
  rewrite Hrun in *. simpl in Hext. destruct Hext as (_ & _ & _ & HT & _).
  specialize (HT slug i Hlook).
  eexists. split; [|apply upsertM_found; exact HT]. same_after_update.
Qed.

Lemma Grows_ensureWorkspace : Grows ensureWorkspace.
Proof.
  intros st. unfold ensureWorkspace.
  destruct (workspaces st) as [|w l] eqn:E; simpl storeOf.
  - unfold Extends, lookSession, lookMessage, lookPart, lookTool,
      lookWorkspace. simpl. rewrite E. repeat split; auto. discriminate.
  - apply Extends_refl.
Qed.

Lemma Absorbed_ensureWorkspace : Absorbed ensureWorkspace.
Proof.
  intros st st' Hext.
  assert (Hres : exists i st1, ensureWorkspace st = Returned i st1
                               /\ lookWorkspace st1 = Some i).
  { unfold ensureWorkspace, lookWorkspace.
    destruct (workspaces st) as [|w l] eqn:E; do 2 eexists;
      (split; [reflexivity|]); simpl; [reflexivity | now rewrite E]. }
  destruct Hres as (i & st1 & Hrun & Hlook). rewrite Hrun in *.
  simpl in Hext. destruct Hext as (_ & _ & _ & _ & HW & _).
  specialize (HW i Hlook). unfold lookWorkspace in HW.
  exists st'. split; [apply SameIdentities_refl|]. unfold ensureWorkspace.
  destruct (workspaces st') as [|w l]; [discriminate|].
  simpl in HW. now injection HW as ->.
Qed.

Lemma Grows_getCheckpoint : forall sourceId key,
  Grows (getCheckpoint sourceId key).
Proof. intros sourceId key st. apply Extends_refl. Qed.

Lemma Absorbed_getCheckpoint : forall sourceId key,
  Absorbed (getCheckpoint sourceId key).
Proof.
  intros sourceId key st st' Hext. simpl in Hext.
  destruct Hext as (_ & _ & _ & _ & _ & HC).
  exists st'. split; [apply SameIdentities_refl|].
  unfold getCheckpoint, gets. now rewrite HC.
Qed.

(** *** The upsert path and the source runs *)

Lemma Grows_persistPart : forall sessionId messageId n part,
  Grows (persistPart sessionId messageId n part).
Proof.
  intros. unfold persistPart.
  apply Grows_bind; [apply Grows_upsertPart | intros; apply Grows_ret].
Qed.

Lemma Absorbed_persistPart : forall sessionId messageId n part,
  Absorbed (persistPart sessionId messageId n part).
Proof.
  intros. unfold persistPart. apply Absorbed_bind.
  - apply Absorbed_upsertPart.
  - intros; apply Grows_ret.
  - intros; apply Absorbed_ret.
Qed.

Lemma Grows_persistMessage : forall sessionId counts message,
  Grows (persistMessage sessionId counts message).
Proof.
  intros. unfold persistMessage.
  apply Grows_bind; [apply Grows_upsertMessage|]. intros messageId.
  apply Grows_bind; [|intros; apply Grows_ret].
  apply Grows_foldStore. intros. apply Grows_persistPart.
Qed.

Lemma Absorbed_persistMessage : forall sessionId counts message,
  Absorbed (persistMessage sessionId counts message).
Proof.
  intros. unfold persistMessage. apply Absorbed_bind.
  - apply Absorbed_upsertMessage.
  - intros messageId. apply Grows_bind; [|intros; apply Grows_ret].
    apply Grows_foldStore. intros. apply Grows_persistPart.
  - intros messageId. apply Absorbed_bind.
    + apply Absorbed_foldStore; intros;
        [apply Grows_persistPart | apply Absorbed_persistPart].
    + intros; apply Grows_ret.
    + intros; apply Absorbed_ret.
Qed.

Lemma Grows_persistSession : forall now tool ws importSource counts input,
  Grows (persistSession now tool ws importSource counts input).
Proof.
  intros. unfold persistSession. destruct (_ || _); [apply Grows_ret|].
  apply Grows_bind; [apply Grows_upsertSession|]. intros sessionId.
  apply Grows_bind; [|intros; apply Grows_ret].
  apply Grows_foldStore. intros. apply Grows_persistMessage.
Qed.

Lemma Absorbed_persistSession : forall now tool ws importSource counts input,
  Absorbed (persistSession now tool ws importSource counts input).
Proof.
  intros. unfold persistSession. destruct (_ || _); [apply Absorbed_ret|].
  apply Absorbed_bind.
  - apply Absorbed_upsertSession.
  - intros sessionId. apply Grows_bind; [|intros; apply Grows_ret].
    apply Grows_foldStore. intros. apply Grows_persistMessage.
  - intros sessionId. apply Absorbed_bind.
    + apply Absorbed_foldStore; intros;
        [apply Grows_persistMessage | apply Absorbed_persistMessage].
    + intros; apply Grows_ret.
    + intros; apply Absorbed_ret.
Qed.

Lemma Grows_persistSessions : forall now tool ws importSource inputs maxT,
  Grows (persistSessions now tool ws importSource inputs maxT).
Proof.
  intros. unfold persistSessions.
  apply Grows_bind; [|intros; apply Grows_ret].
  apply Grows_foldStore. intros. apply Grows_persistSession.
Qed.

(** Run again in a store that already holds its keys, [persistSessions]
    updates rows and creates none. *)
Lemma Absorbed_persistSessions : forall now tool ws importSource inputs maxT,
  Absorbed (persistSessions now tool ws importSource inputs maxT).
Proof.
  intros. unfold persistSessions. apply Absorbed_bind.
  - apply Absorbed_foldStore; intros;
      [apply Grows_persistSession | apply Absorbed_persistSession].
  - intros; apply Grows_ret.
  - intros; apply Absorbed_ret.
Qed.

Section Rescan.

Context {P : Platform} {E : Environment}.

Lemma Absorbed_runClaudeSource : forall now sourceId root lookbackDays,
  Absorbed (runClaudeSource now sourceId root lookbackDays).
Proof.
  intros. unfold runClaudeSource. apply Absorbed_bind.
  - apply Absorbed_getCheckpoint.
  - intros cp. destruct (claudeScan _ _) as [e|[inputs maxT]];
      [apply Grows_throw|].
    apply Grows_bind; [apply Grows_ensureSourceTool|]. intros tool.
    apply Grows_bind; [apply Grows_ensureWorkspace|]. intros ws.
    apply Grows_persistSessions.
  - intros cp. destruct (claudeScan _ _) as [e|[inputs maxT]];
      [apply Absorbed_throw|].
    apply Absorbed_bind; [apply Absorbed_ensureSourceTool | |].
    + intros tool. apply Grows_bind; [apply Grows_ensureWorkspace|].
      intros ws. apply Grows_persistSessions.
    + intros tool. apply Absorbed_bind; [apply Absorbed_ensureWorkspace | |];
        intros ws; [apply Grows_persistSessions|apply Absorbed_persistSessions].
Qed.

Lemma Absorbed_runOpenCodeSource : forall now sourceId root lookbackDays,
  Absorbed (runOpenCodeSource now sourceId root lookbackDays).
Proof.
  intros. unfold runOpenCodeSource. apply Absorbed_bind.
  - apply Absorbed_getCheckpoint.
  - intros cp. destruct (openCodeScan _ _) as [inputs maxT].
    apply Grows_bind; [apply Grows_ensureSourceTool|]. intros tool.
    apply Grows_bind; [apply Grows_ensureWorkspace|]. intros ws.
    apply Grows_persistSessions.
  - intros cp. destruct (openCodeScan _ _) as [inputs maxT].
    apply Absorbed_bind; [apply Absorbed_ensureSourceTool | |].
    + intros tool. apply Grows_bind; [apply Grows_ensureWorkspace|].
      intros ws. apply Grows_persistSessions.
    + intros tool. apply Absorbed_bind; [apply Absorbed_ensureWorkspace | |];
        intros ws; [apply Grows_persistSessions|apply Absorbed_persistSessions].
Qed.

(** The second of two runs of a computation that is absorbed. *)
Lemma rerun_absorbed : forall (A : Type) (m : M A) (st : Store),
  Absorbed m ->
  SameRecords (storeOf (m st)) (storeOf (m (storeOf (m st))))
  /\ match m st, m (storeOf (m st)) with
     | Returned a _, Returned b _ => a = b
     | Threw e _, Threw e' _ => e = e'
     | _, _ => False
     end.
Proof.
  intros A m st H.
  destruct (H st (storeOf (m st)) (Extends_refl _)) as (st2 & Hsame & Hrun).
  destruct (m st) as [a st1|e st1]; simpl in *; rewrite Hrun; simpl;
    (split; [apply Hsame | reflexivity]).
Qed.

(** C1.  For either adapter, a second run over the same files from the
    same checkpoint, in the store the first run has left, ends as the first
    did (same result, or same error) and leaves in the session, message and
    part tables exactly the rows of the first run, under the same
    identifiers and natural keys: every upsert of the second run resolves
    to a row that is there and updates it, and no row is created. *)
Theorem rescan_idempotent :
  forall (now : Z) (sourceId : nat) (root : option str) (lookbackDays : Z)
         (st : Store),
  (let first := runClaudeSource now sourceId root lookbackDays st in
   let second :=
     runClaudeSource now sourceId root lookbackDays (storeOf first) in
   SameRecords (storeOf first) (storeOf second)
   /\ checkpoints (storeOf first) = checkpoints st
   /\ match first, second with
      | Returned r1 _, Returned r2 _ => r1 = r2
      | Threw e1 _, Threw e2 _ => e1 = e2
      | _, _ => False
      end)
  /\ (let first := runOpenCodeSource now sourceId root lookbackDays st in
      let second :=
        runOpenCodeSource now sourceId root lookbackDays (storeOf first) in
      SameRecords (storeOf first) (storeOf second)
      /\ checkpoints (storeOf first) = checkpoints st
      /\ match first, second with
         | Returned r1 _, Returned r2 _ => r1 = r2
         | Threw e1 _, Threw e2 _ => e1 = e2
         | _, _ => False
         end).
Proof.
  intros now sourceId root lookbackDays st. split; cbv zeta.
  - destruct (rerun_absorbed _ (runClaudeSource now sourceId root lookbackDays)
                st (Absorbed_runClaudeSource _ _ _ _)) as [Hsame Hout].
    split; [exact Hsame|]. split; [|exact Hout].
    apply (Keeps_runClaudeSource now sourceId root lookbackDays st).
  - destruct (rerun_absorbed _
                (runOpenCodeSource now sourceId root lookbackDays)
                st (Absorbed_runOpenCodeSource _ _ _ _)) as [Hsame Hout].
    split; [exact Hsame|]. split; [|exact Hout].
    apply (Keeps_runOpenCodeSource now sourceId root lookbackDays st).
Qed.

End Rescan.

(** The sound storage scanned twice: two message rows and two part rows
    after the first run, and after the second. *)
Example rescan_counts :
  let first :=
    storeOf (@runOpenCodeSource examplePlatform exampleEnvironment exampleNow
               1 (Some (lit "/sound")) 30%Z emptyStore) in
  let second :=
    storeOf (@runOpenCodeSource examplePlatform exampleEnvironment exampleNow
               1 (Some (lit "/sound")) 30%Z first) in
  (length (sessions first), length (messages first), length (parts first))
  = (1, 2, 2)
  /\ (length (sessions second), length (messages second),
      length (parts second)) = (1, 2, 2).
Proof. vm_compute. split; reflexivity. Qed.

(* ====================================================================== *)
(** * Part II, continued: further properties of the code                   *)
(* ====================================================================== *)

(** ** Texts: the sanitizer and the derived title *)

Lemma Subseq_refl : forall (A : Type) (l : list A), Subseq l l.
Proof. induction l; constructor; assumption. Qed.

Lemma Subseq_trans : forall (A : Type) (a b c : list A),
  Subseq a b -> Subseq b c -> Subseq a c.
Proof.
  intros A a b c Hab Hbc. revert a Hab.
  induction Hbc as [|x b c Hbc IH|x b c Hbc IH]; intros a Hab.
  - exact Hab.
  - inversion Hab; subst.
    + constructor. now apply IH.
    + apply Subseq_drop. now apply IH.
  - apply Subseq_drop. now apply IH.
Qed.

Lemma Subseq_nil_l : forall (A : Type) (l : list A), Subseq [] l.
Proof. induction l; constructor; assumption. Qed.

Lemma Subseq_app : forall (A : Type) (a b c d : list A),
  Subseq a b -> Subseq c d -> Subseq (a ++ c) (b ++ d).
Proof.
  intros A a b c d Hab Hcd. induction Hab; simpl.
  - exact Hcd.
  - now constructor.
  - now apply Subseq_drop.
Qed.

Lemma Subseq_rev : forall (A : Type) (a b : list A),
  Subseq a b -> Subseq (rev a) (rev b).
Proof.
  intros A a b H. induction H; simpl.
  - constructor.
  - apply Subseq_app; [assumption | apply Subseq_refl].
  - rewrite <- (app_nil_r (rev a)).
    apply Subseq_app; [assumption | apply Subseq_nil_l].
Qed.

Lemma Subseq_In : forall (A : Type) (a b : list A) (x : A),
  Subseq a b -> In x a -> In x b.
Proof.
  intros A a b x H. induction H; simpl; intros Hin.
  - exact Hin.
  - destruct Hin; [now left | right; auto].
  - right; auto.
Qed.

Lemma Subseq_length : forall (A : Type) (a b : list A),
  Subseq a b -> length a <= length b.
Proof. intros A a b H. induction H; simpl; lia. Qed.

Lemma Subseq_firstn : forall (A : Type) (n : nat) (l : list A),
  Subseq (firstn n l) l.
Proof.
  intros A n l. revert n. induction l as [|x l IH]; intros [|n]; simpl.
  - constructor.
  - constructor.
  - apply Subseq_nil_l.
  - constructor. apply IH.
Qed.

Lemma trimStart_Subseq : forall s, Subseq (trimStart s) s.
Proof.
  induction s as [|c s IH]; simpl.
  - constructor.
  - destruct (isSpace c); [now apply Subseq_drop | apply Subseq_refl].
Qed.

Lemma trim_Subseq : forall s, Subseq (trim s) s.
Proof.
  intros s. unfold trim, trimEnd.
  apply Subseq_trans with (b := trimStart s); [|apply trimStart_Subseq].
  rewrite <- (rev_involutive (trimStart s)) at 2.
  apply Subseq_rev. apply trimStart_Subseq.
Qed.

Lemma stripFrom_Subseq : forall opening closing s skip,
  Subseq (stripFrom opening closing skip s) s.
Proof.
  intros opening closing. induction s as [|c s IH]; intros skip.
  - destruct skip; constructor.
  - cbn [stripFrom]. destruct skip as [|k].
    + destruct (startsCI opening (c :: s)).
      * destruct (closeEnd closing (skipn (length opening) (c :: s))).
        -- apply Subseq_drop, IH.
        -- apply Subseq_keep, IH.
      * apply Subseq_keep, IH.
    + apply Subseq_drop, IH.
Qed.

Lemma trim_Trimmed : forall s, Trimmed (trim s).
Proof.
  intros s. split.
  - intros c rest H. unfold trim in H.
    destruct (trimStart s) as [|d t] eqn:E; [discriminate|].
    pose proof (trimStart_head s d t E) as Hd.
    rewrite trimEnd_cons in H by exact Hd. now injection H as -> _.
  - intros front c H. unfold trim, trimEnd in H.
    apply (f_equal (@rev ascii)) in H.
    rewrite rev_involutive, rev_app_distr in H. simpl in H.
    exact (trimStart_head _ _ _ H).
Qed.

Lemma replaceRuns_spaces : forall s inRun c,
  In c (replaceRunsFrom SP inRun s) -> isSpace c = true -> c = SP.
Proof.
  induction s as [|x s IH]; intros inRun c Hin Hc; simpl in Hin.
  - contradiction.
  - destruct (isSpace x) eqn:Ex.
    + destruct inRun.
      * now apply (IH true).
      * destruct Hin as [<-|Hin]; [reflexivity | now apply (IH true)].
    + destruct Hin as [<-|Hin]; [congruence | now apply (IH false)].
Qed.

Lemma cleanText_SpacesOnly : forall content, SpacesOnly (cleanText content).
Proof.
  intros content c Hin Hc. unfold cleanText in Hin.
  apply (Subseq_In _ _ _ _ (trim_Subseq _)) in Hin.
  exact (replaceRuns_spaces _ false c Hin Hc).
Qed.

(** The sanitizer only deletes: what it returns is the input with some
    characters left out, in the same order, and has no white space at
    either end. *)
Theorem sanitize_only_deletes : forall value,
  Subseq (sanitizeImportedText value) value
  /\ length (sanitizeImportedText value) <= length value
  /\ Trimmed (sanitizeImportedText value).
Proof.
  intros value.
  assert (H : Subseq (sanitizeImportedText value) value).
  { unfold sanitizeImportedText, stripKind, stripTag.
    eapply Subseq_trans; [apply trim_Subseq|].
    eapply Subseq_trans; [apply stripFrom_Subseq|].
    eapply Subseq_trans; [apply stripFrom_Subseq|].
    apply stripFrom_Subseq. }
  split; [exact H|]. split; [now apply Subseq_length|].
  apply trim_Trimmed.
Qed.

(** The title of a session is never empty and never longer than 80
    characters.  It is the first 80 characters of the cleaned content,
    which starts with a visible character and has single plain spaces as
    its only white space; when nothing is left of the content it is the
    word Session with the first eight characters of the session id. *)
Theorem fallbackSessionTitle_shape : forall content sessionId,
  let title := fallbackSessionTitle content sessionId in
  0 < length title <= 80
  /\ (cleanText content = [] ->
      title = lit "Session " ++ firstn 8 sessionId)
  /\ (cleanText content <> [] ->
      title = firstn 80 (cleanText content)
      /\ SpacesOnly title
      /\ exists c rest, title = c :: rest /\ isSpace c = false).
Proof.
  intros content sessionId. unfold fallbackSessionTitle, slice0.
  destruct (cleanText content) as [|c clean] eqn:E; cbn [nonEmpty].
  - split; [|split].
    + rewrite length_app. pose proof (firstn_le_length 8 sessionId).
      rewrite length_firstn. simpl length. lia.
    + reflexivity.
    + intros H. now contradiction H.
  - split; [|split].
    + rewrite length_firstn. simpl length. lia.
    + discriminate.
    + intros _. split; [reflexivity|]. split.
      * intros x Hin Hx. rewrite <- E in Hin.
        apply (Subseq_In _ _ _ _ (Subseq_firstn _ 80 _)) in Hin.
        now apply (cleanText_SpacesOnly content).
      * exists c, (firstn 79 clean). split; [reflexivity|].
        unfold cleanText in E.
        exact (proj1 (trim_Trimmed _) c clean E).
Qed.

(** ** The transcript parser: one message per chunk *)

Lemma dropNulls_total : forall (A B : Type) (f : nat -> A -> option B)
  (g : nat -> A -> B) (l : list A) (start : nat),
  (forall i z, In z l -> f i z = Some (g i z)) ->
  dropNulls (mapIndexed f start l) = mapIndexed g start l.
Proof.
  intros A B f g l. induction l as [|z l IH]; intros start Hall.
  - reflexivity.
  - simpl. rewrite (Hall start z (or_introl eq_refl)). f_equal.
    apply IH. intros i z' Hz'. apply Hall. now right.
Qed.

Lemma mapIndexed_nth : forall (A B : Type) (f : nat -> A -> B) (l : list A)
  (start index : nat) (x : A),
  nth_error l index = Some x ->
  nth_error (mapIndexed f start l) index = Some (f (start + index) x).
Proof.
  intros A B f l. induction l as [|z l IH]; intros start index x Hn.
  - destruct index; discriminate.
  - destruct index as [|index]; simpl in *.
    + injection Hn as ->. now rewrite Nat.add_0_r.
    + rewrite (IH (S start) index x Hn). do 2 f_equal. lia.
Qed.

(** The role and content the callback gives a chunk. *)
Lemma parseChunk_role : forall raw index chunk,
  In chunk (transcriptChunks raw) ->
  exists m, parseChunk index chunk = Some m
            /\ parsedRole m = match labelRole chunk with
                              | Some role => role
                              | None => positionRole index
                              end
            /\ (labelRole chunk = None -> parsedContent m = chunk).
Proof.
  intros raw index chunk H.
  destruct (transcriptChunks_head raw chunk H) as (c & rest & -> & Hc).
  pose proof (firstLine_nonEmpty c rest Hc) as Hne.
  unfold parseChunk, labelRole, positionRole.
  fold (firstLineOf (c :: rest)). rewrite Hne.
  destruct (matchLabel "user:" (firstLineOf (c :: rest)));
    [eexists; split; [reflexivity | split; [reflexivity | discriminate]]|].
  destruct (matchLabel "assistant:" (firstLineOf (c :: rest)));
    [eexists; split; [reflexivity | split; [reflexivity | discriminate]]|].
  destruct (matchLabel "tool:" (firstLineOf (c :: rest)));
    [eexists; split; [reflexivity | split; [reflexivity | discriminate]]|].
  eexists; split; [reflexivity | split; reflexivity].
Qed.

(** The parser returns exactly one message per chunk, in the order of the
    chunks: the filter behind the map never drops an entry.  A chunk whose
    first line carries a role label gets the role the label names,
    whatever its position; any other chunk is kept whole with the role of
    its position. *)
Theorem parseTranscript_per_chunk : forall raw,
  length (parseTranscript raw) = length (transcriptChunks raw)
  /\ forall index chunk,
       nth_error (transcriptChunks raw) index = Some chunk ->
       exists m,
         nth_error (parseTranscript raw) index = Some m
         /\ parsedRole m = match labelRole chunk with
                           | Some role => role
                           | None => positionRole index
                           end
         /\ (labelRole chunk = None -> parsedContent m = chunk).
Proof.
  intros raw.
  set (g := fun index chunk =>
              match parseChunk index chunk with
              | Some m => m
              | None => mkParsed RoleUser chunk
              end).
  assert (Hg : parseTranscript raw = mapIndexed g 0 (transcriptChunks raw)).
  { unfold parseTranscript. apply dropNulls_total. intros i z Hz.
    destruct (parseChunk_role raw i z Hz) as (m & Hm & _).
    unfold g. now rewrite Hm. }
  split.
  - rewrite Hg. apply mapIndexed_length.
  - intros index chunk Hn.
    destruct (parseChunk_role raw index chunk
                (nth_error_In _ _ Hn)) as (m & Hm & Hrole & Hcontent).
    exists m. split; [|split; assumption].
    rewrite Hg, (mapIndexed_nth _ _ g _ 0 index chunk Hn).
    unfold g. simpl. now rewrite Hm.
Qed.

(** ** The upsert path: counts and frame *)

Section Frame.

Variable R : Store -> Store -> Prop.
Hypothesis R_refl : forall st, R st st.
Hypothesis R_trans : forall a b c, R a b -> R b c -> R a c.

Lemma Respects_ret : forall (A : Type) (a : A), Respects R (ret a).
Proof. intros A a st. apply R_refl. Qed.

Lemma Respects_throw : forall (A : Type) (e : Thrown), Respects R (@throw A e).
Proof. intros A e st. apply R_refl. Qed.

Lemma Respects_gets : forall (A : Type) (f : Store -> A), Respects R (gets f).
Proof. intros A f st. apply R_refl. Qed.

Lemma Respects_bind : forall (A B : Type) (m : M A) (k : A -> M B),
  Respects R m -> (forall a, Respects R (k a)) -> Respects R (bind m k).
Proof.
  intros A B m k Hm Hk st. unfold bind. specialize (Hm st).
  destruct (m st) as [a st1|e st1]; simpl in *.
  - eapply R_trans; [exact Hm | apply Hk].
  - exact Hm.
Qed.

Lemma Respects_foldStore : forall (S A : Type) (f : S -> A -> M S)
  (l : list A) (s : S),
  (forall s x, Respects R (f s x)) -> Respects R (foldStore f s l).
Proof.
  intros S A f l. induction l as [|x l IH]; intros s Hf; simpl.
  - apply Respects_ret.
  - apply Respects_bind; [apply Hf | intros s'; now apply IH].
Qed.

Lemma Respects_forEach : forall (A : Type) (f : A -> M unit) (l : list A),
  (forall x, Respects R (f x)) -> Respects R (forEach f l).
Proof.
  intros A f l Hf. induction l as [|x l IH]; simpl.
  - apply Respects_ret.
  - apply Respects_bind; [apply Hf | intros _; exact IH].
Qed.

Lemma Respects_transaction : forall (A : Type) (m : M A),
  Respects R m -> Respects R (transaction m).
Proof.
  intros A m Hm st. unfold transaction. specialize (Hm st).
  destruct (m st); simpl in *; [exact Hm | apply R_refl].
Qed.

End Frame.

Lemma SparesForeign_refl : forall tool st, SparesForeign tool st st.
Proof. intros tool st r Hin _. exact Hin. Qed.

Lemma SparesForeign_trans : forall tool a b c,
  SparesForeign tool a b -> SparesForeign tool b c -> SparesForeign tool a c.
Proof. intros tool a b c Hab Hbc r Hin Hf. apply Hbc; auto. Qed.

Lemma In_updateFirst_other : forall (A : Type) (p : A -> bool) (f : A -> A)
  (l : list A) (x : A),
  In x l -> p x = false -> In x (updateFirst p f l).
Proof.
  intros A p f l x. induction l as [|y l IH]; intros Hin Hp; simpl.
  - exact Hin.
  - destruct Hin as [->|Hin].
    + rewrite Hp. now left.
    + destruct (p y); right; auto.
Qed.

Lemma foreign_not_key : forall tool ext r,
  foreignSession tool r = true -> sessionHasKey tool ext r = false.
Proof.
  intros tool ext r H. unfold foreignSession in H. unfold sessionHasKey.
  destruct (SessionRow.sourceToolId r =? tool); simpl in *; [|reflexivity].
  destruct (SessionRow.externalSessionId r); [discriminate | reflexivity].
Qed.

Lemma Spares_upsertSession : forall now tool ws importSource input,
  Respects (SparesForeign tool)
    (upsertSession now tool ws importSource input).
Proof.
  intros now tool ws importSource input st r Hin Hf.
  unfold upsertSession, upsertM.
  destruct (find _ (sessions st)); simpl.
  - apply In_updateFirst_other; [exact Hin | now apply foreign_not_key].
  - apply in_or_app. now left.
Qed.

Lemma Spares_other_table : forall tool (A : Type)
  (table : Store -> list A) (setTable : list A -> Store -> Store)
  (rowId : A -> nat) (q : A -> bool) (f : A -> A) (create : nat -> A),
  (forall l st, sessions (setTable l st) = sessions st) ->
  Respects (SparesForeign tool) (upsertM table setTable rowId q f create).
Proof.
  intros tool A table setTable rowId q f create Hset st r Hin _.
  unfold upsertM. destruct (find q (table st)); simpl.
  - now rewrite Hset.
  - unfold setNextId. simpl. now rewrite Hset.
Qed.

Lemma Spares_persistSessions : forall now tool ws importSource inputs maxT,
  Respects (SparesForeign tool)
    (persistSessions now tool ws importSource inputs maxT).
Proof.
  intros now tool ws importSource inputs maxT.
  pose proof (SparesForeign_refl tool) as Hr.
  pose proof (SparesForeign_trans tool) as Ht.
  unfold persistSessions. apply Respects_bind; try assumption.
  2: { intros a. now apply Respects_ret. }
  apply Respects_foldStore; try assumption. intros counts input.
  unfold persistSession.
  destruct (negb _ || _); [now apply Respects_ret|].
  apply Respects_bind; try assumption; [apply Spares_upsertSession|].
  intros sessionId. apply Respects_bind; try assumption.
  2: { intros a. now apply Respects_ret. }
  apply Respects_foldStore; try assumption. intros c message.
  unfold persistMessage. apply Respects_bind; try assumption.
  { unfold upsertMessage. now apply Spares_other_table. }
  intros messageId. apply Respects_bind; try assumption.
  2: { intros a. now apply Respects_ret. }
  apply Respects_foldStore; try assumption. intros n part.
  unfold persistPart. apply Respects_bind; try assumption.
  2: { intros a. now apply Respects_ret. }
  unfold upsertPart. destruct (textArgument _).
  - now apply Respects_throw.
  - now apply Spares_other_table.
Qed.

(** A source run never touches the sessions of another source tool, nor
    the sessions without an external id (those entered by hand): whether
    [persistSessions] returns or throws, every such row is in the table
    afterwards exactly as it was. *)
Theorem persistSessions_spares_foreign :
  forall now sourceToolId workspaceId importSource inputs maxT st r,
  In r (sessions st) ->
  foreignSession sourceToolId r = true ->
  In r (sessions
          (storeOf (persistSessions now sourceToolId workspaceId importSource
                      inputs maxT st))).
Proof.
  intros now tool ws importSource inputs maxT st r Hin Hf.
  exact (Spares_persistSessions now tool ws importSource inputs maxT st r
           Hin Hf).
Qed.

(** The session entered by hand is still there after a run of tool 1 over
    a session with the external id of the row of tool 2. *)
Lemma persistSessions_spares_foreign_witness :
  In manualRow
    (sessions
       (storeOf (persistSessions exampleNow 1 0 (lit "claude-watcher")
                   exampleSessions None mixedStore))).
Proof.
  apply (persistSessions_spares_foreign exampleNow 1 0 (lit "claude-watcher")
           exampleSessions None mixedStore manualRow).
  - simpl. now left.
  - reflexivity.
Defined.

(** *** Counts *)

Lemma upsertM_returns : forall (A : Type) (table : Store -> list A)
  (setTable : list A -> Store -> Store) (rowId : A -> nat) (q : A -> bool)
  (f : A -> A) (create : nat -> A) (st : Store),
  exists id st', upsertM table setTable rowId q f create st = Returned id st'.
Proof.
  intros. unfold upsertM. destruct (find q (table st)); eauto.
Qed.

Lemma upsertPart_returns : forall sessionId messageId part st,
  textIsString part = true ->
  exists id st', upsertPart sessionId messageId part st = Returned id st'.
Proof.
  intros sessionId messageId part st H. unfold upsertPart, textIsString in *.
  destruct (PartInput.text part) as [[| | |s| |]|]; try discriminate;
    cbn [textArgument]; apply upsertM_returns.
Qed.

Lemma persistParts_count : forall sessionId messageId parts n st,
  forallb textIsString parts = true ->
  exists st',
    foldStore (persistPart sessionId messageId) n parts st
    = Returned (n + length parts) st'.
Proof.
  intros sessionId messageId parts. induction parts as [|p parts IH];
    intros n st H; simpl.
  - exists st. unfold ret. now rewrite Nat.add_0_r.
  - simpl in H. apply andb_prop in H as [Hp Hrest].
    unfold bind at 1. unfold persistPart at 1. unfold bind at 1.
    destruct (upsertPart_returns sessionId messageId p st Hp)
      as (id & st1 & ->).
    unfold ret. destruct (IH (S n) st1 Hrest) as [st' ->].
    exists st'. f_equal. lia.
Qed.

Lemma persistMessages_count : forall sessionId msgs counts st,
  forallb textIsString (flat_map MessageInput.parts msgs) = true ->
  exists st',
    foldStore (persistMessage sessionId) counts msgs st
    = Returned (fst counts + length msgs,
                snd counts + length (flat_map MessageInput.parts msgs)) st'.
Proof.
  intros sessionId msgs. induction msgs as [|m msgs IH];
    intros counts st H; simpl.
  - exists st. unfold ret. rewrite !Nat.add_0_r. now destruct counts.
  - simpl in H. rewrite forallb_app in H. apply andb_prop in H as [Hm Hrest].
    unfold bind at 1. unfold persistMessage at 1. unfold bind at 1.
    unfold upsertMessage.
    match goal with
    | |- context [upsertM ?t ?s ?i ?q ?f ?c st] =>
        destruct (upsertM_returns _ t s i q f c st) as (id & st0 & ->)
    end.
    unfold bind at 1.
    destruct (persistParts_count sessionId id (MessageInput.parts m)
                (snd counts) st0 Hm) as [st1 ->].
    unfold ret.
    match goal with
    | |- exists st', foldStore _ ?c _ ?s = _ =>
        destruct (IH c s Hrest) as [st' ->]
    end.
    exists st'. simpl fst. simpl snd. rewrite length_app.
    f_equal. f_equal; lia.
Qed.

Lemma persistSessions_fold_count :
  forall now tool ws importSource inputs counts st,
  forallb textIsString (partsOf inputs) = true ->
  exists st',
    foldStore (persistSession now tool ws importSource) counts inputs st
    = Returned (fst counts + length (filter persistable inputs),
                (fst (snd counts) + length (messagesOf inputs),
                 snd (snd counts) + length (partsOf inputs))) st'.
Proof.
  intros now tool ws importSource inputs.
  induction inputs as [|s inputs IH]; intros counts st H.
  - exists st. simpl. unfold ret. rewrite !Nat.add_0_r.
    now destruct counts as [a [b c]].
  - unfold partsOf, messagesOf in *. cbn [filter foldStore] in *.
    unfold bind at 1. unfold persistSession at 1.
    assert (Hskip : negb (nonEmpty (SessionInput.externalSessionId s))
                    || (length (SessionInput.messages s) =? 0)
                    = negb (persistable s)).
    { unfold persistable. now rewrite negb_andb, negb_involutive. }
    rewrite Hskip. destruct (persistable s); cbn [negb].
    2: { unfold ret. destruct (IH counts st H) as [st' ->]. now exists st'. }
    cbn [flat_map] in H. rewrite flat_map_app, forallb_app in H.
    apply andb_prop in H as [Hs Hrest].
    unfold bind at 1. unfold upsertSession.
    match goal with
    | |- context [upsertM ?t ?s0 ?i ?q ?f ?c st] =>
        destruct (upsertM_returns _ t s0 i q f c st) as (id & st0 & ->)
    end.
    unfold bind at 1.
    destruct (persistMessages_count id (SessionInput.messages s)
                (snd counts) st0 Hs) as [st1 ->].
    unfold ret.
    match goal with
    | |- exists st', foldStore _ ?c _ ?s0 = _ =>
        destruct (IH c s0 Hrest) as [st' ->]
    end.
    exists st'. cbn [fst snd flat_map length].
    rewrite flat_map_app, !length_app. f_equal. f_equal; [lia|].
    f_equal; lia.
Qed.

(** When the workspace and the source tool exist and every part text is a
    string or absent, [persistSessions] returns, and its counts are exact:
    every input session is counted as scanned; the sessions with an
    external id and at least one message are the ones written, with all
    their messages and all their parts; the others are skipped.  The
    maximum timestamp is handed through. *)
Theorem persistSessions_counts :
  forall now sourceToolId workspaceId importSource inputs maxT st,
  Referenced workspaceId sourceToolId st ->
  forallb textIsString (partsOf inputs) = true ->
  exists st',
    persistSessions now sourceToolId workspaceId importSource inputs maxT st
    = Returned
        (mkResult (length inputs) (length (filter persistable inputs))
           (length (messagesOf inputs)) (length (partsOf inputs)) maxT None)
        st'.
Proof.
  intros now tool ws importSource inputs maxT st _ H.
  unfold persistSessions, bind.
  destruct (persistSessions_fold_count now tool ws importSource inputs
              (0, (0, 0)) st H) as [st' ->].
  exists st'. reflexivity.
Qed.

(** Two sessions scanned, one written, with its message and its part. *)
Lemma persistSessions_counts_witness :
  exists st',
    persistSessions exampleNow 1 0 (lit "claude-watcher") exampleSessions
      None mixedStore
    = Returned (mkResult 2 1 1 1 None None) st'.
Proof.
  apply (persistSessions_counts exampleNow 1 0 (lit "claude-watcher")
           exampleSessions None mixedStore).
  - split; simpl; auto.
  - reflexivity.
Defined.

(** ** The scans of the two adapters *)

Lemma foldThrow_total : forall (S A : Type) (f : S -> A -> Thrown + S)
  (l : list A) (s : S),
  (forall s0 x, In x l -> exists s1, f s0 x = inr s1) ->
  exists s', foldThrow f s l = inr s'.
Proof.
  intros S A f l. induction l as [|x l IH]; intros s H; simpl.
  - now exists s.
  - destruct (H s x (or_introl eq_refl)) as [s1 ->].
    apply IH. intros s0 y Hy. apply H. now right.
Qed.

Lemma foldThrow_fails : forall (S A : Type) (f : S -> A -> Thrown + S)
  (l : list A) (s : S),
  Exists (fun x => forall s0, exists e, f s0 x = inl e) l ->
  exists e, foldThrow f s l = inl e.
Proof.
  intros S A f l. induction l as [|x l IH]; intros s H; simpl.
  - inversion H.
  - destruct (f s x) as [e|s1] eqn:E; [now exists e|].
    apply IH. inversion H as [? ? Hx|? ? Hl]; subst; [|exact Hl].
    destruct (Hx s) as [e He]. congruence.
Qed.

Lemma bumpMax_spec : forall time old,
  CoversTime (bumpMax time old) time
  /\ CoversTime (bumpMax time old) old
  /\ forall mx, bumpMax time old = Some mx -> time = Some mx \/ old = Some mx.
Proof.
  intros [t|] [m|]; unfold CoversTime, bumpMax; simpl.
  - destruct (Z.ltb_spec m t); repeat split.
    + intros x [= <-]. exists t. split; [reflexivity | lia].
    + intros x [= <-]. exists t. split; [reflexivity | lia].
    + intros mx [= <-]. now left.
    + intros x [= <-]. exists m. split; [reflexivity | lia].
    + intros x [= <-]. exists m. split; [reflexivity | lia].
    + intros mx [= <-]. now right.
  - repeat split.
    + intros x [= <-]. exists t. split; [reflexivity | lia].
    + intros x [=].
    + intros mx [= <-]. now left.
  - repeat split.
    + intros x [=].
    + intros x [= <-]. exists m. split; [reflexivity | lia].
    + intros mx [= <-]. now right.
  - repeat split; intros x [=].
Qed.

Lemma CoversTime_mono : forall a b time,
  CoversTime b a -> CoversTime a time -> CoversTime b time.
Proof.
  intros a b time Hab Ha t Ht. destruct (Ha t Ht) as (mx & Hmx & Hle).
  destruct (Hab mx Hmx) as (mx' & Hmx' & Hle'). exists mx'.
  split; [exact Hmx' | lia].
Qed.

Lemma AtLeast_bump : forall since time old,
  AtLeast since old ->
  match time with
  | Some t => before t since
  | None => false
  end = false ->
  AtLeast since (bumpMax time old).
Proof.
  intros since time old Hold Hnew mx Hmx.
  destruct (proj2 (proj2 (bumpMax_spec time old)) mx Hmx) as [->| ->].
  - exact Hnew.
  - now apply Hold.
Qed.

(** *** Adapter A: what [buildClaudeMessage] returns *)

Section Scans.

Context {P : Platform}.

Lemma claudeArrayParts_texts : forall sessionId uuid ts items index,
  forallb textIsString
    (fst (claudeArrayParts sessionId uuid ts index items)) = true.
Proof.
  intros sessionId uuid ts items. induction items as [|item items IH];
    intros index; simpl.
  - reflexivity.
  - specialize (IH (S index)).
    destruct (claudeArrayParts sessionId uuid ts (S index) items)
      as [parts visible].
    destruct (isObjectLike item); simpl in *; [|exact IH].
    rewrite IH. unfold textIsString. simpl.
    now destruct (extractClaudePartText item _).
Qed.

Lemma buildClaudeMessage_WellBuilt : forall parsed sessionId path m,
  buildClaudeMessage parsed sessionId path = Some m -> WellBuilt m.
Proof.
  intros parsed sessionId path m H. unfold buildClaudeMessage in H.
  unfold WellBuilt.
  destruct (claudeRawContent parsed) as [[| | |raw|items|]|] eqn:Eraw;
    cbv beta iota zeta in H;
    try (destruct (nonEmpty []) eqn:En; [discriminate En | discriminate H]).
  - destruct (nonEmpty (sanitizeImportedText raw)) eqn:En;
      cbv beta iota zeta in H; [rewrite En in H | discriminate].
    injection H as <-. cbn [MessageInput.content MessageInput.parts].
    split; [now apply nonEmpty_true|]. split; [|reflexivity].
    unfold sanitizeImportedText. apply trim_Trimmed.
  - pose proof (claudeArrayParts_texts sessionId
                  match toStringValue (prop "uuid" parsed) with
                  | Some u => u
                  | None => []
                  end
                  (toDate (toStringValue (prop "timestamp" parsed)))
                  items 0) as Htexts.
    destruct (claudeArrayParts _ _ _ 0 items) as [parts visible].
    cbv beta iota zeta in H.
    destruct (nonEmpty (trim (joinWith [NL; NL] visible))) eqn:En;
      [|discriminate].
    injection H as <-. cbn [MessageInput.content MessageInput.parts].
    split; [now apply nonEmpty_true|]. split; [apply trim_Trimmed|].
    exact Htexts.
Qed.

(** *** Adapter A: the scan *)

Lemma isSession_spec : forall sessionId s,
  isSession sessionId s = true <-> SessionInput.externalSessionId s = sessionId.
Proof. intros. unfold isSession. apply strEqb_eq. Qed.

Lemma recordMessage_ids : forall sessionId fresh touch sessions i,
  SessionInput.externalSessionId fresh = sessionId ->
  (forall s, SessionInput.externalSessionId (touch s)
             = SessionInput.externalSessionId s) ->
  In i (map SessionInput.externalSessionId
          (recordMessage sessionId fresh touch sessions)) ->
  In i (map SessionInput.externalSessionId sessions) \/ i = sessionId.
Proof.
  intros sessionId fresh touch sessions i Hf Ht.
  induction sessions as [|x l IH]; simpl; intros H.
  - destruct H as [<-|[]]. now right.
  - destruct (isSession sessionId x); simpl in H.
    + rewrite Ht in H. now left.
    + destruct H as [<-|H]; [left; now left|].
      destruct (IH H) as [Hin| ->]; [left; now right | now right].
Qed.

Lemma recordMessage_NoDup : forall sessionId fresh touch sessions,
  SessionInput.externalSessionId fresh = sessionId ->
  (forall s, SessionInput.externalSessionId (touch s)
             = SessionInput.externalSessionId s) ->
  NoDup (map SessionInput.externalSessionId sessions) ->
  NoDup (map SessionInput.externalSessionId
           (recordMessage sessionId fresh touch sessions)).
Proof.
  intros sessionId fresh touch sessions Hf Ht.
  induction sessions as [|x l IH]; simpl; intros H.
  - rewrite Hf. constructor; [intros [] | constructor].
  - apply NoDup_cons_iff in H as [Hx Hl].
    destruct (isSession sessionId x) eqn:Ex; simpl.
    + rewrite Ht. now constructor.
    + constructor; [|now apply IH].
      intros Hin.
      apply (recordMessage_ids _ _ _ _ _ Hf Ht) in Hin as [Hin|Heq].
      * now apply Hx.
      * apply isSession_spec in Heq. congruence.
Qed.

Lemma claudeLine_inv : forall since path st line st',
  ClaudeInv since st ->
  claudeLine since path st line = inr st' ->
  ClaudeInv since st'.
Proof.
  intros since path st line st' Hinv H.
  destruct line as [parsed|]; [|injection H as <-; exact Hinv].
  assert (Hnn : parsed <> JNull) by (intros ->; discriminate H).
  rewrite (claudeLine_event since path st parsed Hnn) in H.
  destruct (truthy (toStringValue (prop "sessionId" parsed)))
    as [sessionId|] eqn:Eid; [|injection H as <-; exact Hinv].
  cbv zeta in H.
  set (timestamp :=
         toDate (orElse (toStringValue (prop "timestamp" parsed))
                        (toStringValue
                           (optProp "timestamp" (prop "snapshot" parsed)))))
    in *.
  destruct (match timestamp with
            | Some t => before t since
            | None => false
            end) eqn:Eold; [injection H as <-; exact Hinv|].
  destruct Hinv as (Hnodup & Hsess & Hmsgs & Hleast).
  pose proof (bumpMax_spec timestamp (scanMax st)) as (Hnew & Hold & _).
  pose proof (AtLeast_bump since timestamp (scanMax st) Hleast Eold) as Hl.
  assert (Hsid : sessionId <> []).
  { unfold truthy in Eid.
    destruct (toStringValue (prop "sessionId" parsed)) as [x|];
      [|discriminate].
    destruct (nonEmpty x) eqn:En; [|discriminate].
    injection Eid as <-. now apply nonEmpty_true. }
  destruct (buildClaudeMessage parsed sessionId path) as [message|] eqn:Eb.
  - injection H as <-.
    destruct (buildClaudeMessage_parts _ _ _ _ Eb) as (_ & Hts).
    pose proof (buildClaudeMessage_WellBuilt _ _ _ _ Eb) as Hwb.
    assert (Hm : WellBuilt message
                 /\ Covers (bumpMax timestamp (scanMax st)) message).
    { split; [exact Hwb|]. unfold Covers. rewrite Hts.
      intros t Ht. apply Hnew. unfold timestamp, orElse.
      destruct (toStringValue (prop "timestamp" parsed)); [exact Ht|].
      discriminate Ht. }
    assert (Hkeep : forall s m, In s (scanSessions st) ->
              In m (SessionInput.messages s) ->
              WellBuilt m /\ Covers (bumpMax timestamp (scanMax st)) m).
    { intros s m Hs Hin. destruct (Hmsgs s m Hs Hin) as [Hw Hc].
      split; [exact Hw|]. unfold Covers in *.
      eapply CoversTime_mono; eassumption. }
    split; [|split; [|split]]; cbn [scanSessions scanMax].
    + apply recordMessage_NoDup; [reflexivity | reflexivity | exact Hnodup].
    + intros s Hs.
      apply recordMessage_In in Hs as [->|[Hs|(s0 & Hs0 & ->)]].
      * split; [exact Hsid | discriminate].
      * now apply Hsess.
      * split; [apply (Hsess s0 Hs0)|].
        unfold touchSession. cbn [SessionInput.messages].
        intros Hnil. now apply app_eq_nil in Hnil as [_ Hnil].
    + intros s m Hs Hin.
      apply recordMessage_In in Hs as [->|[Hs|(s0 & Hs0 & ->)]].
      * cbn [SessionInput.messages] in Hin. destruct Hin as [<-|[]].
        exact Hm.
      * now apply (Hkeep s m).
      * unfold touchSession in Hin. cbn [SessionInput.messages] in Hin.
        apply in_app_or in Hin as [Hin|[<-|[]]].
        -- now apply (Hkeep s0 m).
        -- exact Hm.
    + exact Hl.
  - injection H as <-. split; [exact Hnodup|]. split; [exact Hsess|].
    split; [|exact Hl]. cbn [scanSessions scanMax].
    intros s m Hs Hin. destruct (Hmsgs s m Hs Hin) as [Hw Hc].
    split; [exact Hw|]. unfold Covers in *.
    eapply CoversTime_mono; eassumption.
Qed.

Lemma claudeFile_inv : forall since st file st',
  ClaudeInv since st ->
  claudeFile since st file = inr st' ->
  ClaudeInv since st'.
Proof.
  intros since st file st' Hinv H. unfold claudeFile in H.
  destruct (before (mtime file) since); [now injection H as <-|].
  eapply (foldThrow_inv _ _ _ (ClaudeInv since)); [|exact Hinv | exact H].
  intros s0 x s1. apply claudeLine_inv.
Qed.

Lemma claudeScan_inv : forall since files st,
  foldThrow (claudeFile since) (mkScan [] None) files = inr st ->
  ClaudeInv since st.
Proof.
  intros since files st H.
  eapply (foldThrow_inv _ _ _ (ClaudeInv since)); [| |exact H].
  - intros s0 x s1. apply claudeFile_inv.
  - split; [constructor|]. split; [intros s []|].
    split; [intros s m []|]. intros mx [=].
Qed.

Lemma orderMessages_length : forall msgs,
  length (orderMessages msgs) = length msgs.
Proof.
  intros msgs. unfold orderMessages. rewrite mapIndexed_length.
  apply Permutation_length. apply Permutation_sym, sortBy_perm.
Qed.

Lemma orderSession_ids : forall sessions,
  map SessionInput.externalSessionId (map orderSession sessions)
  = map SessionInput.externalSessionId sessions.
Proof. intros. rewrite map_map. reflexivity. Qed.

(** What the scan of adapter A hands over. *)
Lemma claudeScan_handed : forall since files inputs maxT,
  claudeScan since files = inr (inputs, maxT) ->
  NoDup (map SessionInput.externalSessionId inputs)
  /\ (forall s, In s inputs -> persistable s = true)
  /\ (forall s m, In s inputs -> In m (SessionInput.messages s) ->
        WellBuilt m /\ Covers maxT m)
  /\ AtLeast since maxT.
Proof.
  intros since files inputs maxT H. unfold claudeScan in H.
  destruct (foldThrow (claudeFile since) (mkScan [] None) files)
    as [e|st] eqn:Efold; [discriminate|].
  injection H as <- <-.
  destruct (claudeScan_inv since files st Efold)
    as (Hnodup & Hsess & Hmsgs & Hleast).
  split; [now rewrite orderSession_ids|]. split; [|split; [|exact Hleast]].
  - intros s Hs. apply in_map_iff in Hs as (s0 & <- & Hs0).
    destruct (Hsess s0 Hs0) as [Hid Hne]. unfold persistable. simpl.
    apply nonEmpty_true in Hid. rewrite Hid, orderMessages_length.
    destruct (SessionInput.messages s0); [now contradiction Hne|reflexivity].
  - intros s m Hs Hm. apply in_map_iff in Hs as (s0 & <- & Hs0).
    simpl in Hm. apply orderMessages_In in Hm as (i & x & Hx & ->).
    exact (Hmsgs s0 x Hs0 Hx).
Qed.

(** *** Adapter B: the scan *)

Lemma openCodeMessage_inv : forall storage since acc file,
  AtLeast since (snd acc) ->
  (forall m, In m (fst acc) ->
             MessageInput.content m <> [] /\ Covers (snd acc) m) ->
  let acc' := openCodeMessage storage since acc file in
  AtLeast since (snd acc')
  /\ CoversTime (snd acc') (snd acc)
  /\ forall m, In m (fst acc') ->
               MessageInput.content m <> [] /\ Covers (snd acc') m.
Proof.
  intros storage since [items maxT] file Hleast Hgood.
  assert (Hsame : AtLeast since maxT
                  /\ CoversTime maxT maxT
                  /\ forall m, In m items ->
                       MessageInput.content m <> [] /\ Covers maxT m).
  { split; [exact Hleast|]. split; [|exact Hgood].
    intros t ->. exists t. split; [reflexivity | lia]. }
  unfold openCodeMessage.
  destruct file as [record|]; [|exact Hsame].
  destruct (isObjectLike record); [|exact Hsame].
  destruct (truthy (toStringValue (prop "id" record))) as [messageId|];
    [|exact Hsame].
  set (created :=
         toDateFromMs
           (toNumberValue (optProp "created" (prop "time" record)))).
  destruct (match created with
            | Some t => before t since
            | None => false
            end) eqn:Eold; [exact Hsame|].
  pose proof (bumpMax_spec created maxT) as (Hnew & Hold & _).
  pose proof (AtLeast_bump since created maxT Hleast Eold) as Hl.
  assert (Hkeep : forall m, In m items ->
            MessageInput.content m <> []
            /\ Covers (bumpMax created maxT) m).
  { intros m Hm. destruct (Hgood m Hm) as [Hc Hcov]. split; [exact Hc|].
    unfold Covers in *. eapply CoversTime_mono; eassumption. }
  destruct (truthy _) as [final|] eqn:Ef; cbn [fst snd].
  - split; [exact Hl|]. split; [exact Hold|].
    intros m Hin. apply in_app_or in Hin as [Hin|[<-|[]]];
      [now apply Hkeep|].
    cbn [MessageInput.content]. split.
    + unfold truthy in Ef.
      destruct (if nonEmpty _ then _ else _) as [x|]; [|discriminate].
      destruct (nonEmpty x) eqn:En; [|discriminate].
      injection Ef as <-. now apply nonEmpty_true.
    + exact Hnew.
  - split; [exact Hl|]. split; [exact Hold|]. exact Hkeep.
Qed.

Lemma openCodeSession_inv : forall storage since st file,
  OpenCodeInv since st ->
  OpenCodeInv since (openCodeSession storage since st file).
Proof.
  intros storage since st file Hinv. unfold openCodeSession.
  destruct file as [record|]; [|exact Hinv].
  destruct (isObjectLike record); [|exact Hinv].
  destruct (truthy (toStringValue (prop "id" record))) as [sessionId|] eqn:Eid;
    [|exact Hinv].
  set (lastUpdated :=
         toDateFromMs
           (orElse
              (toNumberValue (optProp "updated" (prop "time" record)))
              (toNumberValue (optProp "created" (prop "time" record))))).
  destruct (match lastUpdated with
            | Some t => before t since
            | None => false
            end) eqn:Eold; [exact Hinv|].
  destruct Hinv as (Hsess & Hmsgs & Hleast).
  pose proof (bumpMax_spec lastUpdated (scanMax st)) as (Hnew & Hold & _).
  pose proof (AtLeast_bump since lastUpdated (scanMax st) Hleast Eold) as Hl.
  match goal with
  | |- context [fold_left ?f ?l ?a] =>
      pose proof (fold_left_inv _ _ f
                    (fun acc =>
                       AtLeast since (snd acc)
                       /\ CoversTime (snd acc)
                            (bumpMax lastUpdated (scanMax st))
                       /\ forall m, In m (fst acc) ->
                            MessageInput.content m <> []
                            /\ Covers (snd acc) m) l a) as Hfold;
      destruct (fold_left f l a) as [items maxT]
  end.
  destruct Hfold as (Hl' & Hcov & Hitems).
  { intros acc x (Ha & Hb & Hc).
    destruct (openCodeMessage_inv storage since acc x Ha Hc)
      as (Ha' & Hb' & Hc').
    split; [exact Ha'|]. split; [|exact Hc'].
    eapply CoversTime_mono; eassumption. }
  { cbn [fst snd]. split; [exact Hl|]. split; [|intros m []].
    intros t ->. exists t. split; [reflexivity | lia]. }
  cbn [fst snd] in *.
  assert (Hsid : sessionId <> []).
  { unfold truthy in Eid.
    destruct (toStringValue (prop "id" record)) as [x|]; [|discriminate].
    destruct (nonEmpty x) eqn:En; [|discriminate].
    injection Eid as <-. now apply nonEmpty_true. }
  assert (Hup : CoversTime maxT (scanMax st))
    by (eapply CoversTime_mono; eassumption).
  split; [|split; [|exact Hl']]; cbn [scanSessions scanMax].
  - intros s Hs. apply in_app_or in Hs as [Hs|[<-|[]]].
    + destruct (Hsess s Hs) as [Hid Hc]. split; [exact Hid|].
      exact (CoversTime_mono _ _ _ Hup Hc).
    + cbn [SessionInput.externalSessionId SessionInput.lastActivityAt].
      split; [exact Hsid|]. exact (CoversTime_mono _ _ _ Hcov Hnew).
  - intros s m Hs Hm. apply in_app_or in Hs as [Hs|[<-|[]]].
    + destruct (Hmsgs s m Hs Hm) as [Hc Hcov']. split; [exact Hc|].
      exact (CoversTime_mono _ _ _ Hup Hcov').
    + cbn [SessionInput.messages] in Hm.
      apply orderMessages_In in Hm as (i & x & Hx & ->).
      exact (Hitems x Hx).
Qed.

Lemma openCodeScan_inv : forall since storage,
  OpenCodeInv since
    (fold_left (openCodeSession storage since) (sessionFiles storage)
       (mkScan [] None)).
Proof.
  intros since storage.
  apply (fold_left_inv _ _ (openCodeSession storage since)
           (OpenCodeInv since)).
  - intros st file Hst. now apply openCodeSession_inv.
  - split; [intros s []|]. split; [intros s m []|]. intros mx [=].
Qed.

End Scans.

(** *** What the scans hand over *)

Section ScanTheorems.

Context {P : Platform} {E : Environment}.

(** The maximum timestamp a scan returns, which becomes the checkpoint, is
    never before the lower bound of the scan, and it is at or after the
    time of every message handed over; for adapter B also at or after the
    last activity of every session. *)
Theorem scan_maximum_covers :
  (forall since files inputs maxT,
     claudeScan since files = inr (inputs, maxT) ->
     AtLeast since maxT
     /\ forall s m, In s inputs -> In m (SessionInput.messages s) ->
                    Covers maxT m)
  /\ (forall since storage,
        AtLeast since (snd (openCodeScan since storage))
        /\ forall s, In s (fst (openCodeScan since storage)) ->
             CoversTime (snd (openCodeScan since storage))
               (SessionInput.lastActivityAt s)
             /\ forall m, In m (SessionInput.messages s) ->
                  Covers (snd (openCodeScan since storage)) m).
Proof.
  split.
  - intros since files inputs maxT H.
    destruct (claudeScan_handed since files inputs maxT H)
      as (_ & _ & Hmsgs & Hleast).
    split; [exact Hleast|]. intros s m Hs Hm. apply (Hmsgs s m Hs Hm).
  - intros since storage. unfold openCodeScan. cbn [fst snd].
    destruct (openCodeScan_inv since storage) as (Hsess & Hmsgs & Hleast).
    split; [exact Hleast|]. intros s Hs. split; [apply (Hsess s Hs)|].
    intros m Hm. apply (Hmsgs s m Hs Hm).
Qed.

(** Adapter A hands over one session per session id, each with an id that
    is not empty and at least one message; the content of every message is
    not empty and has no white space at either end, and the text of every
    part is a string or absent.  Adapter B hands over sessions with an id
    that is not empty, and only messages with a content that is not
    empty. *)
Theorem scan_sessions_shape :
  (forall since files inputs maxT,
     claudeScan since files = inr (inputs, maxT) ->
     NoDup (map SessionInput.externalSessionId inputs)
     /\ forall s, In s inputs ->
          SessionInput.externalSessionId s <> []
          /\ SessionInput.messages s <> []
          /\ forall m, In m (SessionInput.messages s) -> WellBuilt m)
  /\ (forall since storage s,
        In s (fst (openCodeScan since storage)) ->
        SessionInput.externalSessionId s <> []
        /\ forall m, In m (SessionInput.messages s) ->
                     MessageInput.content m <> []).
Proof.
  split.
  - intros since files inputs maxT H.
    destruct (claudeScan_handed since files inputs maxT H)
      as (Hnodup & Hpers & Hmsgs & _).
    split; [exact Hnodup|]. intros s Hs.
    specialize (Hpers s Hs). unfold persistable in Hpers.
    apply andb_prop in Hpers as [Hid Hlen].
    split; [now apply nonEmpty_true|]. split.
    + intros Hnil. rewrite Hnil in Hlen. discriminate Hlen.
    + intros m Hm. apply (Hmsgs s m Hs Hm).
  - intros since storage s Hs. unfold openCodeScan in Hs. cbn [fst] in Hs.
    destruct (openCodeScan_inv since storage) as (Hsess & Hmsgs & _).
    split; [apply (Hsess s Hs)|]. intros m Hm. apply (Hmsgs s m Hs Hm).
Qed.

(** *** When the run of adapter A fails *)

Lemma claudeLine_total : forall since path st line,
  line <> Some JNull -> exists st', claudeLine since path st line = inr st'.
Proof.
  intros since path st line Hline.
  destruct line as [parsed|]; [|now exists st].
  assert (Hnn : parsed <> JNull) by congruence.
  rewrite (claudeLine_event since path st parsed Hnn).
  destruct (truthy _); [|now exists st]. cbv zeta.
  destruct (match toDate _ with
            | Some t => before t since
            | None => false
            end); [now exists st|].
  destruct (buildClaudeMessage _ _ _); eauto.
Qed.

Lemma claudeFile_total : forall since st file,
  ~ hasNullLine since file -> exists st', claudeFile since st file = inr st'.
Proof.
  intros since st file Hno. unfold claudeFile.
  destruct (before (mtime file) since) eqn:Hold; [now exists st|].
  apply foldThrow_total. intros s0 line Hin. apply claudeLine_total.
  intros ->. apply Hno. now split.
Qed.

Lemma claudeFile_fails : forall since st file,
  hasNullLine since file -> exists e, claudeFile since st file = inl e.
Proof.
  intros since st file [Hge Hin]. unfold claudeFile.
  rewrite Hge.
  apply foldThrow_fails. apply Exists_exists. exists (Some JNull).
  split; [exact Hin|]. intros s0. now exists nullDereference.
Qed.

Lemma claudeScan_total : forall since files,
  Forall (fun file => ~ hasNullLine since file) files ->
  exists inputs maxT, claudeScan since files = inr (inputs, maxT).
Proof.
  intros since files H. unfold claudeScan.
  destruct (foldThrow_total _ _ (claudeFile since) files (mkScan [] None))
    as [st ->]; [|eauto].
  intros s0 file Hin. apply claudeFile_total.
  rewrite Forall_forall in H. now apply H.
Qed.

Lemma claudeScan_fails : forall since files,
  Exists (hasNullLine since) files ->
  exists e, claudeScan since files = inl e.
Proof.
  intros since files H. unfold claudeScan.
  destruct (foldThrow_fails _ _ (claudeFile since) files (mkScan [] None))
    as [e ->]; [|eauto].
  apply Exists_exists in H as (file & Hin & Hnull).
  apply Exists_exists. exists file. split; [exact Hin|].
  intros s0. now apply claudeFile_fails.
Qed.

Lemma runClaudeSource_eq : forall now sourceId root lookbackDays st,
  runClaudeSource now sourceId root lookbackDays st
  = match claudeScan
            (scanSince
               (lookupCheckpoint sourceId lastTimestamp (checkpoints st))
               now lookbackDays)
            (claudeLogs
               (pathJoin (match root with
                          | Some r => r
                          | None => DEFAULT_CLAUDE_ROOT
                          end) (lit "projects"))) with
    | inl e => Threw e st
    | inr (inputs, maxT) =>
        (tool <- ensureSourceTool (lit "claude-code") (lit "Claude Code") ;;
         workspace <- ensureWorkspace ;;
         persistSessions now tool workspace (lit "claude-watcher")
           inputs maxT) st
    end.
Proof.
  intros. unfold runClaudeSource, bind, getCheckpoint, gets.
  destruct (claudeScan _ _) as [e|[inputs maxT]]; reflexivity.
Qed.

Lemma runOpenCodeSource_eq : forall now sourceId root lookbackDays st,
  runOpenCodeSource now sourceId root lookbackDays st
  = (tool <- ensureSourceTool (lit "opencode") (lit "OpenCode") ;;
     workspace <- ensureWorkspace ;;
     persistSessions now tool workspace (lit "opencode-watcher")
       (fst (openCodeScan
               (scanSince
                  (lookupCheckpoint sourceId lastTimestamp (checkpoints st))
                  now lookbackDays)
               (openCodeStorage (match root with
                                 | Some r => r
                                 | None => DEFAULT_OPENCODE_HOME
                                 end))))
       (snd (openCodeScan
               (scanSince
                  (lookupCheckpoint sourceId lastTimestamp (checkpoints st))
                  now lookbackDays)
               (openCodeStorage (match root with
                                 | Some r => r
                                 | None => DEFAULT_OPENCODE_HOME
                                 end))))) st.
Proof.
  intros. unfold runOpenCodeSource, bind, getCheckpoint, gets.
  destruct (openCodeScan _ _) as [inputs maxT]. reflexivity.
Qed.

Lemma ensureWorkspace_returns : forall st,
  exists id st', ensureWorkspace st = Returned id st'.
Proof. intros st. unfold ensureWorkspace. destruct (workspaces st); eauto. Qed.

Lemma partsOf_texts : forall inputs,
  (forall s m, In s inputs -> In m (SessionInput.messages s) ->
               forallb textIsString (MessageInput.parts m) = true) ->
  forallb textIsString (partsOf inputs) = true.
Proof.
  intros inputs H. apply forallb_forall. intros p Hp.
  unfold partsOf, messagesOf in Hp.
  apply in_flat_map in Hp as (m & Hm & Hp).
  apply in_flat_map in Hm as (s & Hs & Hm).
  apply filter_In in Hs as [Hs _].
  specialize (H s m Hs Hm). rewrite forallb_forall in H. now apply H.
Qed.

Lemma filter_all : forall (A : Type) (p : A -> bool) (l : list A),
  (forall x, In x l -> p x = true) -> filter p l = l.
Proof.
  intros A p l. induction l as [|x l IH]; intros H; simpl.
  - reflexivity.
  - rewrite (H x (or_introl eq_refl)). f_equal. apply IH.
    intros y Hy. apply H. now right.
Qed.

(** What a loop of upserts that has returned leaves for each of its
    items. *)
Lemma foldStore_written : forall (S A : Type) (f : S -> A -> M S)
  (Q : A -> Store -> Prop),
  (forall s x, Grows (f s x)) ->
  (forall s x st s1 st1, f s x st = Returned s1 st1 -> Q x st1) ->
  (forall x a b, Extends a b -> Q x a -> Q x b) ->
  forall l s st r st',
    foldStore f s l st = Returned r st' -> forall x, In x l -> Q x st'.
Proof.
  intros S A f Q Hgrow Hstep Hmono l.
  induction l as [|y l IH]; intros s st r st' H x Hin; [destruct Hin|].
  cbn [foldStore] in H. unfold bind in H.
  destruct (f s y st) as [s1 st1|e st1] eqn:Ey; [|discriminate H].
  destruct Hin as [<-|Hin]; [|exact (IH s1 st1 r st' H x Hin)].
  apply (Hmono y st1 st'); [|exact (Hstep s y st s1 st1 Ey)].
  pose proof (Grows_foldStore _ _ f l s1 Hgrow st1) as Hg.
  now rewrite H in Hg.
Qed.

Lemma persistMessages_written : forall sessionId messages counts st r st',
  foldStore (persistMessage sessionId) counts messages st = Returned r st' ->
  forall m, In m messages ->
    exists j,
      lookMessage st' sessionId (MessageInput.externalMessageId m) = Some j.
Proof.
  intros sessionId messages counts st r st' H.
  apply (foldStore_written _ _ (persistMessage sessionId)
           (fun m s =>
              exists j,
                lookMessage s sessionId (MessageInput.externalMessageId m)
                = Some j)) with (l := messages) (s := counts) (st := st)
           (r := r); [| | |exact H].
  - intros. apply Grows_persistMessage.
  - intros c m s0 c1 s1 Hrun. unfold persistMessage, bind in Hrun.
    destruct (upsertMessage_resolves sessionId m s0)
      as (j & sA & HA & Hlook).
    rewrite HA in Hrun. exists j.
    pose proof (Grows_foldStore _ _ (persistPart sessionId j)
                  (MessageInput.parts m) (snd c)
                  (fun n p => Grows_persistPart sessionId j n p) sA) as Hg.
    destruct (foldStore _ _ _ sA) as [n sB|e sB]; [|discriminate Hrun].
    unfold ret in Hrun. injection Hrun as _ <-.
    exact (proj1 (proj2 Hg) _ _ _ Hlook).
  - intros m a b Hext (j & Hj). exists j.
    exact (proj1 (proj2 Hext) _ _ _ Hj).
Qed.

(** Every session [persistSessions] wrote resolves by its natural key
    afterwards, and so does each of its messages. *)
Lemma persistSessions_written :
  forall now tool ws importSource inputs counts st r st',
  foldStore (persistSession now tool ws importSource) counts inputs st
  = Returned r st' ->
  forall s, In s inputs -> persistable s = true ->
    exists i,
      lookSession st' tool (SessionInput.externalSessionId s) = Some i
      /\ forall m, In m (SessionInput.messages s) ->
           exists j,
             lookMessage st' i (MessageInput.externalMessageId m) = Some j.
Proof.
  intros now tool ws importSource inputs counts st r st' H.
  apply (foldStore_written _ _ (persistSession now tool ws importSource)
           (fun s store =>
              persistable s = true ->
              exists i,
                lookSession store tool (SessionInput.externalSessionId s)
                = Some i
                /\ forall m, In m (SessionInput.messages s) ->
                     exists j,
                       lookMessage store i (MessageInput.externalMessageId m)
                       = Some j))
    with (l := inputs) (s := counts) (st := st) (r := r); [| | |exact H].
  - intros. apply Grows_persistSession.
  - intros c s s0 c1 s1 Hrun Hp. unfold persistSession in Hrun.
    unfold persistable in Hp. apply andb_true_iff in Hp as [Hid Hmsgs].
    rewrite Hid in Hrun. cbn [negb orb] in Hrun.
    apply negb_true_iff in Hmsgs. rewrite Hmsgs in Hrun.
    unfold bind in Hrun.
    destruct (upsertSession_resolves now tool ws importSource s s0)
      as (i & sA & HA & Hlook).
    rewrite HA in Hrun.
    pose proof (Grows_foldStore _ _ (persistMessage i)
                  (SessionInput.messages s) (snd c)
                  (fun n m => Grows_persistMessage i n m) sA) as Hg.
    destruct (foldStore (persistMessage i) (snd c)
                (SessionInput.messages s) sA) as [inner sB|e sB] eqn:Ef;
      [|discriminate Hrun].
    unfold ret in Hrun. injection Hrun as _ <-. exists i. split.
    + exact (proj1 Hg _ _ _ Hlook).
    + exact (persistMessages_written i _ _ _ _ _ Ef).
  - intros s a b Hext Hq Hp. destruct (Hq Hp) as (i & Hi & Hm).
    exists i. split; [exact (proj1 Hext _ _ _ Hi)|].
    intros m Hin. destruct (Hm m Hin) as (j & Hj). exists j.
    exact (proj1 (proj2 Hext) _ _ _ Hj).
Qed.

(** The run of adapter A fails when a log file it reads holds a line that
    parses to [null], and then it has written nothing: the store is as it
    was.  When no file it reads holds such a line the run returns, and
    every session it scanned has been written: the counts say so, and
    afterwards every scanned session resolves under the source tool
    ["claude-code"] by its session id, and each of its messages under the
    session by its message id. *)
Theorem claude_run_outcome :
  forall now sourceId root lookbackDays st,
  let since :=
    scanSince (lookupCheckpoint sourceId lastTimestamp (checkpoints st))
      now lookbackDays in
  let files :=
    claudeLogs (pathJoin (match root with
                          | Some r => r
                          | None => DEFAULT_CLAUDE_ROOT
                          end) (lit "projects")) in
  (Exists (hasNullLine since) files ->
   exists e, runClaudeSource now sourceId root lookbackDays st = Threw e st)
  /\ (Forall (fun file => ~ hasNullLine since file) files ->
      exists inputs maxT result st',
        claudeScan since files = inr (inputs, maxT)
        /\ runClaudeSource now sourceId root lookbackDays st
           = Returned result st'
        /\ scannedSessions result = length inputs
        /\ upsertedSessions result = length inputs
        /\ maxTimestamp result = maxT
        /\ exists tool,
             lookTool st' (lit "claude-code") = Some tool
             /\ forall s, In s inputs ->
                  exists i,
                    lookSession st' tool (SessionInput.externalSessionId s)
                    = Some i
                    /\ forall m, In m (SessionInput.messages s) ->
                         exists j,
                           lookMessage st' i
                             (MessageInput.externalMessageId m)
                           = Some j).
Proof.
  intros now sourceId root lookbackDays st since files.
  rewrite runClaudeSource_eq. fold since. fold files. split.
  - intros H. destruct (claudeScan_fails since files H) as [e ->].
    now exists e.
  - intros H. destruct (claudeScan_total since files H)
      as (inputs & maxT & Hscan). rewrite Hscan.
    destruct (claudeScan_handed since files inputs maxT Hscan)
      as (_ & Hpers & Hmsgs & _).
    unfold bind.
    assert (Htool : exists tool st1,
               ensureSourceTool (lit "claude-code") (lit "Claude Code") st
               = Returned tool st1
               /\ lookTool st1 (lit "claude-code") = Some tool).
    { unfold ensureSourceTool, lookTool. apply upsertM_resolves;
        try reflexivity; intros n; cbn; apply strEqb_refl. }
    destruct Htool as (tool & st1 & -> & Hlook1).
    pose proof (Grows_ensureWorkspace st1) as Hgrow2.
    destruct (ensureWorkspace_returns st1) as (ws & st2 & Hws).
    rewrite Hws in *. cbn [storeOf] in Hgrow2.
    destruct (persistSessions_fold_count now tool ws (lit "claude-watcher")
                inputs (0, (0, 0)) st2) as [st' Hfold].
    { apply partsOf_texts. intros s m Hs Hm.
      apply (Hmsgs s m Hs Hm). }
    pose proof (Grows_foldStore _ _
                  (persistSession now tool ws (lit "claude-watcher")) inputs
                  (0, (0, 0))
                  (fun c x => Grows_persistSession now tool ws
                                (lit "claude-watcher") c x) st2) as Hgrow3.
    rewrite Hfold in Hgrow3. cbn [storeOf] in Hgrow3.
    unfold persistSessions, bind. rewrite Hfold. unfold ret.
    exists inputs, maxT. eexists. exists st'.
    split; [reflexivity|]. split; [reflexivity|].
    cbn [scannedSessions upsertedSessions maxTimestamp fst snd].
    split; [reflexivity|]. split; [now rewrite (filter_all _ _ _ Hpers)|].
    split; [reflexivity|]. exists tool. split.
    + apply (proj1 (proj2 (proj2 (proj2 Hgrow3)))).
      now apply (proj1 (proj2 (proj2 (proj2 Hgrow2)))).
    + intros s Hs.
      exact (persistSessions_written now tool ws (lit "claude-watcher")
               inputs _ st2 _ st' Hfold s Hs (Hpers s Hs)).
Qed.

End ScanTheorems.

(** The log under the default root of the example environment holds the
    line [null]; the log under [/logs] does not. *)
Example claude_run_outcome_examples :
  @runClaudeSource examplePlatform exampleEnvironment exampleNow 0 None 30
    emptyStore = Threw nullDereference emptyStore
  /\ exists st',
       @runClaudeSource examplePlatform exampleEnvironment exampleNow 0
         (Some (lit "/logs")) 30 emptyStore
       = Returned (mkResult 1 1 1 1 (Some epoch2026) None) st'.
Proof. split; [vm_compute; reflexivity|]. eexists. vm_compute. reflexivity. Qed.

(** ** The checkpoint never goes back *)

Section CheckpointMonotone.

Context {P : Platform} {E : Environment}.

Lemma persistSessions_max : forall now tool ws importSource inputs maxT st
  result st',
  persistSessions now tool ws importSource inputs maxT st
  = Returned result st' ->
  maxTimestamp result = maxT.
Proof.
  intros now tool ws importSource inputs maxT st result st' H.
  unfold persistSessions, bind in H.
  destruct (foldStore _ _ inputs st); [|discriminate].
  unfold ret in H. now injection H as <- _.
Qed.

Lemma ensured_persist_max : forall now slug name importSource inputs maxT st
  result st',
  (tool <- ensureSourceTool slug name ;;
   workspace <- ensureWorkspace ;;
   persistSessions now tool workspace importSource inputs maxT) st
  = Returned result st' ->
  maxTimestamp result = maxT.
Proof.
  intros now slug name importSource inputs maxT st result st' H.
  unfold bind at 1 in H. unfold ensureSourceTool in H.
  match type of H with
  | context [upsertM ?t ?s ?i ?q ?f ?c st] =>
      destruct (upsertM_returns _ t s i q f c st) as (tool & st1 & Hu)
  end.
  rewrite Hu in H. unfold bind at 1 in H.
  destruct (ensureWorkspace_returns st1) as (ws & st2 & Hw).
  rewrite Hw in H. now apply persistSessions_max in H.
Qed.

(** The maximum timestamp a source run returns is at or after the lower
    bound it scanned from. *)
Lemma openCodeScan_least : forall since storage,
  AtLeast since (snd (openCodeScan since storage)).
Proof.
  intros since storage. unfold openCodeScan. cbn [fst snd].
  apply (openCodeScan_inv since storage).
Qed.

Lemma runAdapter_max : forall now source st result st',
  runAdapter now source st = Returned result st' ->
  AtLeast
    (scanSince
       (lookupCheckpoint (SourceRow.id source) lastTimestamp (checkpoints st))
       now (SourceRow.lookbackDays source))
    (maxTimestamp result).
Proof.
  intros now source st result st' H. unfold runAdapter in H.
  destruct (SourceRow.type source).
  - rewrite runClaudeSource_eq in H.
    destruct (claudeScan _ _) as [e|[inputs maxT]] eqn:Escan;
      [discriminate|].
    apply ensured_persist_max in H. rewrite H.
    apply (claudeScan_handed _ _ _ _ Escan).
  - rewrite runOpenCodeSource_eq in H.
    apply ensured_persist_max in H. rewrite H.
    apply openCodeScan_least.
  - discriminate.
Qed.

Lemma scanSince_checkpoint : forall old tOld now lookbackDays,
  (Z.abs (lookbackStart now lookbackDays) <= maxDateMs)%Z ->
  old <> [] -> dateParse old = Some tOld ->
  exists since,
    scanSince (Some old) now lookbackDays = Some since /\ (tOld <= since)%Z.
Proof.
  intros old tOld now lookbackDays Hvalid Hne Hparse.
  rewrite scanSince_max by exact Hvalid.
  unfold checkpointTime, truthy. apply nonEmpty_true in Hne. rewrite Hne.
  rewrite Hparse. eexists. split; [reflexivity | lia].
Qed.

(** When the start of the look-back window of a source is within the
    range of dates, a step of the cycle never moves the checkpoint of the
    source back: when a checkpoint is stored that parses as a date, the
    step leaves it as it is or replaces it by the ISO string of a time
    that is not before it. *)
Theorem checkpoint_never_goes_back :
  forall now mode source st old tOld,
  RunsFresh st ->
  (Z.abs (lookbackStart now (SourceRow.lookbackDays source)) <= maxDateMs)%Z ->
  lookupCheckpoint (SourceRow.id source) lastTimestamp (checkpoints st)
  = Some old ->
  old <> [] ->
  dateParse old = Some tOld ->
  let after := checkpoints (storeOf (processSource now mode source st)) in
  lookupCheckpoint (SourceRow.id source) lastTimestamp after = Some old
  \/ exists t,
       (tOld <= t)%Z
       /\ lookupCheckpoint (SourceRow.id source) lastTimestamp after
          = Some (toISOString t).
Proof.
  intros now mode source st old tOld Hfresh Hvalid Hold Hne Hparse after.
  subst after.
  destruct (processSource_step now mode source st Hfresh)
    as (st' & -> & _ & Hcase). cbn [storeOf].
  pose proof (runAdapter_max now source (adapterStore now mode source st))
    as Hmax.
  assert (Hcp : checkpoints (adapterStore now mode source st)
                = checkpoints st).
  { unfold adapterStore.
    destruct (announceRun_returns now mode source st)
      as (st1 & -> & _ & _ & _ & Hc & _). exact Hc. }
  rewrite Hcp, Hold in Hmax.
  destruct (runAdapter now source (adapterStore now mode source st))
    as [result st2|e st2].
  - destruct Hcase as (_ & _ & _ & Hc). rewrite Hc.
    destruct (maxTimestamp result) as [t|] eqn:Et; [|now left].
    right. exists t. split; [|apply lookup_written].
    specialize (Hmax result st2 eq_refl t Et).
    destruct (scanSince_checkpoint old tOld now
                (SourceRow.lookbackDays source) Hvalid Hne Hparse)
      as (since & Hsince & Hle).
    assert (Hnot : before t (Some since) = false)
      by (rewrite <- Hsince; exact Hmax).
    cbn [before] in Hnot. apply Z.ltb_ge in Hnot. lia.
  - destruct Hcase as (_ & _ & _ & Hc). rewrite Hc. now left.
Qed.

End CheckpointMonotone.

(** The checkpoint of midnight moves on to one second past midnight. *)
Lemma checkpoint_never_goes_back_witness :
  lookupCheckpoint 1 lastTimestamp
    (checkpoints
       (storeOf (@processSource examplePlatform exampleEnvironment exampleNow
                   Poll soundSource checkpointedStore)))
  = Some (lit "2026-01-01T00:00:00.000Z")
  \/ exists t,
       (epoch2026 <= t)%Z
       /\ lookupCheckpoint 1 lastTimestamp
            (checkpoints
               (storeOf (@processSource examplePlatform exampleEnvironment
                           exampleNow Poll soundSource checkpointedStore)))
          = Some (@toISOString examplePlatform t).
Proof.
  apply (@checkpoint_never_goes_back examplePlatform exampleEnvironment
           exampleNow Poll soundSource checkpointedStore
           (lit "2026-01-01T00:00:00.000Z") epoch2026).
  - apply Forall_nil.
  - vm_compute. discriminate.
  - reflexivity.
  - discriminate.
  - reflexivity.
Defined.

Example checkpoint_moves_on :
  lookupCheckpoint 1 lastTimestamp
    (checkpoints
       (storeOf (@processSource examplePlatform exampleEnvironment exampleNow
                   Poll soundSource checkpointedStore)))
  = Some (lit "2026-01-01T00:00:01.000Z").
Proof. vm_compute. reflexivity. Qed.

(** With a look-back of two hundred million days the start of the window
    is beyond the range of dates, and the step moves the checkpoint back
    to the event of the logs, one second before. *)
Example checkpoint_moves_back :
  lookupCheckpoint 1 lastTimestamp (checkpoints laterCheckpointStore)
  = Some (lit "2026-01-01T00:00:01.000Z")
  /\ lookupCheckpoint 1 lastTimestamp
       (checkpoints
          (storeOf (@processSource examplePlatform exampleEnvironment
                      exampleNow Poll farLookbackSource
                      laterCheckpointStore)))
     = Some (lit "2026-01-01T00:00:00.000Z").
Proof. split; vm_compute; reflexivity. Qed.

(** ** The orchestrator: what a cycle records *)

Section OrchestratorMore.

Context {P : Platform} {E : Environment}.

Lemma processAll_started : forall now mode l st,
  RunsFresh st ->
  exists started,
    runs (processAll now mode l st) = runs st ++ started
    /\ map RunRow.sourceId started = map SourceRow.id l
    /\ Forall (Finished now mode) started.
Proof.
  intros now mode l. induction l as [|source l IH]; intros st Hfresh.
  - exists []. simpl. rewrite app_nil_r. repeat split. constructor.
  - destruct (processSource_fresh now mode source st Hfresh) as (Hf & _).
    destruct (processSource_step now mode source st Hfresh)
      as (st' & Hst & _ & Hcase).
    rewrite Hst in Hf. cbn [storeOf] in Hf.
    destruct (IH st' Hf) as (started & Hr & Hids & Hfin).
    unfold processAll in *. cbn [fold_left]. rewrite Hst. cbn [storeOf].
    destruct (runAdapter now source (adapterStore now mode source st))
      as [result st2|e st2]; destruct Hcase as (Hrun & _);
      eexists (_ :: started); rewrite Hr, Hrun, <- app_assoc;
      (split; [reflexivity|]); cbn [map]; rewrite Hids;
      (split; [reflexivity|]); constructor; try exact Hfin;
      unfold Finished; cbn; repeat split; auto.
Qed.

(** A cycle starts exactly one run per enabled source, in the order of the
    sources, and none for a source that is disabled; the run records that
    were there are left as they were, and when the cycle returns every run
    it started has come to its end, as SUCCESS or as FAILED: none is left
    RUNNING. *)
Theorem cycle_one_run_per_enabled_source :
  forall now mode st,
  RunsFresh st ->
  let st1 := storeOf (ensureDefaultIngestionSources st) in
  exists final started,
    runIngestionCycle now mode st = Returned tt final
    /\ runs final = runs st ++ started
    /\ map RunRow.sourceId started
       = map SourceRow.id (filter SourceRow.isEnabled (sources st1))
    /\ Forall (Finished now mode) started.
Proof.
  intros now mode st Hfresh st1.
  destruct (ensureDefault_returns st) as (st1' & Hens & Hr1 & He1 & Hc1 & Hn1).
  assert (Hst1 : st1 = st1') by (unfold st1; now rewrite Hens).
  assert (Hfresh1 : RunsFresh st1).
  { rewrite Hst1. unfold RunsFresh in *. rewrite Hr1.
    eapply Forall_impl; [|exact Hfresh]. simpl. intros a Ha. lia. }
  destruct (processAll_started now mode (enabledSources st1) st1 Hfresh1)
    as (started & Hruns & Hids & Hfin).
  exists (processAll now mode (enabledSources st1) st1), started.
  split; [|split; [|split]].
  - unfold runIngestionCycle, bind, gets. rewrite Hens, <- Hst1.
    now apply forEach_processAll.
  - rewrite Hruns, Hst1, Hr1. reflexivity.
  - exact Hids.
  - exact Hfin.
Qed.

(** What a step of the cycle records when the adapter has returned: the
    run record is SUCCESS with the four counts of the result and no error
    count, no error entry is added, the source row gets the time of the
    run and of the success and the status message of the result, and the
    sessions, messages and parts are those the adapter left. *)
Theorem source_success_recorded :
  forall now mode source st result st2,
  RunsFresh st ->
  runAdapter now source (adapterStore now mode source st)
  = Returned result st2 ->
  exists st' run,
    processSource now mode source st = Returned tt st'
    /\ runs st' = runs st ++ [run]
    /\ RunRow.sourceId run = SourceRow.id source
    /\ RunRow.mode run = mode
    /\ RunRow.status run = SUCCESS
    /\ RunRow.finishedAt run = Some now
    /\ RunRow.scannedSessions run = scannedSessions result
    /\ RunRow.upsertedSessions run = upsertedSessions result
    /\ RunRow.upsertedMessages run = upsertedMessages result
    /\ RunRow.upsertedParts run = upsertedParts result
    /\ RunRow.errorCount run = 0
    /\ errors st' = errors st
    /\ (forall row,
          find (sourceHasId (SourceRow.id source)) (sources st) = Some row ->
          exists row',
            find (sourceHasId (SourceRow.id source)) (sources st')
            = Some row'
            /\ SourceRow.lastRunAt row' = Some now
            /\ SourceRow.lastSuccessAt row' = Some now
            /\ SourceRow.lastErrorAt row' = SourceRow.lastErrorAt row
            /\ SourceRow.isEnabled row' = SourceRow.isEnabled row
            /\ SourceRow.statusMessage row' = Some (successMessage result))
    /\ sessions st' = sessions st2
    /\ messages st' = messages st2
    /\ parts st' = parts st2.
Proof.
  intros now mode source st result st2 Hfresh Hrun.
  destruct (processSource_step now mode source st Hfresh)
    as (st' & Hstep & _ & Hcase).
  rewrite Hrun in Hcase. destruct Hcase as (Hr & He & Hs & _).
  exists st', (runSucceeded now result
                 (startedRun (nextId st) (SourceRow.id source) mode)).
  split; [exact Hstep|]. split; [exact Hr|].
  do 9 (split; [reflexivity|]). split; [exact He|]. split.
  - intros row Hrow. eexists. split.
    + rewrite Hs. apply find_updateFirst; [intros x; reflexivity|].
      apply find_updateFirst; [intros x; reflexivity | exact Hrow].
    + repeat split.
  - assert (Hst' : st' = storeOf (processSource now mode source st))
      by now rewrite Hstep.
    rewrite processSource_eq in Hst'. unfold tryCatch in Hst'.
    rewrite attemptSource_eq, Hrun in Hst'. rewrite Hst'.
    destruct (maxTimestamp result); repeat split.
Qed.

(** A source whose type has no adapter fails its run with a message that
    names the type; its step touches no session, message, part or
    checkpoint. *)
Theorem unsupported_source_fails :
  forall now mode source name st,
  RunsFresh st ->
  SourceRow.type source = OtherSourceType name ->
  exists st' run,
    processSource now mode source st = Returned tt st'
    /\ runs st' = runs st ++ [run]
    /\ RunRow.status run = FAILED
    /\ RunRow.note run
       = Some (lit "Unsupported ingestion source type: " ++ name)
    /\ sessions st' = sessions st
    /\ messages st' = messages st
    /\ parts st' = parts st
    /\ checkpoints st' = checkpoints st.
Proof.
  intros now mode source name st Hfresh Htype.
  destruct (processSource_step now mode source st Hfresh)
    as (st' & Hstep & _ & Hcase).
  assert (Hrun : runAdapter now source (adapterStore now mode source st)
                 = Threw (ErrorObject
                            (lit "Unsupported ingestion source type: "
                               ++ name))
                     (adapterStore now mode source st)).
  { unfold runAdapter. rewrite Htype. reflexivity. }
  rewrite Hrun in Hcase. destruct Hcase as (Hr & _ & _ & Hc).
  exists st', (runFailed now
                 (lit "Unsupported ingestion source type: " ++ name)
                 (startedRun (nextId st) (SourceRow.id source) mode)).
  split; [exact Hstep|]. split; [exact Hr|].
  do 2 (split; [reflexivity|]).
  assert (Hst' : st' = storeOf (processSource now mode source st))
    by now rewrite Hstep.
  rewrite processSource_eq in Hst'. unfold tryCatch in Hst'.
  rewrite attemptSource_eq, Hrun in Hst'. rewrite Hst'.
  repeat split.
Qed.

End OrchestratorMore.

(** A first cycle on the empty store: both default sources are created
    enabled, and each gets its run. *)
Lemma cycle_one_run_per_enabled_source_witness :
  exists final started,
    @runIngestionCycle examplePlatform exampleEnvironment exampleNow Poll
      emptyStore = Returned tt final
    /\ runs final = runs emptyStore ++ started
    /\ map RunRow.sourceId started
       = map SourceRow.id
           (filter SourceRow.isEnabled
              (sources
                 (storeOf (@ensureDefaultIngestionSources exampleEnvironment
                             emptyStore))))
    /\ Forall (Finished exampleNow Poll) started.
Proof.
  exact (@cycle_one_run_per_enabled_source examplePlatform exampleEnvironment
           exampleNow Poll emptyStore (Forall_nil _)).
Defined.

(** With the default source of adapter A disabled, a cycle runs adapter B
    only. *)
Example cycle_skips_disabled :
  let final :=
    storeOf (@runIngestionCycle examplePlatform exampleEnvironment exampleNow
               Poll disabledClaudeStore) in
  map RunRow.sourceId (runs final) = [1]
  /\ map SourceRow.isEnabled (sources final) = [false; true]
  /\ map SourceRow.rootPath (sources final)
     = [Some (lit "/null"); Some (lit "/sound")].
Proof. vm_compute. repeat split. Qed.

Lemma unsupported_source_fails_witness :
  exists st' run,
    @processSource examplePlatform exampleEnvironment exampleNow Poll
      cursorSource emptyStore = Returned tt st'
    /\ runs st' = runs emptyStore ++ [run]
    /\ RunRow.status run = FAILED
    /\ RunRow.note run
       = Some (lit "Unsupported ingestion source type: " ++ lit "CURSOR")
    /\ sessions st' = sessions emptyStore
    /\ messages st' = messages emptyStore
    /\ parts st' = parts emptyStore
    /\ checkpoints st' = checkpoints emptyStore.
Proof.
  exact (@unsupported_source_fails examplePlatform exampleEnvironment
           exampleNow Poll cursorSource (lit "CURSOR") emptyStore
           (Forall_nil _) eq_refl).
Defined.

(** The source of adapter B over the sound storage: two messages and two
    parts in one session. *)
Lemma source_success_recorded_witness :
  exists st' run,
    @processSource examplePlatform exampleEnvironment exampleNow Poll
      soundSource emptyStore = Returned tt st'
    /\ runs st' = [run]
    /\ RunRow.status run = SUCCESS
    /\ RunRow.upsertedSessions run = 1
    /\ RunRow.upsertedMessages run = 2
    /\ RunRow.upsertedParts run = 2
    /\ errors st' = [].
Proof.
  eassert (Hrun : @runAdapter examplePlatform exampleEnvironment exampleNow
                    soundSource
                    (adapterStore exampleNow Poll soundSource emptyStore)
                  = Returned _ _).
  { vm_compute. reflexivity. }
  destruct (@source_success_recorded examplePlatform exampleEnvironment
              exampleNow Poll soundSource emptyStore _ _ (Forall_nil _) Hrun)
    as (st' & run & Hstep & Hruns & _ & _ & Hstatus & _ & _ & Hs & Hm & Hp
        & _ & He & _).
  exists st', run. repeat split; assumption.
Defined.

(** ** The default sources *)

Lemma updateFirst_fixed : forall (A : Type) (p : A -> bool) (f : A -> A)
  (l : list A) (r : A),
  find p l = Some r -> f r = r -> updateFirst p f l = l.
Proof.
  intros A p f l r. induction l as [|x l IH]; simpl; intros H Hf.
  - reflexivity.
  - destruct (p x).
    + injection H as ->. now rewrite Hf.
    + f_equal. now apply IH.
Qed.

Lemma In_updateFirst_image : forall (A : Type) (p : A -> bool) (f : A -> A)
  (l : list A) (r : A),
  In r l -> In r (updateFirst p f l) \/ In (f r) (updateFirst p f l).
Proof.
  intros A p f l r. induction l as [|x l IH]; simpl; intros H.
  - contradiction.
  - destruct H as [->|H].
    + destruct (p r); [right | left]; now left.
    + destruct (p x).
      * left. now right.
      * destruct (IH H); [left | right]; now right.
Qed.

Lemma setSources_same : forall st, setSources (sources st) st = st.
Proof. intros []. reflexivity. Qed.

Lemma default_keys_differ : forall r,
  sourceHasKey (lit "opencode-default") r = true ->
  sourceHasKey (lit "claude-default") r = false.
Proof.
  intros r H. unfold sourceHasKey in *. apply strEqb_eq in H. rewrite H.
  reflexivity.
Qed.

Section Defaults.

Context {E : Environment}.

(** One upsert of a source row whose update is a projection: afterwards
    the key resolves to a row the update leaves as it is. *)
Lemma upsert_source_step : forall (q : SourceRow.t -> bool)
  (f : SourceRow.t -> SourceRow.t) (create : nat -> SourceRow.t) (st : Store),
  (forall x, q (f x) = q x) -> (forall n, q (create n) = true) ->
  (forall x, f (f x) = f x) -> (forall n, f (create n) = create n) ->
  (forall x, sourceSettings (f x) = sourceSettings x) ->
  exists id l n r,
    upsertM sources setSources SourceRow.id q f create st
    = Returned id (setNextId n (setSources l st))
    /\ find q l = Some r /\ f r = r
    /\ (forall q' : SourceRow.t -> bool,
          (forall x, q' (f x) = q' x) ->
          (forall x, q x = true -> q' x = false) ->
          forall r', find q' (sources st) = Some r' -> find q' l = Some r')
    /\ (forall x, In x (sources st) ->
          exists x', In x' l /\ sourceSettings x' = sourceSettings x).
Proof.
  intros q f create st Hq Hc Hff Hfc Hs. unfold upsertM.
  destruct (find q (sources st)) as [row|] eqn:Ef.
  - exists (SourceRow.id row), (updateFirst q f (sources st)), (nextId st),
      (f row).
    split; [now destruct st|]. split; [now apply find_updateFirst|].
    split; [apply Hff|]. split.
    + intros q' Hq' Hdis r' Hr'. now rewrite find_updateFirst_other.
    + intros x Hx.
      destruct (In_updateFirst_image _ q f _ x Hx) as [H|H];
        eexists; (split; [exact H|]); [reflexivity | apply Hs].
  - exists (nextId st), (sources st ++ [create (nextId st)]),
      (S (nextId st)), (create (nextId st)).
    split; [reflexivity|]. split.
    { rewrite find_app_none by exact Ef. now rewrite Hc. }
    split; [apply Hfc|]. split.
    + intros q' _ _ r' Hr'. now apply find_app_some.
    + intros x Hx. exists x. split; [apply in_or_app; now left | reflexivity].
Qed.

(** The sources after [ensureDefaultIngestionSources]: both default keys
    resolve to rows that hold the configured values already. *)
Lemma ensureDefault_sources : forall st,
  exists l2 n2 claude opencode,
    ensureDefaultIngestionSources st
    = Returned tt (setNextId n2 (setSources l2 st))
    /\ find (sourceHasKey (lit "claude-default")) l2 = Some claude
    /\ SourceRow.rootPath claude = Some DEFAULT_CLAUDE_ROOT
    /\ SourceRow.lookbackDays claude = DEFAULT_LOOKBACK_DAYS
    /\ find (sourceHasKey (lit "opencode-default")) l2 = Some opencode
    /\ SourceRow.rootPath opencode = Some DEFAULT_OPENCODE_HOME
    /\ SourceRow.dbPath opencode
       = Some (pathJoin DEFAULT_OPENCODE_HOME (lit "opencode.db"))
    /\ SourceRow.lookbackDays opencode = DEFAULT_LOOKBACK_DAYS
    /\ forall r, In r (sources st) ->
         exists r', In r' l2 /\ sourceSettings r' = sourceSettings r.
Proof.
  intros st. unfold ensureDefaultIngestionSources, bind, ret.
  match goal with
  | |- context [upsertM sources setSources SourceRow.id ?q ?f ?c st] =>
      destruct (upsert_source_step q f c st)
        as (id1 & l1 & n1 & claude & -> & Hfind1 & Hfix1 & Hother1 & Hkeep1);
      try (intros; reflexivity)
  end.
  match goal with
  | |- context [upsertM sources setSources SourceRow.id ?q ?f ?c ?s] =>
      destruct (upsert_source_step q f c s)
        as (id2 & l2 & n2 & opencode & -> & Hfind2 & Hfix2 & Hother2 & Hkeep2);
      try (intros; reflexivity)
  end.
  exists l2, n2, claude, opencode. split; [reflexivity|].
  assert (Hc : SourceRow.rootPath claude = Some DEFAULT_CLAUDE_ROOT
               /\ SourceRow.lookbackDays claude = DEFAULT_LOOKBACK_DAYS)
    by (rewrite <- Hfix1; split; reflexivity).
  assert (Ho : SourceRow.rootPath opencode = Some DEFAULT_OPENCODE_HOME
               /\ SourceRow.dbPath opencode
                  = Some (pathJoin DEFAULT_OPENCODE_HOME (lit "opencode.db"))
               /\ SourceRow.lookbackDays opencode = DEFAULT_LOOKBACK_DAYS)
    by (rewrite <- Hfix2; repeat split; reflexivity).
  split.
  { apply (Hother2 (sourceHasKey (lit "claude-default")));
      [intros x; reflexivity | apply default_keys_differ | exact Hfind1]. }
  split; [apply Hc|]. split; [apply Hc|]. split; [exact Hfind2|].
  split; [apply Ho|]. split; [apply Ho|]. split; [apply Ho|].
  intros r Hr. destruct (Hkeep1 r Hr) as (r1 & Hr1 & Hs1).
  destruct (Hkeep2 r1 Hr1) as (r2 & Hr2 & Hs2).
  exists r2. split; [exact Hr2 | congruence].
Qed.

(** The upsert of a default source on a store where its key resolves to a
    row that holds the configured values changes nothing. *)
Lemma upsert_settled : forall (q : SourceRow.t -> bool)
  (f : SourceRow.t -> SourceRow.t) (create : nat -> SourceRow.t)
  (st : Store) (r : SourceRow.t),
  find q (sources st) = Some r -> f r = r ->
  upsertM sources setSources SourceRow.id q f create st
  = Returned (SourceRow.id r) st.
Proof.
  intros q f create st r Hfind Hfix. unfold upsertM. rewrite Hfind.
  rewrite (updateFirst_fixed _ q f _ r Hfind Hfix).
  now rewrite setSources_same.
Qed.

Lemma settled_claude : forall r,
  SourceRow.rootPath r = Some DEFAULT_CLAUDE_ROOT ->
  SourceRow.lookbackDays r = DEFAULT_LOOKBACK_DAYS ->
  SourceRow.mk (SourceRow.id r) (SourceRow.key r) (SourceRow.type r)
    (SourceRow.name r) (Some DEFAULT_CLAUDE_ROOT) (SourceRow.dbPath r)
    DEFAULT_LOOKBACK_DAYS (SourceRow.pollIntervalSec r)
    (SourceRow.isEnabled r) (SourceRow.lastRunAt r)
    (SourceRow.lastSuccessAt r) (SourceRow.lastErrorAt r)
    (SourceRow.statusMessage r) = r.
Proof. intros [] H1 H2. simpl in *. now rewrite H1, H2. Qed.

Lemma settled_opencode : forall r,
  SourceRow.rootPath r = Some DEFAULT_OPENCODE_HOME ->
  SourceRow.dbPath r
  = Some (pathJoin DEFAULT_OPENCODE_HOME (lit "opencode.db")) ->
  SourceRow.lookbackDays r = DEFAULT_LOOKBACK_DAYS ->
  SourceRow.mk (SourceRow.id r) (SourceRow.key r) (SourceRow.type r)
    (SourceRow.name r) (Some DEFAULT_OPENCODE_HOME)
    (Some (pathJoin DEFAULT_OPENCODE_HOME (lit "opencode.db")))
    DEFAULT_LOOKBACK_DAYS (SourceRow.pollIntervalSec r)
    (SourceRow.isEnabled r) (SourceRow.lastRunAt r)
    (SourceRow.lastSuccessAt r) (SourceRow.lastErrorAt r)
    (SourceRow.statusMessage r) = r.
Proof. intros [] H1 H2 H3. simpl in *. now rewrite H1, H2, H3. Qed.

(** [ensureDefaultIngestionSources] can be repeated: run on the store it
    has left, it changes nothing.  After it both default keys resolve to
    rows with the configured root path and look-back.  It never takes
    anything else from a source row: the identifier, key, type, name, poll
    interval, the enabled flag and the recorded times and status message
    of every row are kept, so a source that was disabled stays
    disabled. *)
Theorem ensureDefault_settles : forall st,
  let st1 := storeOf (ensureDefaultIngestionSources st) in
  ensureDefaultIngestionSources st1 = Returned tt st1
  /\ (exists claude opencode,
        find (sourceHasKey (lit "claude-default")) (sources st1)
        = Some claude
        /\ SourceRow.rootPath claude = Some DEFAULT_CLAUDE_ROOT
        /\ SourceRow.lookbackDays claude = DEFAULT_LOOKBACK_DAYS
        /\ find (sourceHasKey (lit "opencode-default")) (sources st1)
           = Some opencode
        /\ SourceRow.rootPath opencode = Some DEFAULT_OPENCODE_HOME
        /\ SourceRow.lookbackDays opencode = DEFAULT_LOOKBACK_DAYS)
  /\ (forall r, In r (sources st) ->
        exists r', In r' (sources st1)
                   /\ sourceSettings r' = sourceSettings r).
Proof.
  intros st st1.
  destruct (ensureDefault_sources st)
    as (l2 & n2 & claude & opencode & Hrun & Hf1 & Hr1 & Hl1 & Hf2 & Hr2
        & Hd2 & Hl2 & Hkeep).
  assert (Hst1 : st1 = setNextId n2 (setSources l2 st))
    by (unfold st1; now rewrite Hrun).
  assert (Hsrc : sources st1 = l2) by now rewrite Hst1.
  split; [|split].
  - unfold ensureDefaultIngestionSources, bind.
    rewrite (upsert_settled _ _ _ st1 claude);
      [| now rewrite Hsrc | now apply settled_claude].
    rewrite (upsert_settled _ _ _ st1 opencode);
      [| now rewrite Hsrc | now apply settled_opencode].
    reflexivity.
  - exists claude, opencode. rewrite Hsrc. repeat split; assumption.
  - rewrite Hsrc. exact Hkeep.
Qed.

End Defaults.

(** The disabled default source keeps its flag and gets the configured
    root path. *)
Example ensureDefault_keeps_disabled :
  let st1 :=
    storeOf (@ensureDefaultIngestionSources exampleEnvironment
               disabledClaudeStore) in
  map SourceRow.isEnabled (sources st1) = [false; true]
  /\ map SourceRow.rootPath (sources st1)
     = [Some (lit "/null"); Some (lit "/sound")]
  /\ map SourceRow.lookbackDays (sources st1) = [30%Z; 30%Z].
Proof. vm_compute. repeat split. Qed.

(** ** The bundle entry point: what a new bundle creates *)

Ltac open_store st :=
  destruct st;
  unfold setNextId, setSessions, setMessages, setTasks, setTags,
    setSessionTags, setArtifacts, setMetricSnapshots;
  cbn.

Lemma updateFirst_id : forall (A : Type) (p : A -> bool) (l : list A),
  updateFirst p (fun r => r) l = l.
Proof.
  intros A p l. induction l as [|x l IH]; simpl; [reflexivity|].
  destruct (p x); [reflexivity | now rewrite IH].
Qed.

Lemma createSession_new : forall (P : Platform) now input st,
  NewKey input st ->
  createSession now input st
  = Returned (nextId st)
      (setNextId (S (nextId st))
         (setSessions
            (sessions st ++
             [SessionRow.mk (nextId st) (inputWorkspaceId input)
                (inputSourceToolId input)
                (Bundle.externalSessionId (bundle input)) None
                (Bundle.title (bundle input))
                (orElse (Bundle.summary (bundle input))
                   (deriveBundleSummary (Bundle.messages (bundle input))))
                (toDate (Bundle.startedAt (bundle input)))
                (toDate (Bundle.endedAt (bundle input)))
                None (Some (inputImportSource input)) (Some now)])
            st)).
Proof.
  intros P now input st H. unfold createSession, NewKey in *.
  destruct (Bundle.externalSessionId (bundle input)); [rewrite H|];
    reflexivity.
Qed.

Lemma sumZ_cons : forall x l, sumZ (x :: l) = (x + sumZ l)%Z.
Proof. reflexivity. Qed.

Lemma createMessages_spec : forall sessionId items ordinal records p c t st,
  createMessages sessionId ordinal items (records, (p, c, t)) st
  = Returned
      (records
       ++ map (fun r => (MessageRow.id r, MessageRow.ordinal r))
            (bundleMessageRows sessionId (nextId st) ordinal items),
       ((p + sumZ (map (fun m =>
                          zeroIfUndefined (CanonicalMessage.promptTokens m))
                     items))%Z,
        (c + sumZ (map (fun m =>
                          zeroIfUndefined
                            (CanonicalMessage.completionTokens m))
                     items))%Z,
        (t + sumZ (map totalOf items))%Z))
      (setNextId (nextId st + length items)
         (setMessages
            (messages st
             ++ bundleMessageRows sessionId (nextId st) ordinal items)
            st)).
Proof.
  intros sessionId items. induction items as [|m items IH];
    intros ordinal records p c t st.
  - cbn. unfold ret. rewrite app_nil_r, !Z.add_0_r, Nat.add_0_r.
    open_store st. now rewrite app_nil_r.
  - cbn [createMessages]. unfold bind at 1, freshId at 1.
    unfold bind at 1, modify at 1. rewrite IH.
    cbn [bundleMessageRows map length]. rewrite !sumZ_cons.
    f_equal.
    + f_equal; [now rewrite <- app_assoc|].
      unfold totalOf. f_equal; [f_equal|]; lia.
    + open_store st. f_equal; [lia | now rewrite <- app_assoc].
Qed.

Lemma bundleMessageRows_facts : forall sessionId items firstId ordinal,
  map MessageRow.content (bundleMessageRows sessionId firstId ordinal items)
  = map CanonicalMessage.content items
  /\ map MessageRow.role (bundleMessageRows sessionId firstId ordinal items)
     = map (fun m => bundleRole (CanonicalMessage.role m)) items
  /\ map MessageRow.ordinal
       (bundleMessageRows sessionId firstId ordinal items)
     = seq ordinal (length items)
  /\ map MessageRow.id (bundleMessageRows sessionId firstId ordinal items)
     = seq firstId (length items)
  /\ Forall (fun r => MessageRow.sessionId r = sessionId
                      /\ MessageRow.externalMessageId r = None)
       (bundleMessageRows sessionId firstId ordinal items).
Proof.
  intros sessionId items. induction items as [|m items IH];
    intros firstId ordinal; cbn.
  - repeat split. constructor.
  - destruct (IH (S firstId) (S ordinal)) as (H1 & H2 & H3 & H4 & H5).
    rewrite H1, H2, H3, H4. repeat split. constructor; [now split | exact H5].
Qed.

Lemma forEach_createTask : forall sessionId items st,
  exists news,
    forEach (createTask sessionId) items st
    = Returned tt
        (setNextId (nextId st + length items)
           (setTasks (tasks st ++ news) st))
    /\ map taskCore news
       = map (fun task =>
                (sessionId, CanonicalTask.title task,
                 CanonicalTask.description task,
                 match CanonicalTask.status task with
                 | Some s => s
                 | None => OPEN
                 end,
                 match CanonicalTask.priority task with
                 | Some p => p
                 | None => MEDIUM
                 end)) items.
Proof.
  intros sessionId items. induction items as [|task items IH]; intros st.
  - exists []. split; [|reflexivity]. cbn. unfold ret.
    rewrite Nat.add_0_r. open_store st. now rewrite app_nil_r.
  - cbn [forEach]. unfold bind at 1, createTask at 1, bind at 1,
      freshId at 1, modify at 1.
    match goal with
    | |- context [forEach _ items ?s] => destruct (IH s) as (news & -> & Hn)
    end.
    exists (TaskRow.mk (nextId st) sessionId (CanonicalTask.title task)
              (CanonicalTask.description task)
              match CanonicalTask.status task with
              | Some s => s
              | None => OPEN
              end
              match CanonicalTask.priority task with
              | Some p => p
              | None => MEDIUM
              end :: news).
    split.
    + open_store st. f_equal. f_equal; [lia|].
      rewrite <- app_assoc. reflexivity.
    + cbn [map]. now rewrite Hn.
Qed.

Lemma forEach_createArtifact : forall sessionId records items st,
  exists news,
    forEach (createArtifact sessionId records) items st
    = Returned tt
        (setNextId (nextId st + length items)
           (setArtifacts (artifacts st ++ news) st))
    /\ map artifactCore news
       = map (fun a =>
                (sessionId,
                 match CanonicalArtifact.messageIndex a with
                 | Some index =>
                     option_map fst
                       (find (fun record => (Z.of_nat (snd record) =? index)%Z)
                          records)
                 | None => None
                 end,
                 CanonicalArtifact.type a, CanonicalArtifact.name a,
                 CanonicalArtifact.content a)) items.
Proof.
  intros sessionId records items. induction items as [|a items IH]; intros st.
  - exists []. split; [|reflexivity]. cbn. unfold ret.
    rewrite Nat.add_0_r. open_store st. now rewrite app_nil_r.
  - cbn [forEach]. unfold bind at 1, createArtifact at 1, bind at 1,
      freshId at 1, modify at 1.
    match goal with
    | |- context [forEach _ items ?s] => destruct (IH s) as (news & -> & Hn)
    end.
    exists (ArtifactRow.mk (nextId st) sessionId
              match CanonicalArtifact.messageIndex a with
              | Some index =>
                  option_map fst
                    (find (fun record => (Z.of_nat (snd record) =? index)%Z)
                       records)
              | None => None
              end
              (CanonicalArtifact.type a) (CanonicalArtifact.name a)
              (CanonicalArtifact.content a) (CanonicalArtifact.metadata a)
            :: news).
    split.
    + open_store st. f_equal. f_equal; [lia|].
      rewrite <- app_assoc. reflexivity.
    + cbn [map]. now rewrite Hn.
Qed.

(** The record of the message with a given ordinal. *)
Lemma find_record : forall sessionId items firstId ordinal index,
  option_map fst
    (find (fun record => (Z.of_nat (snd record) =? index)%Z)
       (map (fun r => (MessageRow.id r, MessageRow.ordinal r))
          (bundleMessageRows sessionId firstId ordinal items)))
  = if ((Z.of_nat ordinal <=? index)
        && (index <? Z.of_nat (ordinal + length items)))%Z
    then Some (firstId + (Z.to_nat index - ordinal))
    else None.
Proof.
  intros sessionId items. induction items as [|m items IH];
    intros firstId ordinal index.
  - cbn. rewrite Nat.add_0_r.
    destruct (Z.leb_spec (Z.of_nat ordinal) index);
      destruct (Z.ltb_spec index (Z.of_nat ordinal)); try reflexivity; lia.
  - cbn [bundleMessageRows map find snd MessageRow.ordinal MessageRow.id].
    destruct (Z.eqb_spec (Z.of_nat ordinal) index) as [Heq|Hne].
    + cbn. subst index.
      destruct (Z.leb_spec (Z.of_nat ordinal) (Z.of_nat ordinal)); [|lia].
      destruct (Z.ltb_spec (Z.of_nat ordinal)
                  (Z.of_nat (ordinal + S (length items)))); [|lia].
      cbn. f_equal. lia.
    + rewrite IH. cbn [length].
      destruct (Z.leb_spec (Z.of_nat (S ordinal)) index);
        destruct (Z.leb_spec (Z.of_nat ordinal) index);
        destruct (Z.ltb_spec index (Z.of_nat (S ordinal + length items)));
        destruct (Z.ltb_spec index (Z.of_nat (ordinal + S (length items))));
        cbn; try reflexivity; try lia.
      f_equal. lia.
Qed.

(** *** The loop over the tag names *)

Lemma OnlyTagsGrow_refl : forall st, OnlyTagsGrow st st.
Proof.
  intros st. unfold OnlyTagsGrow. repeat split; try reflexivity;
    exists []; now rewrite app_nil_r.
Qed.

Lemma OnlyTagsGrow_trans : forall a b c,
  OnlyTagsGrow a b -> OnlyTagsGrow b c -> OnlyTagsGrow a c.
Proof.
  intros a b c (A1 & A2 & A3 & A4 & A5 & A6 & A7 & (ta & A8) & (la & A9))
    (B1 & B2 & B3 & B4 & B5 & B6 & B7 & (tb & B8) & (lb & B9)).
  unfold OnlyTagsGrow. repeat split; try congruence; try lia.
  - exists (ta ++ tb). now rewrite B8, A8, app_assoc.
  - exists (la ++ lb). now rewrite B9, A9, app_assoc.
Qed.

Lemma setTags_same : forall st, setTags (tags st) st = st.
Proof. intros []. reflexivity. Qed.

Lemma NoDup_map_eq : forall (A B : Type) (f : A -> B) (l : list A) (x y : A),
  NoDup (map f l) -> In x l -> In y l -> f x = f y -> x = y.
Proof.
  intros A B f l x y. induction l as [|z l IH]; simpl; intros Hnd Hx Hy Hf.
  - contradiction.
  - apply NoDup_cons_iff in Hnd as [Hz Hnd].
    destruct Hx as [->|Hx], Hy as [->|Hy].
    + reflexivity.
    + exfalso. apply Hz. rewrite Hf. now apply in_map.
    + exfalso. apply Hz. rewrite <- Hf. now apply in_map.
    + now apply IH.
Qed.

Lemma lookTag_slug : forall st s t,
  lookTag st s = Some t -> In t (tags st) /\ TagRow.slug t = s.
Proof.
  intros st s t H. unfold lookTag in H. apply find_some in H as [Hin Hq].
  split; [exact Hin | now apply strEqb_eq].
Qed.

Lemma sessionTagIs_spec : forall sessionId tagId r,
  sessionTagIs sessionId tagId r = true
  <-> SessionTagRow.sessionId r = sessionId /\ SessionTagRow.tagId r = tagId.
Proof.
  intros. unfold sessionTagIs. now rewrite andb_true_iff, !Nat.eqb_eq.
Qed.

Lemma str_eq_dec : forall a b : str, {a = b} + {a <> b}.
Proof. apply list_eq_dec. apply Ascii.ascii_dec. Qed.

(** A tag name whose slug is attached already: the link is refused. *)
Lemma attachTag_clash : forall sessionId raw done st,
  Linked sessionId done st ->
  nonEmpty (trim raw) = true ->
  In (slugOf raw) done ->
  attachTag sessionId raw st = Threw uniqueViolation st.
Proof.
  intros sessionId raw done st (_ & _ & _ & Hdone) Hraw Hin.
  destruct (Hdone _ Hin) as (t & Hlook & Hlink).
  unfold attachTag. rewrite Hraw. fold (slugOf raw).
  unfold bind, upsertM. unfold lookTag in Hlook. rewrite Hlook.
  rewrite updateFirst_id, setTags_same. unfold createSessionTag.
  replace (existsb _ (sessionTags st)) with true; [reflexivity|].
  symmetry. apply existsb_exists. eexists. split; [exact Hlink|].
  now apply sessionTagIs_spec.
Qed.

(** A tag name with a new slug: the tag is found or created, and linked. *)
Lemma attachTag_step : forall sessionId raw done st,
  Linked sessionId done st ->
  nonEmpty (trim raw) = true ->
  ~ In (slugOf raw) done ->
  exists st',
    attachTag sessionId raw st = Returned tt st'
    /\ Linked sessionId (done ++ [slugOf raw]) st'
    /\ OnlyTagsGrow st st'.
Proof.
  intros sessionId raw done st (Hnd & Hlt & Hlinks & Hdone) Hraw Hnew.
  unfold attachTag. rewrite Hraw. fold (slugOf raw).
  unfold bind, upsertM.
  destruct (find (fun r => strEqb (TagRow.slug r) (slugOf raw)) (tags st))
    as [t|] eqn:Ef.
  - rewrite updateFirst_id, setTags_same. unfold createSessionTag.
    assert (Hfree : existsb (sessionTagIs sessionId (TagRow.id t))
                      (sessionTags st) = false).
    { destruct (existsb _ (sessionTags st)) eqn:Ex; [|reflexivity].
      exfalso. apply existsb_exists in Ex as (r & Hr & Hq).
      apply sessionTagIs_spec in Hq as [Hs Ht].
      destruct (Hlinks r Hr Hs) as (s' & t' & Hs' & Hl' & Hid).
      destruct (lookTag_slug _ _ _ Hl') as [Hin' Hslug'].
      destruct (lookTag_slug st (slugOf raw) t Ef) as [Hin Hslug].
      assert (t = t').
      { apply (NoDup_map_eq _ _ TagRow.id (tags st)); congruence. }
      apply Hnew. congruence. }
    rewrite Hfree. eexists. split; [reflexivity|]. split.
    + split; [exact Hnd|]. split; [exact Hlt|]. split.
      * intros r Hr Hs. cbn in Hr. apply in_app_or in Hr as [Hr|[<-|[]]].
        -- destruct (Hlinks r Hr Hs) as (s' & t' & Hs' & Hl' & Hid).
           exists s', t'. split; [apply in_or_app; now left|]. now split.
        -- exists (slugOf raw), t.
           split; [apply in_or_app; right; now left|]. now split.
      * intros s Hs. apply in_app_or in Hs as [Hs|[<-|[]]].
        -- destruct (Hdone s Hs) as (t' & Hl' & Hin').
           exists t'. split; [exact Hl'|]. cbn. apply in_or_app. now left.
        -- exists t. split; [exact Ef|]. cbn. apply in_or_app. right.
           now left.
    + unfold OnlyTagsGrow. cbn. repeat split; try reflexivity.
      * exists []. now rewrite app_nil_r.
      * eexists. reflexivity.
  - unfold createSessionTag.
    assert (Hfree : existsb (sessionTagIs sessionId (nextId st))
                      (sessionTags st) = false).
    { destruct (existsb _ (sessionTags st)) eqn:Ex; [|reflexivity].
      exfalso. apply existsb_exists in Ex as (r & Hr & Hq).
      apply sessionTagIs_spec in Hq as [Hs Ht].
      destruct (Hlinks r Hr Hs) as (s' & t' & Hs' & Hl' & Hid).
      destruct (lookTag_slug _ _ _ Hl') as [Hin' _].
      rewrite Forall_forall in Hlt. specialize (Hlt t' Hin'). lia. }
    cbn [sessionTags setNextId setTags]. rewrite Hfree.
    set (new := TagRow.mk (nextId st) (trim raw) (slugOf raw)).
    assert (Hold : forall s t, lookTag st s = Some t ->
              find (fun r => strEqb (TagRow.slug r) s) (tags st ++ [new])
              = Some t).
    { intros s t H. now apply find_app_some. }
    eexists. split; [reflexivity|]. split.
    + unfold Linked, lookTag. cbn. split; [|split; [|split]].
      * rewrite map_app. cbn. apply NoDup_app; [exact Hnd | | ].
        -- constructor; [intros [] | constructor].
        -- intros x Hx [<-|[]]. apply in_map_iff in Hx as (t & Ht & Hin).
           rewrite Forall_forall in Hlt. specialize (Hlt t Hin). lia.
      * apply Forall_app. split.
        -- eapply Forall_impl; [|exact Hlt]. cbn. intros a Ha. lia.
        -- constructor; [cbn; lia | constructor].
      * intros r Hr Hs. apply in_app_or in Hr as [Hr|[<-|[]]].
        -- destruct (Hlinks r Hr Hs) as (s' & t' & Hs' & Hl' & Hid).
           exists s', t'. split; [apply in_or_app; now left|].
           split; [now apply Hold | exact Hid].
        -- exists (slugOf raw), new.
           split; [apply in_or_app; right; now left|]. split; [|reflexivity].
           rewrite find_app_none by exact Ef. cbn. now rewrite strEqb_refl.
      * intros s Hs. apply in_app_or in Hs as [Hs|[<-|[]]].
        -- destruct (Hdone s Hs) as (t' & Hl' & Hin').
           exists t'. split; [now apply Hold|]. apply in_or_app. now left.
        -- exists new. split.
           ++ rewrite find_app_none by exact Ef. cbn. now rewrite strEqb_refl.
           ++ apply in_or_app. right. now left.
    + unfold OnlyTagsGrow. cbn. repeat split; try reflexivity; try lia;
        eexists; reflexivity.
Qed.

(** The loop over the tag names returns exactly when the slugs of the
    names that are not blank are distinct and not attached already. *)
Lemma attachTags_outcome : forall sessionId raws done st,
  Linked sessionId done st ->
  (DistinctSlugs done raws
   /\ exists st',
        forEach (attachTag sessionId) raws st = Returned tt st'
        /\ Linked sessionId (done ++ slugsOf raws) st'
        /\ OnlyTagsGrow st st')
  \/ (~ DistinctSlugs done raws
      /\ exists st', forEach (attachTag sessionId) raws st
                     = Threw uniqueViolation st').
Proof.
  intros sessionId raws. induction raws as [|raw raws IH]; intros done st Hl.
  - left. split; [split; [constructor | intros s []]|].
    exists st. cbn. rewrite app_nil_r. split; [reflexivity|].
    split; [exact Hl | apply OnlyTagsGrow_refl].
  - cbn [forEach]. unfold bind at 1 2.
    destruct (nonEmpty (trim raw)) eqn:Hraw.
    + assert (Hslugs : slugsOf (raw :: raws) = slugOf raw :: slugsOf raws).
      { unfold slugsOf. cbn. now rewrite Hraw. }
      destruct (in_dec str_eq_dec (slugOf raw) done) as [Hin|Hnew].
      * right. split.
        -- intros [_ Hd]. apply (Hd (slugOf raw)); [|exact Hin].
           rewrite Hslugs. now left.
        -- rewrite (attachTag_clash sessionId raw done st Hl Hraw Hin).
           now exists st.
      * destruct (attachTag_step sessionId raw done st Hl Hraw Hnew)
          as (st1 & -> & Hl1 & Hg1).
        destruct (IH (done ++ [slugOf raw]) st1 Hl1)
          as [([Hnd Hd] & st' & -> & Hl' & Hg')|(Hno & st' & ->)].
        -- left. split.
           ++ unfold DistinctSlugs. rewrite Hslugs. split.
              ** constructor; [|exact Hnd]. intros Hin. apply (Hd _ Hin).
                 apply in_or_app. right. now left.
              ** intros s [<-|Hs]; [exact Hnew|]. intros Hin.
                 apply (Hd s Hs). apply in_or_app. now left.
           ++ exists st'. split; [reflexivity|]. split.
              ** rewrite Hslugs. now rewrite <- app_assoc in Hl'.
              ** now apply (OnlyTagsGrow_trans st st1 st').
        -- right. split; [|now exists st'].
           intros [Hnd Hd]. apply Hno. unfold DistinctSlugs.
           rewrite Hslugs in Hnd, Hd.
           apply NoDup_cons_iff in Hnd as [Hfirst Hnd]. split; [exact Hnd|].
           intros s Hs Hin. apply in_app_or in Hin as [Hin|[<-|[]]].
           ++ apply (Hd s); [now right | exact Hin].
           ++ now apply Hfirst.
    + assert (Hslugs : slugsOf (raw :: raws) = slugsOf raws).
      { unfold slugsOf. cbn. now rewrite Hraw. }
      assert (Hskip : attachTag sessionId raw st = Returned tt st).
      { unfold attachTag. now rewrite Hraw. }
      rewrite Hskip. unfold DistinctSlugs. rewrite Hslugs.
      apply (IH done st Hl).
Qed.

(** *** The path of a new bundle *)

Lemma Linked_frame : forall sessionId done a b,
  Linked sessionId done a ->
  tags b = tags a -> sessionTags b = sessionTags a ->
  nextId a <= nextId b ->
  Linked sessionId done b.
Proof.
  intros sessionId done a b (H1 & H2 & H3 & H4) Ht Hl Hn.
  unfold Linked, lookTag in *. rewrite Ht, Hl. split; [exact H1|].
  split; [|split; assumption].
  eapply Forall_impl; [|exact H2]. cbn. intros t Hlt. lia.
Qed.

Lemma Linked_start : forall st st1,
  TagsFresh st ->
  tags st1 = tags st -> sessionTags st1 = sessionTags st ->
  nextId st <= nextId st1 ->
  Linked (nextId st) [] st1.
Proof.
  intros st st1 (H1 & H2 & H3) Ht Hl Hn. unfold Linked, lookTag.
  rewrite Ht, Hl. split; [exact H1|]. split; [|split].
  - eapply Forall_impl; [|exact H2]. cbn. intros t Hlt. lia.
  - intros r Hr Hs. rewrite Forall_forall in H3. specialize (H3 r Hr). lia.
  - intros s [].
Qed.

Lemma nth_error_rows : forall sessionId items firstId ordinal k,
  option_map MessageRow.id
    (nth_error (bundleMessageRows sessionId firstId ordinal items) k)
  = if k <? length items then Some (firstId + k) else None.
Proof.
  intros sessionId items. induction items as [|m items IH];
    intros firstId ordinal k.
  - destruct k; reflexivity.
  - destruct k as [|k]; cbn [bundleMessageRows nth_error length].
    + cbn. f_equal. lia.
    + rewrite IH. change (S k <? S (length items)) with (k <? length items).
      destruct (k <? length items); [f_equal; lia | reflexivity].
Qed.

Lemma artifactLink_find : forall sessionId items firstId a,
  match CanonicalArtifact.messageIndex a with
  | Some index =>
      option_map fst
        (find (fun record => (Z.of_nat (snd record) =? index)%Z)
           (map (fun r => (MessageRow.id r, MessageRow.ordinal r))
              (bundleMessageRows sessionId firstId 0 items)))
  | None => None
  end
  = artifactLink (bundleMessageRows sessionId firstId 0 items) a.
Proof.
  intros sessionId items firstId a. unfold artifactLink.
  destruct (CanonicalArtifact.messageIndex a) as [index|]; [|reflexivity].
  rewrite find_record, nth_error_rows. cbn [Z.of_nat Nat.add].
  destruct (Z.leb_spec 0 index) as [Hpos|Hneg]; cbn [andb]; [|reflexivity].
  rewrite Nat.sub_0_r.
  destruct (Z.ltb_spec index (Z.of_nat (length items)));
    destruct (Nat.ltb_spec (Z.to_nat index) (length items));
    try reflexivity; lia.
Qed.

Section NewBundle.

Context {P : Platform}.

(** The path of [ingestCanonicalBundle] taken when no duplicate is found,
    on a store with sound tag tables: it returns when the slugs of the tag
    names are distinct, and otherwise the second link of a tag is
    refused. *)
Lemma createBundle_effect : forall now input st,
  NewKey input st ->
  TagsFresh st ->
  (DistinctSlugs [] (listOrEmpty (Bundle.tags (bundle input)))
   /\ exists st',
        createBundle now input st
        = Returned (mkIngestResult (nextId st) false) st'
        /\ BundleCreated now input st st')
  \/ (~ DistinctSlugs [] (listOrEmpty (Bundle.tags (bundle input)))
      /\ exists st', createBundle now input st = Threw uniqueViolation st').
Proof.
  intros now input st Hnew Hfresh.
  remember (createBundle now input st) as outcome eqn:Hout.
  unfold createBundle in Hout.
  unfold bind at 1 in Hout.
  rewrite (createSession_new P now input st Hnew) in Hout.
  unfold bind at 1 in Hout. rewrite createMessages_spec in Hout.
  cbn [app] in Hout.
  set (st1 := setNextId (S (nextId st)) (setSessions _ st)) in Hout.
  set (rows := bundleMessageRows (nextId st) (nextId st1) 0
                 (Bundle.messages (bundle input))) in Hout.
  set (st2 := setNextId _ (setMessages _ st1)) in Hout.
  unfold bind at 1 in Hout.
  destruct (forEach_createTask (nextId st)
              (listOrEmpty (Bundle.tasks (bundle input))) st2)
    as (newTasks & Htask & Htasks).
  rewrite Htask in Hout. clear Htask.
  set (st3 := setNextId _ (setTasks _ st2)) in Hout.
  assert (Hl3 : Linked (nextId st) [] st3).
  { apply (Linked_start st st3 Hfresh); try reflexivity.
    unfold st3, st2, st1. cbn. lia. }
  unfold bind at 1 in Hout.
  destruct (attachTags_outcome (nextId st)
              (listOrEmpty (Bundle.tags (bundle input))) [] st3 Hl3)
    as [(Hd & st4 & Htag & Hl4 & Hg4)|(Hno & st4 & Htag)];
    rewrite Htag in Hout; clear Htag.
  2: { right. split; [exact Hno | exists st4; exact Hout]. }
  left. split; [exact Hd|].
  unfold bind at 1 in Hout.
  destruct (forEach_createArtifact (nextId st)
              (map (fun r => (MessageRow.id r, MessageRow.ordinal r)) rows)
              (listOrEmpty (Bundle.artifacts (bundle input))) st4)
    as (newArtifacts & Hart & Harts).
  rewrite Hart in Hout. clear Hart.
  set (st5 := setNextId _ (setArtifacts _ st4)) in Hout.
  unfold bind at 1, createMetricSnapshot, bind at 1, freshId, modify, ret
    in Hout.
  eexists. split; [exact Hout|].
  destruct Hg4 as (G1 & G2 & G3 & G4 & G5 & G6 & G7 & G8 & G9).
  unfold BundleCreated. cbn zeta.
  split; [cbn; rewrite G1; reflexivity|].
  split; [cbn; rewrite G2; reflexivity|].
  split; [cbn; rewrite G6; reflexivity|].
  split.
  { exists newTasks. split; [cbn; rewrite G3; reflexivity | exact Htasks]. }
  split.
  { exists newArtifacts. split; [cbn; rewrite G4; reflexivity|].
    rewrite Harts. apply map_ext. intros a. unfold rows.
    now rewrite artifactLink_find. }
  split.
  { eexists. cbn. rewrite G5. cbn. rewrite ?Z.add_0_l. reflexivity. }
  split.
  { eapply Linked_frame; [exact Hl4 | reflexivity | reflexivity|].
    cbn. lia. }
  split; [cbn; exact G8 | cbn; exact G9].
Qed.

End NewBundle.

(** *** Theorems on the bundle entry point *)

Lemma existsb_find_none : forall (A : Type) (p : A -> bool) (l : list A),
  existsb p l = false -> find p l = None.
Proof.
  intros A p l. induction l as [|x l IH]; simpl; intros H; [reflexivity|].
  apply orb_false_iff in H as [Hx Hl]. rewrite Hx. now apply IH.
Qed.

Lemma find_existsb_none : forall (A : Type) (p : A -> bool) (l : list A),
  find p l = None -> existsb p l = false.
Proof.
  intros A p l. induction l as [|x l IH]; simpl; intros H; [reflexivity|].
  destruct (p x); [discriminate | now apply IH].
Qed.

Lemma ThrowsOnly_bind : forall (e : Thrown) (A B : Type) (m : M A)
  (k : A -> M B),
  ThrowsOnly e m -> (forall a, ThrowsOnly e (k a)) -> ThrowsOnly e (bind m k).
Proof.
  intros e A B m k Hm Hk st e' st' H. unfold bind in H.
  destruct (m st) as [a st1|e1 st1] eqn:Em.
  - now apply (Hk a st1 e' st').
  - injection H as <- _. now apply (Hm st e1 st1).
Qed.

Lemma ThrowsOnly_forEach : forall (e : Thrown) (A : Type) (f : A -> M unit)
  (l : list A),
  (forall x, ThrowsOnly e (f x)) -> ThrowsOnly e (forEach f l).
Proof.
  intros e A f l Hf. induction l as [|x l IH]; simpl.
  - intros st e' st' H. discriminate H.
  - apply ThrowsOnly_bind; [apply Hf | intros _; exact IH].
Qed.

Lemma ThrowsOnly_attachTag : forall sessionId raw,
  ThrowsOnly uniqueViolation (attachTag sessionId raw).
Proof.
  intros sessionId raw st e st' H. unfold attachTag in H.
  destruct (nonEmpty (trim raw)); [|discriminate H].
  unfold bind, upsertM, createSessionTag in H.
  destruct (find _ (tags st));
    match type of H with
    | context [existsb ?p ?l] => destruct (existsb p l)
    end; try discriminate H; now injection H as <- _.
Qed.

Lemma SameSessions_attachTags : forall sessionId raws,
  Respects SameSessions (forEach (attachTag sessionId) raws).
Proof.
  intros sessionId raws. apply Respects_forEach.
  - intros st. reflexivity.
  - intros a b c Hab Hbc. unfold SameSessions in *. congruence.
  - intros raw st. unfold SameSessions, attachTag.
    destruct (nonEmpty (trim raw)); [|reflexivity].
    unfold bind, upsertM, createSessionTag.
    destruct (find _ (tags st));
      match goal with
      | |- context [existsb ?p ?l] => destruct (existsb p l)
      end; reflexivity.
Qed.

Section BundleTheorems.

Context {P : Platform}.

Lemma ThrowsOnly_createBundle : forall now input,
  ThrowsOnly uniqueViolation (createBundle now input).
Proof.
  intros now input. unfold createBundle. apply ThrowsOnly_bind.
  { intros st e st' H. unfold createSession in H.
    destruct (match Bundle.externalSessionId (bundle input) with
              | Some ext => _
              | None => false
              end); [now injection H as <- _ | discriminate H]. }
  intros sessionId. apply ThrowsOnly_bind.
  { intros st e st' H.
    rewrite createMessages_spec in H. discriminate H. }
  intros [records [[p c] t]]. apply ThrowsOnly_bind.
  { intros st e st' H.
    destruct (forEach_createTask sessionId
                (listOrEmpty (Bundle.tasks (bundle input))) st)
      as (news & Hn & _). rewrite Hn in H. discriminate H. }
  intros _. apply ThrowsOnly_bind.
  { apply ThrowsOnly_forEach. apply ThrowsOnly_attachTag. }
  intros _. apply ThrowsOnly_bind.
  { intros st e st' H.
    destruct (forEach_createArtifact sessionId records
                (listOrEmpty (Bundle.artifacts (bundle input))) st)
      as (news & Hn & _). rewrite Hn in H. discriminate H. }
  intros _. apply ThrowsOnly_bind.
  { intros st e st' H. discriminate H. }
  intros _ st e st' H. discriminate H.
Qed.

(** With no duplicate to find, the entry point runs the creation inside
    the transaction. *)
Lemma ingest_new : forall now input st,
  validBundle (bundle input) = true ->
  NewKey input st ->
  ingestCanonicalBundle now input st
  = transaction (createBundle now input) st.
Proof.
  intros now input st Hvalid Hnew. unfold ingestCanonicalBundle.
  rewrite Hvalid. unfold transaction, bind, NewKey in *.
  destruct (Bundle.externalSessionId (bundle input)) as [ext|];
    [|reflexivity].
  unfold truthy. destruct (nonEmpty ext); [|reflexivity].
  unfold findDuplicate, gets.
  now rewrite (existsb_find_none _ _ _ Hnew).
Qed.

(** A bundle that passes the schema, names a workspace and a source tool
    that exist, has token counts and totals that fit an INTEGER column, a
    new external id or none, and tag names of distinct slugs creates one
    session under a fresh identifier, which it returns with
    [deduplicated = false].  The session row carries the title, the given
    or derived summary, the import source and the time of the import.  The
    messages are created in the order of the bundle with the ordinals
    0, 1, 2, ... and belong to the new session; no part is created. *)
Theorem ingest_creates_session :
  forall now input st,
  validBundle (bundle input) = true ->
  Referenced (inputWorkspaceId input) (inputSourceToolId input) st ->
  TokensFit (bundle input) ->
  NewKey input st ->
  TagsFresh st ->
  DistinctSlugs [] (listOrEmpty (Bundle.tags (bundle input))) ->
  exists st' news,
    ingestCanonicalBundle now input st
    = Returned (mkIngestResult (nextId st) false) st'
    /\ sessions st' = sessions st ++ [bundleSessionRow now input (nextId st)]
    /\ messages st' = messages st ++ news
    /\ map MessageRow.content news
       = map CanonicalMessage.content (Bundle.messages (bundle input))
    /\ map MessageRow.role news
       = map (fun m => bundleRole (CanonicalMessage.role m))
           (Bundle.messages (bundle input))
    /\ map MessageRow.ordinal news
       = seq 0 (length (Bundle.messages (bundle input)))
    /\ Forall (fun r => MessageRow.sessionId r = nextId st
                        /\ MessageRow.externalMessageId r = None) news
    /\ parts st' = parts st.
Proof.
  intros now input st Hvalid _ _ Hnew Hfresh Hd.
  rewrite (ingest_new now input st Hvalid Hnew). unfold transaction.
  destruct (createBundle_effect now input st Hnew Hfresh)
    as [(_ & st' & -> & Hc)|(Hno & _)]; [|contradiction].
  destruct Hc as (Hs & Hm & Hp & _).
  exists st', (bundleMessageRows (nextId st) (S (nextId st)) 0
                 (Bundle.messages (bundle input))).
  destruct (bundleMessageRows_facts (nextId st)
              (Bundle.messages (bundle input)) (S (nextId st)) 0)
    as (F1 & F2 & F3 & _ & F5).
  repeat split; assumption.
Qed.

(** The same bundle leaves one metric snapshot for the new session: the
    prompt and completion totals are the sums of the counts the messages
    carry, a missing count being 0; the total adds, for each message, its
    total count or else the sum of its two other counts; the estimated
    cost is the total in millionths.  Every task of the bundle is created
    for the new session, an omitted status being OPEN and an omitted
    priority MEDIUM. *)
Theorem ingest_records_totals :
  forall now input st,
  validBundle (bundle input) = true ->
  Referenced (inputWorkspaceId input) (inputSourceToolId input) st ->
  TokensFit (bundle input) ->
  NewKey input st ->
  TagsFresh st ->
  DistinctSlugs [] (listOrEmpty (Bundle.tags (bundle input))) ->
  exists st' metric newTasks,
    ingestCanonicalBundle now input st
    = Returned (mkIngestResult (nextId st) false) st'
    /\ metricSnapshots st' = metricSnapshots st ++ [metric]
    /\ MetricRow.sessionId metric = nextId st
    /\ MetricRow.sourceToolId metric = inputSourceToolId input
    /\ MetricRow.promptTokens metric
       = sumZ (map (fun m =>
                      zeroIfUndefined (CanonicalMessage.promptTokens m))
                 (Bundle.messages (bundle input)))
    /\ MetricRow.completionTokens metric
       = sumZ (map (fun m =>
                      zeroIfUndefined (CanonicalMessage.completionTokens m))
                 (Bundle.messages (bundle input)))
    /\ MetricRow.totalTokens metric
       = sumZ (map totalOf (Bundle.messages (bundle input)))
    /\ MetricRow.estimatedCostMillionths metric
       = MetricRow.totalTokens metric
    /\ tasks st' = tasks st ++ newTasks
    /\ map taskCore newTasks
       = map (fun task =>
                (nextId st, CanonicalTask.title task,
                 CanonicalTask.description task,
                 match CanonicalTask.status task with
                 | Some s => s
                 | None => OPEN
                 end,
                 match CanonicalTask.priority task with
                 | Some p => p
                 | None => MEDIUM
                 end))
           (listOrEmpty (Bundle.tasks (bundle input))).
Proof.
  intros now input st Hvalid _ _ Hnew Hfresh Hd.
  rewrite (ingest_new now input st Hvalid Hnew). unfold transaction.
  destruct (createBundle_effect now input st Hnew Hfresh)
    as [(_ & st' & -> & Hc)|(Hno & _)]; [|contradiction].
  destruct Hc as (_ & _ & _ & (newTasks & Ht & Htc) & _ & (mid & Hm) & _).
  exists st'. eexists. exists newTasks.
  split; [reflexivity|]. split; [exact Hm|].
  do 6 (split; [reflexivity|]). split; assumption.
Qed.

(** The same bundle creates its artifacts for the new session.  An
    artifact with a message index is linked to the message created at
    that position; when the index points behind the last message the
    artifact is created without a link, and the bundle is not refused. *)
Theorem ingest_links_artifacts :
  forall now input st,
  validBundle (bundle input) = true ->
  Referenced (inputWorkspaceId input) (inputSourceToolId input) st ->
  TokensFit (bundle input) ->
  NewKey input st ->
  TagsFresh st ->
  DistinctSlugs [] (listOrEmpty (Bundle.tags (bundle input))) ->
  exists st' news newArtifacts,
    ingestCanonicalBundle now input st
    = Returned (mkIngestResult (nextId st) false) st'
    /\ messages st' = messages st ++ news
    /\ length news = length (Bundle.messages (bundle input))
    /\ artifacts st' = artifacts st ++ newArtifacts
    /\ map artifactCore newArtifacts
       = map (fun a =>
                (nextId st, artifactLink news a, CanonicalArtifact.type a,
                 CanonicalArtifact.name a, CanonicalArtifact.content a))
           (listOrEmpty (Bundle.artifacts (bundle input)))
    /\ forall a index,
         CanonicalArtifact.messageIndex a = Some index ->
         (Z.of_nat (length news) <= index)%Z ->
         artifactLink news a = None.
Proof.
  intros now input st Hvalid _ _ Hnew Hfresh Hd.
  rewrite (ingest_new now input st Hvalid Hnew). unfold transaction.
  destruct (createBundle_effect now input st Hnew Hfresh)
    as [(_ & st' & -> & Hc)|(Hno & _)]; [|contradiction].
  destruct Hc as (_ & Hm & _ & _ & (newArtifacts & Ha & Hac) & _).
  exists st', (bundleMessageRows (nextId st) (S (nextId st)) 0
                 (Bundle.messages (bundle input))), newArtifacts.
  split; [reflexivity|]. split; [exact Hm|].
  destruct (bundleMessageRows_facts (nextId st)
              (Bundle.messages (bundle input)) (S (nextId st)) 0)
    as (F1 & _).
  assert (Hlen : length (bundleMessageRows (nextId st) (S (nextId st)) 0
                           (Bundle.messages (bundle input)))
                 = length (Bundle.messages (bundle input))).
  { rewrite <- (length_map MessageRow.content), F1. apply length_map. }
  split; [exact Hlen|]. split; [exact Ha|]. split; [exact Hac|].
  intros a index Hi Hbeyond. unfold artifactLink. rewrite Hi.
  destruct (0 <=? index)%Z; [|reflexivity].
  replace (nth_error _ (Z.to_nat index)) with (@None MessageRow.t);
    [reflexivity|].
  symmetry. apply nth_error_None. lia.
Qed.

End BundleTheorems.

Lemma toLower_fixed : forall c, toLower (toLower c) = toLower c.
Proof.
  intros c.
  destruct c as [[] [] [] [] [] [] [] []]; reflexivity.
Qed.

Lemma slug_chars : forall s inRun c,
  In c (replaceRunsFrom "-"%char inRun (toLowerCase s)) ->
  isSpace c = false /\ toLower c = c.
Proof.
  induction s as [|x s IH]; intros inRun c Hin; cbn in Hin.
  - contradiction.
  - destruct (isSpace (toLower x)) eqn:Ex.
    + destruct inRun.
      * now apply (IH true).
      * destruct Hin as [<-|Hin]; [split; reflexivity | now apply (IH true)].
    + destruct Hin as [<-|Hin]; [|now apply (IH false)].
      split; [exact Ex | apply toLower_fixed].
Qed.

Section BundleMore.

Context {P : Platform}.

(** The same bundle attaches every tag name that is not blank to the new
    session, under its slug: the trimmed name in lower case with every run
    of white space replaced by a hyphen, so a slug holds no white space
    and no capital letter.  A tag that exists under the slug is used as it
    is; the rows of the tag table that were there stay as they were. *)
Theorem ingest_attaches_tags :
  forall now input st,
  validBundle (bundle input) = true ->
  Referenced (inputWorkspaceId input) (inputSourceToolId input) st ->
  TokensFit (bundle input) ->
  NewKey input st ->
  TagsFresh st ->
  DistinctSlugs [] (listOrEmpty (Bundle.tags (bundle input))) ->
  exists st',
    ingestCanonicalBundle now input st
    = Returned (mkIngestResult (nextId st) false) st'
    /\ (forall raw,
          In raw (listOrEmpty (Bundle.tags (bundle input))) ->
          trim raw <> [] ->
          exists tag,
            lookTag st' (slugOf raw) = Some tag
            /\ In (SessionTagRow.mk (nextId st) (TagRow.id tag))
                 (sessionTags st')
            /\ forall existing,
                 lookTag st (slugOf raw) = Some existing -> tag = existing)
    /\ (exists more, tags st' = tags st ++ more)
    /\ forall raw c, In c (slugOf raw) -> isSpace c = false /\ toLower c = c.
Proof.
  intros now input st Hvalid _ _ Hnew Hfresh Hd.
  rewrite (ingest_new now input st Hvalid Hnew). unfold transaction.
  destruct (createBundle_effect now input st Hnew Hfresh)
    as [(_ & st' & -> & Hc)|(Hno & _)]; [|contradiction].
  destruct Hc as (_ & _ & _ & _ & _ & _ & Hl & (more & Hmore) & _).
  exists st'. split; [reflexivity|]. split; [|split].
  - intros raw Hin Hne. destruct Hl as (_ & _ & _ & Hdone).
    destruct (Hdone (slugOf raw)) as (tag & Hlook & Hlink).
    { unfold slugsOf. apply in_map. apply filter_In.
      split; [exact Hin | now apply nonEmpty_true]. }
    exists tag. split; [exact Hlook|]. split; [exact Hlink|].
    intros existing Hex. unfold lookTag in *. rewrite Hmore in Hlook.
    rewrite (find_app_some _ _ _ more _ Hex) in Hlook. congruence.
  - now exists more.
  - intros raw c Hin. unfold slugOf in Hin.
    exact (slug_chars _ false c Hin).
Qed.


(** For a bundle that names a workspace and a source tool that exist and
    whose token counts fit their columns: when the entry point throws, on
    the schema or on a unique key, the store is exactly as it was before
    the call, whatever had been written before the failure.  The error is
    the schema error exactly when the bundle does not pass the schema. *)
Theorem ingest_failure_leaves_store :
  forall now input st e st',
  Referenced (inputWorkspaceId input) (inputSourceToolId input) st ->
  TokensFit (bundle input) ->
  ingestCanonicalBundle now input st = Threw e st' ->
  st' = st
  /\ (e = schemaError <-> validBundle (bundle input) = false).
Proof.
  intros now input st e st' _ _ H. unfold ingestCanonicalBundle in H.
  destruct (validBundle (bundle input)).
  - unfold transaction in H.
    match type of H with
    | match ?body st with _ => _ end = _ =>
        assert (Hbody : ThrowsOnly uniqueViolation body);
        [| destruct (body st) as [r st1|e1 st1] eqn:Eb; [discriminate H|] ]
    end.
    + apply ThrowsOnly_bind.
      * intros s0 e0 s1 H0. destruct (truthy _); discriminate H0.
      * intros [id|]; [intros s0 e0 s1 H0; discriminate H0|].
        apply ThrowsOnly_createBundle.
    + injection H as <- <-. split; [reflexivity|].
      rewrite (Hbody st e1 st1 Eb). split; intro H; discriminate H.
  - injection H as <- <-. split; [reflexivity|]. now split.
Qed.

Lemma createBundle_sessions : forall now input st result st',
  NewKey input st ->
  createBundle now input st = Returned result st' ->
  result = mkIngestResult (nextId st) false
  /\ sessions st' = sessions st ++ [bundleSessionRow now input (nextId st)].
Proof.
  intros now input st result st' Hnew H. unfold createBundle in H.
  unfold bind at 1 in H. rewrite (createSession_new P now input st Hnew) in H.
  unfold bind at 1 in H. rewrite createMessages_spec in H.
  unfold bind at 1 in H.
  match type of H with
  | context [forEach (createTask ?sid) ?l ?s] =>
      destruct (forEach_createTask sid l s) as (newTasks & Ht & _);
      rewrite Ht in H; clear Ht
  end.
  unfold bind at 1 in H.
  match type of H with
  | context [forEach (attachTag ?sid) ?l ?s] =>
      pose proof (SameSessions_attachTags sid l s) as Hsame;
      destruct (forEach (attachTag sid) l s) as [u st4|e st4];
      [|discriminate H]
  end.
  unfold bind at 1 in H.
  match type of H with
  | context [forEach (createArtifact ?sid ?rec) ?l ?s] =>
      destruct (forEach_createArtifact sid rec l s) as (newArts & Ha & _);
      rewrite Ha in H; clear Ha
  end.
  unfold bind, createMetricSnapshot, freshId, modify, ret in H.
  injection H as <- <-. split; [reflexivity|].
  unfold SameSessions in Hsame. cbn in Hsame. cbn. rewrite Hsame.
  reflexivity.
Qed.

(** Entering a bundle that carries an external session id a second time
    creates nothing: whatever the first call did, the second returns the
    same session with [deduplicated = true] and leaves the store as the
    first call left it. *)
Theorem ingest_twice_deduplicates :
  forall now now' input st ext result st',
  Bundle.externalSessionId (bundle input) = Some ext ->
  ext <> [] ->
  ingestCanonicalBundle now input st = Returned result st' ->
  ingestCanonicalBundle now' input st'
  = Returned (mkIngestResult (resultSessionId result) true) st'.
Proof.
  intros now now' input st ext result st' Hext Hne H.
  unfold ingestCanonicalBundle in *.
  destruct (validBundle (bundle input)); [|discriminate H].
  rewrite Hext in *. unfold truthy in *.
  apply nonEmpty_true in Hne. rewrite Hne in *.
  unfold transaction, bind, findDuplicate, gets in *.
  destruct (find (sessionHasKey (inputSourceToolId input) ext) (sessions st))
    as [row|] eqn:Ef; cbn [option_map] in H.
  - unfold ret in H. injection H as <- <-. rewrite Ef. reflexivity.
  - destruct (createBundle now input st) as [r st1|e st1] eqn:Ec;
      [|discriminate H].
    injection H as <- <-.
    destruct (createBundle_sessions now input st r st1) as [-> Hs];
      [|exact Ec|].
    { unfold NewKey. rewrite Hext. now apply find_existsb_none. }
    rewrite Hs. rewrite find_app_none by exact Ef.
    unfold bundleSessionRow, sessionHasKey. cbn. rewrite Hext. cbn.
    now rewrite Nat.eqb_refl, strEqb_refl.
Qed.

End BundleMore.

(** *** The bundle entry point on the example bundles *)

Lemma seededStore_TagsFresh : TagsFresh seededStore.
Proof. repeat split; constructor. Qed.

Lemma seededStore_Referenced : Referenced 0 1 seededStore.
Proof. split; simpl; auto. Qed.

Lemma fullInput_TokensFit : TokensFit (bundle fullInput).
Proof.
  split; [|vm_compute; repeat split; discriminate].
  repeat constructor.
Qed.

Lemma clashInput_TokensFit : TokensFit (bundle clashInput).
Proof.
  split; [|vm_compute; repeat split; discriminate].
  repeat constructor.
Qed.

Lemma fullInput_ready :
  @validBundle examplePlatform (bundle fullInput) = true
  /\ NewKey fullInput seededStore
  /\ DistinctSlugs [] (listOrEmpty (Bundle.tags (bundle fullInput))).
Proof.
  split; [reflexivity|]. split; [reflexivity|]. split.
  - vm_compute. constructor; [intros [H|[]]; discriminate H|].
    constructor; [intros [] | constructor].
  - intros s _ [].
Qed.

Example fullInput_slugs :
  slugsOf (listOrEmpty (Bundle.tags (bundle fullInput)))
  = [lit "bug-fix"; lit "ui"].
Proof. reflexivity. Qed.

Lemma ingest_creates_session_witness :
  exists st' news,
    @ingestCanonicalBundle examplePlatform exampleNow fullInput seededStore
    = Returned (mkIngestResult 2 false) st'
    /\ messages st' = news
    /\ map MessageRow.content news = [lit "Hello"; lit "Hi there"]
    /\ map MessageRow.ordinal news = [0; 1].
Proof.
  destruct fullInput_ready as (Hv & Hn & Hd).
  destruct (@ingest_creates_session examplePlatform exampleNow fullInput
              seededStore Hv seededStore_Referenced fullInput_TokensFit Hn
              seededStore_TagsFresh Hd)
    as (st' & news & Hrun & _ & Hm & Hc & _ & Ho & _).
  exists st', news. repeat split; assumption.
Defined.

Lemma ingest_records_totals_witness :
  exists st' metric,
    @ingestCanonicalBundle examplePlatform exampleNow fullInput seededStore
    = Returned (mkIngestResult 2 false) st'
    /\ metricSnapshots st' = [metric]
    /\ MetricRow.promptTokens metric = 7%Z
    /\ MetricRow.completionTokens metric = 5%Z
    /\ MetricRow.totalTokens metric = 13%Z.
Proof.
  destruct fullInput_ready as (Hv & Hn & Hd).
  destruct (@ingest_records_totals examplePlatform exampleNow fullInput
              seededStore Hv seededStore_Referenced fullInput_TokensFit Hn
              seededStore_TagsFresh Hd)
    as (st' & metric & newTasks & Hrun & Hm & _ & _ & Hp & Hc & Ht & _).
  exists st', metric. repeat split; assumption.
Defined.

Lemma ingest_links_artifacts_witness :
  exists st' news newArtifacts,
    @ingestCanonicalBundle examplePlatform exampleNow fullInput seededStore
    = Returned (mkIngestResult 2 false) st'
    /\ messages st' = news
    /\ length news = 2
    /\ artifacts st' = newArtifacts
    /\ map artifactCore newArtifacts
       = [(2, option_map MessageRow.id (nth_error news 1), lit "file",
           lit "a.txt", lit "x");
          (2, None, lit "file", lit "b.txt", lit "y")].
Proof.
  destruct fullInput_ready as (Hv & Hn & Hd).
  destruct (@ingest_links_artifacts examplePlatform exampleNow fullInput
              seededStore Hv seededStore_Referenced fullInput_TokensFit Hn
              seededStore_TagsFresh Hd)
    as (st' & news & newArtifacts & Hrun & Hm & Hlen & Ha & Hcore & Hbeyond).
  exists st', news, newArtifacts.
  split; [exact Hrun|]. split; [exact Hm|]. split; [exact Hlen|].
  split; [exact Ha|]. rewrite Hcore.
  assert (H7 : nth_error news 7 = None)
    by (apply nth_error_None; rewrite Hlen; cbn; lia).
  cbn. change (Pos.to_nat 7) with 7. rewrite H7. reflexivity.
Defined.

Example fullInput_artifacts :
  map ArtifactRow.messageId
    (artifacts
       (storeOf (@ingestCanonicalBundle examplePlatform exampleNow fullInput
                   seededStore)))
  = [Some 4; None].
Proof. vm_compute. reflexivity. Qed.

Lemma ingest_attaches_tags_witness :
  exists st',
    @ingestCanonicalBundle examplePlatform exampleNow fullInput seededStore
    = Returned (mkIngestResult 2 false) st'
    /\ (exists tag,
          lookTag st' (lit "bug-fix") = Some tag
          /\ In (SessionTagRow.mk 2 (TagRow.id tag)) (sessionTags st'))
    /\ (exists tag,
          lookTag st' (lit "ui") = Some tag
          /\ In (SessionTagRow.mk 2 (TagRow.id tag)) (sessionTags st')).
Proof.
  destruct fullInput_ready as (Hv & Hn & Hd).
  destruct (@ingest_attaches_tags examplePlatform exampleNow fullInput
              seededStore Hv seededStore_Referenced fullInput_TokensFit Hn
              seededStore_TagsFresh Hd)
    as (st' & Hrun & Htags & _).
  exists st'. split; [exact Hrun|]. split.
  - destruct (Htags (lit " Bug Fix ")) as (tag & Hl & Hi & _);
      [now left | discriminate |].
    exists tag. split; [exact Hl | exact Hi].
  - destruct (Htags (lit "ui")) as (tag & Hl & Hi & _);
      [right; now left | discriminate |].
    exists tag. split; [exact Hl | exact Hi].
Defined.



Lemma ingest_failure_leaves_store_witness :
  @ingestCanonicalBundle examplePlatform exampleNow clashInput seededStore
  = Threw uniqueViolation seededStore
  /\ (uniqueViolation = schemaError
      <-> @validBundle examplePlatform (bundle clashInput) = false).
Proof.
  assert (H : @ingestCanonicalBundle examplePlatform exampleNow clashInput
                seededStore
              = Threw uniqueViolation seededStore)
    by (vm_compute; reflexivity).
  split; [exact H|].
  exact (proj2 (@ingest_failure_leaves_store examplePlatform exampleNow
                  clashInput seededStore uniqueViolation seededStore
                  seededStore_Referenced clashInput_TokensFit H)).
Defined.

Lemma ingest_twice_deduplicates_witness :
  exists result st',
    @ingestCanonicalBundle examplePlatform exampleNow fullInput seededStore
    = Returned result st'
    /\ @ingestCanonicalBundle examplePlatform (exampleNow + 1)%Z fullInput st'
       = Returned (mkIngestResult (resultSessionId result) true) st'.
Proof.
  eassert (H : @ingestCanonicalBundle examplePlatform exampleNow fullInput
                 seededStore
               = Returned _ _)
    by (vm_compute; reflexivity).
  eexists _, _. split; [exact H|].
  apply (@ingest_twice_deduplicates examplePlatform exampleNow
           (exampleNow + 1)%Z fullInput seededStore (lit "ext-9") _ _
           eq_refl);
    [discriminate | exact H].
Defined.

(** The schema refuses metadata that are not an object. *)
Example ingest_refuses_metadata :
  @ingestCanonicalBundle examplePlatform exampleNow numberedInput seededStore
  = Threw schemaError seededStore.
Proof. reflexivity. Qed.

(** ** The manual entry route *)

Lemma notBlank_nonEmpty : forall m,
  notBlank m = true -> nonEmpty (parsedContent m) = true.
Proof.
  intros [role content] H. cbn in *. destruct content; [|reflexivity].
  discriminate H.
Qed.

Lemma manualMessages_valid : forall parsed,
  forallb validMessage (map manualMessage (manualMessages parsed)) = true.
Proof.
  intros parsed. apply forallb_forall. intros c Hc.
  apply in_map_iff in Hc as (m & <- & Hm).
  unfold manualMessages in Hm. apply filter_In in Hm as [_ Hm].
  unfold validMessage, manualMessage. cbn.
  now rewrite (notBlank_nonEmpty m Hm).
Qed.

Lemma requiredString_nonEmpty : forall v s,
  requiredString v = Some s -> nonEmpty s = true.
Proof.
  intros [[| | |s'| |]|] s H; try discriminate H. cbn in H.
  destruct (nonEmpty s') eqn:E; [|discriminate H]. now injection H as <-.
Qed.

Lemma schema_title : forall body parsed,
  manualSessionSchema body = Some parsed ->
  nonEmpty (ManualSession.title parsed) = true.
Proof.
  intros body parsed H. unfold manualSessionSchema in H.
  destruct body; try discriminate H.
  destruct (requiredString (prop "workspaceId" _)); [|discriminate H].
  destruct (requiredString (prop "sourceToolId" _)); [|discriminate H].
  destruct (requiredString (prop "title" _)) as [title|] eqn:Et;
    [|discriminate H].
  destruct (optionalString (prop "summary" _)); [|discriminate H].
  destruct (optionalString (prop "transcript" _)); [|discriminate H].
  destruct (optionalMessages _); [|discriminate H].
  injection H as <-. cbn. exact (requiredString_nonEmpty _ _ Et).
Qed.

Section Manual.

Context {P : Platform}.
Variable rowId : str -> nat.

Lemma manualBundle_valid : forall body parsed,
  manualSessionSchema body = Some parsed ->
  manualMessages parsed <> [] ->
  validBundle (manualBundle parsed (manualMessages parsed)) = true.
Proof.
  intros body parsed Hs Hne. unfold validBundle, manualBundle. cbn.
  rewrite (schema_title body parsed Hs), manualMessages_valid.
  rewrite length_map. destruct (manualMessages parsed); [contradiction|].
  reflexivity.
Qed.

(** A bundle without tasks, tags and artifacts. *)
Lemma createBundle_plain : forall now input st,
  NewKey input st ->
  Bundle.tasks (bundle input) = None ->
  Bundle.tags (bundle input) = None ->
  Bundle.artifacts (bundle input) = None ->
  exists st',
    createBundle now input st = Returned (mkIngestResult (nextId st) false) st'
    /\ sessions st' = sessions st ++ [bundleSessionRow now input (nextId st)]
    /\ messages st'
       = messages st
         ++ bundleMessageRows (nextId st) (S (nextId st)) 0
              (Bundle.messages (bundle input))
    /\ tasks st' = tasks st /\ tags st' = tags st
    /\ sessionTags st' = sessionTags st /\ artifacts st' = artifacts st
    /\ parts st' = parts st
    /\ workspaces st' = workspaces st /\ sourceTools st' = sourceTools st
    /\ nextId st < nextId st'.
Proof.
  intros now input st Hnew Ht Hg Ha.
  remember (createBundle now input st) as outcome eqn:Hout.
  unfold createBundle in Hout.
  unfold bind at 1 in Hout.
  rewrite (createSession_new P now input st Hnew) in Hout.
  unfold bind at 1 in Hout. rewrite createMessages_spec in Hout.
  cbn [app] in Hout.
  set (st1 := setNextId (S (nextId st)) (setSessions _ st)) in Hout.
  set (st2 := setNextId _ (setMessages _ st1)) in Hout.
  rewrite Ht, Hg, Ha in Hout. cbn [listOrEmpty forEach] in Hout.
  unfold bind, createMetricSnapshot, freshId, modify, ret in Hout.
  eexists. split; [exact Hout|].
  split; [reflexivity|]. split; [reflexivity|].
  do 7 (split; [reflexivity|]).
  unfold st2, st1. cbn. lia.
Qed.

Lemma manual_new : forall now parsed st,
  validBundle (manualBundle parsed (manualMessages parsed)) = true ->
  exists st',
    ingestCanonicalBundle now
      (mkInput (manualBundle parsed (manualMessages parsed))
         (rowId (ManualSession.workspaceId parsed))
         (rowId (ManualSession.sourceToolId parsed)) manualEntry) st
    = Returned (mkIngestResult (nextId st) false) st'
    /\ ManualCreated rowId now parsed st st'.
Proof.
  intros now parsed st Hvalid. unfold ingestCanonicalBundle.
  cbn [bundle]. rewrite Hvalid. cbn [manualBundle Bundle.externalSessionId
    truthy]. unfold transaction, bind at 1, ret at 1.
  destruct (createBundle_plain now
              (mkInput (manualBundle parsed (manualMessages parsed))
                 (rowId (ManualSession.workspaceId parsed))
                 (rowId (ManualSession.sourceToolId parsed)) manualEntry) st)
    as (st' & Hrun & Hs & Hm & Hrest); try reflexivity.
  fold (manualBundle parsed (manualMessages parsed)).
  rewrite Hrun. exists st'. split; [reflexivity|].
  unfold ManualCreated.
  exists (bundleMessageRows (nextId st) (S (nextId st)) 0
            (map manualMessage (manualMessages parsed))).
  destruct (bundleMessageRows_facts (nextId st)
              (map manualMessage (manualMessages parsed)) (S (nextId st)) 0)
    as (F1 & F2 & F3 & _ & F5).
  rewrite map_map in F1, F2. rewrite length_map in F3.
  split; [exact Hs|]. split; [exact Hm|]. split; [exact F1|].
  split; [exact F2|]. split; [exact F3|]. split; [|exact Hrest].
  eapply Forall_impl; [|exact F5]. now intros r [H _].
Qed.

(** The three ways the route ends. *)
Lemma POST_run : forall now body st,
  match manualSessionSchema body with
  | None => POST rowId now body st = Returned Validation422 st
  | Some parsed =>
      match manualMessages parsed with
      | [] => POST rowId now body st = Returned NoMessage400 st
      | _ :: _ =>
          exists st',
            POST rowId now body st
            = Returned (Ok200 (mkIngestResult (nextId st) false)) st'
            /\ ManualCreated rowId now parsed st st'
      end
  end.
Proof.
  intros now body st. unfold POST, tryCatch.
  destruct (manualSessionSchema body) as [parsed|] eqn:Hs; [|reflexivity].
  destruct (manualMessages parsed) as [|m kept] eqn:Hk; [reflexivity|].
  cbn [length Nat.eqb]. rewrite <- Hk.
  assert (Hvalid := manualBundle_valid body parsed Hs).
  rewrite Hk in Hvalid at 1. specialize (Hvalid ltac:(discriminate)).
  destruct (manual_new now parsed st Hvalid) as (st' & Hrun & Hc).
  unfold bind. rewrite Hrun. exists st'. split; [reflexivity | exact Hc].
Qed.

End Manual.

Lemma filter_none : forall (A : Type) (p : A -> bool) (l : list A),
  (forall x, In x l -> p x = false) -> filter p l = [].
Proof.
  intros A p l. induction l as [|x l IH]; intros H; cbn; [reflexivity|].
  rewrite (H x (or_introl eq_refl)). apply IH. intros y Hy.
  apply H. now right.
Qed.

Section ManualTheorems.

Context {P : Platform}.

(** The manual entry route answers 422 exactly when the body of the
    request does not pass the schema of the route, and then it leaves the
    store as it is.  A body that passes is never refused by the schema of
    the bundle entry point: the messages the route hands over all have a
    content, and the title is not empty. *)
Theorem post_invalid_only_by_request :
  forall rowId now body st,
  (manualSessionSchema body = None ->
   POST rowId now body st = Returned Validation422 st)
  /\ (forall st',
        POST rowId now body st = Returned Validation422 st' ->
        manualSessionSchema body = None)
  /\ forall parsed,
       manualSessionSchema body = Some parsed ->
       manualMessages parsed <> [] ->
       validBundle (manualBundle parsed (manualMessages parsed)) = true.
Proof.
  intros rowId now body st. assert (H := POST_run rowId now body st).
  destruct (manualSessionSchema body) as [parsed|] eqn:Hs.
  - split; [discriminate|]. split.
    + intros st' H422. destruct (manualMessages parsed).
      * rewrite H in H422. discriminate H422.
      * destruct H as (st1 & H & _). rewrite H in H422. discriminate H422.
    + intros parsed' Hp Hne. injection Hp as <-.
      exact (manualBundle_valid body parsed Hs Hne).
  - split; [intros _; exact H|]. split; [reflexivity|]. discriminate.
Qed.

(** When no message of the body and no message of the transcript has a
    content besides white space, the route answers 400 and writes
    nothing.  This covers the body without messages and transcript, the
    empty transcript, and the messages that pass the schema with a blank
    content. *)
Theorem post_without_messages :
  forall rowId now body parsed st,
  manualSessionSchema body = Some parsed ->
  (forall m, In m (listOrEmpty (ManualSession.messages parsed)) ->
             trim (parsedContent m) = []) ->
  (forall transcript m,
     truthy (ManualSession.transcript parsed) = Some transcript ->
     In m (parseTranscript transcript) -> trim (parsedContent m) = []) ->
  POST rowId now body st = Returned NoMessage400 st.
Proof.
  intros rowId now body parsed st Hs Hprovided Htranscript.
  assert (H := POST_run rowId now body st). rewrite Hs in H.
  assert (Hnone : manualMessages parsed = []).
  { unfold manualMessages.
    apply filter_none. intros m Hm. unfold notBlank.
    apply in_app_or in Hm as [Hm|Hm].
    - now rewrite (Hprovided m Hm).
    - destruct (truthy (ManualSession.transcript parsed)) as [t|] eqn:Et;
        [|destruct Hm].
      now rewrite (Htranscript t m eq_refl Hm). }
  now rewrite Hnone in H.
Qed.

(** A body that passes the schema of the route, names a workspace and a
    source tool that exist and has a message with a content is stored as a
    new session, and the route answers 200 with the fresh identifier and
    [deduplicated = false].  The session carries the title, the given or
    derived summary, the import source ["manual-entry"] and no external
    id.  Its messages are those of the body followed by those of the
    transcript, without the blank ones, in this order and with the
    ordinals 0, 1, 2, ...; no other table but the metric snapshots
    changes. *)
Theorem post_creates_session :
  forall rowId now body parsed st,
  manualSessionSchema body = Some parsed ->
  manualMessages parsed <> [] ->
  Referenced (rowId (ManualSession.workspaceId parsed))
    (rowId (ManualSession.sourceToolId parsed)) st ->
  exists st',
    POST rowId now body st
    = Returned (Ok200 (mkIngestResult (nextId st) false)) st'
    /\ ManualCreated rowId now parsed st st'.
Proof.
  intros rowId now body parsed st Hs Hne _.
  assert (H := POST_run rowId now body st). rewrite Hs in H.
  destruct (manualMessages parsed); [contradiction | exact H].
Qed.

(** The route never deduplicates: when it has answered 200, the same body
    sent again is stored as one more session under another identifier. *)
Theorem post_never_deduplicates :
  forall rowId now now' body st result st',
  POST rowId now body st = Returned (Ok200 result) st' ->
  deduplicated result = false
  /\ exists result' st'',
       POST rowId now' body st' = Returned (Ok200 result') st''
       /\ deduplicated result' = false
       /\ resultSessionId result' <> resultSessionId result
       /\ length (sessions st'') = 2 + length (sessions st).
Proof.
  intros rowId now now' body st result st' H.
  assert (H1 := POST_run rowId now body st).
  assert (H2 := POST_run rowId now' body st').
  destruct (manualSessionSchema body) as [parsed|];
    [|rewrite H1 in H; discriminate H].
  destruct (manualMessages parsed) as [|m kept];
    [rewrite H1 in H; discriminate H|].
  destruct H1 as (st1 & H1 & C1). destruct H2 as (st2 & H2 & C2).
  rewrite H1 in H.
  assert (Hr : result = mkIngestResult (nextId st) false) by congruence.
  assert (Hst : st1 = st') by congruence.
  subst result st1. split; [reflexivity|].
  exists (mkIngestResult (nextId st') false), st2.
  split; [exact H2|]. split; [reflexivity|].
  destruct C1 as (news1 & S1 & R1). destruct C2 as (news2 & S2 & _).
  split.
  - cbn. decompose [and] R1. lia.
  - rewrite S2, S1, !length_app. cbn. lia.
Qed.

End ManualTheorems.

Lemma exampleBody_parsed :
  manualSessionSchema exampleBody
  = Some (ManualSession.mk (lit "w0") (lit "t1") (lit "Pairing notes") None
            (Some (js "How do I start?\n\nassistant:"))
            (Some [mkParsed RoleTool (lit "ran ls");
                   mkParsed RoleUser (lit "   ")])).
Proof. reflexivity. Qed.

(** The blank message of the body and the empty message of the transcript
    are left out; the message of the body comes first. *)
Example exampleBody_messages :
  forall parsed, manualSessionSchema exampleBody = Some parsed ->
  manualMessages parsed
  = [mkParsed RoleTool (lit "ran ls");
     mkParsed RoleUser (lit "How do I start?")].
Proof.
  intros parsed H. rewrite exampleBody_parsed in H. injection H as <-.
  reflexivity.
Qed.

Lemma post_without_messages_witness :
  @POST examplePlatform exampleRowId exampleNow blankBody seededStore
  = Returned NoMessage400 seededStore.
Proof.
  eapply (@post_without_messages examplePlatform exampleRowId exampleNow
            blankBody _ seededStore).
  - reflexivity.
  - intros m [<-|[]]. reflexivity.
  - intros transcript m H. vm_compute in H. injection H as <-.
    intros [].
Defined.

Lemma post_creates_session_witness :
  exists st',
    @POST examplePlatform exampleRowId exampleNow exampleBody seededStore
    = Returned (Ok200 (mkIngestResult 2 false)) st'
    /\ exists news,
         messages st' = news
         /\ map MessageRow.content news
            = [lit "ran ls"; lit "How do I start?"]
         /\ map MessageRow.role news = [TOOL; USER]
         /\ map MessageRow.ordinal news = [0; 1].
Proof.
  destruct (@post_creates_session examplePlatform exampleRowId exampleNow
              exampleBody _ seededStore exampleBody_parsed)
    as (st' & Hrun & news & _ & Hm & Hc & Hr & Ho & _).
  - discriminate.
  - split; simpl; auto.
  - exists st'. split; [exact Hrun|]. exists news.
    split; [exact Hm|]. split; [exact Hc|]. split; [exact Hr | exact Ho].
Defined.

Lemma post_never_deduplicates_witness :
  exists result st',
    @POST examplePlatform exampleRowId exampleNow exampleBody seededStore
    = Returned (Ok200 result) st'
    /\ exists result' st'',
         @POST examplePlatform exampleRowId (exampleNow + 1)%Z exampleBody
           st'
         = Returned (Ok200 result') st''
         /\ resultSessionId result' <> resultSessionId result.
Proof.
  eassert (H : @POST examplePlatform exampleRowId exampleNow exampleBody
                 seededStore
               = Returned (Ok200 _) _)
    by (vm_compute; reflexivity).
  eexists _, _. split; [exact H|].
  destruct (@post_never_deduplicates examplePlatform exampleRowId exampleNow
              (exampleNow + 1)%Z exampleBody seededStore _ _ H)
    as (_ & result' & st'' & H2 & _ & Hne & _).
  exists result', st''. split; [exact H2 | exact Hne].
Defined.

(** ** Model filter of the session list *)

Lemma splitOnFrom_cons : forall sep s acc,
  exists first rest, splitOnFrom sep acc s = first :: rest.
Proof.
  intros sep s. induction s as [|c s IH]; intros acc; cbn.
  - now exists (rev acc), [].
  - destruct (Ascii.eqb c sep); [now eexists _, _ | apply IH].
Qed.

(** Joining the pieces of a split gives the string back. *)
Lemma joinWith_splitOnFrom : forall sep s acc,
  joinWith [sep] (splitOnFrom sep acc s) = rev acc ++ s.
Proof.
  intros sep s. induction s as [|c s IH]; intros acc; cbn.
  - now rewrite app_nil_r.
  - destruct (Ascii.eqb_spec c sep) as [->|Hne].
    + destruct (splitOnFrom_cons sep s []) as (first & rest & E).
      assert (Hj := IH []). rewrite E in *.
      change (joinWith [sep] (rev acc :: first :: rest))
        with (rev acc ++ [sep] ++ joinWith [sep] (first :: rest)).
      now rewrite Hj.
    + rewrite IH. cbn. now rewrite <- app_assoc.
Qed.

(** A split at the first separator. *)
Lemma splitOnFrom_first : forall sep a b acc,
  ~ In sep a ->
  splitOnFrom sep acc (a ++ sep :: b) = (rev acc ++ a) :: splitOnFrom sep [] b.
Proof.
  intros sep a. induction a as [|c a IH]; intros b acc Hno; cbn.
  - now rewrite Ascii.eqb_refl, app_nil_r.
  - destruct (Ascii.eqb_spec c sep) as [->|Hne].
    + exfalso. apply Hno. now left.
    + rewrite IH by (intros Hin; apply Hno; now right).
      cbn. now rewrite <- app_assoc.
Qed.

(** The key of a model of the filter is read back as the provider and the
    model id it was made of, with white space trimmed and an empty one
    absent, when the provider holds no slash.  The model id may hold
    slashes. *)
Theorem splitModelKey_inverts_key :
  forall modelProvider modelId key label,
  modelOption modelProvider modelId = Some (key, label) ->
  ~ In "/"%char (trimOrEmpty modelProvider) ->
  splitModelKey key
  = (truthy (Some (trimOrEmpty modelProvider)),
     truthy (Some (trimOrEmpty modelId))).
Proof.
  intros modelProvider modelId key label H Hno. unfold modelOption in H.
  destruct (negb _ && negb _); [discriminate H|].
  injection H as <- _. unfold splitModelKey, splitOn.
  change (lit "/") with ["/"%char]. cbn [app].
  rewrite splitOnFrom_first by exact Hno. cbn [hd tl rev app].
  now rewrite joinWith_splitOnFrom.
Qed.

Lemma splitModelKey_inverts_key_witness :
  splitModelKey (lit "openrouter/meta/llama-3")
  = (Some (lit "openrouter"), Some (lit "meta/llama-3")).
Proof.
  apply (splitModelKey_inverts_key (Some (lit " openrouter "))
           (Some (lit "meta/llama-3")) (lit "openrouter/meta/llama-3")
           (lit "openrouter / meta/llama-3")).
  - reflexivity.
  - vm_compute. intros H.
    repeat (destruct H as [H|H]; [discriminate H|]). exact H.
Defined.

(** A provider with a slash is not read back: the key of provider
    ["a/b"] and model ["c"] gives provider ["a"] and model ["b/c"].  A
    model without provider is read back, and so is a provider without
    model. *)
Example splitModelKey_examples :
  (forall key label,
     modelOption (Some (lit "a/b")) (Some (lit "c")) = Some (key, label) ->
     splitModelKey key = (Some (lit "a"), Some (lit "b/c")))
  /\ (forall key label,
        modelOption None (Some (lit "gpt-5")) = Some (key, label) ->
        splitModelKey key = (None, Some (lit "gpt-5")))
  /\ (forall key label,
        modelOption (Some (lit "anthropic")) None = Some (key, label) ->
        splitModelKey key = (Some (lit "anthropic"), None))
  /\ modelOption (Some (lit "  ")) None = None.
Proof.
  repeat split; intros key label H; injection H as <- _; reflexivity.
Qed.

(** ** Ordering the messages of a session *)

Lemma insertBy_Permutation : forall (A : Type) (key : A -> Z) x l,
  Permutation (insertBy key x l) (x :: l).
Proof.
  intros A key x l. induction l as [|y l IH]; cbn; [reflexivity|].
  destruct (key x <=? key y)%Z; [reflexivity|].
  rewrite IH. apply perm_swap.
Qed.

Lemma sortBy_Permutation : forall (A : Type) (key : A -> Z) l,
  Permutation (sortBy key l) l.
Proof.
  intros A key l. unfold sortBy. induction l as [|x l IH]; cbn;
    [reflexivity|].
  rewrite insertBy_Permutation. now apply perm_skip.
Qed.

(** An insertion goes in front of every element of the same key. *)
Lemma insertBy_same_key : forall (A : Type) (key : A -> Z) t x l,
  filter (fun m => (key m =? t)%Z) (insertBy key x l)
  = filter (fun m => (key m =? t)%Z) (x :: l).
Proof.
  intros A key t x l. induction l as [|y l IH]; [reflexivity|].
  cbn [insertBy]. destruct (Z.leb_spec (key x) (key y)) as [Hle|Hlt];
    [reflexivity|].
  cbn [filter] in *. rewrite IH.
  destruct (Z.eqb_spec (key x) t) as [Hx|Hx];
    destruct (Z.eqb_spec (key y) t) as [Hy|Hy]; try reflexivity.
  lia.
Qed.

Lemma sortBy_same_key : forall (A : Type) (key : A -> Z) t l,
  filter (fun m => (key m =? t)%Z) (sortBy key l)
  = filter (fun m => (key m =? t)%Z) l.
Proof.
  intros A key t l. unfold sortBy. induction l as [|x l IH];
    [reflexivity|].
  cbn [fold_right]. rewrite insertBy_same_key. cbn [filter].
  now rewrite IH.
Qed.

Lemma unnumbered_mapIndexed : forall l index,
  map unnumbered (mapIndexed MessageInput.setOrdinal index l)
  = map unnumbered l.
Proof.
  intros l. induction l as [|m l IH]; intros index; [reflexivity|].
  cbn [mapIndexed map]. now rewrite IH.
Qed.

Lemma filter_map_key : forall t l,
  filter (fun m => (timeKey m =? t)%Z) (map unnumbered l)
  = map unnumbered (filter (fun m => (timeKey m =? t)%Z) l).
Proof.
  intros t l. induction l as [|m l IH]; [reflexivity|].
  cbn [map filter]. change (timeKey (unnumbered m)) with (timeKey m).
  destruct (timeKey m =? t)%Z; cbn [map]; now rewrite IH.
Qed.

(** Ordering the messages of a session loses and invents nothing: up to
    the ordinals it assigns, the result holds the same messages as often
    as the input.  It is stable: the messages of one time stamp, and the
    messages without one, keep the order they were read in. *)
Theorem orderMessages_keeps_messages :
  forall messages,
  Permutation (map unnumbered (orderMessages messages))
    (map unnumbered messages)
  /\ length (orderMessages messages) = length messages
  /\ forall t, atTime t (orderMessages messages) = atTime t messages.
Proof.
  intros messages. unfold orderMessages. split; [|split].
  - rewrite unnumbered_mapIndexed. apply Permutation_map.
    apply sortBy_Permutation.
  - rewrite <- (length_map unnumbered), unnumbered_mapIndexed, length_map.
    apply Permutation_length, sortBy_Permutation.
  - intros t. unfold atTime. rewrite unnumbered_mapIndexed.
    now rewrite !filter_map_key, sortBy_same_key.
Qed.

(** Three messages read at times 5, none and 5: the undated one comes
    first, the other two keep their order. *)
Example orderMessages_example :
  let at_ (id : str) (time : option Z) :=
    MessageInput.mk id USER None None (lit "x") None time 0 [] in
  map MessageInput.externalMessageId
    (orderMessages
       [at_ (lit "a") (Some 5%Z); at_ (lit "b") None;
        at_ (lit "c") (Some 5%Z)])
  = [lit "b"; lit "a"; lit "c"].
Proof. reflexivity. Qed.

(** ** The source tool and the workspace of a run *)

Lemma setSourceTools_same : forall st,
  setSourceTools (sourceTools st) st = st.
Proof. intros []. reflexivity. Qed.

Lemma ensureSourceTool_step : forall slug name st,
  exists tool st1,
    ensureSourceTool slug name st = Returned tool st1
    /\ (exists row,
          find (fun r => strEqb (SourceToolRow.slug r) slug) (sourceTools st1)
          = Some row
          /\ SourceToolRow.id row = tool /\ SourceToolRow.name row = name)
    /\ workspaces st1 = workspaces st
    /\ sessions st1 = sessions st
    /\ forall s, sourceTools s = sourceTools st1 ->
         ensureSourceTool slug name s = Returned tool s.
Proof.
  intros slug name st.
  set (q := fun r => strEqb (SourceToolRow.slug r) slug).
  set (f := fun r =>
              SourceToolRow.mk (SourceToolRow.id r) (SourceToolRow.slug r)
                name).
  assert (Hq : forall x, q (f x) = q x) by reflexivity.
  assert (Hagain : forall l r s,
            find q l = Some r -> f r = r -> sourceTools s = l ->
            ensureSourceTool slug name s = Returned (SourceToolRow.id r) s).
  { intros l r s Hfind Hfix Hs. unfold ensureSourceTool, upsertM.
    fold q. fold f. rewrite Hs, Hfind.
    rewrite (updateFirst_fixed _ q f l r Hfind Hfix), <- Hs.
    now rewrite setSourceTools_same. }
  unfold ensureSourceTool at 1, upsertM. fold q. fold f.
  destruct (find q (sourceTools st)) as [row|] eqn:Ef.
  - eexists _, _. split; [reflexivity|].
    assert (Hfind := find_updateFirst _ q f _ row Hq Ef).
    split; [|split; [|split]].
    + exists (f row). split; [now destruct st|]. now split.
    + now destruct st.
    + now destruct st.
    + intros s Hs.
      apply (Hagain (updateFirst q f (sourceTools st)) (f row) s);
        [exact Hfind | reflexivity|].
      rewrite Hs. now destruct st.
  - eexists _, _. split; [reflexivity|].
    assert (Hfind : find q (sourceTools st
                            ++ [SourceToolRow.mk (nextId st) slug name])
                    = Some (SourceToolRow.mk (nextId st) slug name)).
    { rewrite find_app_none by exact Ef. unfold q. cbn.
      now rewrite strEqb_refl. }
    split; [|split; [|split]].
    + eexists. split; [destruct st; exact Hfind|]. now split.
    + now destruct st.
    + now destruct st.
    + intros s Hs.
      apply (Hagain
               (sourceTools st ++ [SourceToolRow.mk (nextId st) slug name])
               (SourceToolRow.mk (nextId st) slug name) s);
        [exact Hfind | reflexivity|].
      rewrite Hs. now destruct st.
Qed.

Lemma ensureWorkspace_step : forall st,
  exists ws st1,
    ensureWorkspace st = Returned ws st1
    /\ In ws (map WorkspaceRow.id (workspaces st1))
    /\ sourceTools st1 = sourceTools st
    /\ sessions st1 = sessions st
    /\ (workspaces st <> [] -> st1 = st)
    /\ ensureWorkspace st1 = Returned ws st1.
Proof.
  intros st. unfold ensureWorkspace at 1.
  destruct (workspaces st) as [|existing others] eqn:Ew.
  - eexists _, _. split; [reflexivity|].
    split; [destruct st; now left|].
    split; [now destruct st|]. split; [now destruct st|].
    split; [intros H; now contradiction H|]. now destruct st.
  - exists (WorkspaceRow.id existing), st. split; [reflexivity|].
    rewrite Ew. split; [now left|]. do 3 (split; [reflexivity|]).
    unfold ensureWorkspace. now rewrite Ew.
Qed.

(** The two steps a source run takes before it writes: afterwards the
    source tool of the slug and a workspace exist, the tool carries the
    given name, and the two identifiers returned are theirs.  An existing
    workspace is used as it is, the oldest one; no session is touched.
    Taking the two steps again returns the same identifiers and changes
    nothing. *)
Theorem ensure_establishes_references :
  forall slug name st,
  exists tool ws st',
    (tool <- ensureSourceTool slug name ;;
     ws <- ensureWorkspace ;;
     ret (tool, ws)) st
    = Returned (tool, ws) st'
    /\ Referenced ws tool st'
    /\ (exists row,
          find (fun r => strEqb (SourceToolRow.slug r) slug) (sourceTools st')
          = Some row
          /\ SourceToolRow.id row = tool /\ SourceToolRow.name row = name)
    /\ (forall first others,
          workspaces st = first :: others ->
          ws = WorkspaceRow.id first /\ workspaces st' = workspaces st)
    /\ sessions st' = sessions st
    /\ (tool <- ensureSourceTool slug name ;;
        ws <- ensureWorkspace ;;
        ret (tool, ws)) st'
       = Returned (tool, ws) st'.
Proof.
  intros slug name st.
  destruct (ensureSourceTool_step slug name st)
    as (tool & st1 & Htool & (row & Hfind & Hid & Hname) & Hw1 & Hs1 & Hagain).
  destruct (ensureWorkspace_step st1)
    as (ws & st2 & Hws & Hin & Ht2 & Hs2 & Hkeep & Hws2).
  exists tool, ws, st2. unfold bind, ret. rewrite Htool, Hws.
  split; [reflexivity|]. split; [|split; [|split; [|split]]].
  - split; [exact Hin|]. rewrite Ht2.
    apply find_some in Hfind as [Hrow _]. rewrite <- Hid.
    now apply in_map.
  - exists row. rewrite Ht2. now repeat split.
  - intros first others Hw. rewrite <- Hw1 in Hw.
    assert (Heq : st2 = st1) by (apply Hkeep; rewrite Hw; discriminate).
    subst st2. split; [|now rewrite Hw1].
    unfold ensureWorkspace in Hws. rewrite Hw in Hws. congruence.
  - now rewrite Hs2.
  - rewrite (Hagain st2 Ht2), Hws2. reflexivity.
Qed.

(** On the empty store the run of adapter A creates tool 0 and
    workspace 1. *)
Example ensure_on_empty_store :
  (tool <- ensureSourceTool (lit "claude-code") (lit "Claude Code") ;;
   ws <- ensureWorkspace ;;
   ret (tool, ws)) emptyStore
  = Returned (0, 1)
      (setNextId 2
         (setWorkspaces [WorkspaceRow.mk 1 (lit "Default") (lit "default")]
            (setSourceTools
               [SourceToolRow.mk 0 (lit "claude-code") (lit "Claude Code")]
               emptyStore))).
Proof. reflexivity. Qed.

(** ** The summary derived for a bundle *)

Lemma oneLine_SpacesOnly : forall content, SpacesOnly (oneLine content).
Proof.
  intros content c Hin Hc. unfold oneLine, collapseSpaces in Hin.
  apply (Subseq_In _ _ _ _ (trim_Subseq _)) in Hin.
  exact (replaceRuns_spaces _ false c Hin Hc).
Qed.

Lemma deriveBundleSummary_eq : forall messages,
  deriveBundleSummary messages
  = match bundleBest messages with
    | None => None
    | Some best =>
        let clean := oneLine (CanonicalMessage.content best) in
        if nonEmpty clean then
          Some (if 180 <? length clean
                then firstn 177 clean ++ ellipsis
                else clean)
        else None
    end.
Proof.
  intros messages. unfold deriveBundleSummary. fold (bundleBest messages).
  destruct (bundleBest messages) as [best|]; [|reflexivity].
  destruct (CanonicalMessage.content best); reflexivity.
Qed.

(** The summary derived for a bundle without one is taken from the first
    assistant message, else from the first user message, else from the
    first message.  It is that content on one line, cut to 177 characters
    and three dots when it is longer than 180: never empty, never longer
    than 180 characters, starting with a visible character and with single
    plain spaces as its only white space.  There is none when the content
    is white space only. *)
Theorem deriveBundleSummary_shape :
  forall messages,
  (forall r,
     deriveBundleSummary messages = Some r ->
     0 < length r <= 180
     /\ SpacesOnly r
     /\ (exists c rest, r = c :: rest /\ isSpace c = false)
     /\ exists best,
          bundleBest messages = Some best
          /\ (length (oneLine (CanonicalMessage.content best)) <= 180 ->
              r = oneLine (CanonicalMessage.content best))
          /\ (180 < length (oneLine (CanonicalMessage.content best)) ->
              r = firstn 177 (oneLine (CanonicalMessage.content best))
                  ++ lit "..."))
  /\ (deriveBundleSummary messages = None ->
      forall best, bundleBest messages = Some best ->
                   oneLine (CanonicalMessage.content best) = [])
  /\ (forall best,
        bundleBest messages = Some best ->
        CanonicalMessage.role best <> RoleAssistant ->
        forall m, In m messages -> CanonicalMessage.role m <> RoleAssistant).
Proof.
  intros messages. rewrite deriveBundleSummary_eq. split; [|split].
  - intros r H. destruct (bundleBest messages) as [best|]; [|discriminate H].
    cbn zeta in H.
    pose proof (oneLine_SpacesOnly (CanonicalMessage.content best)) as Hsp.
    pose proof (proj1 (trim_Trimmed
                         (collapseSpaces (CanonicalMessage.content best))))
      as Hhead.
    fold (oneLine (CanonicalMessage.content best)) in Hhead.
    remember (oneLine (CanonicalMessage.content best)) as clean eqn:E.
    destruct (nonEmpty clean) eqn:En; [|discriminate H].
    apply (f_equal (fun o => match o with Some x => x | None => r end))
      in H.
    cbn beta iota in H. symmetry in H. rename H into Hr.
    destruct clean as [|c rest]; [discriminate En|].
    specialize (Hhead c rest eq_refl).
    destruct (180 <? length (c :: rest)) eqn:El; try rewrite El in Hr;
      subst r.
    + apply Nat.ltb_lt in El. split; [|split; [|split]].
      * rewrite length_app, firstn_length_le by lia.
        change (length ellipsis) with 3. lia.
      * intros x Hin Hx. apply in_app_or in Hin as [Hin|Hin].
        -- apply (Subseq_In _ _ _ _ (Subseq_firstn _ 177 _)) in Hin.
           now apply Hsp.
        -- cbn in Hin.
           repeat (destruct Hin as [<-|Hin]; [discriminate Hx|]).
           destruct Hin.
      * exists c, (firstn 176 rest ++ ellipsis). now split.
      * exists best. rewrite <- E. split; [reflexivity|].
        split; [lia | reflexivity].
    + apply Nat.ltb_ge in El. split; [|split; [|split]].
      * cbn [length] in *. lia.
      * exact Hsp.
      * now exists c, rest.
      * exists best. rewrite <- E. split; [reflexivity|].
        split; [reflexivity | lia].
  - intros H best Hb. rewrite Hb in H. cbn zeta in H.
    destruct (oneLine (CanonicalMessage.content best)); [reflexivity|].
    discriminate H.
  - intros best Hb Hrole m Hm. unfold bundleBest in Hb.
    destruct (find _ messages) as [x|] eqn:Ef.
    + cbn in Hb. injection Hb as ->. apply find_some in Ef as [_ Ef].
      destruct (CanonicalMessage.role best); try discriminate Ef.
      now contradiction Hrole.
    + pose proof (find_none _ _ Ef m Hm) as Hn. cbn in Hn.
      intros Hr. rewrite Hr in Hn. discriminate Hn.
Qed.

(** The answer is preferred to the question, and its line breaks and
    runs of spaces become single spaces. *)
Example deriveBundleSummary_examples :
  deriveBundleSummary
    [CanonicalMessage.mk RoleUser (lit "question") None None None None;
     CanonicalMessage.mk RoleAssistant (js " first\n\n second  line ") None
       None None None]
  = Some (lit "first second line")
  /\ deriveBundleSummary
       [CanonicalMessage.mk RoleTool (js " \n ") None None None None]
     = None.
Proof. split; reflexivity. Qed.
